(** * Loan, SIP and EMI calculators: a shallow embedding

    The JavaScript engines of the calculator suite
    (js/core/DataModels.js, LoanCalculator.js, GoalSeeker.js,
    SIPCalculator.js and the v2 EMICalculator.js / LoanCalculator.js) are
    transcribed function by function.

    Numbers.  A JavaScript number is modelled as an exact rational ([Q]),
    kept in lowest terms so that long simulations can be evaluated.  IEEE-754
    rounding, overflow and the special values NaN and Infinity are not
    part of [Q]: wherever the source can leave the finite numbers (a
    logarithm of a negative number) the model says so explicitly with an
    [option].  Month and year counters are integers ([Z]).  [Math.log] has no
    rational value; it is an uninterpreted function handed to the definitions
    that call it.  Where a property is about the digits of a result, the
    computation is transcribed a second time over binary64 floats (module
    [Doubles]). *)

From Stdlib Require Import QArith Qround Qabs Qreduction Qpower.
From Stdlib Require Import ZArith List String Bool Lia Lqa Sorted.
From Stdlib Require Import Floats.
Import ListNotations.

Local Open Scope Q_scope.

(** ** JavaScript numbers and the [Math] functions used by the engines *)
Module JS.

Definition num := Q.

Definition add (a b : num) : num := Qred (a + b).
Definition sub (a b : num) : num := Qred (a - b).
Definition mul (a b : num) : num := Qred (a * b).
Definition div (a b : num) : num := Qred (a / b).

(** [a < b], [a <= b], [a > b], [a >= b] and [a === b] on numbers. *)
Definition lt (a b : num) : bool := negb (Qle_bool b a).
Definition le (a b : num) : bool := Qle_bool a b.
Definition gt (a b : num) : bool := lt b a.
Definition ge (a b : num) : bool := le b a.
Definition eqb (a b : num) : bool := Qeq_bool a b.

Definition Math_min (a b : num) : num := if le a b then a else b.
Definition Math_max (a b : num) : num := if le a b then b else a.
Definition Math_abs (a : num) : num := Qabs a.
(** [Math.ceil] and [Math.round] (ties go up) give integers. *)
Definition Math_ceil (a : num) : Z := Qceiling a.
Definition Math_round (a : num) : Z := Qfloor (a + (1 # 2)).
(** [Math.pow] at an integer exponent. *)
Definition Math_pow (b : num) (n : Z) : num := Qred (Qpower b n).

Definition ofZ (z : Z) : num := inject_Z z.

(** [x || 0] for a number [x]: zero is falsy. *)
Definition or_zero (x : num) : num := if eqb x 0 then 0 else x.

End JS.

Arguments JS.add : simpl never.
Arguments JS.sub : simpl never.
Arguments JS.mul : simpl never.
Arguments JS.div : simpl never.
Arguments JS.lt : simpl never.
Arguments JS.le : simpl never.
Arguments JS.gt : simpl never.
Arguments JS.ge : simpl never.
Arguments JS.eqb : simpl never.
Arguments JS.Math_min : simpl never.
Arguments JS.Math_max : simpl never.
Arguments JS.Math_abs : simpl never.
Arguments JS.Math_ceil : simpl never.
Arguments JS.Math_round : simpl never.
Arguments JS.Math_pow : simpl never.
Arguments JS.ofZ : simpl never.
Arguments JS.or_zero : simpl never.

Declare Scope js_scope.
Delimit Scope js_scope with js.
Infix "+" := JS.add : js_scope.
Infix "-" := JS.sub : js_scope.
Infix "*" := JS.mul : js_scope.
Infix "/" := JS.div : js_scope.
Infix "<?" := JS.lt : js_scope.
Infix "<=?" := JS.le : js_scope.
Infix ">?" := JS.gt : js_scope.
Infix ">=?" := JS.ge : js_scope.
Infix "=?" := JS.eqb : js_scope.

(** ** js/core/DataModels.js *)
Module DataModels.
Import JS.

(** 'REDUCE_TENURE' | 'REDUCE_EMI'; [None] is the source's [null]. *)
Inductive Strategy := REDUCE_TENURE | REDUCE_EMI.

Definition Strategy_eqb (a b : Strategy) : bool :=
  match a, b with
  | REDUCE_TENURE, REDUCE_TENURE | REDUCE_EMI, REDUCE_EMI => true
  | _, _ => false
  end.

(** [month >= start && (end === null || month <= end)] *)
Definition in_range (startM : Z) (endM : option Z) (month : Z) : bool :=
  (startM <=? month)%Z &&
  match endM with None => true | Some e => (month <=? e)%Z end.

Record InterestRatePeriod := {
  rp_startMonth : Z;
  rp_rate : num;
  rp_endMonth : option Z
}.

Definition rp_isActiveForMonth (p : InterestRatePeriod) (month : Z) : bool :=
  in_range (rp_startMonth p) (rp_endMonth p) month.

Record MonthlyPrepayment := {
  mp_amount : num;
  mp_startMonth : Z;
  mp_endMonth : option Z;
  mp_strategy : option Strategy
}.

Definition mp_isActiveForMonth (p : MonthlyPrepayment) (month : Z) : bool :=
  in_range (mp_startMonth p) (mp_endMonth p) month.

Record YearlyPrepayment := {
  yp_amount : num;
  yp_targetMonth : Z;
  yp_startYear : Z;
  yp_endYear : option Z;
  yp_strategy : option Strategy
}.

(** [Math.ceil(month / 12)] *)
Definition yearOf (month : Z) : Z := Math_ceil (ofZ month / 12)%js.

(** [%] is JavaScript's remainder: the sign follows the dividend. *)
Definition yp_isActiveForMonth (p : YearlyPrepayment) (month : Z) : bool :=
  let yearOfLoan := yearOf month in
  let monthInYear := (Z.rem (month - 1) 12 + 1)%Z in
  (monthInYear =? yp_targetMonth p)%Z &&
  (yp_startYear p <=? yearOfLoan)%Z &&
  match yp_endYear p with None => true | Some e => (yearOfLoan <=? e)%Z end.

Record OneTimePrepayment := {
  ot_amount : num;
  ot_month : Z;
  ot_strategy : option Strategy
}.

Definition ot_isActiveForMonth (p : OneTimePrepayment) (month : Z) : bool :=
  (month =? ot_month p)%Z.

Record PrepaymentStrategy := {
  monthly : list MonthlyPrepayment;
  yearly : list YearlyPrepayment;
  oneTime : list OneTimePrepayment
}.

Record LoanConfiguration := {
  principal : num;
  baseTenureMonths : Z;
  interestRateSchedule : list InterestRatePeriod;
  prepaymentStrategy : PrepaymentStrategy;
  defaultStrategy : Strategy
}.

(** [new LoanConfiguration()] *)
Definition newLoanConfiguration : LoanConfiguration :=
  {| principal := 0; baseTenureMonths := 0; interestRateSchedule := [];
     prepaymentStrategy := {| monthly := []; yearly := []; oneTime := [] |};
     defaultStrategy := REDUCE_TENURE |}.

(** [Array.prototype.sort((a, b) => a.startMonth - b.startMonth)]: the
    sort is stable, so it is an insertion sort that places an element after
    the elements with the same start month. *)
Fixpoint insert_by_start (p : InterestRatePeriod)
         (l : list InterestRatePeriod) : list InterestRatePeriod :=
  match l with
  | [] => [p]
  | q :: l' =>
      if (rp_startMonth p <? rp_startMonth q)%Z then p :: l
      else q :: insert_by_start p l'
  end.

Definition sort_by_start (l : list InterestRatePeriod)
  : list InterestRatePeriod :=
  fold_left (fun acc p => insert_by_start p acc) l [].

Definition with_schedule (c : LoanConfiguration)
           (s : list InterestRatePeriod) : LoanConfiguration :=
  {| principal := principal c; baseTenureMonths := baseTenureMonths c;
     interestRateSchedule := s;
     prepaymentStrategy := prepaymentStrategy c;
     defaultStrategy := defaultStrategy c |}.

Definition addRatePeriod (c : LoanConfiguration)
           (startMonth : Z) (rate : num) (endMonth : option Z)
  : LoanConfiguration :=
  with_schedule c
    (sort_by_start
       (interestRateSchedule c ++
        [{| rp_startMonth := startMonth; rp_rate := rate;
            rp_endMonth := endMonth |}])).

Definition with_prepayments (c : LoanConfiguration)
           (ps : PrepaymentStrategy) : LoanConfiguration :=
  {| principal := principal c; baseTenureMonths := baseTenureMonths c;
     interestRateSchedule := interestRateSchedule c;
     prepaymentStrategy := ps;
     defaultStrategy := defaultStrategy c |}.

(** The three [add...Prepayment] methods push onto their list. *)
Definition addMonthlyPrepayment (c : LoanConfiguration) (amount : num)
           (startMonth : Z) (endMonth : option Z)
           (strategy : option Strategy) : LoanConfiguration :=
  let ps := prepaymentStrategy c in
  with_prepayments c
    {| monthly := monthly ps ++
                  [{| mp_amount := amount; mp_startMonth := startMonth;
                      mp_endMonth := endMonth; mp_strategy := strategy |}];
       yearly := yearly ps; oneTime := oneTime ps |}.

Definition addYearlyPrepayment (c : LoanConfiguration) (amount : num)
           (targetMonth startYear : Z) (endYear : option Z)
           (strategy : option Strategy) : LoanConfiguration :=
  let ps := prepaymentStrategy c in
  with_prepayments c
    {| monthly := monthly ps;
       yearly := yearly ps ++
                 [{| yp_amount := amount; yp_targetMonth := targetMonth;
                     yp_startYear := startYear; yp_endYear := endYear;
                     yp_strategy := strategy |}];
       oneTime := oneTime ps |}.

Definition addOneTimePrepayment (c : LoanConfiguration) (amount : num)
           (month : Z) (strategy : option Strategy) : LoanConfiguration :=
  let ps := prepaymentStrategy c in
  with_prepayments c
    {| monthly := monthly ps; yearly := yearly ps;
       oneTime := oneTime ps ++
                  [{| ot_amount := amount; ot_month := month;
                      ot_strategy := strategy |}] |}.

(** [config.principal = ..; config.baseTenureMonths = ..;
    config.defaultStrategy = ..] on a configuration. *)
Definition setLoan (c : LoanConfiguration) (p : num) (tenure : Z)
           (strategy : Strategy) : LoanConfiguration :=
  {| principal := p; baseTenureMonths := tenure;
     interestRateSchedule := interestRateSchedule c;
     prepaymentStrategy := prepaymentStrategy c;
     defaultStrategy := strategy |}.

(** The [for ... of] loop of [getInterestRateForMonth]: [applicableRate]
    is overwritten by every active period. *)
Definition scanRates (month : Z) (sched : list InterestRatePeriod)
  : option num :=
  fold_left
    (fun applicableRate period =>
       if rp_isActiveForMonth period month then Some (rp_rate period)
       else applicableRate)
    sched None.

Definition getInterestRateForMonth (c : LoanConfiguration) (month : Z)
  : num :=
  match scanRates month (interestRateSchedule c) with
  | Some applicableRate => applicableRate
  | None =>
      match interestRateSchedule c with
      | [] => 0
      | first :: _ => or_zero (rp_rate first)
      end
  end.

End DataModels.

(** Outcome of a call: a value, a thrown error, or a run in which
    JavaScript's arithmetic produces NaN (which [Q] cannot represent). *)
Inductive outcome (E A : Type) : Type :=
| Ok (a : A)
| Throws (e : E)
| NotANumber.
Arguments Ok {E A} a.
Arguments Throws {E A} e.
Arguments NotANumber {E A}.

(** ** js/core/DataModels.js, [LoanConfiguration.validate] *)
Module Validation.
Import JS DataModels.

(** The four messages pushed by [validate]. *)
Inductive ConfigError :=
| PrincipalNotPositive   (* 'Principal must be greater than 0' *)
| TenureNotPositive      (* 'Tenure must be greater than 0' *)
| NoRatePeriod           (* 'At least one interest rate period is required' *)
| ExplicitOverlap (month : Z).
                         (* 'Rate periods have explicit overlap at month ..' *)

(** The adjacent-pair loop over the schedule. *)
Fixpoint overlapErrors (s : list InterestRatePeriod) : list ConfigError :=
  match s with
  | current :: ((next :: _) as rest) =>
      (match rp_endMonth current with
       | Some e =>
           if (rp_startMonth next <=? e)%Z
           then [ExplicitOverlap (rp_startMonth next)] else []
       | None => []
       end) ++ overlapErrors rest
  | _ => []
  end.

Definition validate (c : LoanConfiguration) : list ConfigError :=
  (if (principal c <=? 0)%js then [PrincipalNotPositive] else []) ++
  (if (baseTenureMonths c <=? 0)%Z then [TenureNotPositive] else []) ++
  (match interestRateSchedule c with [] => [NoRatePeriod] | _ => [] end) ++
  overlapErrors (interestRateSchedule c).

(** [validation.valid] is [errors.length === 0]. *)
Definition valid (c : LoanConfiguration) : bool :=
  match validate c with [] => true | _ => false end.

End Validation.

(** ** Bounded [while] loops

    The simulation loops of the engines all have the shape
    [while (cond && counter < max) { body; if (exit) { ..; break; } }].
    [fuel] is the number of iterations the counter still allows; a [body]
    that yields [None] is a run that leaves the finite numbers. *)
Module Loops.
Section BoundedWhile.
Variable St : Type.
Variable cond : St -> bool.
Variable body : St -> option St.
Variable exits : St -> bool.
Variable onExit : St -> St.

Fixpoint bounded_while (fuel : nat) (st : St) : option St :=
  match fuel with
  | O => Some st
  | S fuel' =>
      if cond st then
        match body st with
        | None => None
        | Some st' =>
            if exits st' then Some (onExit st')
            else bounded_while fuel' st'
        end
      else Some st
  end.
End BoundedWhile.
Arguments bounded_while {St} cond body exits onExit fuel st.
End Loops.

(** ** v1/js/core/LoanCalculator.js: [AdvancedLoanCalculator] *)
Module LoanCalculator.
Import JS DataModels Validation.
Local Open Scope string_scope.

Record PrepaymentInfo := {
  pi_amount : num;
  pi_types : list string;
  pi_strategy : option Strategy
}.

(** One [forEach] of [getPrepaymentForMonth]; [totalAmount], [types] and
    [strategy] are the locals shared by the three loops. *)
Definition scanPrepayments {A : Type} (active : A -> bool)
           (amount : A -> num) (strat : A -> option Strategy)
           (label : string) (l : list A) (acc : PrepaymentInfo)
  : PrepaymentInfo :=
  fold_left
    (fun acc prep =>
       if active prep then
         {| pi_amount := (pi_amount acc + amount prep)%js;
            pi_types := pi_types acc ++ [label];
            pi_strategy :=
              match strat prep with
              | Some s => Some s
              | None => pi_strategy acc
              end |}
       else acc)
    l acc.

Definition collectPrepayments (c : LoanConfiguration) (month : Z)
  : PrepaymentInfo :=
  let ps := prepaymentStrategy c in
  let acc0 := {| pi_amount := 0; pi_types := []; pi_strategy := None |} in
  let acc1 := scanPrepayments (fun p => mp_isActiveForMonth p month)
                mp_amount mp_strategy "monthly" (monthly ps) acc0 in
  let acc2 := scanPrepayments (fun p => yp_isActiveForMonth p month)
                yp_amount yp_strategy "yearly" (yearly ps) acc1 in
  scanPrepayments (fun p => ot_isActiveForMonth p month)
    ot_amount ot_strategy "lump-sum" (oneTime ps) acc2.

(** [types.join(' + ')] *)
Fixpoint join (sep : string) (l : list string) : string :=
  match l with
  | [] => ""
  | [x] => x
  | x :: l' => x ++ sep ++ join sep l'
  end.

Record Prepayment := {
  amount : num;
  type : string;
  strategy : option Strategy
}.

Definition getPrepaymentForMonth (c : LoanConfiguration) (month : Z)
  : Prepayment :=
  let acc := collectPrepayments c month in
  {| amount := pi_amount acc;
     type := match pi_types acc with
             | [] => "none"
             | ts => join " + " ts
             end;
     strategy := pi_strategy acc |}.

Definition calculateEMI (principal annualRate : num) (months : Z) : num :=
  if (principal <=? 0)%js || (ofZ months <=? 0)%js then 0
  else
    let r := (annualRate / 100 / 12)%js in
    if (r =? 0)%js then (principal / ofZ months)%js
    else ((principal * r * Math_pow (1 + r)%js months) /
          (Math_pow (1 + r)%js months - 1))%js.

Definition calculateInitialEMI (c : LoanConfiguration) : num :=
  match interestRateSchedule c with
  | first :: _ => calculateEMI (principal c) (rp_rate first)
                               (baseTenureMonths c)
  | [] => 0 (* unreachable after validation: the source would throw *)
  end.

Section WithLog.
(** [Math.log] on positive finite arguments. *)
Variable Math_log : num -> num.

(** [estimateRemainingMonths]; [None] is NaN.  With [d] the old EMI
    minus the interest on [balance]:
    - [1 + r < 0]: [Math.log(1 + r)] is NaN;
    - [d < 0]: the logarithm of a negative quotient is NaN, which
      passes both sanity checks ([NaN < 1] and [NaN > ..] are false);
    - [d = 0]: [EMI / 0] is Infinity, whose logarithm over the positive
      [Math.log(1 + r)] is Infinity, cut to twice the base tenure
      ([d = 0] needs [r > 0], as EMI and balance are positive);
    - [1 + r = 0]: a finite numerator over -Infinity is a zero, raised
      to 1 by the first sanity check. *)
Definition estimateRemainingMonths (c : LoanConfiguration)
           (currentEMI balance annualRate : num) : option Z :=
  if (balance <=? 0)%js || (currentEMI <=? 0)%js then Some 0%Z
  else
    let r := (annualRate / 100 / 12)%js in
    if (r =? 0)%js then Some (Math_ceil (balance / currentEMI)%js)
    else
      let d := (currentEMI - balance * r)%js in
      if (1 + r <? 0)%js then None
      else if (d <? 0)%js then None
      else if (d =? 0)%js then Some (baseTenureMonths c * 2)%Z
      else if (1 + r =? 0)%js then Some 1%Z
      else
        let numerator := Math_log (currentEMI / d)%js in
        let denominator := Math_log (1 + r)%js in
        let months := Math_ceil (numerator / denominator)%js in
        if (months <? 1)%Z then Some 1%Z
        else if (months >? baseTenureMonths c * 2)%Z
             then Some (baseTenureMonths c * 2)%Z
             else Some months.

Record Row := {
  row_month : Z;
  row_balance : num;
  row_interest : num;
  row_principal : num;
  row_emi : num;
  row_prepayment : num;
  row_prepaymentType : string;
  row_rate : num;
  row_strategy : option Strategy
}.

(** The mutable locals of [calculate] and the fields it updates. *)
Record State := {
  balance : num;
  currentEMI : num;
  month : Z;
  totalInterestPaid : num;
  totalPrincipalPaid : num;
  amortizationSchedule : list Row
}.

(** [principal = Math.min(currentEMI - interest, balance)], raised to 0
    when negative. *)
Definition scheduledPrincipal (emi interest balance : num) : num :=
  let principal := Math_min (emi - interest)%js balance in
  if (principal <? 0)%js then 0 else principal.

(** What the [if (totalPrepayment > 0)] block leaves in [principal],
    [totalPrepayment] and [this.currentEMI]. *)
Record Applied := {
  ap_principal : num;
  ap_prepayment : num;
  ap_emi : num
}.

Definition applyPrepayment (c : LoanConfiguration)
           (balance principal emi currentRate monthlyRate : num)
           (totalPrepayment : num) (strategy : Strategy)
  : option Applied :=
  if (totalPrepayment >? 0)%js then
    let totalPrepayment :=
      Math_min totalPrepayment (balance - principal)%js in
    match strategy with
    | REDUCE_EMI =>
        let principal := (principal + totalPrepayment)%js in
        let newBalance := (balance - principal)%js in
        if (newBalance >? 1 # 100)%js then
          match estimateRemainingMonths c emi newBalance currentRate with
          | Some remainingMonths =>
              let emi :=
                calculateEMI newBalance currentRate remainingMonths in
              let minEMI := (newBalance * monthlyRate * (101 # 100))%js in
              Some {| ap_principal := principal;
                      ap_prepayment := totalPrepayment;
                      ap_emi := if (emi <? minEMI)%js then minEMI
                                else emi |}
          | None => None
          end
        else Some {| ap_principal := principal;
                     ap_prepayment := totalPrepayment;
                     ap_emi := 0 |}
    | REDUCE_TENURE =>
        Some {| ap_principal := (principal + totalPrepayment)%js;
                ap_prepayment := totalPrepayment;
                ap_emi := emi |}
    end
  else Some {| ap_principal := principal;
               ap_prepayment := totalPrepayment;
               ap_emi := emi |}.

(** One pass through the body of the [while] loop.  [None]: the EMI
    becomes NaN (the source goes on with NaN for one more month). *)
Definition body (c : LoanConfiguration) (st : State) : option State :=
  let month := (month st + 1)%Z in
  let currentRate := getInterestRateForMonth c month in
  let monthlyRate := (currentRate / 100 / 12)%js in
  let interest := (balance st * monthlyRate)%js in
  let principal := scheduledPrincipal (currentEMI st) interest
                                      (balance st) in
  let prepaymentInfo := getPrepaymentForMonth c month in
  let strategy := match strategy prepaymentInfo with
                  | Some s => s
                  | None => defaultStrategy c
                  end in
  match applyPrepayment c (balance st) principal (currentEMI st)
                        currentRate monthlyRate
                        (amount prepaymentInfo) strategy with
  | None => None
  | Some ap =>
      let principal :=
        if (ap_principal ap >? balance st)%js then balance st
        else ap_principal ap in
      let balance' := (balance st - principal)%js in
      Some {| balance := balance';
              currentEMI := ap_emi ap;
              month := month;
              totalInterestPaid := (totalInterestPaid st + interest)%js;
              totalPrincipalPaid := (totalPrincipalPaid st + principal)%js;
              amortizationSchedule :=
                amortizationSchedule st ++
                [{| row_month := month;
                    row_balance := Math_max balance' 0;
                    row_interest := interest;
                    row_principal := principal;
                    row_emi := ap_emi ap;
                    row_prepayment := ap_prepayment ap;
                    row_prepaymentType := type prepaymentInfo;
                    row_rate := currentRate;
                    row_strategy :=
                      if (ap_prepayment ap >? 0)%js then Some strategy
                      else None |}] |}
  end.

Definition zero_balance (st : State) : State :=
  {| balance := 0; currentEMI := currentEMI st; month := month st;
     totalInterestPaid := totalInterestPaid st;
     totalPrincipalPaid := totalPrincipalPaid st;
     amortizationSchedule := amortizationSchedule st |}.

(** [while (balance > 0.01 && month < maxMonths) { ..;
    if (balance <= 0.01) { balance = 0; break; } }] *)
Definition loop (c : LoanConfiguration) (fuel : nat) (st : State)
  : option State :=
  Loops.bounded_while
    (fun st => (balance st >? 1 # 100)%js) (body c)
    (fun st => (balance st <=? 1 # 100)%js) zero_balance fuel st.

(** [calculateOriginalLoan]: the same month without prepayments. *)
Record Original := {
  o_balance : num;
  o_months : Z;
  o_totalInterest : num
}.

Definition originalBody (c : LoanConfiguration) (emi : num)
           (o : Original) : Original :=
  let month := (o_months o + 1)%Z in
  let currentRate := getInterestRateForMonth c month in
  let monthlyRate := (currentRate / 100 / 12)%js in
  let interest := (o_balance o * monthlyRate)%js in
  let principal := scheduledPrincipal emi interest (o_balance o) in
  {| o_balance := (o_balance o - principal)%js;
     o_months := month;
     o_totalInterest := (o_totalInterest o + interest)%js |}.

(** [while (balance > 0.01 && month < maxMonths) { ..;
    if (balance <= 0.01) break; }]; [fuel] is [maxMonths - month]. *)
Fixpoint originalLoop (c : LoanConfiguration) (emi : num) (fuel : nat)
         (o : Original) : Original :=
  match fuel with
  | O => o
  | S fuel' =>
      if (o_balance o >? 1 # 100)%js then
        let o' := originalBody c emi o in
        if (o_balance o' <=? 1 # 100)%js then o'
        else originalLoop c emi fuel' o'
      else o
  end.

Definition originalStart (c : LoanConfiguration) : Original :=
  {| o_balance := principal c; o_months := 0; o_totalInterest := 0 |}.

Definition calculateOriginalLoan (c : LoanConfiguration) : Original :=
  originalLoop c (calculateInitialEMI c)
    (Z.to_nat (baseTenureMonths c * 2)) (originalStart c).

Definition calculateAverageRate (c : LoanConfiguration)
           (rows : list Row) : num :=
  match rows with
  | [] => match interestRateSchedule c with
          | first :: _ => or_zero (rp_rate first)
          | [] => 0
          end
  | _ => (fold_left (fun totalRate row => (totalRate + row_rate row)%js)
                    rows 0
          / ofZ (Z.of_nat (List.length rows)))%js
  end.

Record Result := {
  months : Z;
  totalInterest : num;
  totalPrincipal : num;
  totalPayment : num;
  interestSaved : num;
  tenureReduced : Z;
  originalEMI : num;
  finalEMI : num;
  originalMonths : Z;
  originalTotalInterest : num;
  schedule : list Row;
  averageRate : num
}.

Definition initialState (c : LoanConfiguration) : State :=
  {| balance := principal c;
     currentEMI := calculateInitialEMI c;
     month := 0;
     totalInterestPaid := 0;
     totalPrincipalPaid := 0;
     amortizationSchedule := [] |}.

(** [calculate()] on a freshly constructed calculator. *)
Definition calculate (c : LoanConfiguration)
  : outcome (list ConfigError) Result :=
  match validate c with
  | (_ :: _) as errors => Throws errors
  | [] =>
      let originalLoan := calculateOriginalLoan c in
      match loop c (Z.to_nat (baseTenureMonths c * 3))
                 (initialState c) with
      | None => NotANumber
      | Some st =>
          Ok {| months := month st;
                totalInterest := totalInterestPaid st;
                totalPrincipal := totalPrincipalPaid st;
                totalPayment :=
                  (totalPrincipalPaid st + totalInterestPaid st)%js;
                interestSaved :=
                  Math_max (o_totalInterest originalLoan
                            - totalInterestPaid st)%js 0;
                tenureReduced := (o_months originalLoan - month st)%Z;
                originalEMI := calculateInitialEMI c;
                finalEMI := currentEMI st;
                originalMonths := o_months originalLoan;
                originalTotalInterest := o_totalInterest originalLoan;
                schedule := amortizationSchedule st;
                averageRate :=
                  calculateAverageRate c (amortizationSchedule st) |}
      end
  end.

End WithLog.
End LoanCalculator.

(** ** v2/js/utils/formatters.js *)
Module Formatters.
Import JS.

(** [Math.round(val * 100) / 100] *)
Definition roundCurrency (val : num) : num :=
  (ofZ (Math_round (val * 100)%js) / 100)%js.

End Formatters.

(** ** v2 core/LoanCalculator.js: [AdvancedLoanCalculator]

    The v2 file repeats the data model of [DataModels] and the prepayment
    lookup ([_getPrepaymentForMonth]) line for line; both are shared here.
    What differs from v1 is transcribed. *)
Module LoanCalculatorV2.
Import JS DataModels Validation Formatters.

Definition _emi (principal annualRate : num) (months : Z) : num :=
  if (principal <=? 0)%js || (ofZ months <=? 0)%js then 0
  else if (annualRate =? 0)%js then (principal / ofZ months)%js
  else
    let r := (annualRate / 100 / 12)%js in
    let factor := Math_pow (1 + r)%js months in
    ((principal * r * factor) / (factor - 1))%js.

Definition _calculateInitialEMI (c : LoanConfiguration) : num :=
  match interestRateSchedule c with
  | first :: _ => _emi (principal c) (rp_rate first) (baseTenureMonths c)
  | [] => 0 (* unreachable after validation *)
  end.

Definition _getPrepaymentForMonth := LoanCalculator.getPrepaymentForMonth.

Section WithLog.
Variable Math_log : num -> num.

(** [_estimateRemainingMonths]; [None] is NaN.  The guard
    [currentEMI <= balance * r] leaves a positive quotient for the first
    logarithm; [Math.log(1 + r)] is NaN for [1 + r < 0] and -Infinity for
    [1 + r = 0] (the quotient is then a zero, raised to 1). *)
Definition _estimateRemainingMonths (c : LoanConfiguration)
           (currentEMI balance annualRate : num) : option Z :=
  if (balance <=? 0)%js || (currentEMI <=? 0)%js then Some 0%Z
  else if (annualRate =? 0)%js
  then Some (Math_ceil (balance / currentEMI)%js)
  else
    let r := (annualRate / 100 / 12)%js in
    if (currentEMI <=? balance * r)%js then Some (baseTenureMonths c)
    else if (1 + r <? 0)%js then None
    else if (1 + r =? 0)%js then Some 1%Z
    else
      let months :=
        Math_ceil (Math_log (currentEMI / (currentEMI - balance * r))
                   / Math_log (1 + r))%js in
      if (months <? 1)%Z then Some 1%Z
      else if (months >? baseTenureMonths c * 2)%Z
           then Some (baseTenureMonths c * 2)%Z
           else Some months.

Record Row := {
  row_month : Z;
  row_balance : num;
  row_interest : num;
  row_principal : num;
  row_emi : num;
  row_prepayment : num;
  row_prepaymentType : string;
  row_rate : num;
  row_strategy : option Strategy
}.

Record State := {
  balance : num;
  currentEMI : num;
  month : Z;
  totalInterestPaid : num;
  totalPrincipalPaid : num;
  totalPrepaymentMade : num;
  amortizationSchedule : list Row
}.

Definition scheduledPrincipal (emi interest balance : num) : num :=
  let principal := Math_min (emi - interest)%js balance in
  if (principal <? 0)%js then 0 else principal.

(** What the [if (prepayment > 0)] block leaves in [principal],
    [prepayment], [this.currentEMI] and [totalPrepaymentMade]. *)
Record Applied := {
  ap_principal : num;
  ap_prepayment : num;
  ap_emi : num;
  ap_totalPrepaymentMade : num
}.

Definition applyPrepayment (c : LoanConfiguration)
           (balance principal emi currentRate monthlyRate : num)
           (prepayment : num) (strategy : Strategy) (made : num)
  : option Applied :=
  if (prepayment >? 0)%js then
    let prepayment := Math_min prepayment (balance - principal)%js in
    let prepayment := if (prepayment <? 0)%js then 0 else prepayment in
    let made' := (made + prepayment)%js in
    match strategy with
    | REDUCE_EMI =>
        let principal := (principal + prepayment)%js in
        let newBalance := (balance - principal)%js in
        if (newBalance >? 1 # 100)%js then
          match _estimateRemainingMonths c emi newBalance currentRate with
          | Some remaining =>
              let emi := _emi newBalance currentRate remaining in
              let minEMI := (newBalance * monthlyRate * (101 # 100))%js in
              Some {| ap_principal := principal;
                      ap_prepayment := prepayment;
                      ap_emi := if (emi <? minEMI)%js then minEMI
                                else emi;
                      ap_totalPrepaymentMade := made' |}
          | None => None
          end
        else Some {| ap_principal := principal;
                     ap_prepayment := prepayment;
                     ap_emi := 0;
                     ap_totalPrepaymentMade := made' |}
    | REDUCE_TENURE =>
        Some {| ap_principal := (principal + prepayment)%js;
                ap_prepayment := prepayment;
                ap_emi := emi;
                ap_totalPrepaymentMade := made' |}
    end
  else Some {| ap_principal := principal;
               ap_prepayment := prepayment;
               ap_emi := emi;
               ap_totalPrepaymentMade := made |}.

(** One pass through the body of the [while] loop; the row is rounded
    when it is pushed, the state is not. *)
Definition body (c : LoanConfiguration) (st : State) : option State :=
  let month := (month st + 1)%Z in
  let currentRate := getInterestRateForMonth c month in
  let monthlyRate := (currentRate / 100 / 12)%js in
  let interest := (balance st * monthlyRate)%js in
  let principal := scheduledPrincipal (currentEMI st) interest
                                      (balance st) in
  let prepInfo := _getPrepaymentForMonth c month in
  let strategy := match LoanCalculator.strategy prepInfo with
                  | Some s => s
                  | None => defaultStrategy c
                  end in
  match applyPrepayment c (balance st) principal (currentEMI st)
                        currentRate monthlyRate
                        (LoanCalculator.amount prepInfo) strategy
                        (totalPrepaymentMade st) with
  | None => None
  | Some ap =>
      let principal :=
        if (ap_principal ap >? balance st)%js then balance st
        else ap_principal ap in
      let balance' := (balance st - principal)%js in
      let balance' := if (balance' <? 0)%js then 0 else balance' in
      Some {| balance := balance';
              currentEMI := ap_emi ap;
              month := month;
              totalInterestPaid := (totalInterestPaid st + interest)%js;
              totalPrincipalPaid := (totalPrincipalPaid st + principal)%js;
              totalPrepaymentMade := ap_totalPrepaymentMade ap;
              amortizationSchedule :=
                amortizationSchedule st ++
                [{| row_month := month;
                    row_balance := roundCurrency (Math_max balance' 0);
                    row_interest := roundCurrency interest;
                    row_principal := roundCurrency principal;
                    row_emi := roundCurrency (ap_emi ap);
                    row_prepayment := roundCurrency (ap_prepayment ap);
                    row_prepaymentType := LoanCalculator.type prepInfo;
                    row_rate := currentRate;
                    row_strategy :=
                      if (ap_prepayment ap >? 0)%js then Some strategy
                      else None |}] |}
  end.

Definition zero_balance (st : State) : State :=
  {| balance := 0; currentEMI := currentEMI st; month := month st;
     totalInterestPaid := totalInterestPaid st;
     totalPrincipalPaid := totalPrincipalPaid st;
     totalPrepaymentMade := totalPrepaymentMade st;
     amortizationSchedule := amortizationSchedule st |}.

Definition loop (c : LoanConfiguration) (fuel : nat) (st : State)
  : option State :=
  Loops.bounded_while
    (fun st => (balance st >? 1 # 100)%js) (body c)
    (fun st => (balance st <=? 1 # 100)%js) zero_balance fuel st.

(** [_simulateOriginal] is v1's [calculateOriginalLoan] started from
    the v2 initial EMI. *)
Definition _simulateOriginal (c : LoanConfiguration)
  : LoanCalculator.Original :=
  LoanCalculator.originalLoop c (_calculateInitialEMI c)
    (Z.to_nat (baseTenureMonths c * 2)) (LoanCalculator.originalStart c).

Definition _calculateAverageRate (c : LoanConfiguration)
           (rows : list Row) : num :=
  match rows with
  | [] => match interestRateSchedule c with
          | first :: _ => or_zero (rp_rate first)
          | [] => 0
          end
  | _ => (fold_left (fun s row => (s + row_rate row)%js) rows 0
          / ofZ (Z.of_nat (List.length rows)))%js
  end.

Record Result := {
  months : Z;
  totalInterest : num;
  totalPrincipal : num;
  totalPayment : num;
  totalPrepayment : num;
  interestSaved : num;
  tenureReduced : Z;
  originalEMI : num;
  finalEMI : num;
  originalMonths : Z;
  originalTotalInterest : num;
  schedule : list Row;
  averageRate : num
}.

Definition initialState (c : LoanConfiguration) : State :=
  {| balance := principal c;
     currentEMI := _calculateInitialEMI c;
     month := 0;
     totalInterestPaid := 0;
     totalPrincipalPaid := 0;
     totalPrepaymentMade := 0;
     amortizationSchedule := [] |}.

Definition calculate (c : LoanConfiguration)
  : outcome (list ConfigError) Result :=
  match validate c with
  | (_ :: _) as errors => Throws errors
  | [] =>
      let originalLoan := _simulateOriginal c in
      match loop c (Z.to_nat (baseTenureMonths c * 3))
                 (initialState c) with
      | None => NotANumber
      | Some st =>
          let interestSaved :=
            Math_max (LoanCalculator.o_totalInterest originalLoan
                      - totalInterestPaid st)%js 0 in
          Ok {| months := month st;
                totalInterest := roundCurrency (totalInterestPaid st);
                totalPrincipal := roundCurrency (totalPrincipalPaid st);
                totalPayment :=
                  roundCurrency
                    (totalPrincipalPaid st + totalInterestPaid st)%js;
                totalPrepayment :=
                  roundCurrency (totalPrepaymentMade st);
                interestSaved := roundCurrency interestSaved;
                tenureReduced :=
                  (LoanCalculator.o_months originalLoan - month st)%Z;
                originalEMI := roundCurrency (_calculateInitialEMI c);
                finalEMI := roundCurrency (currentEMI st);
                originalMonths := LoanCalculator.o_months originalLoan;
                originalTotalInterest :=
                  roundCurrency
                    (LoanCalculator.o_totalInterest originalLoan);
                schedule := amortizationSchedule st;
                averageRate :=
                  _calculateAverageRate c (amortizationSchedule st) |}
      end
  end.

End WithLog.
End LoanCalculatorV2.

(** ** js/core/GoalSeeker.js: [GoalSeekingSIPCalculator]

    Durations are whole years ([Z]), so that [Math.pow] is taken at integer
    exponents only. *)
Module GoalSeeker.
Import JS.

Definition maxIterations : nat := 100.
Definition tolerance : num := 100.

Definition calculateFutureValue (monthlySIP : num) (years : Z)
           (annualReturn : num) : num :=
  let months := (years * 12)%Z in
  let r := (annualReturn / 100 / 12)%js in
  if (r =? 0)%js then (monthlySIP * ofZ months)%js
  else (monthlySIP * ((Math_pow (1 + r)%js months - 1) / r) * (1 + r))%js.

(** How the [while] loop of [newtonRaphsonMethod] is left. *)
Inductive NewtonExit :=
| Returned (sip : num)    (* [return sip] at the convergence check *)
| Broke (sip : num)       (* [break] at the derivative check *)
| Exhausted (sip : num).  (* [iterations < maxIterations] fails *)

(** [fuel] is [maxIterations - iterations]. *)
Fixpoint newtonLoop (targetAmount : num) (years : Z) (annualReturn : num)
         (fuel : nat) (sip : num) : NewtonExit :=
  match fuel with
  | O => Exhausted sip
  | S fuel' =>
      let fv := calculateFutureValue sip years annualReturn in
      let error := (fv - targetAmount)%js in
      if (Math_abs error <? tolerance)%js then Returned sip
      else
        let delta := 1 in
        let fvPlusDelta :=
          calculateFutureValue (sip + delta)%js years annualReturn in
        let derivative := ((fvPlusDelta - fv) / delta)%js in
        if (Math_abs derivative <? 1 # 1000)%js then Broke sip
        else
          let sip := (sip - error / derivative)%js in
          let sip := if (sip <? 100)%js then 100 else sip in
          newtonLoop targetAmount years annualReturn fuel' sip
  end.

(** [while (iterations < maxIterations && high - low > 1)] *)
Fixpoint bisect (fv : num -> num) (targetAmount : num) (fuel : nat)
         (low high : num) : num :=
  match fuel with
  | O => ((low + high) / 2)%js
  | S fuel' =>
      if (high - low >? 1)%js then
        let mid := ((low + high) / 2)%js in
        if (Math_abs (fv mid - targetAmount) <? tolerance)%js then mid
        else if (fv mid <? targetAmount)%js
             then bisect fv targetAmount fuel' mid high
             else bisect fv targetAmount fuel' low mid
      else ((low + high) / 2)%js
  end.

Definition binarySearchMethod (targetAmount : num) (years : Z)
           (annualReturn : num) : num :=
  bisect (fun mid => calculateFutureValue mid years annualReturn)
         targetAmount maxIterations 100 (targetAmount / 12)%js.

(** After the loop: [if (iterations >= this.maxIterations) return
    this.binarySearchMethod(..); return sip;] *)
Definition newtonRaphsonMethod (targetAmount : num) (years : Z)
           (annualReturn : num) : num :=
  let sip := (targetAmount / ofZ (years * 12))%js in
  match newtonLoop targetAmount years annualReturn maxIterations sip with
  | Returned sip => sip
  | Exhausted _ => binarySearchMethod targetAmount years annualReturn
  | Broke sip => sip
  end.

(** The two nested [for] loops of [calculateStepUpFutureValue]:
    twelve months, then the step-up unless it is the last year. *)
Fixpoint twelveMonths (n : nat) (totalAmount currentSIP monthlyReturn : num)
  : num :=
  match n with
  | O => totalAmount
  | S n' => twelveMonths n' ((totalAmount + currentSIP)
                             * (1 + monthlyReturn))%js
                         currentSIP monthlyReturn
  end.

Fixpoint stepUpYears (fuel : nat) (year years : Z)
         (totalAmount currentSIP monthlyReturn stepUpPercent : num) : num :=
  match fuel with
  | O => totalAmount
  | S fuel' =>
      let totalAmount :=
        twelveMonths 12 totalAmount currentSIP monthlyReturn in
      let currentSIP :=
        if (year <? years)%Z
        then (currentSIP * (1 + stepUpPercent / 100))%js
        else currentSIP in
      stepUpYears fuel' (year + 1) years totalAmount currentSIP
                  monthlyReturn stepUpPercent
  end.

Definition calculateStepUpFutureValue (initialSIP : num) (years : Z)
           (annualReturn stepUpPercent : num) : num :=
  stepUpYears (Z.to_nat years) 1 years 0 initialSIP
              (annualReturn / 100 / 12)%js stepUpPercent.

Definition calculateStepUpSIP (targetAmount : num) (years : Z)
           (annualReturn stepUpPercent : num) : num :=
  bisect (fun mid =>
            calculateStepUpFutureValue mid years annualReturn stepUpPercent)
         targetAmount maxIterations 100 (targetAmount / 12)%js.

Fixpoint stepUpInvested (fuel : nat) (year years : Z)
         (totalInvestment currentSIP stepUpPercent : num) : num :=
  match fuel with
  | O => totalInvestment
  | S fuel' =>
      let totalInvestment := (totalInvestment + currentSIP * 12)%js in
      let currentSIP :=
        if (year <? years)%Z
        then (currentSIP * (1 + stepUpPercent / 100))%js
        else currentSIP in
      stepUpInvested fuel' (year + 1) years totalInvestment currentSIP
                     stepUpPercent
  end.

Definition calculateStepUpTotalInvestment (initialSIP : num) (years : Z)
           (stepUpPercent : num) : num :=
  stepUpInvested (Z.to_nat years) 1 years 0 initialSIP stepUpPercent.

Record Result := {
  success : bool;
  requiredSIP : num;
  targetAmount : num;
  inflationAdjustedTarget : num;
  achievedAmount : num;
  totalInvestment : num;
  wealthGain : num;
  realValue : num;
  years : Z;
  annualReturn : num;
  inflationRate : num;
  stepUpPercent : num
}.

Definition calculateRequiredSIP (targetAmount : num) (years : Z)
           (annualReturn inflationRate stepUpPercent : num) : Result :=
  let inflationAdjustedTarget :=
    if (inflationRate >? 0)%js
    then (targetAmount * Math_pow (1 + inflationRate / 100)%js years)%js
    else targetAmount in
  let requiredSIP :=
    if (stepUpPercent >? 0)%js
    then calculateStepUpSIP inflationAdjustedTarget years annualReturn
                            stepUpPercent
    else newtonRaphsonMethod inflationAdjustedTarget years annualReturn in
  let achievedAmount :=
    if (stepUpPercent >? 0)%js
    then calculateStepUpFutureValue requiredSIP years annualReturn
                                    stepUpPercent
    else calculateFutureValue requiredSIP years annualReturn in
  let totalInvestment :=
    if (stepUpPercent >? 0)%js
    then calculateStepUpTotalInvestment requiredSIP years stepUpPercent
    else (requiredSIP * ofZ years * 12)%js in
  let realValue :=
    if (inflationRate >? 0)%js
    then (achievedAmount / Math_pow (1 + inflationRate / 100)%js years)%js
    else achievedAmount in
  {| success := true;
     requiredSIP := (ofZ (Math_ceil (requiredSIP / 100)%js) * 100)%js;
     targetAmount := targetAmount;
     inflationAdjustedTarget := inflationAdjustedTarget;
     achievedAmount := achievedAmount;
     totalInvestment := totalInvestment;
     wealthGain := (achievedAmount - totalInvestment)%js;
     realValue := realValue;
     years := years;
     annualReturn := annualReturn;
     inflationRate := inflationRate;
     stepUpPercent := stepUpPercent |}.

End GoalSeeker.

(** ** js/core/DataModels.js: the SIP data models *)
Module SIPModels.
Import JS.
Local Open Scope string_scope.

Record ReturnPeriod := {
  startYear : Z;
  endYear : option Z;
  annualReturn : num
}.

Definition isActiveForYear (p : ReturnPeriod) (year : Z) : bool :=
  (startYear p <=? year)%Z &&
  match endYear p with None => true | Some e => (year <=? e)%Z end.

Record ReturnScenario := {
  name : string;
  periods : list ReturnPeriod
}.

(** The first active period decides; the first period is the fallback. *)
Definition getReturnForYear (s : ReturnScenario) (year : Z) : num :=
  match find (fun p => isActiveForYear p year) (periods s) with
  | Some period => annualReturn period
  | None => match periods s with
            | first :: _ => or_zero (annualReturn first)
            | [] => 0
            end
  end.

Record StepUpSchedule := {
  su_startYear : Z;
  su_endYear : option Z;
  stepUpPercent : num
}.

(** [returnScenarios] is an object used as a map from names to
    scenarios; the newest binding of a name comes first. *)
Record SIPConfiguration := {
  monthlyAmount : num;
  durationYears : Z;
  stepUpSchedules : list StepUpSchedule;
  returnScenarios : list (string * ReturnScenario);
  inflationRate : num
}.

Definition lookupScenario (c : SIPConfiguration) (scenarioName : string)
  : option ReturnScenario :=
  match find (fun kv => String.eqb (fst kv) scenarioName)
             (returnScenarios c) with
  | Some kv => Some (snd kv)
  | None => None
  end.

End SIPModels.

(** ** js/core/SIPCalculator.js *)
Module SIPCalculator.
Import JS SIPModels.

(** *** [AdvancedSIPCalculator] *)

Definition applySteUpSchedule (c : SIPConfiguration) (currentSIP : num)
           (year : Z) : num :=
  match find (fun s => (su_startYear s <=? year)%Z &&
                       match su_endYear s with
                       | None => true
                       | Some e => (year <=? e)%Z
                       end)
             (stepUpSchedules c) with
  | Some s => (currentSIP * (1 + stepUpPercent s / 100))%js
  | None => currentSIP
  end.

Record ScheduleRow := {
  sr_month : Z;
  sr_year : Z;
  sr_sipAmount : num;
  sr_balance : num;
  sr_inflationAdjusted : num;
  sr_totalInvested : num;
  sr_returnRate : num
}.

Record SipState := {
  month : Z;           (* the last month simulated *)
  balance : num;
  totalInvested : num;
  currentSIP : num;
  schedule : list ScheduleRow
}.

(** The body of [for (let month = 1; month <= months; month++)]. *)
Definition sipBody (c : SIPConfiguration) (scenario : ReturnScenario)
           (months : Z) (st : SipState) : SipState :=
  let month := (month st + 1)%Z in
  let year := Math_ceil (ofZ month / 12)%js in
  let currentSIP :=
    if (month >? 1)%Z && (Z.rem (month - 1) 12 =? 0)%Z
    then applySteUpSchedule c (currentSIP st) year
    else currentSIP st in
  let returnRate := getReturnForYear scenario year in
  let monthlyReturn := (returnRate / 100 / 12)%js in
  let totalInvested := (totalInvested st + currentSIP)%js in
  let balance := ((balance st + currentSIP) * (1 + monthlyReturn))%js in
  let inflationAdjusted :=
    if (inflationRate c >? 0)%js
    then (balance / Math_pow (1 + inflationRate c / 100 / 12)%js month)%js
    else balance in
  {| month := month; balance := balance; totalInvested := totalInvested;
     currentSIP := currentSIP;
     schedule :=
       if (Z.rem month 6 =? 0)%Z || (month =? 1)%Z || (month =? months)%Z
       then schedule st ++
            [{| sr_month := month; sr_year := year;
                sr_sipAmount := currentSIP; sr_balance := balance;
                sr_inflationAdjusted := inflationAdjusted;
                sr_totalInvested := totalInvested;
                sr_returnRate := returnRate |}]
       else schedule st |}.

Fixpoint sipLoop (c : SIPConfiguration) (scenario : ReturnScenario)
         (months : Z) (fuel : nat) (st : SipState) : SipState :=
  match fuel with
  | O => st
  | S fuel' => sipLoop c scenario months fuel' (sipBody c scenario months st)
  end.

(** [effectiveReturn], a power with a fractional exponent, is left out of
    the result. *)
Record Result := {
  success : bool;
  finalValue : num;
  r_totalInvested : num;
  wealthGain : num;
  realValue : num;
  r_schedule : list ScheduleRow
}.

Inductive SipError :=
| ScenarioNotFound (scenarioName : string).

Definition calculate (c : SIPConfiguration) (scenarioName : string)
  : outcome SipError Result :=
  match lookupScenario c scenarioName with
  | None => Throws (ScenarioNotFound scenarioName)
  | Some scenario =>
      let months := (durationYears c * 12)%Z in
      let st := sipLoop c scenario months (Z.to_nat months)
                  {| month := 0; balance := 0; totalInvested := 0;
                     currentSIP := monthlyAmount c; schedule := [] |} in
      Ok {| success := true;
            finalValue := balance st;
            r_totalInvested := totalInvested st;
            wealthGain := (balance st - totalInvested st)%js;
            realValue :=
              if (inflationRate c >? 0)%js
              then (balance st
                    / Math_pow (1 + inflationRate c / 100)%js
                               (durationYears c))%js
              else balance st;
            r_schedule := schedule st |}
  end.

(** *** [WithdrawalCalculator] *)

Record WithdrawalRow := {
  wr_month : Z;
  wr_year : Z;
  wr_balance : num;
  wr_withdrawal : num;
  wr_totalWithdrawn : num
}.

Record WState := {
  w_month : Z;         (* the last month entered *)
  w_balance : num;
  w_totalWithdrawn : num;
  w_currentWithdrawal : num;
  w_schedule : list WithdrawalRow;
  w_depletedAt : option Z
}.

(** [for (let month = 1; month <= months; month++)] with its two
    [break]s; [fuel] counts the months that are left. *)
Fixpoint withdrawalLoop (monthlyReturn inflationRate : num)
         (inflationAdjusted : bool) (fuel : nat) (st : WState) : WState :=
  match fuel with
  | O => st
  | S fuel' =>
      let month := (w_month st + 1)%Z in
      let year := Math_ceil (ofZ month / 12)%js in
      let currentWithdrawal :=
        if inflationAdjusted && (month >? 1)%Z
           && (Z.rem (month - 1) 12 =? 0)%Z
        then (w_currentWithdrawal st * (1 + inflationRate / 100))%js
        else w_currentWithdrawal st in
      if (w_balance st <? currentWithdrawal)%js then
        {| w_month := month; w_balance := w_balance st;
           w_totalWithdrawn := w_totalWithdrawn st;
           w_currentWithdrawal := currentWithdrawal;
           w_schedule := w_schedule st;
           w_depletedAt := Some month |}
      else
        let balance := (w_balance st - currentWithdrawal)%js in
        let totalWithdrawn := (w_totalWithdrawn st + currentWithdrawal)%js in
        let balance :=
          if (balance >? 0)%js then (balance * (1 + monthlyReturn))%js
          else balance in
        let schedule :=
          if (Z.rem month 6 =? 0)%Z || (month =? 1)%Z || (balance <=? 0)%js
          then w_schedule st ++
               [{| wr_month := month; wr_year := year;
                   wr_balance := Math_max balance 0;
                   wr_withdrawal := currentWithdrawal;
                   wr_totalWithdrawn := totalWithdrawn |}]
          else w_schedule st in
        let st' :=
          {| w_month := month; w_balance := balance;
             w_totalWithdrawn := totalWithdrawn;
             w_currentWithdrawal := currentWithdrawal;
             w_schedule := schedule;
             w_depletedAt := if (balance <=? 0)%js then Some month
                             else None |} in
        if (balance <=? 0)%js then st'
        else withdrawalLoop monthlyReturn inflationRate inflationAdjusted
                            fuel' st'
  end.

Record WithdrawalResult := {
  w_success : bool;
  initialCorpus : num;
  monthlyWithdrawal : num;
  totalWithdrawn : num;
  remainingCorpus : num;
  depletedAt : option Z;
  depletedInYears : option num;
  lastsThroughPlan : bool;
  wres_schedule : list WithdrawalRow
}.

(** [years] may be fractional: the loop runs while [month <= years * 12]. *)
Definition withdrawalCalculate (initialCorpus monthlyWithdrawal years
                                annualReturn inflationRate : num)
           (inflationAdjusted : bool) : WithdrawalResult :=
  let months := (years * 12)%js in
  let monthlyReturn := (annualReturn / 100 / 12)%js in
  let st := withdrawalLoop monthlyReturn inflationRate inflationAdjusted
              (Z.to_nat (Qfloor months))
              {| w_month := 0; w_balance := initialCorpus;
                 w_totalWithdrawn := 0;
                 w_currentWithdrawal := monthlyWithdrawal;
                 w_schedule := []; w_depletedAt := None |} in
  {| w_success := true;
     initialCorpus := initialCorpus;
     monthlyWithdrawal := monthlyWithdrawal;
     totalWithdrawn := w_totalWithdrawn st;
     remainingCorpus := Math_max (w_balance st) 0;
     depletedAt := w_depletedAt st;
     depletedInYears :=
       match w_depletedAt st with
       | Some m => Some (ofZ m / 12)%js
       | None => None
       end;
     lastsThroughPlan := match w_depletedAt st with
                         | None => true
                         | Some _ => false
                         end;
     wres_schedule := w_schedule st |}.

End SIPCalculator.

(** ** v2/js/core/EMICalculator.js: [EMICalculator] *)
Module EMICalculator.
Import JS Formatters.

Definition _emi (principal annualRate : num) (months : Z) : num :=
  if (annualRate =? 0)%js then (principal / ofZ months)%js
  else
    let r := (annualRate / 100 / 12)%js in
    let factor := Math_pow (1 + r)%js months in
    ((principal * r * factor) / (factor - 1))%js.

(** v2/js/utils/validators.js, [validateLoanInputs]: the tenure is an
    integer by its type here, and every [num] is finite. *)
Inductive InputError :=
| BadPrincipal     (* 'Principal: Expected a positive number, ..' *)
| BadRate          (* 'Interest rate: Expected a non-negative number, ..' *)
| BadTenure.       (* 'Tenure: Expected a positive integer (months), ..' *)

Definition validateLoanInputs (principal rate : num) (tenure : Z)
  : list InputError :=
  (if (principal <=? 0)%js then [BadPrincipal] else []) ++
  (if (rate <? 0)%js then [BadRate] else []) ++
  (if (tenure <=? 0)%Z then [BadTenure] else []).

Record EMIResult := {
  emi : num;
  totalInterest : num;
  totalPayment : num
}.

Definition calculateEMI (principal annualRate : num) (tenureMonths : Z)
  : outcome (list InputError) EMIResult :=
  match validateLoanInputs principal annualRate tenureMonths with
  | (_ :: _) as errors => Throws errors
  | [] =>
      let emi := _emi principal annualRate tenureMonths in
      let totalPayment := roundCurrency (emi * ofZ tenureMonths)%js in
      let totalInterest := roundCurrency (totalPayment - principal)%js in
      Ok {| emi := roundCurrency emi;
            totalInterest := totalInterest;
            totalPayment := totalPayment |}
  end.

(** The four [throw new Error(..)] of [calculateTenure]. *)
Inductive TenureError :=
| PrincipalMustBePositive (* 'Principal must be positive' *)
| EMIMustBePositive       (* 'EMI must be positive' *)
| RateCannotBeNegative    (* 'Rate cannot be negative' *)
| EMITooLow.              (* 'EMI is too low to repay the loan at this
                             rate' *)

Record TenureResult := {
  tenureMonths : Z;
  t_totalPayment : num;
  t_totalInterest : num
}.

Section WithLog.
Variable Math_log : num -> num.

Definition calculateTenure (principal emi annualRate : num)
  : outcome TenureError TenureResult :=
  if (principal <=? 0)%js then Throws PrincipalMustBePositive
  else if (emi <=? 0)%js then Throws EMIMustBePositive
  else if (annualRate <? 0)%js then Throws RateCannotBeNegative
  else if (annualRate =? 0)%js then
    let months := Math_ceil (principal / emi)%js in
    Ok {| tenureMonths := months;
          t_totalPayment := roundCurrency (emi * ofZ months)%js;
          t_totalInterest :=
            roundCurrency (emi * ofZ months - principal)%js |}
  else
    let r := (annualRate / 100 / 12)%js in
    if (emi <=? principal * r)%js then Throws EMITooLow
    else
      let months :=
        Math_ceil ((0 - Math_log (1 - (principal * r) / emi))
                   / Math_log (1 + r))%js in
      let totalPayment := roundCurrency (emi * ofZ months)%js in
      let totalInterest := roundCurrency (totalPayment - principal)%js in
      Ok {| tenureMonths := months;
            t_totalPayment := totalPayment;
            t_totalInterest := totalInterest |}.
End WithLog.

Record BreakdownRow := {
  b_month : Z;
  b_emi : num;
  b_principal : num;
  b_interest : num;
  b_balance : num
}.

(** [for (let m = 1; m <= tenureMonths && balance > 0.01; m++)] of
    [getEMIBreakdown]; [fuel] is [tenureMonths - m + 1]. *)
Fixpoint breakdownLoop (emi r : num) (tenureMonths : Z) (fuel : nat)
         (m : Z) (balance : num) : list BreakdownRow :=
  match fuel with
  | O => []
  | S fuel' =>
      if (balance >? 1 # 100)%js then
        let interest := roundCurrency (balance * r)%js in
        let principalPart := roundCurrency (emi - interest)%js in
        let principalPart :=
          if (principalPart >? balance)%js then roundCurrency balance
          else principalPart in
        let balance := roundCurrency (balance - principalPart)%js in
        let balance := if (balance <? 0)%js then 0 else balance in
        {| b_month := m;
           b_emi := roundCurrency (if (m <? tenureMonths)%Z then emi
                                   else (principalPart + interest)%js);
           b_principal := principalPart;
           b_interest := interest;
           b_balance := balance |}
        :: breakdownLoop emi r tenureMonths fuel' (m + 1) balance
      else []
  end.

Definition getEMIBreakdown (principal annualRate : num) (tenureMonths : Z)
  : outcome (list InputError) (list BreakdownRow) :=
  match validateLoanInputs principal annualRate tenureMonths with
  | (_ :: _) as errors => Throws errors
  | [] =>
      let emi := _emi principal annualRate tenureMonths in
      let r := (annualRate / 100 / 12)%js in
      Ok (breakdownLoop emi r tenureMonths (Z.to_nat tenureMonths) 1
                        principal)
  end.

End EMICalculator.

(** ** v2/js/core/EMICalculator.js: the inverse calculations *)
Module EMITools.
Import JS Formatters.

(** The three [throw new Error(..)] of [calculateMaxLoan]. *)
Inductive MaxLoanError :=
| MaxLoanEMIMustBePositive     (* 'EMI must be positive' *)
| MaxLoanRateCannotBeNegative  (* 'Rate cannot be negative' *)
| TenureMustBePositive.        (* 'Tenure must be positive' *)

Definition calculateMaxLoan (emi annualRate : num) (tenureMonths : Z)
  : outcome MaxLoanError num :=
  if (emi <=? 0)%js then Throws MaxLoanEMIMustBePositive
  else if (annualRate <? 0)%js then Throws MaxLoanRateCannotBeNegative
  else if (tenureMonths <=? 0)%Z then Throws TenureMustBePositive
  else if (annualRate =? 0)%js
  then Ok (roundCurrency (emi * ofZ tenureMonths)%js)
  else
    let r := (annualRate / 100 / 12)%js in
    let factor := Math_pow (1 + r)%js tenureMonths in
    Ok (roundCurrency (emi * (factor - 1) / (r * factor))%js).

Inductive AffordabilityError :=
| IncomeMustBePositive         (* 'Monthly income must be positive' *)
| ExistingEMIsNegative         (* 'Existing EMIs cannot be negative' *)
| MaxLoanFailed (e : MaxLoanError).

Record Affordability := {
  maxLoanAmount : num;
  maxNewEMI : num
}.

Definition calculateAffordability
           (monthlyIncome existingEMIs maxEMIPercent rate : num)
           (tenure : Z) : outcome AffordabilityError Affordability :=
  if (monthlyIncome <=? 0)%js then Throws IncomeMustBePositive
  else if (existingEMIs <? 0)%js then Throws ExistingEMIsNegative
  else
    let maxTotalEMI := (monthlyIncome * (maxEMIPercent / 100))%js in
    let maxNewEMI :=
      roundCurrency (Math_max (maxTotalEMI - existingEMIs)%js 0) in
    if (maxNewEMI <=? 0)%js
    then Ok {| maxLoanAmount := 0; maxNewEMI := 0 |}
    else
      match calculateMaxLoan maxNewEMI rate tenure with
      | Ok maxLoan => Ok {| maxLoanAmount := maxLoan;
                            maxNewEMI := maxNewEMI |}
      | Throws e => Throws (MaxLoanFailed e)
      | NotANumber => NotANumber
      end.

End EMITools.

(** ** The v2 loan calculator: the what-if tools *)
Module LoanToolsV2.
Import JS DataModels Formatters.

(** [_cloneConfig]: a new configuration with the scalar fields copied
    and every rate period added again through [addRatePeriod]; the
    prepayments are not copied. *)
Definition _cloneConfig (c : LoanConfiguration) : LoanConfiguration :=
  fold_left
    (fun clone p =>
       addRatePeriod clone (rp_startMonth p) (rp_rate p) (rp_endMonth p))
    (interestRateSchedule c)
    (setLoan newLoanConfiguration (principal c) (baseTenureMonths c)
             (defaultStrategy c)).

Record TaxBenefit := {
  eligibleDeduction : num;
  taxSaved : num
}.

Definition MAX_80C : num := 150000.

Definition estimatePrepaymentTaxBenefit
           (totalPrepayment existingSec80C taxBracketPercent : num)
  : TaxBenefit :=
  let available := Math_max (MAX_80C - existingSec80C)%js 0 in
  let eligible := Math_min totalPrepayment available in
  let taxSaved :=
    roundCurrency (eligible * (taxBracketPercent / 100))%js in
  {| eligibleDeduction := roundCurrency eligible; taxSaved := taxSaved |}.

End LoanToolsV2.

(** ** v1/js/core/LoanCalculator.js: the calculator as an object

    [AdvancedLoanCalculator] keeps [amortizationSchedule] and
    [currentEMI] between calls; [calculate()] pushes onto the schedule it
    finds. *)
Module LoanCalculatorObject.
Import JS DataModels Validation LoanCalculator.

Record Calculator := {
  config : LoanConfiguration;
  calc_amortizationSchedule : list Row;
  calc_currentEMI : num
}.

(** [new AdvancedLoanCalculator(config)] *)
Definition newCalculator (c : LoanConfiguration) : Calculator :=
  {| config := c; calc_amortizationSchedule := []; calc_currentEMI := 0 |}.

Section WithLog.
Variable Math_log : num -> num.

(** [calculate()]: the result and the calculator it leaves.  A throw
    happens before any field is written. *)
Definition calculateOn (calc : Calculator)
  : outcome (list ConfigError) (Result * Calculator) :=
  let c := config calc in
  match validate c with
  | (_ :: _) as errors => Throws errors
  | [] =>
      let originalLoan := calculateOriginalLoan c in
      match loop Math_log c (Z.to_nat (baseTenureMonths c * 3))
                 {| balance := principal c;
                    currentEMI := calculateInitialEMI c;
                    month := 0;
                    totalInterestPaid := 0;
                    totalPrincipalPaid := 0;
                    amortizationSchedule :=
                      calc_amortizationSchedule calc |} with
      | None => NotANumber
      | Some st =>
          Ok ({| months := month st;
                 totalInterest := totalInterestPaid st;
                 totalPrincipal := totalPrincipalPaid st;
                 totalPayment :=
                   (totalPrincipalPaid st + totalInterestPaid st)%js;
                 interestSaved :=
                   Math_max (o_totalInterest originalLoan
                             - totalInterestPaid st)%js 0;
                 tenureReduced := (o_months originalLoan - month st)%Z;
                 originalEMI := calculateInitialEMI c;
                 finalEMI := currentEMI st;
                 originalMonths := o_months originalLoan;
                 originalTotalInterest := o_totalInterest originalLoan;
                 schedule := amortizationSchedule st;
                 averageRate :=
                   calculateAverageRate c (amortizationSchedule st) |},
              {| config := c;
                 calc_amortizationSchedule := amortizationSchedule st;
                 calc_currentEMI := currentEMI st |})
      end
  end.

(** The locals of [generateFullSchedule] and [this.currentEMI]. *)
Record FullState := {
  fs_balance : num;
  fs_currentEMI : num;
  fs_month : Z;
  fs_fullSchedule : list Row
}.

Definition fullBody (c : LoanConfiguration) (st : FullState)
  : option FullState :=
  let month := (fs_month st + 1)%Z in
  let currentRate := getInterestRateForMonth c month in
  let monthlyRate := (currentRate / 100 / 12)%js in
  let interest := (fs_balance st * monthlyRate)%js in
  let principal := Math_min (fs_currentEMI st - interest)%js
                            (fs_balance st) in
  let principal := if (principal <? 0)%js then 0 else principal in
  let prepaymentInfo := getPrepaymentForMonth c month in
  let totalPrepayment := amount prepaymentInfo in
  let strategy := match strategy prepaymentInfo with
                  | Some s => s
                  | None => defaultStrategy c
                  end in
  let applied :=
    if (totalPrepayment >? 0)%js then
      let totalPrepayment :=
        Math_min totalPrepayment (fs_balance st - principal)%js in
      match strategy with
      | REDUCE_EMI =>
          let principal := (principal + totalPrepayment)%js in
          let newBalance := (fs_balance st - principal)%js in
          if (newBalance >? 1 # 100)%js then
            match estimateRemainingMonths Math_log c (fs_currentEMI st)
                                          newBalance currentRate with
            | Some remainingMonths =>
                let emi :=
                  calculateEMI newBalance currentRate remainingMonths in
                let minEMI :=
                  (newBalance * monthlyRate * (101 # 100))%js in
                Some (principal, totalPrepayment,
                      if (emi <? minEMI)%js then minEMI else emi)
            | None => None
            end
          else Some (principal, totalPrepayment, 0)
      | REDUCE_TENURE =>
          Some ((principal + totalPrepayment)%js, totalPrepayment,
                fs_currentEMI st)
      end
    else Some (principal, totalPrepayment, fs_currentEMI st) in
  match applied with
  | None => None
  | Some (principal, totalPrepayment, emi) =>
      let principal :=
        if (principal >? fs_balance st)%js then fs_balance st
        else principal in
      let balance := (fs_balance st - principal)%js in
      Some {| fs_balance := balance;
              fs_currentEMI := emi;
              fs_month := month;
              fs_fullSchedule :=
                fs_fullSchedule st ++
                [{| row_month := month;
                    row_balance := Math_max balance 0;
                    row_interest := interest;
                    row_principal := principal;
                    row_emi := emi;
                    row_prepayment := totalPrepayment;
                    row_prepaymentType := type prepaymentInfo;
                    row_rate := currentRate;
                    row_strategy :=
                      if (totalPrepayment >? 0)%js then Some strategy
                      else None |}] |}
  end.

(** [while (balance > 0.01 && month < maxMonths) { ..;
    if (balance <= 0.01) break; }]: the balance is not zeroed here. *)
Definition fullLoop (c : LoanConfiguration) (fuel : nat) (st : FullState)
  : option FullState :=
  Loops.bounded_while
    (fun st => (fs_balance st >? 1 # 100)%js) (fullBody c)
    (fun st => (fs_balance st <=? 1 # 100)%js) (fun st => st) fuel st.

(** [this.config.interestRateSchedule[0].rate] on an empty schedule. *)
Inductive FullScheduleError :=
| NoRatePeriod.   (* TypeError: cannot read properties of undefined *)

(** [generateFullSchedule()]: no validation; the rows, and the
    calculator with its schedule restored and its EMI overwritten. *)
Definition generateFullSchedule (calc : Calculator)
  : outcome FullScheduleError (list Row * Calculator) :=
  let c := config calc in
  match interestRateSchedule c with
  | [] => Throws NoRatePeriod
  | _ :: _ =>
      match fullLoop c (Z.to_nat (baseTenureMonths c * 3))
                     {| fs_balance := principal c;
                        fs_currentEMI := calculateInitialEMI c;
                        fs_month := 0;
                        fs_fullSchedule := [] |} with
      | None => NotANumber
      | Some st =>
          Ok (fs_fullSchedule st,
              {| config := c;
                 calc_amortizationSchedule := calc_amortizationSchedule calc;
                 calc_currentEMI := fs_currentEMI st |})
      end
  end.

End WithLog.
End LoanCalculatorObject.

(** ** js/core/SIPCalculator.js: sizing the corpus *)
Module WithdrawalPlanning.
Import JS SIPCalculator.

(** [while (iterations < maxIterations && high - low > 1000)] of
    [calculateRequiredCorpus]; [lasts mid] is
    [result.depletedAt === null]. *)
Fixpoint corpusSearch (lasts : num -> bool) (fuel : nat) (low high : num)
  : num :=
  match fuel with
  | O => high
  | S fuel' =>
      if (high - low >? 1000)%js then
        let mid := ((low + high) / 2)%js in
        if lasts mid then corpusSearch lasts fuel' low mid
        else corpusSearch lasts fuel' mid high
      else high
  end.

Definition calculateRequiredCorpus
           (monthlyWithdrawal years annualReturn inflationRate : num)
           (inflationAdjusted : bool) : num :=
  let low := (monthlyWithdrawal * years * 12)%js in
  let high := (low * 3)%js in
  let maxIterations := 100%nat in
  let high :=
    corpusSearch
      (fun mid =>
         match depletedAt
                 (withdrawalCalculate mid monthlyWithdrawal years
                    annualReturn inflationRate inflationAdjusted) with
         | None => true
         | Some _ => false
         end)
      maxIterations low high in
  (ofZ (Math_ceil (high / 100000)%js) * 100000)%js.

(** [calculateSafeWithdrawalRate]: [years] and [inflationRate] are not
    used. *)
Definition calculateSafeWithdrawalRate
           (corpus years annualReturn inflationRate : num) : num :=
  let baseRate := 4 in
  let adjustedRate := (baseRate * (annualReturn / 12))%js in
  let monthlyRate := (adjustedRate / 12 / 100)%js in
  (corpus * monthlyRate)%js.

End WithdrawalPlanning.

(** ** js/core/DataModels.js and SIPCalculator.js: building a SIP *)
Module SIPWrappers.
Import JS SIPModels SIPCalculator.
Local Open Scope string_scope.

(** [this.periods.sort((a, b) => a.startYear - b.startYear)]: a stable
    sort, as for the rate periods of a loan. *)
Fixpoint insert_by_year (p : ReturnPeriod) (l : list ReturnPeriod)
  : list ReturnPeriod :=
  match l with
  | [] => [p]
  | q :: l' =>
      if (startYear p <? startYear q)%Z then p :: l
      else q :: insert_by_year p l'
  end.

Definition sort_by_year (l : list ReturnPeriod) : list ReturnPeriod :=
  fold_left (fun acc p => insert_by_year p acc) l [].

(** [ReturnScenario.addPeriod] *)
Definition addPeriod (s : ReturnScenario) (startYear : Z)
           (endYear : option Z) (annualReturn : num) : ReturnScenario :=
  {| name := name s;
     periods :=
       sort_by_year
         (periods s ++
          [{| startYear := startYear; endYear := endYear;
              annualReturn := annualReturn |}]) |}.

(** [new SIPConfiguration()] *)
Definition newSIPConfiguration : SIPConfiguration :=
  {| monthlyAmount := 0; durationYears := 0; stepUpSchedules := [];
     returnScenarios := []; inflationRate := 0 |}.

(** [this.returnScenarios[name] = scenario] *)
Definition addReturnScenario (c : SIPConfiguration) (scenarioName : string)
           (scenario : ReturnScenario) : SIPConfiguration :=
  {| monthlyAmount := monthlyAmount c; durationYears := durationYears c;
     stepUpSchedules := stepUpSchedules c;
     returnScenarios := (scenarioName, scenario) :: returnScenarios c;
     inflationRate := inflationRate c |}.

(** The fields of [params] read by [calculateSimpleSIP]; [None] is a
    field that is missing. *)
Record SimpleSIPParams := {
  sipAmount : num;
  sipYears : Z;
  sipReturn : num;
  sipStepUp : option num;
  p_inflationRate : option num
}.

(** The configuration that [calculateSimpleSIP] (and, field names apart,
    [buildSIPConfig]) builds. *)
Definition simpleSIPConfig (params : SimpleSIPParams) : SIPConfiguration :=
  let config :=
    {| monthlyAmount := sipAmount params;
       durationYears := sipYears params;
       stepUpSchedules := stepUpSchedules newSIPConfiguration;
       returnScenarios := returnScenarios newSIPConfiguration;
       inflationRate := match p_inflationRate params with
                        | Some x => or_zero x
                        | None => 0
                        end |} in
  let scenario :=
    addPeriod {| name := "realistic"; periods := [] |} 1 None
              (sipReturn params) in
  let config := addReturnScenario config "realistic" scenario in
  match sipStepUp params with
  | Some s =>
      if (s >? 0)%js then
        {| monthlyAmount := monthlyAmount config;
           durationYears := durationYears config;
           stepUpSchedules :=
             stepUpSchedules config ++
             [{| su_startYear := 1; su_endYear := None;
                 stepUpPercent := s |}];
           returnScenarios := returnScenarios config;
           inflationRate := inflationRate config |}
      else config
  | None => config
  end.

Definition calculateSimpleSIP (params : SimpleSIPParams)
  : outcome SipError Result :=
  calculate (simpleSIPConfig params) "realistic".

End SIPWrappers.

(** ** js/core/DataModels.js: [ScenarioComparison] *)
Module Scenarios.
Import JS DataModels.

(** [id] is the UUID drawn by the constructor, [createdAt] its
    [Date.now()]; [results] is [null] until a calculation is stored. *)
Record LoanScenario := {
  id : string;
  s_name : string;
  s_config : LoanConfiguration;
  results : option LoanCalculator.Result;
  createdAt : Z
}.

Record ScenarioComparison := {
  scenarios : list LoanScenario;
  baseScenarioId : option string
}.

(** [new ScenarioComparison()] *)
Definition newScenarioComparison : ScenarioComparison :=
  {| scenarios := []; baseScenarioId := None |}.

Definition addScenario (sc : ScenarioComparison) (scenario : LoanScenario)
  : ScenarioComparison :=
  let scenarios := scenarios sc ++ [scenario] in
  {| scenarios := scenarios;
     baseScenarioId :=
       if (List.length scenarios =? 1)%nat then Some (id scenario)
       else baseScenarioId sc |}.

Definition removeScenario (sc : ScenarioComparison) (scenarioId : string)
  : ScenarioComparison :=
  let scenarios :=
    filter (fun s => negb (String.eqb (id s) scenarioId)) (scenarios sc) in
  {| scenarios := scenarios;
     baseScenarioId :=
       match baseScenarioId sc, scenarios with
       | Some base, first :: _ =>
           if String.eqb base scenarioId then Some (id first)
           else Some base
       | base, _ => base
       end |}.

(** [this.scenarios.find(s => s.id === scenarioId)]; no scenario has
    the id [null]. *)
Definition getScenarioById (sc : ScenarioComparison)
           (scenarioId : option string) : option LoanScenario :=
  match scenarioId with
  | Some i => find (fun s => String.eqb (id s) i) (scenarios sc)
  | None => None
  end.

Record Metrics := {
  m_id : string;
  m_name : string;
  m_totalInterest : num;
  m_totalPayment : num;
  m_months : Z;
  interestSavedVsBase : num;
  tenureReducedVsBase : Z;
  isBase : bool
}.

(** [map] to a row or [null], then [filter(m => m !== null)]. *)
Definition getComparativeMetrics (sc : ScenarioComparison)
  : list Metrics :=
  match getScenarioById sc (baseScenarioId sc) with
  | None => []
  | Some baseScenario =>
      match results baseScenario with
      | None => []
      | Some baseResults =>
          flat_map
            (fun scenario =>
               match results scenario with
               | None => []
               | Some r =>
                   [{| m_id := id scenario;
                       m_name := s_name scenario;
                       m_totalInterest := LoanCalculator.totalInterest r;
                       m_totalPayment := LoanCalculator.totalPayment r;
                       m_months := LoanCalculator.months r;
                       interestSavedVsBase :=
                         (LoanCalculator.totalInterest baseResults
                          - LoanCalculator.totalInterest r)%js;
                       tenureReducedVsBase :=
                         (LoanCalculator.months baseResults
                          - LoanCalculator.months r)%Z;
                       isBase :=
                         match baseScenarioId sc with
                         | Some base => String.eqb (id scenario) base
                         | None => false
                         end |}]
               end)
            (scenarios sc)
      end
  end.

End Scenarios.

(** ** js/core/GoalSeeker.js: the chance of reaching a goal *)
Module GoalProbability.
Import JS GoalSeeker.
Local Open Scope string_scope.

(** The five scenarios, in the order in which the object lists them. *)
Definition returnScenarios (expectedReturn volatility : num)
  : list (string * num) :=
  [("worst", (expectedReturn - volatility)%js);
   ("pessimistic", (expectedReturn - volatility / 2)%js);
   ("realistic", expectedReturn);
   ("optimistic", (expectedReturn + volatility / 2)%js);
   ("best", (expectedReturn + volatility)%js)].

Record ScenarioOutcome := {
  returnRate : num;
  so_achievedAmount : num;
  so_success : bool;
  shortfall : num
}.

Inductive Recommendation :=
| LikelyToAchieve       (* 'Likely to achieve goal' *)
| ModerateChance        (* 'Moderate chance of achieving goal' *)
| ConsiderIncreasing.   (* 'Consider increasing SIP or duration' *)

Record GoalProbabilityResult := {
  probability : num;
  outcomes : list (string * ScenarioOutcome);
  recommendation : Recommendation
}.

Definition outcomeOf (monthlySIP targetAmount : num) (years : Z)
           (rate : num) : ScenarioOutcome :=
  let fv := calculateFutureValue monthlySIP years rate in
  {| returnRate := rate;
     so_achievedAmount := fv;
     so_success := (fv >=? targetAmount)%js;
     shortfall := Math_max 0 (targetAmount - fv)%js |}.

Definition calculateGoalProbability
           (monthlySIP targetAmount : num) (years : Z)
           (expectedReturn volatility : num) : GoalProbabilityResult :=
  let scenarios := returnScenarios expectedReturn volatility in
  let outcomes :=
    map (fun kv => (fst kv,
                    outcomeOf monthlySIP targetAmount years (snd kv)))
        scenarios in
  let successCount :=
    fold_left (fun n kv => if so_success (snd kv) then (n + 1)%Z else n)
              outcomes 0%Z in
  {| probability :=
       (ofZ successCount / ofZ (Z.of_nat (List.length scenarios))
        * 100)%js;
     outcomes := outcomes;
     recommendation :=
       if (successCount >=? 3)%Z then LikelyToAchieve
       else if (successCount >=? 2)%Z then ModerateChance
       else ConsiderIncreasing |}.

End GoalProbability.

(** ** The v2 loan calculator: the balance at a month

    [getBalanceAtMonth] simulates with locals of its own, but
    [_estimateRemainingMonths] reads [this.currentEMI], the field that
    the constructor sets to 0 and [calculate()] overwrites. *)
Module BalanceLookupV2.
Import JS DataModels Validation Formatters LoanCalculatorV2.

(** The fields of a v2 [AdvancedLoanCalculator]. *)
Record Calculator := {
  config : LoanConfiguration;
  calc_amortizationSchedule : list Row;
  calc_currentEMI : num
}.

(** [new AdvancedLoanCalculator(config)] *)
Definition newCalculator (c : LoanConfiguration) : Calculator :=
  {| config := c; calc_amortizationSchedule := []; calc_currentEMI := 0 |}.

(** The locals of the [for] loop. *)
Record Locals := {
  l_balance : num;
  l_emi : num;
  l_totalInterest : num;
  l_totalPrincipal : num
}.

Inductive BalanceError :=
| MonthMustBePositive                       (* 'Month must be >= 1' *)
| InvalidConfiguration (errors : list ConfigError).

Record BalanceAt := {
  ba_month : Z;
  ba_balance : num;
  ba_totalInterestPaid : num;
  ba_totalPrincipalPaid : num
}.

Section WithLog.
Variable Math_log : num -> num.

(** The body of the loop at month [m]; [None] is a NaN from
    [_estimateRemainingMonths]. *)
Definition lookupBody (calc : Calculator) (m : Z) (st : Locals)
  : option Locals :=
  let c := config calc in
  let rate := getInterestRateForMonth c m in
  let mr := (rate / 100 / 12)%js in
  let interest := (l_balance st * mr)%js in
  let principal := Math_min (l_emi st - interest)%js (l_balance st) in
  let principal := if (principal <? 0)%js then 0 else principal in
  let prepInfo := _getPrepaymentForMonth c m in
  let prepayment :=
    Math_min (LoanCalculator.amount prepInfo)
             (l_balance st - principal)%js in
  let prepayment := if (prepayment <? 0)%js then 0 else prepayment in
  let strategy := match LoanCalculator.strategy prepInfo with
                  | Some s => s
                  | None => defaultStrategy c
                  end in
  let applied :=
    if (prepayment >? 0)%js then
      match strategy with
      | REDUCE_EMI =>
          let principal := (principal + prepayment)%js in
          let nb := (l_balance st - principal)%js in
          if (nb >? 1 # 100)%js then
            match _estimateRemainingMonths Math_log c (calc_currentEMI calc)
                                           nb rate with
            | Some rem => Some (principal, _emi nb rate rem)
            | None => None
            end
          else Some (principal, l_emi st)
      | REDUCE_TENURE => Some ((principal + prepayment)%js, l_emi st)
      end
    else Some (principal, l_emi st) in
  match applied with
  | None => None
  | Some (principal, emi) =>
      let principal :=
        if (principal >? l_balance st)%js then l_balance st
        else principal in
      let balance := (l_balance st - principal)%js in
      Some {| l_balance := if (balance <? 0)%js then 0 else balance;
              l_emi := emi;
              l_totalInterest := (l_totalInterest st + interest)%js;
              l_totalPrincipal := (l_totalPrincipal st + principal)%js |}
  end.

(** [for (let m = 1; m <= targetMonth && balance > 0.01; m++)];
    [fuel] is [targetMonth - m + 1]. *)
Fixpoint lookupLoop (calc : Calculator) (fuel : nat) (m : Z) (st : Locals)
  : option Locals :=
  match fuel with
  | O => Some st
  | S fuel' =>
      if (l_balance st >? 1 # 100)%js then
        match lookupBody calc m st with
        | Some st' => lookupLoop calc fuel' (m + 1) st'
        | None => None
        end
      else Some st
  end.

(** [targetMonth] is a whole number of months. *)
Definition getBalanceAtMonth (calc : Calculator) (targetMonth : Z)
  : outcome BalanceError BalanceAt :=
  if (targetMonth <? 1)%Z then Throws MonthMustBePositive
  else
    let c := config calc in
    match validate c with
    | (_ :: _) as errors => Throws (InvalidConfiguration errors)
    | [] =>
        match lookupLoop calc (Z.to_nat targetMonth) 1
                {| l_balance := principal c;
                   l_emi := _calculateInitialEMI c;
                   l_totalInterest := 0;
                   l_totalPrincipal := 0 |} with
        | None => NotANumber
        | Some st =>
            Ok {| ba_month := targetMonth;
                  ba_balance := roundCurrency (l_balance st);
                  ba_totalInterestPaid := roundCurrency (l_totalInterest st);
                  ba_totalPrincipalPaid :=
                    roundCurrency (l_totalPrincipal st) |}
        end
    end.

End WithLog.
End BalanceLookupV2.

(** ** v2/js/utils/validators.js and [calculateEMI] on arbitrary arguments

    [EMICalculator.validateLoanInputs] above is the validator on finite
    numbers and a whole tenure.  The source checks that much itself
    ([typeof], [Number.isFinite], [Number.isInteger]) before it compares;
    here the arguments are whatever a caller passes. *)
Module LoanInputs.
Import JS Formatters EMICalculator.

(** An argument, as far as the validators tell arguments apart. *)
Inductive arg :=
| Finite (x : num)   (* a number that [Number.isFinite] accepts *)
| NonFinite          (* NaN, Infinity or -Infinity *)
| NoNumber.          (* [typeof val !== 'number'] *)

(** [typeof val !== 'number' || !Number.isFinite(val) || bad(val)] *)
Definition rejects (bad : num -> bool) (val : arg) : bool :=
  match val with
  | Finite x => bad x
  | NonFinite | NoNumber => true
  end.

(** [Number.isInteger] on a finite number. *)
Definition Number_isInteger (x : num) : bool := (ofZ (Qfloor x) =? x)%js.

Definition validateLoanInputs (principal rate tenure : arg)
  : list InputError :=
  (if rejects (fun x => (x <=? 0)%js) principal
   then [BadPrincipal] else []) ++
  (if rejects (fun x => (x <? 0)%js) rate then [BadRate] else []) ++
  (if rejects (fun x => (x <=? 0)%js || negb (Number_isInteger x)) tenure
   then [BadTenure] else []).

(** [calculateEMI]; past the validation the three arguments are finite
    numbers and the tenure is whole. *)
Definition calculateEMI (principal annualRate tenureMonths : arg)
  : outcome (list InputError) EMIResult :=
  match validateLoanInputs principal annualRate tenureMonths with
  | (_ :: _) as errors => Throws errors
  | [] =>
      match principal, annualRate, tenureMonths with
      | Finite p, Finite rate, Finite n =>
          let emi := _emi p rate (Qfloor n) in
          let totalPayment := roundCurrency (emi * n)%js in
          let totalInterest := roundCurrency (totalPayment - p)%js in
          Ok {| emi := roundCurrency emi;
                totalInterest := totalInterest;
                totalPayment := totalPayment |}
      | _, _, _ => NotANumber   (* not reached *)
      end
  end.

End LoanInputs.

(** * The projections over IEEE-754 doubles

    The models above compute with exact rationals.  Whether two
    computations give the same number digit for digit is decided on the
    doubles themselves: Rocq's primitive floats are binary64 with
    round-to-nearest-even, the arithmetic of JavaScript's [+], [-], [*]
    and [/].  Counters (months, years) stay integers. *)
Module Doubles.
Local Open Scope float_scope.

(** A counter used as a number; exact below 2^53. *)
Definition ofZ (z : Z) : float := PrimFloat.of_uint63 (Uint63.of_Z z).

(** [x || 0] on a number: NaN and the zeros are falsy. *)
Definition or_zero (x : float) : float :=
  if (x =? 0) || PrimFloat.is_nan x then 0 else x.

(** ** js/core/DataModels.js: the SIP data models *)

Record ReturnPeriod := {
  startYear : Z;
  endYear : option Z;
  annualReturn : float
}.

Definition isActiveForYear (p : ReturnPeriod) (year : Z) : bool :=
  (startYear p <=? year)%Z &&
  match endYear p with None => true | Some e => (year <=? e)%Z end.

Record ReturnScenario := {
  name : string;
  periods : list ReturnPeriod
}.

Definition getReturnForYear (s : ReturnScenario) (year : Z) : float :=
  match find (fun p => isActiveForYear p year) (periods s) with
  | Some period => annualReturn period
  | None => match periods s with
            | first :: _ => or_zero (annualReturn first)
            | [] => 0
            end
  end.

Record StepUpSchedule := {
  su_startYear : Z;
  su_endYear : option Z;
  stepUpPercent : float
}.

Record SIPConfiguration := {
  monthlyAmount : float;
  durationYears : Z;
  stepUpSchedules : list StepUpSchedule;
  returnScenarios : list (string * ReturnScenario);
  inflationRate : float
}.

Definition lookupScenario (c : SIPConfiguration) (scenarioName : string)
  : option ReturnScenario :=
  match find (fun kv => String.eqb (fst kv) scenarioName)
             (returnScenarios c) with
  | Some kv => Some (snd kv)
  | None => None
  end.

(** ** js/core/SIPCalculator.js: [AdvancedSIPCalculator] *)

Definition applySteUpSchedule (c : SIPConfiguration) (currentSIP : float)
           (year : Z) : float :=
  match find (fun s => (su_startYear s <=? year)%Z &&
                       match su_endYear s with
                       | None => true
                       | Some e => (year <=? e)%Z
                       end)
             (stepUpSchedules c) with
  | Some s => currentSIP * (1 + stepUpPercent s / 100)
  | None => currentSIP
  end.

Record ScheduleRow := {
  sr_month : Z;
  sr_year : Z;
  sr_sipAmount : float;
  sr_balance : float;
  sr_inflationAdjusted : float;
  sr_totalInvested : float;
  sr_returnRate : float
}.

Record SipState := {
  month : Z;
  balance : float;
  totalInvested : float;
  currentSIP : float;
  schedule : list ScheduleRow
}.

Record Result := {
  success : bool;
  finalValue : float;
  r_totalInvested : float;
  wealthGain : float;
  realValue : float;
  effectiveReturn : float;
  r_schedule : list ScheduleRow
}.

Inductive SipError :=
| ScenarioNotFound (scenarioName : string).

Section WithPow.
(** [Math.pow]: an implementation-approximated value (ECMA-262), so a
    parameter. *)
Variable Math_pow : float -> float -> float.

(** The body of [for (let month = 1; month <= months; month++)].
    [Math.ceil(month / 12)] is the integer ceiling: the quotient of a
    counter by 12 is exact or at least a twelfth away from a whole
    number. *)
Definition sipBody (c : SIPConfiguration) (scenario : ReturnScenario)
           (months : Z) (st : SipState) : SipState :=
  let month := (month st + 1)%Z in
  let year := ((month + 11) / 12)%Z in
  let currentSIP :=
    if (month >? 1)%Z && (Z.rem (month - 1) 12 =? 0)%Z
    then applySteUpSchedule c (currentSIP st) year
    else currentSIP st in
  let returnRate := getReturnForYear scenario year in
  let monthlyReturn := returnRate / 100 / 12 in
  let totalInvested := totalInvested st + currentSIP in
  let balance := (balance st + currentSIP) * (1 + monthlyReturn) in
  let inflationAdjusted :=
    if 0 <? inflationRate c
    then balance / Math_pow (1 + inflationRate c / 100 / 12) (ofZ month)
    else balance in
  {| month := month; balance := balance; totalInvested := totalInvested;
     currentSIP := currentSIP;
     schedule :=
       if (Z.rem month 6 =? 0)%Z || (month =? 1)%Z || (month =? months)%Z
       then schedule st ++
            [{| sr_month := month; sr_year := year;
                sr_sipAmount := currentSIP; sr_balance := balance;
                sr_inflationAdjusted := inflationAdjusted;
                sr_totalInvested := totalInvested;
                sr_returnRate := returnRate |}]
       else schedule st |}.

Fixpoint sipLoop (c : SIPConfiguration) (scenario : ReturnScenario)
         (months : Z) (fuel : nat) (st : SipState) : SipState :=
  match fuel with
  | O => st
  | S fuel' => sipLoop c scenario months fuel' (sipBody c scenario months st)
  end.

Definition calculateEffectiveReturn (invested finalValue : float)
           (years : Z) : float :=
  if (invested <=? 0) || (years <=? 0)%Z then 0
  else (Math_pow (finalValue / invested) (1 / ofZ years) - 1) * 100.

Definition calculate (c : SIPConfiguration) (scenarioName : string)
  : outcome SipError Result :=
  match lookupScenario c scenarioName with
  | None => Throws (ScenarioNotFound scenarioName)
  | Some scenario =>
      let months := (durationYears c * 12)%Z in
      let st := sipLoop c scenario months (Z.to_nat months)
                  {| month := 0; balance := 0; totalInvested := 0;
                     currentSIP := monthlyAmount c; schedule := [] |} in
      Ok {| success := true;
            finalValue := balance st;
            r_totalInvested := totalInvested st;
            wealthGain := balance st - totalInvested st;
            realValue :=
              if 0 <? inflationRate c
              then balance st
                   / Math_pow (1 + inflationRate c / 100)
                              (ofZ (durationYears c))
              else balance st;
            effectiveReturn :=
              calculateEffectiveReturn (totalInvested st) (balance st)
                                       (durationYears c);
            r_schedule := schedule st |}
  end.

(** ** js/core/GoalSeeker.js: [calculateFutureValue] *)
Definition calculateFutureValue (monthlySIP : float) (years : Z)
           (annualReturn : float) : float :=
  let months := ofZ (years * 12) in
  let r := annualReturn / 100 / 12 in
  if r =? 0 then monthlySIP * months
  else monthlySIP * ((Math_pow (1 + r) months - 1) / r) * (1 + r).

End WithPow.

(** ** The value of a finite double *)
Definition toQ (x : float) : Q :=
  match Prim2SF x with
  | S754_finite s m e =>
      ((if s then -1 else 1) * inject_Z (Zpos m) * Qpower 2 e)%Q
  | _ => 0%Q
  end.

(** The doubles up to [n] steps above and below [x]. *)
Fixpoint above (n : nat) (x : float) : list float :=
  match n with
  | O => []
  | S n' => PrimFloat.next_up x :: above n' (PrimFloat.next_up x)
  end.

Fixpoint below (n : nat) (x : float) : list float :=
  match n with
  | O => []
  | S n' => PrimFloat.next_down x :: below n' (PrimFloat.next_down x)
  end.

Definition around (n : nat) (x : float) : list float :=
  rev (below n x) ++ x :: above n x.

End Doubles.

(** * Properties *)

(** ** Arithmetic of the number model *)
Module JSFacts.
Import JS.

Lemma add_eq a b : (a + b)%js == a + b.
Proof. apply Qred_correct. Qed.

Lemma sub_eq a b : (a - b)%js == a - b.
Proof. apply Qred_correct. Qed.

Lemma mul_eq a b : (a * b)%js == a * b.
Proof. apply Qred_correct. Qed.

Lemma div_eq a b : (a / b)%js == a / b.
Proof. apply Qred_correct. Qed.

Lemma pow_eq b n : Math_pow b n == Qpower b n.
Proof. apply Qred_correct. Qed.

Lemma le_true a b : (a <=? b)%js = true <-> a <= b.
Proof. apply Qle_bool_iff. Qed.

Lemma le_false a b : (a <=? b)%js = false <-> b < a.
Proof.
  unfold le. rewrite <- Bool.not_true_iff_false, Qle_bool_iff.
  split; [apply Qnot_le_lt | apply Qlt_not_le].
Qed.

Lemma lt_true a b : (a <? b)%js = true <-> a < b.
Proof. unfold lt. rewrite Bool.negb_true_iff. apply le_false. Qed.

Lemma lt_false a b : (a <? b)%js = false <-> b <= a.
Proof. unfold lt. rewrite Bool.negb_false_iff. apply le_true. Qed.

Lemma gt_true a b : (a >? b)%js = true <-> b < a.
Proof. apply lt_true. Qed.

Lemma gt_false a b : (a >? b)%js = false <-> a <= b.
Proof. apply lt_false. Qed.

Lemma eqb_true a b : (a =? b)%js = true <-> a == b.
Proof. apply Qeq_bool_iff. Qed.

Lemma eqb_false a b : (a =? b)%js = false <-> ~ a == b.
Proof.
  unfold eqb. rewrite <- Bool.not_true_iff_false, Qeq_bool_iff. tauto.
Qed.

Lemma min_cases a b :
  (a <= b /\ Math_min a b = a) \/ (b < a /\ Math_min a b = b).
Proof.
  unfold Math_min. destruct (a <=? b)%js eqn:E.
  - left. split; [now apply le_true | reflexivity].
  - right. split; [now apply le_false | reflexivity].
Qed.

Lemma max_cases a b :
  (a <= b /\ Math_max a b = b) \/ (b < a /\ Math_max a b = a).
Proof.
  unfold Math_max. destruct (a <=? b)%js eqn:E.
  - left. split; [now apply le_true | reflexivity].
  - right. split; [now apply le_false | reflexivity].
Qed.

Lemma or_zero_eq x : or_zero x == x.
Proof.
  unfold or_zero. destruct (x =? 0)%js eqn:E; [|reflexivity].
  apply eqb_true in E. now rewrite E.
Qed.

(** [a / 100 / 12] is the 1200th part of [a]. *)
Lemma monthly_rate_eq a : (a / 100 / 12)%js == a * (1 # 1200).
Proof. rewrite div_eq, div_eq. field. Qed.

End JSFacts.

(** Turn the boolean tests of the model into order facts on [Q]. *)
Ltac js_test E :=
  first
    [ apply JSFacts.le_true in E   | apply JSFacts.le_false in E
    | apply JSFacts.lt_true in E   | apply JSFacts.lt_false in E
    | apply JSFacts.gt_true in E   | apply JSFacts.gt_false in E
    | apply JSFacts.eqb_true in E  | apply JSFacts.eqb_false in E ].

Ltac js_norm :=
  repeat first
    [ rewrite JSFacts.add_eq | rewrite JSFacts.sub_eq
    | rewrite JSFacts.mul_eq | rewrite JSFacts.div_eq ].

Ltac js_norm_in H :=
  repeat first
    [ rewrite JSFacts.add_eq in H | rewrite JSFacts.sub_eq in H
    | rewrite JSFacts.mul_eq in H | rewrite JSFacts.div_eq in H ].

(** ** Rate resolution ([LoanConfiguration.getInterestRateForMonth]) *)
Module RateScheduleFacts.
Import JS DataModels.

(** The spec's reading: the last entry of the schedule whose range
    contains the month. *)
Definition lastMatching (month : Z) (sched : list InterestRatePeriod)
  : option InterestRatePeriod :=
  find (fun p => rp_isActiveForMonth p month) (rev sched).

Definition rateAtSpec (sched : list InterestRatePeriod) (month : Z) : num :=
  match lastMatching month sched with
  | Some p => rp_rate p
  | None => match sched with
            | [] => 0
            | first :: _ => rp_rate first
            end
  end.

Lemma find_snoc {A} (f : A -> bool) (l : list A) (a : A) :
  find f (l ++ [a]) =
  match find f l with
  | Some x => Some x
  | None => if f a then Some a else None
  end.
Proof.
  induction l as [|x l IH]; simpl; [reflexivity|].
  destruct (f x); [reflexivity | exact IH].
Qed.

Lemma scan_fold (month : Z) (sched : list InterestRatePeriod)
      (acc : option num) :
  fold_left
    (fun applicableRate period =>
       if rp_isActiveForMonth period month then Some (rp_rate period)
       else applicableRate)
    sched acc =
  match lastMatching month sched with
  | Some p => Some (rp_rate p)
  | None => acc
  end.
Proof.
  unfold lastMatching. revert acc.
  induction sched as [|p sched IH]; intros acc; simpl; [reflexivity|].
  rewrite IH, find_snoc.
  destruct (find _ (rev sched)); [reflexivity|].
  destruct (rp_isActiveForMonth p month); reflexivity.
Qed.

Lemma rate_is_last_match (c : LoanConfiguration) (month : Z) :
  getInterestRateForMonth c month
  == rateAtSpec (interestRateSchedule c) month.
Proof.
  unfold getInterestRateForMonth, scanRates, rateAtSpec.
  rewrite scan_fold.
  destruct (lastMatching month (interestRateSchedule c)); [reflexivity|].
  destruct (interestRateSchedule c); [reflexivity|].
  apply JSFacts.or_zero_eq.
Qed.

(** [addRatePeriod] leaves the schedule in ascending start order. *)
Definition startLe (p q : InterestRatePeriod) : Prop :=
  (rp_startMonth p <= rp_startMonth q)%Z.

Lemma insert_sorted p l :
  StronglySorted startLe l ->
  StronglySorted startLe (insert_by_start p l).
Proof.
  induction 1 as [|q l Hl IH Hq]; simpl.
  - constructor; constructor.
  - destruct (rp_startMonth p <? rp_startMonth q)%Z eqn:E.
    + apply Z.ltb_lt in E. constructor.
      * now constructor.
      * constructor; [unfold startLe; lia|].
        eapply Forall_impl; [|exact Hq].
        unfold startLe. intros; lia.
    + apply Z.ltb_ge in E. constructor; [exact IH|].
      assert (HF : forall l', Forall (startLe q) l' ->
                   Forall (startLe q) (insert_by_start p l')).
      { induction l' as [|x l' IHl]; simpl; intros HF.
        - constructor; [exact E | constructor].
        - inversion HF; subst.
          destruct (rp_startMonth p <? rp_startMonth x)%Z;
            constructor; auto. }
      now apply HF.
Qed.

Lemma sort_sorted l : StronglySorted startLe (sort_by_start l).
Proof.
  unfold sort_by_start.
  assert (H : forall acc, StronglySorted startLe acc ->
              StronglySorted startLe
                (fold_left (fun acc p => insert_by_start p acc) l acc)).
  { induction l as [|p l IH]; simpl; intros acc Hacc; [exact Hacc|].
    apply IH, insert_sorted, Hacc. }
  apply H. constructor.
Qed.

(** The schedule of the spec's example: [1, open) at 5 %, then [6, 12]
    at 8 %, added in that order. *)
Definition exampleConfig : LoanConfiguration :=
  addRatePeriod (addRatePeriod newLoanConfiguration 1 5 None)
                6 8 (Some 12%Z).

(** C1. Rate resolution is last-match-wins: for every configuration and
    month, [getInterestRateForMonth] is the rate of the last schedule entry
    whose range contains the month, else the first entry's rate, else 0;
    [addRatePeriod] keeps the schedule sorted by start month; and for the
    schedule [1, open) at 5 then [6, 12] at 8 the rate is 8 at month 7 and
    5 at months 1 and 13. *)
Theorem rate_resolution_last_match_wins :
  (forall (c : LoanConfiguration) (m : Z),
      getInterestRateForMonth c m
      == rateAtSpec (interestRateSchedule c) m) /\
  (forall (c : LoanConfiguration) s r e,
      StronglySorted startLe
        (interestRateSchedule (addRatePeriod c s r e))) /\
  getInterestRateForMonth exampleConfig 7 = 8 /\
  getInterestRateForMonth exampleConfig 1 = 5 /\
  getInterestRateForMonth exampleConfig 13 = 5.
Proof.
  split; [exact rate_is_last_match|].
  split; [intros; apply sort_sorted|].
  repeat split; reflexivity.
Qed.

End RateScheduleFacts.

(** ** Strategy override resolution ([getPrepaymentForMonth]) *)
Module PrepaymentFacts.
Import JS DataModels LoanCalculator.

(** The non-null overrides of the entries of one list that are active in
    the month, in list order. *)
Definition overridesOf {A : Type} (active : A -> bool)
           (strat : A -> option Strategy) (l : list A) : list Strategy :=
  flat_map (fun p => if active p
                     then match strat p with Some s => [s] | None => [] end
                     else [])
           l.

Definition lastOf (l : list Strategy) : option Strategy :=
  match rev l with
  | [] => None
  | s :: _ => Some s
  end.

Lemma lastOf_app (a b : list Strategy) :
  lastOf (a ++ b) =
  match lastOf b with Some s => Some s | None => lastOf a end.
Proof.
  unfold lastOf. rewrite rev_app_distr.
  destruct (rev b); simpl; reflexivity.
Qed.

Lemma lastOf_cons_app (s : Strategy) (b : list Strategy) :
  lastOf (s :: b) =
  match lastOf b with Some s' => Some s' | None => Some s end.
Proof. change (s :: b) with ([s] ++ b). now rewrite lastOf_app. Qed.

Lemma scan_strategy {A : Type} (active : A -> bool) (amount : A -> num)
      (strat : A -> option Strategy) (label : string) (l : list A)
      (acc : PrepaymentInfo) :
  pi_strategy (scanPrepayments active amount strat label l acc) =
  match lastOf (overridesOf active strat l) with
  | Some s => Some s
  | None => pi_strategy acc
  end.
Proof.
  unfold scanPrepayments. revert acc.
  induction l as [|p l IH]; intros acc; simpl; [reflexivity|].
  rewrite IH. destruct (active p); simpl; [|reflexivity].
  destruct (strat p) as [s|]; simpl; [|reflexivity].
  rewrite lastOf_cons_app.
  destruct (lastOf (overridesOf active strat l)); reflexivity.
Qed.

Definition monthlyOverrides (c : LoanConfiguration) (m : Z) :=
  overridesOf (fun p => mp_isActiveForMonth p m) mp_strategy
              (monthly (prepaymentStrategy c)).
Definition yearlyOverrides (c : LoanConfiguration) (m : Z) :=
  overridesOf (fun p => yp_isActiveForMonth p m) yp_strategy
              (yearly (prepaymentStrategy c)).
Definition oneTimeOverrides (c : LoanConfiguration) (m : Z) :=
  overridesOf (fun p => ot_isActiveForMonth p m) ot_strategy
              (oneTime (prepaymentStrategy c)).

Lemma resolved_strategy (c : LoanConfiguration) (m : Z) :
  strategy (getPrepaymentForMonth c m) =
  lastOf (monthlyOverrides c m ++ yearlyOverrides c m
          ++ oneTimeOverrides c m).
Proof.
  unfold getPrepaymentForMonth, collectPrepayments. simpl.
  rewrite !scan_strategy. simpl.
  rewrite !lastOf_app.
  unfold monthlyOverrides, yearlyOverrides, oneTimeOverrides.
  destruct (lastOf (overridesOf _ ot_strategy _)); [reflexivity|].
  destruct (lastOf (overridesOf _ yp_strategy _)); [reflexivity|].
  destruct (lastOf (overridesOf _ mp_strategy _)); reflexivity.
Qed.

Lemma lastOf_nil_inv (l : list Strategy) : lastOf l = None -> l = [].
Proof.
  unfold lastOf. destruct (rev l) eqn:E; [|discriminate].
  intros _. apply (f_equal (@rev _)) in E.
  now rewrite rev_involutive in E.
Qed.

(** C10. The strategy resolved for a month is the last non-null override
    met when the active monthly entries are scanned first, then the yearly
    ones, then the one-time ones: an active one-time override beats every
    yearly and monthly one, a yearly override beats every monthly one, and
    only the order inside one list matters. *)
Theorem override_precedence_by_kind (c : LoanConfiguration) (m : Z) :
  let mo := monthlyOverrides c m in
  let yo := yearlyOverrides c m in
  let oo := oneTimeOverrides c m in
  let resolved := strategy (getPrepaymentForMonth c m) in
  resolved = lastOf (mo ++ yo ++ oo) /\
  (oo <> [] -> resolved = lastOf oo) /\
  (oo = [] -> yo <> [] -> resolved = lastOf yo) /\
  (oo = [] -> yo = [] -> resolved = lastOf mo).
Proof.
  intros mo yo oo resolved.
  assert (H : resolved = lastOf (mo ++ yo ++ oo))
    by apply resolved_strategy.
  split; [exact H|].
  rewrite H, !lastOf_app. repeat split.
  - intros Hne. destruct (lastOf oo) eqn:E; [reflexivity|].
    now apply lastOf_nil_inv in E.
  - intros -> Hne. simpl.
    destruct (lastOf yo) eqn:E; [reflexivity|].
    now apply lastOf_nil_inv in E.
  - intros -> ->. reflexivity.
Qed.

End PrepaymentFacts.

(** ** Bounded loops: invariants and the origin of ledger rows *)
Module LoopFacts.
Import Loops.

Lemma nth_error_lt {A : Type} (l : list A) (n : nat) (a : A) :
  nth_error l n = Some a -> (n < List.length l)%nat.
Proof. intros H. apply nth_error_Some. congruence. Qed.

Section BoundedWhile.
Variable St : Type.
Variable cond : St -> bool.
Variable body : St -> option St.
Variable exits : St -> bool.
Variable onExit : St -> St.

Abbreviation run := (bounded_while cond body exits onExit).

Lemma run_S (fuel : nat) (st : St) :
  run (S fuel) st =
  if cond st then
    match body st with
    | None => None
    | Some st' => if exits st' then Some (onExit st') else run fuel st'
    end
  else Some st.
Proof. reflexivity. Qed.

(** A property kept by the body and by the exit holds at the end, and
    the loop has a result when the body has one on every state with the
    property. *)
Lemma run_total (P : St -> Prop) :
  (forall s, P s -> cond s = true -> exists s', body s = Some s' /\ P s') ->
  (forall s, P s -> P (onExit s)) ->
  forall fuel s, P s -> exists fin, run fuel s = Some fin /\ P fin.
Proof.
  intros Hbody Hexit. induction fuel as [|fuel IH]; intros s Hs.
  - exists s. split; [reflexivity | exact Hs].
  - rewrite run_S. destruct (cond s) eqn:Ec.
    + destruct (Hbody s Hs Ec) as (s' & -> & Hs').
      destruct (exits s').
      * eexists. split; [reflexivity | now apply Hexit].
      * now apply IH.
    + exists s. split; [reflexivity | exact Hs].
Qed.

Lemma run_invariant (P : St -> Prop) :
  (forall s s', P s -> cond s = true -> body s = Some s' -> P s') ->
  (forall s, P s -> P (onExit s)) ->
  forall fuel s fin, P s -> run fuel s = Some fin -> P fin.
Proof.
  intros Hbody Hexit. induction fuel as [|fuel IH]; intros s fin Hs.
  - simpl. now intros [= <-].
  - rewrite run_S. destruct (cond s) eqn:Ec.
    + destruct (body s) as [s'|] eqn:Eb; [|discriminate].
      destruct (exits s').
      * intros [= <-]. eapply Hexit, Hbody; eauto.
      * apply IH. eapply Hbody; eauto.
    + now intros [= <-].
Qed.

(** Rows: the body appends one row, the exit none. *)
Variable Row : Type.
Variable rows : St -> list Row.
Hypothesis body_rows :
  forall s s', body s = Some s' -> exists r, rows s' = rows s ++ [r].
Hypothesis exit_rows : forall s, rows (onExit s) = rows s.

Lemma rows_extend (fuel : nat) (s fin : St) :
  run fuel s = Some fin -> exists more, rows fin = rows s ++ more.
Proof.
  revert s. induction fuel as [|fuel IH]; intros s.
  - simpl. intros [= <-]. exists []. now rewrite app_nil_r.
  - rewrite run_S. destruct (cond s).
    + destruct (body s) as [s'|] eqn:Eb; [|discriminate].
      destruct (body_rows _ _ Eb) as [r Hr].
      destruct (exits s').
      * intros [= <-]. exists [r]. now rewrite exit_rows.
      * intros H. destruct (IH _ H) as [more Hm].
        exists (r :: more). rewrite Hm, Hr, <- app_assoc. reflexivity.
    + intros [= <-]. exists []. now rewrite app_nil_r.
Qed.

(** The row at position [k] past the starting rows was appended by the
    body run on the state reached after [k] iterations. *)
Lemma row_origin (fuel : nat) (s fin : St) (k : nat) (r : Row) :
  run fuel s = Some fin ->
  nth_error (rows fin) (List.length (rows s) + k) = Some r ->
  exists sk sk',
    run k s = Some sk /\ cond sk = true /\ body sk = Some sk' /\
    rows sk' = rows sk ++ [r] /\
    List.length (rows sk) = (List.length (rows s) + k)%nat.
Proof.
  revert s k. induction fuel as [|fuel IH]; intros s k.
  - simpl. intros [= <-] Hn.
    apply nth_error_lt in Hn; lia.
  - rewrite run_S. destruct (cond s) eqn:Ec.
    + destruct (body s) as [s'|] eqn:Eb; [|discriminate].
      destruct (body_rows _ _ Eb) as [r1 Hr1].
      destruct (exits s') eqn:Ee.
      * intros [= <-] Hn. rewrite exit_rows, Hr1 in Hn.
        destruct k as [|k].
        -- rewrite Nat.add_0_r, nth_error_app2, Nat.sub_diag in Hn
             by lia.
           injection Hn as <-.
           exists s, s'. repeat split; auto.
        -- apply nth_error_lt in Hn.
           rewrite length_app in Hn. simpl in Hn. lia.
      * intros Hrun Hn. destruct k as [|k].
        -- destruct (rows_extend _ _ _ Hrun) as [more Hm].
           rewrite Hm, Hr1, <- app_assoc, Nat.add_0_r,
             nth_error_app2, Nat.sub_diag in Hn by lia.
           injection Hn as <-.
           exists s, s'. repeat split; auto.
        -- assert (Hlen : List.length (rows s')
                          = S (List.length (rows s))).
           { rewrite Hr1, length_app. simpl. lia. }
           replace (List.length (rows s) + S k)%nat
             with (List.length (rows s') + k)%nat in Hn by lia.
           destruct (IH _ _ Hrun Hn) as (sk & sk' & H1 & H2 & H3 & H4 & H5).
           exists sk, sk'. repeat split; auto.
           ++ rewrite run_S, Ec, Eb, Ee. exact H1.
           ++ lia.
    + intros [= <-] Hn. apply nth_error_lt in Hn; lia.
Qed.
End BoundedWhile.
End LoopFacts.

(** ** The v1 amortization engine *)
Module LoanFacts.
Import JS DataModels Validation LoanCalculator.

Definition amountsNonneg (c : LoanConfiguration) : Prop :=
  Forall (fun p => 0 <= mp_amount p) (monthly (prepaymentStrategy c)) /\
  Forall (fun p => 0 <= yp_amount p) (yearly (prepaymentStrategy c)) /\
  Forall (fun p => 0 <= ot_amount p) (oneTime (prepaymentStrategy c)).

Lemma scan_amount_nonneg {A : Type} (active : A -> bool) (amount : A -> num)
      (strat : A -> option Strategy) (label : string) (l : list A)
      (acc : PrepaymentInfo) :
  Forall (fun p => 0 <= amount p) l -> 0 <= pi_amount acc ->
  0 <= pi_amount (scanPrepayments active amount strat label l acc).
Proof.
  unfold scanPrepayments. intros Hl. revert acc.
  induction Hl as [|p l Hp Hl IH]; intros acc Hacc; simpl; [exact Hacc|].
  apply IH. destruct (active p); simpl; [|exact Hacc].
  rewrite JSFacts.add_eq. lra.
Qed.

Lemma amount_nonneg (c : LoanConfiguration) (m : Z) :
  amountsNonneg c -> 0 <= amount (getPrepaymentForMonth c m).
Proof.
  intros (Hm & Hy & Ho). unfold getPrepaymentForMonth, collectPrepayments.
  simpl. repeat apply scan_amount_nonneg; auto. simpl. lra.
Qed.

Lemma scheduledPrincipal_bounds (emi interest b : num) :
  0 <= b ->
  0 <= scheduledPrincipal emi interest b /\
  scheduledPrincipal emi interest b <= b.
Proof.
  intros Hb. unfold scheduledPrincipal.
  destruct (Math_min (emi - interest)%js b <? 0)%js eqn:E; js_test E.
  - lra.
  - split; [exact E|].
    destruct (JSFacts.min_cases (emi - interest)%js b) as [[H ->]|[H ->]];
      lra.
Qed.

(** The monthly rate and the scheduled principal that the body computes
    from a state. *)
Definition monthlyRateAt (c : LoanConfiguration) (m : Z) : num :=
  (getInterestRateForMonth c m / 100 / 12)%js.

Definition scheduledAt (c : LoanConfiguration) (st : State) : num :=
  scheduledPrincipal (currentEMI st)
    (balance st * monthlyRateAt c (month st + 1))%js (balance st).

(** *** Rates of a schedule *)
Definition ratesNonneg (c : LoanConfiguration) : Prop :=
  Forall (fun p => 0 <= rp_rate p) (interestRateSchedule c).

Definition ratesZero (c : LoanConfiguration) : Prop :=
  Forall (fun p => rp_rate p == 0) (interestRateSchedule c).

Lemma rate_from_schedule (P : num -> Prop) (c : LoanConfiguration) (m : Z) :
  (forall x y, x == y -> P x -> P y) -> P 0 ->
  Forall (fun p => P (rp_rate p)) (interestRateSchedule c) ->
  P (getInterestRateForMonth c m).
Proof.
  intros Hcompat H0 Hall.
  apply (Hcompat (RateScheduleFacts.rateAtSpec (interestRateSchedule c) m)).
  { symmetry. apply RateScheduleFacts.rate_is_last_match. }
  unfold RateScheduleFacts.rateAtSpec, RateScheduleFacts.lastMatching.
  rewrite Forall_forall in Hall.
  destruct (find _ (rev (interestRateSchedule c))) as [p|] eqn:E.
  - apply find_some in E. apply Hall, in_rev, E.
  - destruct (interestRateSchedule c) as [|p s]; [exact H0|].
    apply Hall. now left.
Qed.

Lemma rate_nonneg c m : ratesNonneg c -> 0 <= getInterestRateForMonth c m.
Proof.
  intros H. apply (rate_from_schedule (fun x => 0 <= x)); auto.
  - intros x y E Hx. now rewrite <- E.
  - lra.
Qed.

Lemma rate_zero c m : ratesZero c -> getInterestRateForMonth c m == 0.
Proof.
  intros H. apply (rate_from_schedule (fun x => x == 0)); auto.
  - intros x y E Hx. now rewrite <- E.
  - reflexivity.
Qed.

Lemma monthlyRate_nonneg c m : ratesNonneg c -> 0 <= monthlyRateAt c m.
Proof.
  intros H. unfold monthlyRateAt. rewrite JSFacts.monthly_rate_eq.
  pose proof (rate_nonneg c m H). lra.
Qed.

(** *** Plans that never select REDUCE_EMI *)
Definition reduceTenureOnly (c : LoanConfiguration) : Prop :=
  defaultStrategy c = REDUCE_TENURE /\
  Forall (fun p => mp_strategy p <> Some REDUCE_EMI)
         (monthly (prepaymentStrategy c)) /\
  Forall (fun p => yp_strategy p <> Some REDUCE_EMI)
         (yearly (prepaymentStrategy c)) /\
  Forall (fun p => ot_strategy p <> Some REDUCE_EMI)
         (oneTime (prepaymentStrategy c)).

Lemma scan_no_reduce_emi {A : Type} (active : A -> bool)
      (amount : A -> num) (strat : A -> option Strategy) (label : string)
      (l : list A) (acc : PrepaymentInfo) :
  Forall (fun p => strat p <> Some REDUCE_EMI) l ->
  pi_strategy acc <> Some REDUCE_EMI ->
  pi_strategy (scanPrepayments active amount strat label l acc)
  <> Some REDUCE_EMI.
Proof.
  unfold scanPrepayments. intros Hl. revert acc.
  induction Hl as [|p l Hp Hl IH]; intros acc Hacc; simpl; [exact Hacc|].
  apply IH. destruct (active p); simpl; [|exact Hacc].
  destruct (strat p); [exact Hp | exact Hacc].
Qed.

Lemma resolved_reduce_tenure c m :
  reduceTenureOnly c ->
  match strategy (getPrepaymentForMonth c m) with
  | Some s => s
  | None => defaultStrategy c
  end = REDUCE_TENURE.
Proof.
  intros (Hd & Hm & Hy & Ho).
  assert (H : strategy (getPrepaymentForMonth c m) <> Some REDUCE_EMI).
  { unfold getPrepaymentForMonth, collectPrepayments. simpl.
    repeat apply scan_no_reduce_emi; auto. simpl. discriminate. }
  destruct (strategy (getPrepaymentForMonth c m)) as [[|]|]; congruence.
Qed.

(** The balance left by the scheduled payment alone grows with the
    balance it starts from. *)
Lemma scheduled_step_mono (emi mr b1 b2 : num) :
  0 <= mr -> 0 <= b1 -> b1 <= b2 ->
  b1 - scheduledPrincipal emi (b1 * mr)%js b1
  <= b2 - scheduledPrincipal emi (b2 * mr)%js b2.
Proof.
  intros Hmr H1 H12.
  assert (Hi : b1 * mr <= b2 * mr) by (apply Qmult_le_compat_r; lra).
  unfold scheduledPrincipal.
  destruct (JSFacts.min_cases (emi - (b1 * mr)%js)%js b1) as [[Ha ->]|[Ha ->]];
  destruct (JSFacts.min_cases (emi - (b2 * mr)%js)%js b2) as [[Hb ->]|[Hb ->]];
  repeat match goal with
         | |- context [(?x <? 0)%js] =>
             let E := fresh "E" in destruct (x <? 0)%js eqn:E; js_test E
         end;
  rewrite ?JSFacts.sub_eq, ?JSFacts.mul_eq in *;
  set (i1 := b1 * mr) in *; set (i2 := b2 * mr) in *; lra.
Qed.

Section WithLog.
Variable Math_log : num -> num.

Lemma applied_cap c b p e cr mr tp s ap :
  applyPrepayment Math_log c b p e cr mr tp s = Some ap ->
  p <= b ->
  ap_prepayment ap <= b - p /\ (0 <= tp -> 0 <= ap_prepayment ap).
Proof.
  unfold applyPrepayment. intros H Hp.
  destruct (tp >? 0)%js eqn:Et; js_test Et.
  - assert (Hmin : Math_min tp (b - p)%js <= b - p /\
                   0 <= Math_min tp (b - p)%js).
    { destruct (JSFacts.min_cases tp (b - p)%js) as [[H1 ->]|[H1 ->]];
        rewrite JSFacts.sub_eq in *; lra. }
    destruct s.
    + injection H as <-. simpl. tauto.
    + destruct (_ >? _)%js.
      * destruct estimateRemainingMonths; [|discriminate].
        injection H as <-. simpl. tauto.
      * injection H as <-. simpl. tauto.
  - injection H as <-. simpl. split; lra.
Qed.

Lemma body_rows c st st' :
  body Math_log c st = Some st' ->
  exists r, amortizationSchedule st' = amortizationSchedule st ++ [r].
Proof.
  unfold body. destruct applyPrepayment; [|discriminate].
  intros [= <-]. simpl. eauto.
Qed.

Lemma body_month c st st' :
  body Math_log c st = Some st' -> month st' = (month st + 1)%Z.
Proof.
  unfold body. destruct applyPrepayment; [|discriminate].
  now intros [= <-].
Qed.

Lemma body_cap c st st' r :
  body Math_log c st = Some st' ->
  amortizationSchedule st' = amortizationSchedule st ++ [r] ->
  1 # 100 < balance st ->
  row_month r = (month st + 1)%Z /\
  row_prepayment r <= balance st - scheduledAt c st /\
  (amountsNonneg c -> 0 <= row_prepayment r).
Proof.
  unfold body, scheduledAt, monthlyRateAt. intros H Hr Hb.
  destruct applyPrepayment as [ap|] eqn:Ea; [|discriminate].
  injection H as <-. simpl in Hr. apply app_inv_head in Hr.
  injection Hr as <-. simpl.
  apply applied_cap in Ea.
  - split; [reflexivity|]. split; [tauto|].
    intros Hn. apply Ea. now apply amount_nonneg.
  - apply scheduledPrincipal_bounds. lra.
Qed.

Lemma zero_balance_rows st :
  amortizationSchedule (zero_balance st) = amortizationSchedule st.
Proof. reflexivity. Qed.

Lemma loop_month_is_row_count c fuel st fin :
  month st = Z.of_nat (List.length (amortizationSchedule st)) ->
  loop Math_log c fuel st = Some fin ->
  month fin = Z.of_nat (List.length (amortizationSchedule fin)).
Proof.
  unfold loop.
  apply (LoopFacts.run_invariant _ _ _ _ _
           (fun s => month s
                     = Z.of_nat (List.length (amortizationSchedule s)))).
  - intros s s' Hs _ Hb. destruct (body_rows _ _ _ Hb) as [r Hr].
    rewrite (body_month _ _ _ Hb), Hr, length_app, Hs. simpl. lia.
  - intros s Hs. exact Hs.
Qed.

Lemma calculate_ok c res :
  calculate Math_log c = Ok res ->
  validate c = [] /\
  exists fin,
    loop Math_log c (Z.to_nat (baseTenureMonths c * 3)) (initialState c)
    = Some fin /\
    schedule res = amortizationSchedule fin /\
    months res = month fin /\
    totalInterest res = totalInterestPaid fin /\
    originalMonths res = o_months (calculateOriginalLoan c) /\
    originalTotalInterest res
    = o_totalInterest (calculateOriginalLoan c).
Proof.
  unfold calculate. destruct (validate c); [|discriminate].
  destruct loop as [fin|]; [|discriminate].
  intros [= <-]. split; [reflexivity|]. exists fin. simpl. tauto.
Qed.

(** Every ledger row of v1 comes from the state at the start of its
    month and respects the cap computed from that state. *)
Lemma ledger_row_cap c res (k : nat) row :
  calculate Math_log c = Ok res ->
  nth_error (schedule res) k = Some row ->
  exists st,
    loop Math_log c k (initialState c) = Some st /\
    month st = Z.of_nat k /\
    row_month row = (Z.of_nat k + 1)%Z /\
    row_prepayment row <= balance st - scheduledAt c st /\
    (amountsNonneg c -> 0 <= row_prepayment row).
Proof.
  intros Hc Hn. apply calculate_ok in Hc.
  destruct Hc as (_ & fin & Hrun & Hs & _). rewrite Hs in Hn.
  unfold loop in Hrun.
  destruct (LoopFacts.row_origin _ _ _ _ _ _ amortizationSchedule
              (body_rows c) zero_balance_rows _ _ _ k row Hrun Hn)
    as (sk & sk' & H1 & H2 & H3 & H4 & H5).
  simpl in H5. exists sk. split; [exact H1|].
  assert (Hm : month sk = Z.of_nat k).
  { rewrite <- H5. eapply loop_month_is_row_count; [|exact H1].
    reflexivity. }
  split; [exact Hm|]. js_test H2.
  destruct (body_cap _ _ _ _ H3 H4 H2) as (Ha & Hb & Hc).
  rewrite Hm in Ha. tauto.
Qed.

(** *** The simulation against the baseline *)

Lemma loop_O c st : loop Math_log c 0 st = Some st.
Proof. reflexivity. Qed.

Lemma loop_S c fuel st :
  loop Math_log c (S fuel) st =
  if (balance st >? 1 # 100)%js then
    match body Math_log c st with
    | None => None
    | Some st' =>
        if (balance st' <=? 1 # 100)%js then Some (zero_balance st')
        else loop Math_log c fuel st'
    end
  else Some st.
Proof. reflexivity. Qed.

(** Under REDUCE_TENURE the body always has a result: the EMI is kept
    and at least the scheduled principal is paid. *)
Lemma body_reduce_tenure c st :
  reduceTenureOnly c -> 1 # 100 < balance st ->
  exists st',
    body Math_log c st = Some st' /\
    currentEMI st' = currentEMI st /\
    month st' = (month st + 1)%Z /\
    totalInterestPaid st'
    == totalInterestPaid st + balance st * monthlyRateAt c (month st + 1) /\
    balance st' <= balance st - scheduledAt c st /\
    0 <= balance st'.
Proof.
  intros Hrt Hb. unfold body, scheduledAt, monthlyRateAt.
  rewrite (resolved_reduce_tenure c _ Hrt).
  set (mr := (getInterestRateForMonth c (month st + 1) / 100 / 12)%js).
  set (sp := scheduledPrincipal (currentEMI st) (balance st * mr)%js
                                (balance st)).
  assert (Hsp : 0 <= sp /\ sp <= balance st)
    by (apply scheduledPrincipal_bounds; lra).
  unfold applyPrepayment.
  set (tp := amount (getPrepaymentForMonth c (month st + 1))).
  destruct (tp >? 0)%js eqn:Et; js_test Et.
  - eexists. split; [reflexivity|]. simpl.
    repeat split; try reflexivity.
    + now rewrite JSFacts.add_eq, JSFacts.mul_eq.
    + destruct (JSFacts.min_cases tp (balance st - sp)%js)
        as [[H1 ->]|[H1 ->]];
      destruct (_ >? balance st)%js eqn:E; js_test E;
      rewrite ?JSFacts.sub_eq, ?JSFacts.add_eq in *; lra.
    + destruct (JSFacts.min_cases tp (balance st - sp)%js)
        as [[H1 ->]|[H1 ->]];
      destruct (_ >? balance st)%js eqn:E; js_test E;
      rewrite ?JSFacts.sub_eq, ?JSFacts.add_eq in *; lra.
  - eexists. split; [reflexivity|]. simpl.
    repeat split; try reflexivity.
    + now rewrite JSFacts.add_eq, JSFacts.mul_eq.
    + destruct (sp >? balance st)%js eqn:E; js_test E;
      rewrite ?JSFacts.sub_eq in *; lra.
    + destruct (sp >? balance st)%js eqn:E; js_test E;
      rewrite ?JSFacts.sub_eq in *; lra.
Qed.

Lemma originalLoop_S c emi fuel o :
  originalLoop c emi (S fuel) o =
  if (o_balance o >? 1 # 100)%js then
    if (o_balance (originalBody c emi o) <=? 1 # 100)%js
    then originalBody c emi o
    else originalLoop c emi fuel (originalBody c emi o)
  else o.
Proof. reflexivity. Qed.

Lemma originalLoop_stop c emi fuel o :
  o_balance o <= 1 # 100 -> originalLoop c emi fuel o = o.
Proof.
  intros H. destruct fuel; [reflexivity|]. rewrite originalLoop_S.
  destruct (o_balance o >? 1 # 100)%js eqn:E; [|reflexivity].
  js_test E. lra.
Qed.

Lemma originalLoop_step c emi fuel o :
  1 # 100 < o_balance o ->
  originalLoop c emi (S fuel) o
  = originalLoop c emi fuel (originalBody c emi o).
Proof.
  intros H. rewrite originalLoop_S.
  destruct (o_balance o >? 1 # 100)%js eqn:E.
  - destruct (o_balance (originalBody c emi o) <=? 1 # 100)%js eqn:E2;
      [|reflexivity].
    js_test E2. now rewrite originalLoop_stop.
  - js_test E. lra.
Qed.

Lemma originalBody_facts c emi o :
  o_months (originalBody c emi o) = (o_months o + 1)%Z /\
  o_totalInterest (originalBody c emi o)
  == o_totalInterest o + o_balance o * monthlyRateAt c (o_months o + 1) /\
  o_balance (originalBody c emi o)
  == o_balance o
     - scheduledPrincipal emi
         (o_balance o * monthlyRateAt c (o_months o + 1))%js (o_balance o).
Proof.
  unfold originalBody, monthlyRateAt. simpl. repeat split.
  - now rewrite JSFacts.add_eq, JSFacts.mul_eq.
  - now rewrite JSFacts.sub_eq.
Qed.

(** The baseline never goes back in months or in interest. *)
Lemma originalLoop_progress c emi fuel o :
  ratesNonneg c ->
  (o_months o <= o_months (originalLoop c emi fuel o))%Z /\
  o_totalInterest o <= o_totalInterest (originalLoop c emi fuel o).
Proof.
  intros Hr. revert o. induction fuel as [|fuel IH]; intros o.
  - simpl. split; [lia | lra].
  - destruct (Qlt_le_dec (1 # 100) (o_balance o)) as [H|H].
    + rewrite originalLoop_step by exact H.
      destruct (IH (originalBody c emi o)) as [IH1 IH2].
      destruct (originalBody_facts c emi o) as (F1 & F2 & _).
      pose proof (monthlyRate_nonneg c (o_months o + 1) Hr) as Hm.
      assert (0 <= o_balance o * monthlyRateAt c (o_months o + 1))
        by (apply Qmult_le_0_compat; lra).
      split; [lia | lra].
    + rewrite originalLoop_stop by exact H. split; [lia | lra].
Qed.

Lemma simulation c emi :
  ratesNonneg c -> reduceTenureOnly c ->
  forall (fB fM : nat) (st : State) (o : Original),
    (fB <= fM)%nat ->
    month st = o_months o -> currentEMI st = emi ->
    balance st <= o_balance o ->
    totalInterestPaid st <= o_totalInterest o ->
    o_balance (originalLoop c emi fB o) <= 1 # 100 ->
    exists fin,
      loop Math_log c fM st = Some fin /\
      (month fin <= o_months (originalLoop c emi fB o))%Z /\
      totalInterestPaid fin <= o_totalInterest (originalLoop c emi fB o).
Proof.
  intros Hr Hrt. induction fB as [|fB IH];
    intros fM st o Hf Hm He Hb Hi Hpaid.
  - simpl in *. exists st. split; [|split; [lia | lra]].
    destruct fM; [reflexivity|]. rewrite loop_S.
    destruct (balance st >? 1 # 100)%js eqn:E; [|reflexivity].
    js_test E. lra.
  - destruct fM as [|fM]; [lia|].
    destruct (Qlt_le_dec (1 # 100) (o_balance o)) as [Ho|Ho].
    + rewrite originalLoop_step in * by exact Ho.
      set (o' := originalBody c emi o) in *.
      destruct (originalBody_facts c emi o) as (F1 & F2 & F3).
      fold o' in F1, F2, F3.
      destruct (originalLoop_progress c emi fB o' Hr) as [P1 P2].
      pose proof (monthlyRate_nonneg c (o_months o + 1) Hr) as Hmr.
      rewrite loop_S.
      destruct (balance st >? 1 # 100)%js eqn:E; js_test E.
      * destruct (body_reduce_tenure c st Hrt E)
          as (st' & -> & B1 & B2 & B3 & B4 & B5).
        unfold scheduledAt in B4. rewrite Hm, He in *.
        pose proof (scheduled_step_mono emi
                      (monthlyRateAt c (o_months o + 1))
                      (balance st) (o_balance o) Hmr
                      ltac:(lra) Hb) as Hmono.
        assert (Hint : balance st * monthlyRateAt c (o_months o + 1)
                       <= o_balance o * monthlyRateAt c (o_months o + 1))
          by (apply Qmult_le_compat_r; lra).
        destruct (balance st' <=? 1 # 100)%js eqn:E2.
        -- eexists. split; [reflexivity|]. simpl. split; [lia | lra].
        -- apply IH; try lia; try lra. congruence.
      * exists st. split; [reflexivity|].
        assert (0 <= o_balance o * monthlyRateAt c (o_months o + 1))
          by (apply Qmult_le_0_compat; lra).
        split; [lia | lra].
    + rewrite originalLoop_stop in * by exact Ho.
      exists st. split; [|split; [lia | lra]].
      rewrite loop_S.
      destruct (balance st >? 1 # 100)%js eqn:E; [|reflexivity].
      js_test E. lra.
Qed.

Lemma validate_nil c :
  validate c = [] ->
  0 < principal c /\ (0 < baseTenureMonths c)%Z /\
  interestRateSchedule c <> [].
Proof.
  unfold validate.
  destruct (principal c <=? 0)%js eqn:E1; [discriminate|].
  destruct (baseTenureMonths c <=? 0)%Z eqn:E2; [discriminate|].
  destruct (interestRateSchedule c); [discriminate|].
  intros _. js_test E1. apply Z.leb_gt in E2. repeat split; auto.
  discriminate.
Qed.

Lemma baseline_dominates c :
  validate c = [] -> ratesNonneg c -> reduceTenureOnly c ->
  o_balance (calculateOriginalLoan c) <= 1 # 100 ->
  exists res,
    calculate Math_log c = Ok res /\
    (months res <= originalMonths res)%Z /\
    totalInterest res <= originalTotalInterest res.
Proof.
  intros Hv Hr Hrt Hpaid. unfold calculateOriginalLoan in Hpaid.
  destruct (simulation c (calculateInitialEMI c) Hr Hrt
              (Z.to_nat (baseTenureMonths c * 2))
              (Z.to_nat (baseTenureMonths c * 3))
              (initialState c) (originalStart c))
    as (fin & Hrun & Hm & Hi); simpl; try reflexivity; try lra;
    try lia; try exact Hpaid.
  unfold calculate. rewrite Hv, Hrun.
  eexists. split; [reflexivity|]. simpl. split; assumption.
Qed.

(** *** Schedules whose rates are all zero *)

Lemma zero_monthly_rate c m :
  ratesZero c -> (getInterestRateForMonth c m / 100 / 12)%js == 0.
Proof.
  intros H. rewrite JSFacts.monthly_rate_eq, (rate_zero c m H). lra.
Qed.

Lemma applied_total_zero_rate c b p e cr mr tp s :
  (cr / 100 / 12)%js == 0 ->
  exists ap, applyPrepayment Math_log c b p e cr mr tp s = Some ap.
Proof.
  intros Hz. unfold applyPrepayment.
  destruct (tp >? 0)%js; [|eauto].
  destruct s; [eauto|].
  destruct (_ >? _)%js; [|eauto].
  unfold estimateRemainingMonths.
  destruct (_ || _); [eauto|].
  apply JSFacts.eqb_true in Hz. rewrite Hz. eauto.
Qed.

Lemma body_zero_rate c st :
  ratesZero c -> totalInterestPaid st == 0 ->
  exists st', body Math_log c st = Some st' /\ totalInterestPaid st' == 0.
Proof.
  intros Hz Hi. unfold body.
  pose proof (zero_monthly_rate c (month st + 1) Hz) as Hmr.
  set (cr := getInterestRateForMonth c (month st + 1)) in *.
  match goal with
  | |- context [applyPrepayment ?l ?c ?b ?p ?e ?r ?mr ?tp ?s] =>
      destruct (applied_total_zero_rate c b p e r mr tp s Hmr) as [ap ->]
  end.
  eexists. split; [reflexivity|]. simpl.
  rewrite JSFacts.add_eq, JSFacts.mul_eq, Hmr, Hi. lra.
Qed.

Lemma originalLoop_zero_rate c emi fuel o :
  ratesZero c -> o_totalInterest o == 0 ->
  o_totalInterest (originalLoop c emi fuel o) == 0.
Proof.
  intros Hz. revert o. induction fuel as [|fuel IH]; intros o Ho;
    [exact Ho|].
  rewrite originalLoop_S.
  assert (Hb : o_totalInterest (originalBody c emi o) == 0).
  { destruct (originalBody_facts c emi o) as (_ & F & _).
    rewrite F, Ho. unfold monthlyRateAt.
    rewrite (zero_monthly_rate c _ Hz). lra. }
  destruct (_ >? _)%js; [|exact Ho].
  destruct (_ <=? _)%js; [exact Hb | now apply IH].
Qed.

Lemma zero_rate_no_interest c :
  validate c = [] -> ratesZero c ->
  exists res,
    calculate Math_log c = Ok res /\
    totalInterest res == 0 /\ originalTotalInterest res == 0.
Proof.
  intros Hv Hz.
  destruct (LoopFacts.run_total _
              (fun st => (balance st >? 1 # 100)%js) (body Math_log c)
              (fun st => (balance st <=? 1 # 100)%js) zero_balance
              (fun st => totalInterestPaid st == 0))
    with (fuel := Z.to_nat (baseTenureMonths c * 3))
         (s := initialState c) as (fin & Hrun & Hfin).
  - intros s Hs _. now apply body_zero_rate.
  - intros s Hs. exact Hs.
  - reflexivity.
  - unfold calculate. rewrite Hv. unfold loop. rewrite Hrun.
    eexists. split; [reflexivity|]. simpl. split; [exact Hfin|].
    apply originalLoop_zero_rate; [exact Hz | reflexivity].
Qed.
End WithLog.
End LoanFacts.

(** ** The v2 amortization engine *)
Module LoanV2Facts.
Import JS DataModels Validation Formatters LoanCalculatorV2.

(** Rounding to cents moves a value by at most half a cent. *)
Lemma roundCurrency_close (x : num) :
  x - (1 # 200) < roundCurrency x /\ roundCurrency x <= x + (1 # 200).
Proof.
  unfold roundCurrency, Math_round, ofZ.
  set (y := ((x * 100)%js + (1 # 2))%Q).
  assert (Hy : y == x * 100 + (1 # 2))
    by (unfold y; now rewrite JSFacts.mul_eq).
  assert (H1 : inject_Z (Qfloor y) <= x * 100 + (1 # 2))
    by (rewrite <- Hy; apply Qfloor_le).
  assert (H2 : x * 100 + (1 # 2) < inject_Z (Qfloor y) + 1).
  { rewrite <- Hy. pose proof (Qlt_floor y) as H.
    now rewrite inject_Z_plus in H. }
  rewrite JSFacts.div_eq.
  setoid_replace (inject_Z (Qfloor y) / 100)
    with (inject_Z (Qfloor y) * (1 # 100)) by field.
  split; lra.
Qed.

Definition monthlyRateAt := LoanFacts.monthlyRateAt.

Definition scheduledAt (c : LoanConfiguration) (st : State) : num :=
  scheduledPrincipal (currentEMI st)
    (balance st * monthlyRateAt c (month st + 1))%js (balance st).

Lemma v2_scheduledPrincipal_bounds (emi interest b : num) :
  0 <= b ->
  0 <= scheduledPrincipal emi interest b /\
  scheduledPrincipal emi interest b <= b.
Proof. exact (LoanFacts.scheduledPrincipal_bounds emi interest b). Qed.

Section WithLog.
Variable Math_log : num -> num.

Lemma v2_applied_cap c b p e cr mr tp s made ap :
  applyPrepayment Math_log c b p e cr mr tp s made = Some ap ->
  p <= b ->
  ap_prepayment ap <= b - p /\ (0 <= tp -> 0 <= ap_prepayment ap).
Proof.
  unfold applyPrepayment. intros H Hp.
  destruct (tp >? 0)%js eqn:Et; js_test Et.
  - set (q := Math_min tp (b - p)%js) in *.
    assert (Hq : q <= b - p /\ 0 <= q).
    { unfold q.
      destruct (JSFacts.min_cases tp (b - p)%js) as [[H1 ->]|[H1 ->]];
        rewrite JSFacts.sub_eq in *; lra. }
    assert (Hq' : (if (q <? 0)%js then 0 else q) <= b - p /\
                  0 <= (if (q <? 0)%js then 0 else q)).
    { destruct (q <? 0)%js; lra. }
    destruct s.
    + injection H as <-. simpl. tauto.
    + destruct (_ >? _)%js.
      * destruct _estimateRemainingMonths; [|discriminate].
        injection H as <-. simpl. tauto.
      * injection H as <-. simpl. tauto.
  - injection H as <-. simpl. split; lra.
Qed.

Lemma v2_body_rows c st st' :
  body Math_log c st = Some st' ->
  exists r, amortizationSchedule st' = amortizationSchedule st ++ [r].
Proof.
  unfold body. destruct applyPrepayment; [|discriminate].
  intros [= <-]. simpl. eauto.
Qed.

Lemma v2_body_month c st st' :
  body Math_log c st = Some st' -> month st' = (month st + 1)%Z.
Proof.
  unfold body. destruct applyPrepayment; [|discriminate].
  now intros [= <-].
Qed.

(** The prepayment applied in a month respects the cap; the row shows
    it rounded to cents. *)
Lemma v2_body_cap c st st' r :
  body Math_log c st = Some st' ->
  amortizationSchedule st' = amortizationSchedule st ++ [r] ->
  1 # 100 < balance st ->
  row_month r = (month st + 1)%Z /\
  exists applied,
    row_prepayment r = roundCurrency applied /\
    applied <= balance st - scheduledAt c st /\
    (LoanFacts.amountsNonneg c -> 0 <= applied).
Proof.
  unfold body, scheduledAt, monthlyRateAt, LoanFacts.monthlyRateAt.
  intros H Hr Hb.
  destruct applyPrepayment as [ap|] eqn:Ea; [|discriminate].
  injection H as <-. simpl in Hr. apply app_inv_head in Hr.
  injection Hr as <-. simpl.
  apply v2_applied_cap in Ea.
  - split; [reflexivity|]. exists (ap_prepayment ap).
    split; [reflexivity|]. split; [tauto|].
    intros Hn. apply Ea. now apply LoanFacts.amount_nonneg.
  - apply v2_scheduledPrincipal_bounds. lra.
Qed.

Lemma v2_zero_balance_rows st :
  amortizationSchedule (zero_balance st) = amortizationSchedule st.
Proof. reflexivity. Qed.

Lemma v2_loop_month_is_row_count c fuel st fin :
  month st = Z.of_nat (List.length (amortizationSchedule st)) ->
  loop Math_log c fuel st = Some fin ->
  month fin = Z.of_nat (List.length (amortizationSchedule fin)).
Proof.
  unfold loop.
  apply (LoopFacts.run_invariant _ _ _ _ _
           (fun s => month s
                     = Z.of_nat (List.length (amortizationSchedule s)))).
  - intros s s' Hs _ Hb. destruct (v2_body_rows _ _ _ Hb) as [r Hr].
    rewrite (v2_body_month _ _ _ Hb), Hr, length_app, Hs. simpl. lia.
  - intros s Hs. exact Hs.
Qed.

Lemma v2_calculate_ok c res :
  calculate Math_log c = Ok res ->
  exists fin,
    loop Math_log c (Z.to_nat (baseTenureMonths c * 3)) (initialState c)
    = Some fin /\
    schedule res = amortizationSchedule fin.
Proof.
  unfold calculate. destruct (validate c); [|discriminate].
  destruct loop as [fin|]; [|discriminate].
  intros [= <-]. exists fin. simpl. tauto.
Qed.

Lemma v2_ledger_row_cap c res (k : nat) row :
  calculate Math_log c = Ok res ->
  nth_error (schedule res) k = Some row ->
  exists st applied,
    loop Math_log c k (initialState c) = Some st /\
    month st = Z.of_nat k /\
    row_month row = (Z.of_nat k + 1)%Z /\
    row_prepayment row = roundCurrency applied /\
    applied <= balance st - scheduledAt c st /\
    (LoanFacts.amountsNonneg c -> 0 <= applied).
Proof.
  intros Hc Hn. apply v2_calculate_ok in Hc.
  destruct Hc as (fin & Hrun & Hs). rewrite Hs in Hn.
  unfold loop in Hrun.
  destruct (LoopFacts.row_origin _ _ _ _ _ _ amortizationSchedule
              (v2_body_rows c) v2_zero_balance_rows _ _ _ k row Hrun Hn)
    as (sk & sk' & H1 & H2 & H3 & H4 & H5).
  simpl in H5.
  assert (Hm : month sk = Z.of_nat k).
  { rewrite <- H5. eapply v2_loop_month_is_row_count; [|exact H1].
    reflexivity. }
  js_test H2.
  destruct (v2_body_cap _ _ _ _ H3 H4 H2) as (Ha & p & Hb & Hc & Hd).
  exists sk, p. rewrite Hm in Ha. tauto.
Qed.
End WithLog.
End LoanV2Facts.

(** Evaluate a call on a concrete configuration, keeping its equation. *)
Ltac evaluate_call t :=
  let E := fresh "E" in
  let E' := fresh "E" in
  destruct t as [?res|?e|] eqn:E;
  pose proof E as E'; vm_compute in E'; try discriminate E';
  injection E' as <-.

(** ** The amortization ledger and the baseline *)
Module LoanProperties.
Import JS DataModels Validation Formatters.

(** [new LoanConfiguration()] with its scalar fields assigned. *)
Definition loan (p : num) (tenure : Z) (strategy : Strategy)
  : LoanConfiguration :=
  setLoan newLoanConfiguration p tenure strategy.

(** *** The prepayment cap *)

(** 100 over 3 months at 0 %, with a lump sum of 1000 in month 1. *)
Definition roundingConfig : LoanConfiguration :=
  addOneTimePrepayment
    (addRatePeriod (loan 100 3 REDUCE_TENURE) 1 0 None) 1000 1 None.

(** The invariant as the spec words it, on the recorded amount of the
    v2 ledger. *)
Definition recordedCapV2 (Math_log : num -> num) (c : LoanConfiguration)
  : Prop :=
  forall res k row st,
    LoanCalculatorV2.calculate Math_log c = Ok res ->
    nth_error (LoanCalculatorV2.schedule res) k = Some row ->
    LoanCalculatorV2.loop Math_log c k (LoanCalculatorV2.initialState c)
    = Some st ->
    LoanCalculatorV2.row_prepayment row
    <= LoanCalculatorV2.balance st - LoanV2Facts.scheduledAt c st /\
    0 <= LoanCalculatorV2.row_prepayment row.

(** C2, counterexample.  In the v2 ledger of [roundingConfig] the row of
    month 1 records a prepayment of 66.67, while the balance (100) minus
    the scheduled principal (100/3) is 66.66..: the amount is rounded to
    cents when the row is pushed. *)
Lemma recorded_prepayment_exceeds_cap :
  ~ (exists Math_log, recordedCapV2 Math_log roundingConfig).
Proof.
  intros [Math_log H].
  evaluate_call (LoanCalculatorV2.calculate Math_log roundingConfig).
  specialize (H _ 0%nat _ _ E eq_refl eq_refl).
  destruct H as [H _]. vm_compute in H. apply H. reflexivity.
Qed.

(** C2, amended.  In every month simulated by [calculate] the prepayment
    applied is at most the balance at the start of the month minus the
    scheduled principal of the month, and it is not negative when no
    configured amount is.  The v1 ledger records the applied amount as it
    is; the v2 ledger records it rounded to cents, within half a cent. *)
Theorem prepayment_cap_applied (Math_log : num -> num)
        (c : LoanConfiguration) (k : nat) :
  (forall res row,
      LoanCalculator.calculate Math_log c = Ok res ->
      nth_error (LoanCalculator.schedule res) k = Some row ->
      exists st,
        LoanCalculator.loop Math_log c k (LoanCalculator.initialState c)
        = Some st /\
        LoanCalculator.month st = Z.of_nat k /\
        LoanCalculator.row_month row = (Z.of_nat k + 1)%Z /\
        LoanCalculator.row_prepayment row
        <= LoanCalculator.balance st - LoanFacts.scheduledAt c st /\
        (LoanFacts.amountsNonneg c ->
         0 <= LoanCalculator.row_prepayment row)) /\
  (forall res row,
      LoanCalculatorV2.calculate Math_log c = Ok res ->
      nth_error (LoanCalculatorV2.schedule res) k = Some row ->
      exists st applied,
        LoanCalculatorV2.loop Math_log c k (LoanCalculatorV2.initialState c)
        = Some st /\
        LoanCalculatorV2.month st = Z.of_nat k /\
        LoanCalculatorV2.row_month row = (Z.of_nat k + 1)%Z /\
        applied <= LoanCalculatorV2.balance st - LoanV2Facts.scheduledAt c st /\
        (LoanFacts.amountsNonneg c -> 0 <= applied) /\
        LoanCalculatorV2.row_prepayment row = roundCurrency applied /\
        applied - (1 # 200) < LoanCalculatorV2.row_prepayment row /\
        LoanCalculatorV2.row_prepayment row <= applied + (1 # 200)).
Proof.
  split.
  - intros res row Hc Hn.
    exact (LoanFacts.ledger_row_cap Math_log c res k row Hc Hn).
  - intros res row Hc Hn.
    destruct (LoanV2Facts.v2_ledger_row_cap Math_log c res k row Hc Hn)
      as (st & p & H1 & H2 & H3 & H4 & H5 & H6).
    exists st, p. rewrite H4.
    pose proof (LoanV2Facts.roundCurrency_close p). tauto.
Qed.

(** *** Baseline monotonicity *)

(** The property as the spec words it. *)
Definition baselineMonotone (Math_log : num -> num)
           (c : LoanConfiguration) : Prop :=
  forall res,
    LoanCalculator.calculate Math_log c = Ok res ->
    (LoanCalculator.months res <= LoanCalculator.originalMonths res)%Z /\
    LoanCalculator.totalInterest res
    <= LoanCalculator.originalTotalInterest res.

(** 1200 over 12 months: 0 % in month 1, 120 % from month 2 on (the EMI
    of 100 no longer covers the interest), 1 prepaid every month. *)
Definition cappedConfig : LoanConfiguration :=
  addMonthlyPrepayment
    (addRatePeriod (addRatePeriod (loan 1200 12 REDUCE_TENURE) 1 0 None)
                   2 120 None)
    1 1 None None.

(** 1000 over 3 months: 6 % in month 1, 0 % in month 2, 12 % from month
    3 on; 10 prepaid in month 2 under REDUCE_EMI. *)
Definition reduceEmiConfig : LoanConfiguration :=
  addOneTimePrepayment
    (addRatePeriod
       (addRatePeriod (addRatePeriod (loan 1000 3 REDUCE_TENURE) 1 6 None)
                      2 0 None)
       3 12 None)
    10 2 (Some REDUCE_EMI).

(** 100000 over 12 months at 12 %, 1000 prepaid every month. *)
Definition monthlyPrepayConfig : LoanConfiguration :=
  addMonthlyPrepayment
    (addRatePeriod (loan 100000 12 REDUCE_TENURE) 1 12 None)
    1000 1 None None.

(** *** Zero-rate loans *)

Lemma mul_zero (b : num) : (b * 0)%js = 0.
Proof.
  unfold mul. change 0 with (Qred 0) at 2. apply Qred_complete. lra.
Qed.

Lemma breakdown_zero_rate (emi : num) (tenureMonths : Z) (fuel : nat)
      (m : Z) (balance : num) :
  Forall (fun row => EMICalculator.b_interest row = 0)
         (EMICalculator.breakdownLoop emi 0 tenureMonths fuel m balance).
Proof.
  revert m balance. induction fuel as [|fuel IH]; intros m balance; simpl.
  - constructor.
  - destruct (balance >? 1 # 100)%js; [|constructor].
    constructor; [|apply IH].
    simpl. now rewrite mul_zero.
Qed.

(** C6.  At an annual rate of 0 the EMI of a principal [P > 0] over
    [n > 0] months is [P / n] in the v1 calculator and in the v2 EMI
    calculator, whose result shows it rounded to cents (within half a
    cent); a v1 simulation of a valid configuration whose rates are all 0
    returns with a total interest of 0, for the run and for its baseline,
    and every row of the v2 EMI breakdown carries an interest of 0. *)
Theorem zero_rate_payment (P : num) (n : Z) :
  0 < P -> (0 < n)%Z ->
  LoanCalculator.calculateEMI P 0 n == P / inject_Z n /\
  EMICalculator._emi P 0 n == P / inject_Z n /\
  (exists r,
      EMICalculator.calculateEMI P 0 n = Ok r /\
      P / inject_Z n - (1 # 200) < EMICalculator.emi r /\
      EMICalculator.emi r <= P / inject_Z n + (1 # 200)) /\
  (forall Math_log c,
      principal c = P -> baseTenureMonths c = n ->
      validate c = [] -> LoanFacts.ratesZero c ->
      exists res,
        LoanCalculator.calculate Math_log c = Ok res /\
        LoanCalculator.totalInterest res == 0 /\
        LoanCalculator.originalTotalInterest res == 0) /\
  (exists rows,
      EMICalculator.getEMIBreakdown P 0 n = Ok rows /\
      Forall (fun row => EMICalculator.b_interest row = 0) rows).
Proof.
  intros HP Hn.
  assert (HnQ : 0 < inject_Z n).
  { change 0 with (inject_Z 0). rewrite <- Zlt_Qlt. exact Hn. }
  assert (E1 : (P <=? 0)%js = false) by now apply JSFacts.le_false.
  assert (E2 : (ofZ n <=? 0)%js = false) by now apply JSFacts.le_false.
  assert (Hv : EMICalculator.validateLoanInputs P 0 n = []).
  { unfold EMICalculator.validateLoanInputs. rewrite E1.
    destruct (n <=? 0)%Z eqn:E3; [apply Z.leb_le in E3; lia|].
    reflexivity. }
  assert (Hemi : EMICalculator._emi P 0 n == P / inject_Z n).
  { unfold EMICalculator._emi. change (0 =? 0)%js with true.
    cbv iota. apply JSFacts.div_eq. }
  split; [|split; [exact Hemi | split; [|split]]].
  - unfold LoanCalculator.calculateEMI. rewrite E1, E2. simpl.
    change ((0 / 100 / 12)%js =? 0)%js with true. cbv iota.
    apply JSFacts.div_eq.
  - unfold EMICalculator.calculateEMI. rewrite Hv.
    eexists. split; [reflexivity|]. simpl.
    pose proof (LoanV2Facts.roundCurrency_close (EMICalculator._emi P 0 n))
      as [H1 H2].
    rewrite Hemi in H1 at 1. rewrite Hemi in H2 at 2. split; assumption.
  - intros Math_log c _ _ Hvc Hz.
    now apply LoanFacts.zero_rate_no_interest.
  - unfold EMICalculator.getEMIBreakdown. rewrite Hv.
    eexists. split; [reflexivity|].
    change (0 / 100 / 12)%js with 0. apply breakdown_zero_rate.
Qed.

(** 1200 over 12 months at 0 %, 50 prepaid every month under REDUCE_EMI. *)
Definition zeroRateConfig : LoanConfiguration :=
  addMonthlyPrepayment
    (addRatePeriod (loan 1200 12 REDUCE_EMI) 1 0 None) 50 1 None None.

Lemma zero_rate_payment_witness :
  0 < 1200 /\ (0 < 12)%Z /\
  LoanCalculator.calculateEMI 1200 0 12 == 1200 / inject_Z 12 /\
  (forall Math_log,
   exists res,
     LoanCalculator.calculate Math_log zeroRateConfig = Ok res /\
     LoanCalculator.totalInterest res == 0 /\
     LoanCalculator.originalTotalInterest res == 0).
Proof.
  assert (HP : 0 < 1200) by reflexivity.
  assert (Hn : (0 < 12)%Z) by reflexivity.
  destruct (zero_rate_payment 1200 12 HP Hn) as (H1 & _ & _ & H4 & _).
  split; [exact HP|]. split; [exact Hn|]. split; [exact H1|].
  intros Math_log.
  apply (H4 Math_log zeroRateConfig); try reflexivity.
  repeat constructor.
Defined.
End LoanProperties.

(** ** The goal seeker *)
Module GoalSeekerFacts.
Import JS GoalSeeker.

(** The future value of a SIP of 1: the factor by which the closed form
    multiplies the monthly amount. *)
Definition factor (years : Z) (annualReturn : num) : Q :=
  let r := annualReturn * (1 # 1200) in
  if Qeq_bool r 0 then inject_Z (years * 12)
  else ((1 + r) ^ (years * 12) - 1) / r * (1 + r).

Lemma future_value_linear sip years annualReturn :
  calculateFutureValue sip years annualReturn
  == sip * factor years annualReturn.
Proof.
  unfold calculateFutureValue, factor.
  pose proof (JSFacts.monthly_rate_eq annualReturn) as Hr.
  set (r := (annualReturn / 100 / 12)%js) in *.
  destruct (r =? 0)%js eqn:E; js_test E.
  - rewrite Hr in E. apply Qeq_bool_iff in E. rewrite E.
    unfold ofZ. now rewrite JSFacts.mul_eq.
  - rewrite Hr in E.
    destruct (Qeq_bool (annualReturn * (1 # 1200)) 0) eqn:E2.
    + apply Qeq_bool_iff in E2. contradiction.
    + rewrite !JSFacts.mul_eq, JSFacts.div_eq, JSFacts.sub_eq,
        JSFacts.pow_eq, !JSFacts.add_eq, Hr. ring.
Qed.

Lemma factor_ge_1 years annualReturn :
  (1 <= years)%Z -> 0 <= annualReturn -> 1 <= factor years annualReturn.
Proof.
  intros Hy HR. unfold factor.
  set (r := annualReturn * (1 # 1200)).
  assert (Hr : 0 <= r) by (unfold r; lra).
  destruct (Qeq_bool r 0) eqn:E.
  - change 1 with (inject_Z 1). rewrite <- Zle_Qle. lia.
  - apply Qeq_bool_neq in E.
    assert (Hr' : 0 < r).
    { destruct (Qlt_le_dec 0 r) as [H|H]; [exact H|].
      exfalso. apply E. lra. }
    assert (Hp : 1 + r <= (1 + r) ^ (years * 12)).
    { rewrite <- (Qpower_1_r (1 + r)) at 1.
      apply Qpower_le_compat_l; [lia | lra]. }
    set (p := (1 + r) ^ (years * 12)) in *.
    assert (Hq : 1 <= (p - 1) / r).
    { apply Qle_shift_div_l; [exact Hr' | lra]. }
    set (q := (p - 1) / r) in *.
    assert (0 <= (q - 1) * (1 + r)) by (apply Qmult_le_0_compat; lra).
    assert (Hx : q * (1 + r) == (q - 1) * (1 + r) + (1 + r)) by ring.
    rewrite Hx. lra.
Qed.

Lemma newtonLoop_S targetAmount years annualReturn fuel sip :
  newtonLoop targetAmount years annualReturn (S fuel) sip =
  let fv := calculateFutureValue sip years annualReturn in
  let error := (fv - targetAmount)%js in
  if (Math_abs error <? tolerance)%js then Returned sip
  else
    let fvPlusDelta :=
      calculateFutureValue (sip + 1)%js years annualReturn in
    let derivative := ((fvPlusDelta - fv) / 1)%js in
    if (Math_abs derivative <? 1 # 1000)%js then Broke sip
    else
      let sip := (sip - error / derivative)%js in
      let sip := if (sip <? 100)%js then 100 else sip in
      newtonLoop targetAmount years annualReturn fuel sip.
Proof. reflexivity. Qed.

(** When the minimum SIP of 100 does not overshoot the target, the
    Newton-Raphson loop returns from its convergence check, at the first or
    at the second iteration. *)
Lemma newton_converges T y R :
  0 < T -> (1 <= y)%Z -> 0 <= R -> calculateFutureValue 100 y R <= T ->
  Qabs (calculateFutureValue (newtonRaphsonMethod T y R) y R - T) < 100.
Proof.
  intros HT Hy HR Hmin.
  pose proof (factor_ge_1 y R Hy HR) as HF.
  set (F := factor y R) in *.
  rewrite future_value_linear in Hmin. fold F in Hmin.
  unfold newtonRaphsonMethod, maxIterations.
  set (sip0 := (T / ofZ (y * 12))%js).
  rewrite newtonLoop_S. cbv zeta.
  destruct (Math_abs _ <? tolerance)%js eqn:E0; js_test E0.
  { unfold Math_abs, tolerance in E0. now rewrite JSFacts.sub_eq in E0. }
  assert (Hd : ((calculateFutureValue (sip0 + 1)%js y R
                 - calculateFutureValue sip0 y R) / 1)%js == F).
  { rewrite JSFacts.div_eq, JSFacts.sub_eq, !future_value_linear,
      JSFacts.add_eq. fold F. field. }
  destruct (Math_abs _ <? 1 # 1000)%js eqn:E1; js_test E1.
  { exfalso. unfold Math_abs in E1. rewrite Hd in E1.
    rewrite Qabs_pos in E1 by lra. lra. }
  set (sip1 := (sip0 - _ / _)%js).
  assert (H1 : sip1 == T / F).
  { unfold sip1. rewrite JSFacts.sub_eq, JSFacts.div_eq, Hd,
      JSFacts.sub_eq, future_value_linear. fold F. field. lra. }
  assert (H100 : 100 <= sip1).
  { rewrite H1. apply Qle_shift_div_l; lra. }
  destruct (sip1 <? 100)%js eqn:E2; js_test E2; [lra|].
  rewrite newtonLoop_S. cbv zeta.
  assert (Hfv : calculateFutureValue sip1 y R - T == 0).
  { rewrite future_value_linear, H1. fold F. field. lra. }
  destruct (Math_abs _ <? tolerance)%js eqn:E3; js_test E3.
  - rewrite Hfv. reflexivity.
  - exfalso. unfold Math_abs, tolerance in E3.
    rewrite JSFacts.sub_eq, Hfv in E3. vm_compute in E3. now apply E3.
Qed.

(** Outside the inputs that [validateInputs] lets through: with a yearly
    return of -1200 % the monthly growth factor [1 + r] is 0 and every
    future value is 0.  For a target of 120000 over one year the loop
    leaves through [break] at its first iteration (the derivative is 0) and
    [newtonRaphsonMethod] returns the unconverged guess 10000, whose future
    value misses the target by 120000; the bisection over
    [100, target / 12], which it does not call, ends elsewhere. *)
Lemma newton_break_skips_bisection :
  newtonLoop 120000 1 (-1200) maxIterations (120000 / ofZ (1 * 12))%js
  = Broke 10000 /\
  newtonRaphsonMethod 120000 1 (-1200) = 10000 /\
  ~ binarySearchMethod 120000 1 (-1200) == 10000 /\
  ~ Qabs (calculateFutureValue 10000 1 (-1200) - 120000) < 100.
Proof.
  split; [vm_compute; reflexivity|].
  split; [vm_compute; reflexivity|].
  split; vm_compute; discriminate.
Qed.

(** The round trip as the spec words it, on the returned [requiredSIP]. *)
Definition roundTrip (T : num) (y : Z) (R : num) : Prop :=
  let res := calculateRequiredSIP T y R 0 0 in
  Qabs (calculateFutureValue (requiredSIP res) y R - T) < 100 \/
  success res = false.

(** C5, counterexample.  Target 150600 over one year at 0 %: the solver
    finds 12550, [requiredSIP] is 12600 after rounding up to a multiple of
    100, its future value 151200 is 600 above the target, and [success] is
    [true]. *)
Lemma required_sip_round_trip_fails : ~ roundTrip 150600 1 0.
Proof.
  unfold roundTrip. intros [H|H].
  - vm_compute in H. discriminate.
  - vm_compute in H. discriminate.
Qed.

Lemma required_sip_fields T y R :
  let res := calculateRequiredSIP T y R 0 0 in
  success res = true /\
  achievedAmount res
  = calculateFutureValue (newtonRaphsonMethod T y R) y R /\
  requiredSIP res
  == inject_Z (Qceiling (newtonRaphsonMethod T y R / 100)) * 100.
Proof.
  unfold calculateRequiredSIP. change (0 >? 0)%js with false. cbv iota.
  simpl. split; [reflexivity|]. split; [reflexivity|].
  unfold Math_ceil, ofZ. rewrite JSFacts.mul_eq.
  now rewrite (Qceiling_comp _ _ (JSFacts.div_eq _ _)).
Qed.

(** C5, amended.  For a target [T > 0], [y >= 1] whole years and a
    return [R >= 0], without step-up or inflation, when the minimum SIP of
    100 does not overshoot the target: [achievedAmount], the closed-form
    future value of the solver's unrounded result, is within 100 of [T];
    [requiredSIP] is that result rounded up to a multiple of 100, so its
    future value is above [T - 100] (and may exceed [T] by more than 100);
    [success] is [true], and the result has no non-convergence flag. *)
Theorem required_sip_round_trip (T : num) (y : Z) (R : num) :
  0 < T -> (1 <= y)%Z -> 0 <= R -> calculateFutureValue 100 y R <= T ->
  let res := calculateRequiredSIP T y R 0 0 in
  success res = true /\
  Qabs (achievedAmount res - T) < 100 /\
  requiredSIP res
  == inject_Z (Qceiling (newtonRaphsonMethod T y R / 100)) * 100 /\
  T - 100 < calculateFutureValue (requiredSIP res) y R.
Proof.
  intros HT Hy HR Hmin res.
  destruct (required_sip_fields T y R) as (H1 & H2 & H3).
  fold res in H1, H2, H3.
  pose proof (newton_converges T y R HT Hy HR Hmin) as Hc.
  split; [exact H1|]. split; [now rewrite H2|]. split; [exact H3|].
  set (sip := newtonRaphsonMethod T y R) in *.
  apply Qabs_Qlt_condition in Hc. destruct Hc as [Hc _].
  rewrite future_value_linear in Hc |- *.
  pose proof (factor_ge_1 y R Hy HR) as HF.
  pose proof (Qle_ceiling (sip / 100)) as Hceil.
  assert (Hs : sip <= requiredSIP res).
  { rewrite H3.
    assert (Hx : forall x : Q, x == x / 100 * 100) by (intros; field).
    rewrite (Hx sip) at 1.
    apply Qmult_le_compat_r; [exact Hceil | lra]. }
  assert (sip * factor y R <= requiredSIP res * factor y R)
    by (apply Qmult_le_compat_r; lra).
  lra.
Qed.

Lemma required_sip_round_trip_witness :
  0 < 1000000 /\ (1 <= 10)%Z /\ 0 <= 12 /\
  calculateFutureValue 100 10 12 <= 1000000 /\
  let res := calculateRequiredSIP 1000000 10 12 0 0 in
  success res = true /\
  Qabs (achievedAmount res - 1000000) < 100 /\
  requiredSIP res
  == inject_Z (Qceiling (newtonRaphsonMethod 1000000 10 12 / 100)) * 100 /\
  1000000 - 100 < calculateFutureValue (requiredSIP res) 10 12.
Proof.
  assert (H1 : 0 < 1000000) by reflexivity.
  assert (H2 : (1 <= 10)%Z) by (vm_compute; discriminate).
  assert (H3 : 0 <= 12) by (vm_compute; discriminate).
  assert (H4 : calculateFutureValue 100 10 12 <= 1000000)
    by (vm_compute; discriminate).
  split; [exact H1|]. split; [exact H2|]. split; [exact H3|].
  split; [exact H4|].
  exact (required_sip_round_trip 1000000 10 12 H1 H2 H3 H4).
Defined.
End GoalSeekerFacts.

(** ** The forward SIP projection *)
Module SIPFacts.
Import JS SIPModels SIPCalculator.

(** The balance after [k] months of a constant contribution [P] at a
    constant monthly return [r]: invest, then grow. *)
Fixpoint grown (P r : Q) (k : nat) : Q :=
  match k with
  | O => 0
  | S k' => (grown P r k' + P) * (1 + r)
  end.

Lemma grown_closed_form (P r : Q) (k : nat) :
  ~ r == 0 ->
  grown P r k == P * (((1 + r) ^ Z.of_nat k - 1) / r) * (1 + r).
Proof.
  intros Hr. induction k as [|k IH].
  - simpl. field. exact Hr.
  - cbn [grown]. rewrite IH, Nat2Z.inj_succ.
    unfold Z.succ. rewrite Qpower_plus' by lia.
    rewrite Qpower_1_r. field. exact Hr.
Qed.

Lemma grown_zero_rate (P r : Q) (k : nat) :
  r == 0 -> grown P r k == P * inject_Z (Z.of_nat k).
Proof.
  intros Hr. induction k as [|k IH].
  - simpl. ring.
  - cbn [grown]. rewrite IH, Nat2Z.inj_succ. unfold Z.succ.
    rewrite inject_Z_plus, Hr. ring.
Qed.

Lemma year_of_month_positive (month : Z) :
  (1 <= month)%Z -> (1 <= Math_ceil (ofZ month / 12%Q)%js)%Z.
Proof.
  intros Hm. unfold Math_ceil, ofZ.
  set (x := (inject_Z month / 12)%js).
  assert (Hx : 0 < x).
  { unfold x. rewrite JSFacts.div_eq.
    apply Qlt_shift_div_l; [reflexivity|].
    rewrite Qmult_0_l. change 0 with (inject_Z 0).
    rewrite <- Zlt_Qlt. lia. }
  pose proof (Qle_ceiling x) as Hc.
  assert (H0 : inject_Z 0 < inject_Z (Qceiling x))
    by (eapply Qlt_le_trans; [exact Hx | exact Hc]).
  rewrite <- Zlt_Qlt in H0. lia.
Qed.

Section Flat.
Variable c : SIPConfiguration.
Variable scenario : ReturnScenario.
Variable R : num.
Hypothesis flat :
  forall year, (1 <= year)%Z -> getReturnForYear scenario year = R.
Hypothesis no_step_up : stepUpSchedules c = [].

Lemma body_flat (months : Z) (st : SipState) (k : nat) :
  month st = Z.of_nat k ->
  currentSIP st = monthlyAmount c ->
  balance st == grown (monthlyAmount c) (R * (1 # 1200)) k ->
  let st' := sipBody c scenario months st in
  month st' = Z.of_nat (S k) /\
  currentSIP st' = monthlyAmount c /\
  balance st' == grown (monthlyAmount c) (R * (1 # 1200)) (S k).
Proof.
  intros Hm Hs Hb. unfold sipBody. cbn [month currentSIP balance].
  split; [lia|].
  assert (Hsip : (if (month st + 1 >? 1)%Z
                     && (Z.rem (month st + 1 - 1) 12 =? 0)%Z
                  then applySteUpSchedule c (currentSIP st)
                         (Math_ceil (ofZ (month st + 1) / 12)%js)
                  else currentSIP st) = monthlyAmount c).
  { unfold applySteUpSchedule. rewrite no_step_up. simpl.
    destruct (_ && _); exact Hs. }
  rewrite Hsip. split; [reflexivity|].
  rewrite flat by (apply year_of_month_positive; lia).
  cbn [grown].
  rewrite JSFacts.mul_eq, !JSFacts.add_eq, JSFacts.monthly_rate_eq, Hb.
  reflexivity.
Qed.

Lemma loop_flat (months : Z) (fuel : nat) (st : SipState) (k : nat) :
  month st = Z.of_nat k ->
  currentSIP st = monthlyAmount c ->
  balance st == grown (monthlyAmount c) (R * (1 # 1200)) k ->
  balance (sipLoop c scenario months fuel st)
  == grown (monthlyAmount c) (R * (1 # 1200)) (k + fuel).
Proof.
  revert st k. induction fuel as [|fuel IH]; intros st k Hm Hs Hb.
  - simpl. now rewrite Nat.add_0_r.
  - cbn [sipLoop].
    destruct (body_flat months st k Hm Hs Hb) as (H1 & H2 & H3).
    rewrite (IH _ (S k) H1 H2 H3).
    now replace (S k + fuel)%nat with (k + S fuel)%nat by lia.
Qed.
End Flat.

(** In exact arithmetic: with a return that is the same in every year, no
    step-up schedule and a duration of [y >= 0] whole years, the final
    value of the month-by-month loop of [AdvancedSIPCalculator.calculate]
    is the closed form of [GoalSeekingSIPCalculator.calculateFutureValue]
    for the same monthly amount, duration and return (the inflation rate
    only changes the deflated figures). *)
Lemma projection_matches_closed_form (c : SIPConfiguration)
        (scenarioName : string) (scenario : ReturnScenario) (R : num) :
  lookupScenario c scenarioName = Some scenario ->
  (forall year, (1 <= year)%Z -> getReturnForYear scenario year = R) ->
  stepUpSchedules c = [] ->
  (0 <= durationYears c)%Z ->
  exists res,
    calculate c scenarioName = Ok res /\
    finalValue res
    == GoalSeeker.calculateFutureValue (monthlyAmount c) (durationYears c) R.
Proof.
  intros Hl Hflat Hstep Hy. unfold calculate. rewrite Hl.
  eexists. split; [reflexivity|]. cbn [finalValue].
  rewrite (loop_flat c scenario R Hflat Hstep _ _ _ 0%nat)
    by reflexivity.
  rewrite Nat.add_0_l.
  unfold GoalSeeker.calculateFutureValue.
  pose proof (JSFacts.monthly_rate_eq R) as Hr.
  set (r := (R / 100 / 12)%js) in *.
  destruct (r =? 0)%js eqn:E; js_test E.
  - rewrite grown_zero_rate by (rewrite <- Hr; exact E).
    rewrite JSFacts.mul_eq, Z2Nat.id by lia. reflexivity.
  - rewrite grown_closed_form by (rewrite <- Hr; exact E).
    rewrite !JSFacts.mul_eq, JSFacts.div_eq, JSFacts.sub_eq,
      JSFacts.pow_eq, !JSFacts.add_eq, Hr, Z2Nat.id by lia.
    reflexivity.
Qed.

(** 15000 a month for 20 years at 12 %, as [calculateSimpleSIP] builds
    it. *)
Definition exampleSIP : SIPConfiguration :=
  {| monthlyAmount := 15000;
     durationYears := 20;
     stepUpSchedules := [];
     returnScenarios :=
       [("realistic"%string,
         {| name := "realistic";
            periods := [{| startYear := 1; endYear := None;
                           annualReturn := 12 |}] |})];
     inflationRate := 0 |}.

Lemma projection_matches_closed_form_witness :
  exists res,
    calculate exampleSIP "realistic" = Ok res /\
    finalValue res == GoalSeeker.calculateFutureValue 15000 20 12.
Proof.
  apply (projection_matches_closed_form exampleSIP "realistic"
           {| name := "realistic";
              periods := [{| startYear := 1; endYear := None;
                             annualReturn := 12 |}] |} 12).
  - reflexivity.
  - intros year Hy. unfold getReturnForYear, isActiveForYear. simpl.
    destruct (1 <=? year)%Z eqn:E; [reflexivity|].
    apply Z.leb_gt in E. lia.
  - reflexivity.
  - simpl. lia.
Defined.
End SIPFacts.

(** ** The forward projection on doubles *)
Module DoubleFacts.
Import Doubles.
Local Open Scope float_scope.

(** 15000 a month for 20 years at 12 %, no step-up, no inflation. *)
Definition examplePlan : SIPConfiguration :=
  {| monthlyAmount := 15000;
     durationYears := 20;
     stepUpSchedules := [];
     returnScenarios :=
       [("realistic"%string,
         {| name := "realistic";
            periods := [{| startYear := 1; endYear := None;
                           annualReturn := 12 |}] |})];
     inflationRate := 0 |}.

(** [1 + 12 / 100 / 12], the base that [calculateFutureValue] raises to the
    240th power, and the double nearest to that power. *)
Definition growthBase : float := 1 + 12 / 100 / 12.
Definition nearestPower : float := 0x1.5c8fccae2a002p+3.

(** The claim on the doubles: the final value of the loop is the number
    that the closed form returns. *)
Definition projectionAgrees (Math_pow : float -> float -> float) : Prop :=
  exists res,
    calculate Math_pow examplePlan "realistic" = Ok res /\
    (finalValue res =? calculateFutureValue Math_pow 15000 20 12) = true.

(** C7, counterexample.  For 15000 a month over 240 months at 12 % the loop
    ends on 14987218.785618516.  With the correctly rounded power the closed
    form gives 14987218.785618538, and it does not give the loop's value
    for any result of [Math.pow] within 8 units in the last place of the
    exact power. *)
Lemma projection_differs_in_doubles :
  (Qabs (toQ nearestPower - toQ growthBase ^ 240)
   <= (toQ (PrimFloat.next_up nearestPower) - toQ nearestPower) / 2)%Q /\
  (forall Math_pow,
     exists res,
       calculate Math_pow examplePlan "realistic" = Ok res /\
       finalValue res = 0x1.c95fa5923c971p+23) /\
  calculateFutureValue (fun _ _ => nearestPower) 15000 20 12
  = 0x1.c95fa5923c97dp+23 /\
  ~ (exists Math_pow,
       In (Math_pow growthBase (ofZ (20 * 12))) (around 8 nearestPower) /\
       projectionAgrees Math_pow).
Proof.
  split; [vm_compute; discriminate|].
  split; [intros pw; eexists; split; [vm_compute; reflexivity | reflexivity]|].
  split; [vm_compute; reflexivity|].
  intros (pw & Hin & res & Hres & Heq).
  vm_compute in Hres. injection Hres as <-. cbn [finalValue] in Heq.
  unfold calculateFutureValue in Heq. fold growthBase in Heq.
  set (p := pw growthBase (ofZ (20 * 12))) in *. clearbody p.
  vm_compute in Hin.
  repeat (destruct Hin as [<-|Hin]; [vm_compute in Heq; discriminate|]).
  exact Hin.
Qed.

(** C7, amended.  With a return that is the same in every year, no step-up
    schedule and a duration of [y >= 0] whole years, the final value of the
    month-by-month loop of [AdvancedSIPCalculator.calculate] and the closed
    form of [GoalSeekingSIPCalculator.calculateFutureValue] are the same
    number in exact arithmetic.  Computed on doubles they agree up to
    rounding: for 15000 a month over 240 months at 12 %, with [Math.pow]
    within 8 units in the last place of the exact power, the two results
    differ by at most 0.0000001. *)
Theorem projection_agrees_up_to_rounding :
  (forall (c : SIPModels.SIPConfiguration) (scenarioName : string)
          (scenario : SIPModels.ReturnScenario) (R : JS.num),
     SIPModels.lookupScenario c scenarioName = Some scenario ->
     (forall year, (1 <= year)%Z ->
                   SIPModels.getReturnForYear scenario year = R) ->
     SIPModels.stepUpSchedules c = [] ->
     (0 <= SIPModels.durationYears c)%Z ->
     exists res,
       SIPCalculator.calculate c scenarioName = Ok res /\
       (SIPCalculator.finalValue res
        == GoalSeeker.calculateFutureValue
             (SIPModels.monthlyAmount c) (SIPModels.durationYears c) R)%Q)
  /\
  (forall Math_pow,
     In (Math_pow growthBase (ofZ (20 * 12))) (around 8 nearestPower) ->
     exists res,
       calculate Math_pow examplePlan "realistic" = Ok res /\
       (Qabs (toQ (finalValue res)
              - toQ (calculateFutureValue Math_pow 15000 20 12))
        <= 1 # 10000000)%Q).
Proof.
  split; [exact SIPFacts.projection_matches_closed_form|].
  intros pw Hin. eexists. split; [vm_compute; reflexivity|].
  cbn [finalValue]. unfold calculateFutureValue. fold growthBase.
  set (p := pw growthBase (ofZ (20 * 12))) in *. clearbody p.
  vm_compute in Hin.
  repeat (destruct Hin as [<-|Hin]; [vm_compute; discriminate|]).
  contradiction.
Qed.

Lemma projection_agrees_up_to_rounding_witness :
  (exists res,
     SIPCalculator.calculate SIPFacts.exampleSIP "realistic" = Ok res /\
     (SIPCalculator.finalValue res
      == GoalSeeker.calculateFutureValue 15000 20 12)%Q) /\
  (exists res,
     calculate (fun _ _ => nearestPower) examplePlan "realistic" = Ok res /\
     (Qabs (toQ (finalValue res)
            - toQ (calculateFutureValue (fun _ _ => nearestPower)
                                        15000 20 12))
      <= 1 # 10000000)%Q).
Proof.
  split.
  - apply (proj1 projection_agrees_up_to_rounding SIPFacts.exampleSIP
             "realistic"%string
             {| SIPModels.name := "realistic"%string;
                SIPModels.periods :=
                  [{| SIPModels.startYear := 1;
                      SIPModels.endYear := None;
                      SIPModels.annualReturn := 12%Q |}] |} 12%Q);
      [reflexivity | | reflexivity | discriminate].
    intros year Hy. unfold SIPModels.getReturnForYear. simpl.
    unfold SIPModels.isActiveForYear. simpl.
    destruct (1 <=? year)%Z eqn:E; [reflexivity|].
    apply Z.leb_gt in E. lia.
  - apply (proj2 projection_agrees_up_to_rounding (fun _ _ => nearestPower)).
    vm_compute. do 8 right. left. reflexivity.
Defined.
End DoubleFacts.

(** ** The withdrawal engine *)
Module WithdrawalFacts.
Import JS SIPCalculator.

(** [d1] is no later than [d2]; [None] is a corpus that is never
    depleted. *)
Definition depletionLe (d1 d2 : option Z) : Prop :=
  match d1, d2 with
  | _, None => True
  | None, Some _ => False
  | Some m1, Some m2 => (m1 <= m2)%Z
  end.

Lemma withdrawalLoop_S monthlyReturn inflationRate inflationAdjusted
      fuel st :
  withdrawalLoop monthlyReturn inflationRate inflationAdjusted (S fuel) st =
  let month := (w_month st + 1)%Z in
  let year := Math_ceil (ofZ month / 12)%js in
  let currentWithdrawal :=
    if inflationAdjusted && (month >? 1)%Z
       && (Z.rem (month - 1) 12 =? 0)%Z
    then (w_currentWithdrawal st * (1 + inflationRate / 100))%js
    else w_currentWithdrawal st in
  if (w_balance st <? currentWithdrawal)%js then
    {| w_month := month; w_balance := w_balance st;
       w_totalWithdrawn := w_totalWithdrawn st;
       w_currentWithdrawal := currentWithdrawal;
       w_schedule := w_schedule st;
       w_depletedAt := Some month |}
  else
    let balance := (w_balance st - currentWithdrawal)%js in
    let totalWithdrawn := (w_totalWithdrawn st + currentWithdrawal)%js in
    let balance :=
      if (balance >? 0)%js then (balance * (1 + monthlyReturn))%js
      else balance in
    let schedule :=
      if (Z.rem month 6 =? 0)%Z || (month =? 1)%Z || (balance <=? 0)%js
      then w_schedule st ++
           [{| wr_month := month; wr_year := year;
               wr_balance := Math_max balance 0;
               wr_withdrawal := currentWithdrawal;
               wr_totalWithdrawn := totalWithdrawn |}]
      else w_schedule st in
    let st' :=
      {| w_month := month; w_balance := balance;
         w_totalWithdrawn := totalWithdrawn;
         w_currentWithdrawal := currentWithdrawal;
         w_schedule := schedule;
         w_depletedAt := if (balance <=? 0)%js then Some month
                         else None |} in
    if (balance <=? 0)%js then st'
    else withdrawalLoop monthlyReturn inflationRate inflationAdjusted
                        fuel st'.
Proof. reflexivity. Qed.

Section Plan.
Variable monthlyReturn inflationRate : num.
Variable inflationAdjusted : bool.

Abbreviation run :=
  (withdrawalLoop monthlyReturn inflationRate inflationAdjusted).

(** A depletion found by the loop lies after the months already
    simulated. *)
Lemma depletion_after_start (fuel : nat) (st : WState) (m : Z) :
  w_depletedAt st = None ->
  w_depletedAt (run fuel st) = Some m -> (w_month st < m)%Z.
Proof.
  revert st. induction fuel as [|fuel IH]; intros st Hn.
  - simpl. congruence.
  - rewrite withdrawalLoop_S. cbv zeta.
    destruct (_ <? _)%js.
    + cbn [w_depletedAt]. intros [= <-]. lia.
    + match goal with
      | |- context [if (?b <=? 0)%js then _ else run _ _] =>
          destruct (b <=? 0)%js eqn:E
      end.
      * cbn [w_depletedAt]. intros [= <-]. lia.
      * intros H. apply IH in H; cbn [w_depletedAt w_month] in *;
          [lia | reflexivity].
Qed.

Lemma depletion_monotone (fuel : nat) (st1 st2 : WState) :
  w_month st1 = w_month st2 ->
  w_currentWithdrawal st1 = w_currentWithdrawal st2 ->
  w_depletedAt st1 = None -> w_depletedAt st2 = None ->
  w_balance st1 <= w_balance st2 ->
  depletionLe (w_depletedAt (run fuel st1)) (w_depletedAt (run fuel st2)).
Proof.
  revert st1 st2.
  induction fuel as [|fuel IH]; intros st1 st2 Hm Hw H1 H2 Hb.
  - simpl. now rewrite H1, H2.
  - pose proof (depletion_after_start (S fuel) st2) as Hafter.
    rewrite !withdrawalLoop_S in *. cbv zeta in *.
    rewrite <- Hm, <- Hw in *.
    set (month := (w_month st1 + 1)%Z) in *.
    set (cw := if inflationAdjusted && _ && _ then _ else _) in *.
    destruct (w_balance st1 <? cw)%js eqn:E1; js_test E1.
    { cbn [w_depletedAt].
      match goal with
      | |- depletionLe _ (w_depletedAt ?x) =>
          destruct (w_depletedAt x) as [m|] eqn:Ed; [|exact I]
      end.
      specialize (Hafter m H2 eq_refl). simpl. lia. }
    destruct (w_balance st2 <? cw)%js eqn:E2; js_test E2; [lra|].
    set (d1 := (w_balance st1 - cw)%js) in *.
    set (d2 := (w_balance st2 - cw)%js) in *.
    assert (Hd : d1 <= d2)
      by (unfold d1, d2; rewrite !JSFacts.sub_eq; lra).
    set (b1 := if (d1 >? 0)%js then _ else d1) in *.
    set (b2 := if (d2 >? 0)%js then _ else d2) in *.
    destruct (b1 <=? 0)%js eqn:F1; js_test F1.
    { cbn [w_depletedAt].
      match goal with
      | |- depletionLe _ (w_depletedAt ?x) =>
          destruct (w_depletedAt x) as [m|] eqn:Ed; [|exact I]
      end.
      specialize (Hafter m H2 eq_refl). simpl. lia. }
    assert (Hpos : 0 < d1 /\ 0 < 1 + monthlyReturn).
    { unfold b1 in F1. destruct (d1 >? 0)%js eqn:G; js_test G; [|lra].
      split; [exact G|]. rewrite JSFacts.mul_eq, JSFacts.add_eq in F1.
      destruct (Qlt_le_dec 0 (1 + monthlyReturn)) as [Hp|Hp];
        [exact Hp|].
      exfalso.
      assert (d1 * - (1 + monthlyReturn) >= 0)
        by (apply Qmult_le_0_compat; lra).
      lra. }
    assert (Hb12 : b1 <= b2).
    { unfold b1, b2.
      destruct (d1 >? 0)%js eqn:G1; js_test G1; [|lra].
      destruct (d2 >? 0)%js eqn:G2; js_test G2; [|lra].
      rewrite !JSFacts.mul_eq, !JSFacts.add_eq.
      apply Qmult_le_compat_r; lra. }
    destruct (b2 <=? 0)%js eqn:F2; js_test F2; [lra|].
    apply IH; cbn [w_month w_currentWithdrawal w_depletedAt w_balance];
      try reflexivity; exact Hb12.
Qed.
End Plan.

(** C8.  For a fixed monthly withdrawal, duration, return, inflation rate
    and adjustment flag, a larger initial corpus is depleted no earlier:
    if the smaller corpus is never depleted neither is the larger one, and
    if both are, the larger one is depleted in the same month or later. *)
Theorem depletion_monotone_in_corpus
        (monthlyWithdrawal years annualReturn inflationRate : num)
        (inflationAdjusted : bool) (corpus1 corpus2 : num) :
  corpus1 <= corpus2 ->
  let r1 := withdrawalCalculate corpus1 monthlyWithdrawal years
              annualReturn inflationRate inflationAdjusted in
  let r2 := withdrawalCalculate corpus2 monthlyWithdrawal years
              annualReturn inflationRate inflationAdjusted in
  depletionLe (depletedAt r1) (depletedAt r2) /\
  (lastsThroughPlan r1 = true -> lastsThroughPlan r2 = true).
Proof.
  intros Hc r1 r2.
  assert (H : depletionLe (depletedAt r1) (depletedAt r2)).
  { unfold r1, r2, withdrawalCalculate. cbn [depletedAt].
    apply depletion_monotone; try reflexivity. exact Hc. }
  split; [exact H|].
  unfold r1, r2, withdrawalCalculate in *.
  cbn [depletedAt lastsThroughPlan] in *.
  destruct (w_depletedAt _); [discriminate|].
  destruct (w_depletedAt _); [contradiction | reflexivity].
Qed.

Lemma depletion_monotone_in_corpus_witness :
  1000000 <= 2000000 /\
  depletionLe
    (depletedAt (withdrawalCalculate 1000000 50000 5 8 6 true))
    (depletedAt (withdrawalCalculate 2000000 50000 5 8 6 true)).
Proof.
  assert (H : 1000000 <= 2000000) by (vm_compute; discriminate).
  split; [exact H|].
  exact (proj1 (depletion_monotone_in_corpus 50000 5 8 6 true
                  1000000 2000000 H)).
Defined.
End WithdrawalFacts.

(** ** Tenure from a fixed payment *)
Module TenureFacts.
Import JS Formatters EMICalculator.




End TenureFacts.

(** ** Validated schedules and [addRatePeriod] *)
Module ScheduleFacts.
Import JS DataModels Validation RateScheduleFacts.

Lemma sorted_tail_starts (p : InterestRatePeriod)
      (s : list InterestRatePeriod) (j : nat) (q : InterestRatePeriod) :
  StronglySorted startLe (p :: s) -> nth_error s j = Some q ->
  (rp_startMonth p <= rp_startMonth q)%Z.
Proof.
  intros Hs Hq. inversion Hs as [|? ? _ Hall]; subst.
  rewrite Forall_forall in Hall. apply Hall. eapply nth_error_In, Hq.
Qed.

Lemma no_overlap_later (s : list InterestRatePeriod) :
  StronglySorted startLe s -> overlapErrors s = [] ->
  forall (i j : nat) p q e,
    (i < j)%nat -> nth_error s i = Some p -> nth_error s j = Some q ->
    rp_endMonth p = Some e -> (e < rp_startMonth q)%Z.
Proof.
  induction s as [|p0 s IH]; intros Hs Ho i j p q e Hij Hp Hq He.
  - destruct i; discriminate.
  - assert (Hs' : StronglySorted startLe s) by now inversion Hs.
    assert (Ho' : overlapErrors s = []).
    { destruct s as [|next rest]; [reflexivity|].
      cbn [overlapErrors] in Ho. now apply app_eq_nil in Ho. }
    destruct j as [|j]; [lia|]. cbn [nth_error] in Hq.
    destruct i as [|i].
    + cbn [nth_error] in Hp. injection Hp as ->.
      destruct s as [|next rest]; [destruct j; discriminate|].
      cbn [overlapErrors] in Ho. apply app_eq_nil in Ho.
      destruct Ho as [Ho _]. rewrite He in Ho.
      destruct (rp_startMonth next <=? e)%Z eqn:E; [discriminate|].
      apply Z.leb_gt in E.
      destruct j as [|j].
      * cbn [nth_error] in Hq. injection Hq as <-. exact E.
      * cbn [nth_error] in Hq.
        pose proof (sorted_tail_starts next rest j q Hs' Hq). lia.
    + cbn [nth_error] in Hp. eapply (IH Hs' Ho' i j); eauto. lia.
Qed.

Lemma find_last_active (f : InterestRatePeriod -> bool)
      (l1 l2 : list InterestRatePeriod) (p : InterestRatePeriod) :
  f p = true -> Forall (fun q => f q = false) l2 ->
  find f (rev (l1 ++ p :: l2)) = Some p.
Proof.
  intros Hp Hl2. rewrite rev_app_distr. cbn [rev]. rewrite <- app_assoc.
  assert (H : forall l l', Forall (fun q => f q = false) l ->
              find f (rev l ++ l') = find f l').
  { induction l as [|x l IHl]; intros l' Hl; [reflexivity|].
    inversion Hl; subst. cbn [rev]. rewrite <- app_assoc.
    rewrite IHl by assumption. simpl. now rewrite H1. }
  rewrite H by exact Hl2. simpl. now rewrite Hp.
Qed.

(** X1.  In a sorted schedule that passes [validate], a period with an
    explicit end month ends before every later period starts, and it decides
    the rate of every month of its range. *)
Theorem explicit_range_decides_rate (c : LoanConfiguration) (i : nat)
        (p : InterestRatePeriod) (e m : Z) :
  StronglySorted startLe (interestRateSchedule c) ->
  validate c = [] ->
  nth_error (interestRateSchedule c) i = Some p ->
  rp_endMonth p = Some e ->
  (forall j q, (i < j)%nat -> nth_error (interestRateSchedule c) j = Some q ->
               (e < rp_startMonth q)%Z) /\
  (rp_isActiveForMonth p m = true ->
   getInterestRateForMonth c m = rp_rate p).
Proof.
  intros Hs Hv Hp He.
  assert (Ho : overlapErrors (interestRateSchedule c) = []).
  { unfold validate in Hv.
    repeat (apply app_eq_nil in Hv; destruct Hv as [_ Hv]).
    exact Hv. }
  assert (Hlater : forall j q, (i < j)%nat ->
            nth_error (interestRateSchedule c) j = Some q ->
            (e < rp_startMonth q)%Z).
  { intros j q Hij Hq. eapply no_overlap_later; eauto. }
  split; [exact Hlater|]. intros Hact.
  destruct (nth_error_split _ _ Hp) as (l1 & l2 & Hsplit & Hlen).
  unfold getInterestRateForMonth, scanRates. rewrite scan_fold.
  unfold lastMatching. rewrite Hsplit.
  rewrite find_last_active; [reflexivity | exact Hact |].
  apply Forall_forall. intros q Hq.
  destruct (In_nth_error _ _ Hq) as [k Hk].
  assert (Hq' : nth_error (interestRateSchedule c) (S i + k) = Some q).
  { rewrite Hsplit, nth_error_app2 by lia.
    replace (S i + k - List.length l1)%nat with (S k) by lia. exact Hk. }
  assert (Hij : (i < S i + k)%nat) by lia.
  specialize (Hlater _ _ Hij Hq').
  unfold rp_isActiveForMonth, in_range in *. rewrite He in Hact.
  apply andb_true_iff in Hact. destruct Hact as [_ Hme].
  apply Z.leb_le in Hme. apply andb_false_iff. left.
  apply Z.leb_gt. lia.
Qed.

(** 100000 over 240 months: 5 % from month 1, 8 % for months 6 to 12. *)
Definition teaserConfig : LoanConfiguration :=
  addRatePeriod (addRatePeriod (setLoan newLoanConfiguration 100000 240
                                        REDUCE_TENURE) 1 5 None)
                6 8 (Some 12%Z).

Lemma explicit_range_decides_rate_witness :
  getInterestRateForMonth teaserConfig 7 = 8.
Proof.
  refine (proj2 (explicit_range_decides_rate teaserConfig 1
                   {| rp_startMonth := 6; rp_rate := 8;
                      rp_endMonth := Some 12%Z |} 12 7 _ _ _ _) _).
  - vm_compute. repeat constructor; vm_compute; discriminate.
  - reflexivity.
  - reflexivity.
  - reflexivity.
  - reflexivity.
Defined.

Lemma in_insert_by_start (p q : InterestRatePeriod)
      (l : list InterestRatePeriod) :
  In q (insert_by_start p l) <-> q = p \/ In q l.
Proof.
  induction l as [|x l IH]; simpl.
  - intuition.
  - destruct (rp_startMonth p <? rp_startMonth x)%Z; simpl;
      [|rewrite IH]; intuition.
Qed.

Lemma in_sort_by_start (q : InterestRatePeriod)
      (l : list InterestRatePeriod) :
  In q (sort_by_start l) <-> In q l.
Proof.
  unfold sort_by_start.
  assert (H : forall acc,
             In q (fold_left (fun acc p => insert_by_start p acc) l acc)
             <-> In q l \/ In q acc).
  { induction l as [|p l IH]; intros acc; simpl; [intuition|].
    rewrite IH, in_insert_by_start. intuition. }
  rewrite H. simpl. intuition.
Qed.

Lemma sort_snoc (p : InterestRatePeriod) (l : list InterestRatePeriod) :
  sort_by_start (l ++ [p]) = insert_by_start p (sort_by_start l).
Proof. unfold sort_by_start. now rewrite fold_left_app. Qed.

Lemma insert_splits (p : InterestRatePeriod) (l : list InterestRatePeriod) :
  StronglySorted startLe l ->
  exists l1 l2,
    insert_by_start p l = l1 ++ p :: l2 /\ l = l1 ++ l2 /\
    Forall (fun q => (rp_startMonth p < rp_startMonth q)%Z) l2.
Proof.
  induction 1 as [|x l Hl IH Hx]; simpl.
  - exists [], []. repeat split; constructor.
  - destruct (rp_startMonth p <? rp_startMonth x)%Z eqn:E.
    + apply Z.ltb_lt in E. exists [], (x :: l). repeat split.
      constructor; [exact E|].
      eapply Forall_impl; [|exact Hx]. unfold startLe. intros; lia.
    + destruct IH as (l1 & l2 & H1 & H2 & H3).
      exists (x :: l1), l2. rewrite H1, H2. repeat split. exact H3.
Qed.

(** X2.  After [addRatePeriod(start, rate, end)] the schedule holds the new
    period together with the old ones, and the new rate applies to every
    month of the new range that lies before the start of each period
    starting later. *)
Theorem added_period_decides_rate (c : LoanConfiguration)
        (startMonth : Z) (rate : num) (endMonth : option Z) (m : Z) :
  let added := {| rp_startMonth := startMonth; rp_rate := rate;
                  rp_endMonth := endMonth |} in
  let c' := addRatePeriod c startMonth rate endMonth in
  (forall q, In q (interestRateSchedule c')
             <-> q = added \/ In q (interestRateSchedule c)) /\
  (in_range startMonth endMonth m = true ->
   (forall q, In q (interestRateSchedule c) ->
              (startMonth < rp_startMonth q)%Z -> (m < rp_startMonth q)%Z) ->
   getInterestRateForMonth c' m = rate).
Proof.
  intros added c'. unfold c', addRatePeriod.
  cbn [interestRateSchedule with_schedule].
  fold added. split.
  - intros q. rewrite in_sort_by_start, in_app_iff. simpl. intuition.
  - intros Hin Hlater.
    unfold getInterestRateForMonth, scanRates. cbn [interestRateSchedule].
    rewrite scan_fold. unfold lastMatching. rewrite sort_snoc.
    destruct (insert_splits added (sort_by_start (interestRateSchedule c))
                (sort_sorted _)) as (l1 & l2 & H1 & H2 & H3).
    rewrite H1. cbn [interestRateSchedule with_schedule].
    rewrite find_last_active; [reflexivity | exact Hin |].
    apply Forall_forall. intros q Hq.
    rewrite Forall_forall in H3. specialize (H3 q Hq). cbn in H3.
    assert (Hq' : In q (interestRateSchedule c)).
    { apply in_sort_by_start. rewrite H2. apply in_or_app. now right. }
    specialize (Hlater q Hq' H3).
    unfold rp_isActiveForMonth, in_range. apply andb_false_iff. left.
    apply Z.leb_gt. exact Hlater.
Qed.

Lemma added_period_decides_rate_witness :
  getInterestRateForMonth teaserConfig 12 = 8.
Proof.
  refine (proj2 (added_period_decides_rate
                   (addRatePeriod (setLoan newLoanConfiguration 100000 240
                                           REDUCE_TENURE) 1 5 None)
                   6 8 (Some 12%Z) 12) _ _).
  - reflexivity.
  - intros q [<-|[]]. simpl. lia.
Defined.
End ScheduleFacts.

(** ** Prepayment lookup *)
Module PrepaymentLookupFacts.
Import JS DataModels LoanCalculator.

(** The amounts of the entries of one list that are active. *)
Definition activeTotal {A : Type} (active : A -> bool) (amount : A -> num)
           (l : list A) : Q :=
  fold_right (fun p acc => if active p then amount p + acc else acc) 0 l.

Lemma scan_amount_total {A : Type} (active : A -> bool) (amount : A -> num)
      (strat : A -> option Strategy) (label : string) (l : list A)
      (acc : PrepaymentInfo) :
  pi_amount (scanPrepayments active amount strat label l acc)
  == pi_amount acc + activeTotal active amount l.
Proof.
  unfold scanPrepayments. revert acc.
  induction l as [|p l IH]; intros acc; simpl; [lra|].
  rewrite IH. destruct (active p); simpl; [|reflexivity].
  rewrite JSFacts.add_eq. lra.
Qed.

Lemma scan_inactive {A : Type} (active : A -> bool) (amount : A -> num)
      (strat : A -> option Strategy) (label : string) (l : list A)
      (acc : PrepaymentInfo) :
  forallb (fun p => negb (active p)) l = true ->
  scanPrepayments active amount strat label l acc = acc.
Proof.
  unfold scanPrepayments. revert acc.
  induction l as [|p l IH]; intros acc H; simpl in *; [reflexivity|].
  apply andb_true_iff in H. destruct H as [Hp Hl].
  apply negb_true_iff in Hp. rewrite Hp. now apply IH.
Qed.

(** X3.  The amount found for a month is the sum of the amounts of the active
    monthly, yearly and one-time entries; when no entry is active the amount
    is 0, the type is 'none' and no strategy is set. *)
Theorem prepayment_amounts_add_up (c : LoanConfiguration) (m : Z) :
  let ps := prepaymentStrategy c in
  amount (getPrepaymentForMonth c m)
  == activeTotal (fun p => mp_isActiveForMonth p m) mp_amount (monthly ps)
     + activeTotal (fun p => yp_isActiveForMonth p m) yp_amount (yearly ps)
     + activeTotal (fun p => ot_isActiveForMonth p m) ot_amount (oneTime ps) /\
  (forallb (fun p => negb (mp_isActiveForMonth p m)) (monthly ps) = true ->
   forallb (fun p => negb (yp_isActiveForMonth p m)) (yearly ps) = true ->
   forallb (fun p => negb (ot_isActiveForMonth p m)) (oneTime ps) = true ->
   getPrepaymentForMonth c m
   = {| amount := 0; type := "none"; strategy := None |}).
Proof.
  intros ps. unfold getPrepaymentForMonth, collectPrepayments. fold ps. split.
  - cbn [amount]. rewrite !scan_amount_total. cbn [pi_amount]. lra.
  - intros Hm Hy Ho. now rewrite !scan_inactive.
Qed.

(** [Math.ceil(month / 12)] on the integers. *)
Lemma yearOf_div (month : Z) : yearOf month = ((month + 11) / 12)%Z.
Proof.
  unfold yearOf, Math_ceil, ofZ.
  set (x := (inject_Z month / 12)%js).
  assert (Hx : x == inject_Z month * (1 # 12)).
  { unfold x. rewrite JSFacts.div_eq. field. }
  assert (H1 : inject_Z month * (1 # 12) <= inject_Z (Qceiling x))
    by (rewrite <- Hx; apply Qle_ceiling).
  assert (H2 : inject_Z (Qceiling x - 1) < inject_Z month * (1 # 12))
    by (rewrite <- Hx; apply Qceiling_lt).
  generalize dependent (Qceiling x). intros k H1 H2.
  unfold Zminus in H2. rewrite inject_Z_plus in H2.
  change (inject_Z (- (1))) with (-1) in H2. clear Hx. clear x.
  assert (H1' : inject_Z month <= inject_Z (12 * k)).
  { rewrite inject_Z_mult. change (inject_Z 12) with 12. lra. }
  assert (H2' : inject_Z (12 * (k + -1)) < inject_Z month).
  { rewrite inject_Z_mult, inject_Z_plus. change (inject_Z 12) with 12.
    change (inject_Z (-1)) with (-1). lra. }
  rewrite <- Zle_Qle in H1'. rewrite <- Zlt_Qlt in H2'.
  apply (Z.div_unique _ _ _ (month + 11 - 12 * k)); lia.
Qed.

(** X4.  From month 1 on, a yearly entry is active in the month [targetMonth]
    of each loan year between [startYear] and [endYear], and in no other
    month: month [12 * (y - 1) + t] is month [t] of year [y]. *)
Theorem yearly_entry_active_once_a_year (p : YearlyPrepayment) (m : Z) :
  (1 <= m)%Z ->
  let y := ((m + 11) / 12)%Z in
  yp_isActiveForMonth p m = true <->
  (m = 12 * (y - 1) + yp_targetMonth p /\ yp_startYear p <= y /\
   match yp_endYear p with None => True | Some e => y <= e end)%Z.
Proof.
  intros Hm y. unfold yp_isActiveForMonth. rewrite yearOf_div. fold y.
  rewrite Z.rem_mod_nonneg by lia.
  rewrite !andb_true_iff, Z.eqb_eq, Z.leb_le.
  assert (Hmod : ((m - 1) mod 12 + 1 = yp_targetMonth p
                  <-> m = 12 * (y - 1) + yp_targetMonth p)%Z).
  { unfold y. pose proof (Z.div_mod (m - 1) 12 ltac:(lia)) as D1.
    pose proof (Z.mod_pos_bound (m - 1) 12 ltac:(lia)) as D2.
    replace ((m + 11) / 12)%Z with ((m - 1) / 12 + 1)%Z
      by (replace (m + 11)%Z with ((m - 1) + 1 * 12)%Z by lia;
          now rewrite Z.div_add by lia).
    split; intros H; lia. }
  rewrite Hmod.
  destruct (yp_endYear p) as [e|]; [rewrite Z.leb_le|]; intuition.
Qed.

Lemma yearly_entry_active_once_a_year_witness :
  yp_isActiveForMonth
    {| yp_amount := 50000; yp_targetMonth := 3; yp_startYear := 2;
       yp_endYear := Some 5%Z; yp_strategy := None |} 27 = true.
Proof.
  apply (proj2 (yearly_entry_active_once_a_year
                  {| yp_amount := 50000; yp_targetMonth := 3;
                     yp_startYear := 2; yp_endYear := Some 5%Z;
                     yp_strategy := None |} 27 ltac:(lia))).
  vm_compute. repeat split; discriminate.
Defined.
End PrepaymentLookupFacts.

(** ** Bounded loops: how many rows, and why the loop stopped *)
Module LoopBounds.
Import Loops.

Section BoundedWhile.
Variable St : Type.
Variable cond : St -> bool.
Variable body : St -> option St.
Variable exits : St -> bool.
Variable onExit : St -> St.
Variable Row : Type.
Variable rows : St -> list Row.
Hypothesis body_rows :
  forall s s', body s = Some s' -> exists r, rows s' = rows s ++ [r].
Hypothesis exit_rows : forall s, rows (onExit s) = rows s.

Abbreviation run := (bounded_while cond body exits onExit).

Lemma rows_bounded (fuel : nat) (s fin : St) :
  run fuel s = Some fin ->
  (List.length (rows fin) <= List.length (rows s) + fuel)%nat.
Proof.
  revert s. induction fuel as [|fuel IH]; intros s.
  - simpl. intros [= <-]. lia.
  - rewrite LoopFacts.run_S. destruct (cond s).
    + destruct (body s) as [s'|] eqn:Eb; [|discriminate].
      destruct (body_rows _ _ Eb) as [r Hr].
      assert (Hlen : List.length (rows s') = S (List.length (rows s)))
        by (rewrite Hr, length_app; simpl; lia).
      destruct (exits s').
      * intros [= <-]. rewrite exit_rows. lia.
      * intros H. apply IH in H. lia.
    + intros [= <-]. lia.
Qed.

(** A loop that ends while its condition still holds has used all its
    fuel. *)
Lemma run_out_of_fuel (fuel : nat) (s fin : St) :
  (forall s, cond (onExit s) = false) ->
  run fuel s = Some fin -> cond fin = true ->
  List.length (rows fin) = (List.length (rows s) + fuel)%nat.
Proof.
  intros Hstop. revert s. induction fuel as [|fuel IH]; intros s.
  - simpl. intros [= <-] _. lia.
  - rewrite LoopFacts.run_S. destruct (cond s) eqn:Ec.
    + destruct (body s) as [s'|] eqn:Eb; [|discriminate].
      destruct (body_rows _ _ Eb) as [r Hr].
      assert (Hlen : List.length (rows s') = S (List.length (rows s)))
        by (rewrite Hr, length_app; simpl; lia).
      destruct (exits s').
      * intros [= <-] Hc. now rewrite Hstop in Hc.
      * intros H Hc. rewrite (IH _ H Hc). lia.
    + intros [= <-] Hc. congruence.
Qed.

(** An invariant of the body holds of the final state, or of the state the
    early exit was taken from. *)
Lemma run_invariant_exit (P : St -> Prop) :
  (forall s s', P s -> cond s = true -> body s = Some s' -> P s') ->
  forall fuel s fin, P s -> run fuel s = Some fin ->
    P fin \/ exists s', P s' /\ exits s' = true /\ fin = onExit s'.
Proof.
  intros Hbody. induction fuel as [|fuel IH]; intros s fin Hs.
  - simpl. intros [= <-]. now left.
  - rewrite LoopFacts.run_S. destruct (cond s) eqn:Ec.
    + destruct (body s) as [s'|] eqn:Eb; [|discriminate].
      pose proof (Hbody _ _ Hs Ec Eb) as Hs'.
      destruct (exits s') eqn:Ee.
      * intros [= <-]. right. now exists s'.
      * now apply IH.
    + intros [= <-]. now left.
Qed.
End BoundedWhile.

(** Two loops whose states stay related step by step end in related
    states, or fail together. *)
Section TwoLoops.
Variables St St' : Type.
Variable cond : St -> bool.
Variable body : St -> option St.
Variable exits : St -> bool.
Variable onExit : St -> St.
Variable cond' : St' -> bool.
Variable body' : St' -> option St'.
Variable exits' : St' -> bool.
Variable onExit' : St' -> St'.
Variable R : St -> St' -> Prop.

Definition related (o : option St) (o' : option St') : Prop :=
  match o, o' with
  | Some t, Some t' => R t t'
  | None, None => True
  | _, _ => False
  end.

Hypothesis cond_related : forall s s', R s s' -> cond s = cond' s'.
Hypothesis body_related :
  forall s s', R s s' -> related (body s) (body' s').
Hypothesis exits_related : forall s s', R s s' -> exits s = exits' s'.
Hypothesis onExit_related :
  forall s s', R s s' -> R (onExit s) (onExit' s').

Lemma run_related (fuel : nat) :
  forall s s', R s s' ->
    related (bounded_while cond body exits onExit fuel s)
            (bounded_while cond' body' exits' onExit' fuel s').
Proof.
  induction fuel as [|fuel IH]; intros s s' H.
  - exact H.
  - rewrite !LoopFacts.run_S. rewrite <- (cond_related _ _ H).
    destruct (cond s); [|exact H].
    pose proof (body_related _ _ H) as Hb. unfold related in Hb.
    destruct (body s) as [t|], (body' s') as [t'|];
      try contradiction; [|exact I].
    rewrite <- (exits_related _ _ Hb).
    destruct (exits t); [|now apply IH].
    now apply onExit_related.
Qed.
End TwoLoops.
End LoopBounds.

(** ** The shape of the v1 ledger and the principal it accounts for *)
Module LedgerFacts.
Import JS DataModels Validation LoanCalculator.

Lemma originalLoop_months c emi fuel o :
  (o_months o <= o_months (originalLoop c emi fuel o)
   <= o_months o + Z.of_nat fuel)%Z.
Proof.
  revert o. induction fuel as [|fuel IH]; intros o; [simpl; lia|].
  rewrite LoanFacts.originalLoop_S.
  destruct (_ >? _)%js; [|lia].
  destruct (_ <=? _)%js.
  - unfold originalBody. cbn [o_months]. lia.
  - specialize (IH (originalBody c emi o)).
    unfold originalBody in IH at 1 4. cbn [o_months] in IH. lia.
Qed.

Section WithLog.
Variable Math_log : num -> num.

(** X5.  The loop never runs past three times the base tenure, the baseline
    never past twice; the ledger has one row per month simulated, numbered
    from 1. *)
Theorem ledger_shape (c : LoanConfiguration) (res : Result) :
  calculate Math_log c = Ok res ->
  (0 <= months res <= baseTenureMonths c * 3)%Z /\
  Z.of_nat (List.length (schedule res)) = months res /\
  (forall k row, nth_error (schedule res) k = Some row ->
                 row_month row = (Z.of_nat k + 1)%Z) /\
  (0 <= originalMonths res <= baseTenureMonths c * 2)%Z.
Proof.
  intros Hc.
  assert (Hrows : forall k row, nth_error (schedule res) k = Some row ->
                    row_month row = (Z.of_nat k + 1)%Z).
  { intros k row Hn.
    destruct (LoanFacts.ledger_row_cap Math_log c res k row Hc Hn)
      as (st & _ & _ & H & _). exact H. }
  destruct (LoanFacts.calculate_ok Math_log c res Hc)
    as (Hv & fin & Hrun & Hs & Hm & _ & Ho & _).
  destruct (LoanFacts.validate_nil c Hv) as (_ & Hn & _).
  assert (Hcount : month fin
                   = Z.of_nat (List.length (amortizationSchedule fin))).
  { eapply LoanFacts.loop_month_is_row_count; [|exact Hrun]. reflexivity. }
  pose proof (LoopBounds.rows_bounded _ _ _ _ _ _ amortizationSchedule
                (LoanFacts.body_rows Math_log c)
                LoanFacts.zero_balance_rows _ _ _ Hrun) as Hb.
  cbn [initialState amortizationSchedule List.length] in Hb.
  pose proof (originalLoop_months c (calculateInitialEMI c)
                (Z.to_nat (baseTenureMonths c * 2)) (originalStart c)) as Hom.
  cbn [originalStart o_months] in Hom.
  rewrite Hm, Ho. unfold calculateOriginalLoan.
  split; [lia|]. split; [rewrite Hs; lia|]. split; [exact Hrows | lia].
Qed.

(** What one month does to the balance: some principal between 0 and the
    balance is paid and added to the running total. *)
Lemma applied_principal c b p e cr mr tp s ap :
  applyPrepayment Math_log c b p e cr mr tp s = Some ap ->
  0 <= p -> p <= b -> p <= ap_principal ap.
Proof.
  unfold applyPrepayment. intros H Hp Hb.
  destruct (tp >? 0)%js eqn:Et; js_test Et.
  - assert (Hmin : 0 <= Math_min tp (b - p)%js).
    { destruct (JSFacts.min_cases tp (b - p)%js) as [[H1 ->]|[H1 ->]];
        rewrite ?JSFacts.sub_eq in *; lra. }
    destruct s.
    + injection H as <-. cbn [ap_principal]. rewrite JSFacts.add_eq. lra.
    + destruct (_ >? _)%js.
      * destruct estimateRemainingMonths; [|discriminate].
        injection H as <-. cbn [ap_principal]. rewrite JSFacts.add_eq. lra.
      * injection H as <-. cbn [ap_principal]. rewrite JSFacts.add_eq. lra.
  - injection H as <-. cbn [ap_principal]. lra.
Qed.

Lemma body_pays_principal c st st' :
  body Math_log c st = Some st' -> 1 # 100 < balance st ->
  exists paid,
    0 <= paid /\ paid <= balance st /\
    balance st' == balance st - paid /\
    totalPrincipalPaid st' == totalPrincipalPaid st + paid.
Proof.
  unfold body. intros H Hb.
  destruct applyPrepayment as [ap|] eqn:Ea; [|discriminate].
  injection H as <-. cbn [balance totalPrincipalPaid].
  match type of Ea with
  | applyPrepayment _ _ _ ?p _ _ _ _ _ = _ =>
      pose proof (LoanFacts.scheduledPrincipal_bounds
                    (currentEMI st)
                    (balance st *
                     (getInterestRateForMonth c (month st + 1) / 100 / 12))%js
                    (balance st) ltac:(lra)) as [Hp1 Hp2];
      pose proof (applied_principal _ _ _ _ _ _ _ _ _ Ea Hp1 Hp2) as Hap
  end.
  eexists. split; [|split; [|split; [apply JSFacts.sub_eq
                                   | apply JSFacts.add_eq]]].
  - destruct (_ >? _)%js; lra.
  - destruct (_ >? _)%js eqn:E; js_test E; lra.
Qed.

(** Principal paid and balance always add up to the amount borrowed. *)
Definition accounted (c : LoanConfiguration) (st : State) : Prop :=
  0 <= balance st /\ 0 <= totalPrincipalPaid st /\
  totalPrincipalPaid st + balance st == principal c.

Lemma body_accounted c st st' :
  accounted c st -> (balance st >? 1 # 100)%js = true ->
  body Math_log c st = Some st' -> accounted c st'.
Proof.
  intros (Hb & Ht & Hsum) Hc Hbody. js_test Hc.
  destruct (body_pays_principal c st st' Hbody Hc)
    as (paid & H1 & H2 & H3 & H4).
  unfold accounted. repeat split; lra.
Qed.

(** X6.  The principal reported is never negative, and a loan that ends
    before the cap of three times the tenure is repaid up to the cent the
    loop writes off. *)
Theorem principal_accounted (c : LoanConfiguration) (res : Result) :
  calculate Math_log c = Ok res ->
  0 <= totalPrincipal res /\
  ((months res < baseTenureMonths c * 3)%Z ->
   principal c - totalPrincipal res <= 1 # 100).
Proof.
  unfold calculate. destruct (validate c) eqn:Hv; [|discriminate].
  destruct loop as [fin|] eqn:Hrun; [|discriminate].
  intros [= <-]. cbn [totalPrincipal months].
  destruct (LoanFacts.validate_nil c Hv) as (Hp & Hn & _).
  assert (Hcount : month fin
                   = Z.of_nat (List.length (amortizationSchedule fin))).
  { eapply LoanFacts.loop_month_is_row_count; [|exact Hrun]. reflexivity. }
  pose proof Hrun as Hinv. unfold loop in Hinv.
  apply (LoopBounds.run_invariant_exit _ _ _ _ _ (accounted c)
           (body_accounted c)) in Hinv;
    [|unfold accounted; cbn [initialState balance totalPrincipalPaid]; lra].
  destruct Hinv as [(Hb & Ht & Hsum)|(s' & (Hb & Ht & Hsum) & He & ->)].
  - split; [|intros Hlt].
    + exact Ht.
    + destruct (balance fin >? 1 # 100)%js eqn:Ec; js_test Ec; [|lra].
      exfalso. unfold loop in Hrun.
      pose proof (LoopBounds.run_out_of_fuel _ _ _ _ _ _
                    amortizationSchedule
                    (LoanFacts.body_rows Math_log c) _ _ _
                    (fun s => eq_refl) Hrun) as Hf.
      cbn beta in Hf. rewrite (proj2 (JSFacts.gt_true _ _)) in Hf by exact Ec.
      specialize (Hf eq_refl).
      cbn [initialState amortizationSchedule List.length] in Hf. lia.
  - js_test He. cbn [zero_balance totalPrincipalPaid].
    split; [exact Ht|intros _; lra].
Qed.
End WithLog.

Lemma ledger_shape_witness :
  validate LoanProperties.cappedConfig = [] /\
  forall Math_log,
  exists res,
    calculate Math_log LoanProperties.cappedConfig = Ok res /\
    months res = 36%Z /\ originalMonths res = 24%Z /\
    Z.of_nat (List.length (schedule res)) = months res.
Proof.
  split; [reflexivity|]. intros log.
  evaluate_call (calculate log LoanProperties.cappedConfig).
  eexists. split; [reflexivity|].
  split; [reflexivity|]. split; [reflexivity|].
  exact (proj1 (proj2 (ledger_shape log _ _ E))).
Defined.


Lemma principal_accounted_witness :
  validate LoanProperties.monthlyPrepayConfig = [] /\
  forall Math_log,
  exists res,
    calculate Math_log LoanProperties.monthlyPrepayConfig = Ok res /\
    (months res < baseTenureMonths LoanProperties.monthlyPrepayConfig * 3)%Z /\
    principal LoanProperties.monthlyPrepayConfig - totalPrincipal res
    <= 1 # 100.
Proof.
  split; [reflexivity|]. intros log.
  evaluate_call (calculate log LoanProperties.monthlyPrepayConfig).
  eexists. split; [reflexivity|].
  split; [reflexivity|].
  apply (proj2 (principal_accounted log _ _ E)). reflexivity.
Defined.
End LedgerFacts.

(** ** When the simulation has a result *)
Module TotalityFacts.
Import JS DataModels Validation.

Section WithLog.
Variable Math_log : num -> num.

(** X7.  v1: without REDUCE_EMI the remaining tenure is never re-estimated,
    so every valid configuration has a result. *)
Theorem reduce_tenure_has_result (c : LoanConfiguration) :
  validate c = [] -> LoanFacts.reduceTenureOnly c ->
  exists res, LoanCalculator.calculate Math_log c = Ok res.
Proof.
  intros Hv Hrt. unfold LoanCalculator.calculate. rewrite Hv.
  assert (H : exists fin,
             LoanCalculator.loop Math_log c
               (Z.to_nat (baseTenureMonths c * 3))
               (LoanCalculator.initialState c) = Some fin /\ True).
  { unfold LoanCalculator.loop.
    apply (LoopFacts.run_total _ _ _ _ _ (fun _ => True));
      [|intros; exact I|exact I].
    intros s _ Hc. js_test Hc.
    destruct (LoanFacts.body_reduce_tenure Math_log c s Hrt Hc)
      as (s' & Hs' & _).
    exists s'. split; [exact Hs'|exact I]. }
  destruct H as (fin & -> & _). eexists. reflexivity.
Qed.

Lemma v2_estimate_defined c emi b rate :
  0 <= rate ->
  exists n,
    LoanCalculatorV2._estimateRemainingMonths Math_log c emi b rate
    = Some n.
Proof.
  intros Hr. unfold LoanCalculatorV2._estimateRemainingMonths.
  destruct (_ || _); [eauto|].
  destruct (rate =? 0)%js; [eauto|].
  destruct (emi <=? _)%js; [eauto|].
  destruct (1 + rate / 100 / 12 <? 0)%js eqn:E.
  - js_test E. rewrite JSFacts.add_eq, JSFacts.monthly_rate_eq in E. lra.
  - destruct (_ =? _)%js; [eauto|].
    destruct (_ <? _)%Z; [eauto|]. destruct (_ >? _)%Z; eauto.
Qed.

Lemma v2_body_defined c st :
  LoanFacts.ratesNonneg c ->
  exists st', LoanCalculatorV2.body Math_log c st = Some st'.
Proof.
  intros Hr. unfold LoanCalculatorV2.body.
  pose proof (LoanFacts.rate_nonneg c (LoanCalculatorV2.month st + 1) Hr)
    as Hrate.
  unfold LoanCalculatorV2.applyPrepayment.
  destruct (_ >? 0)%js; [|eauto].
  destruct (match LoanCalculator.strategy _ with
            | Some s => s | None => _ end); [eauto|].
  destruct (_ >? _)%js; [|eauto].
  match goal with
  | |- context [LoanCalculatorV2._estimateRemainingMonths _ _ ?e ?b ?r] =>
      destruct (v2_estimate_defined c e b r Hrate) as [n ->]
  end.
  eauto.
Qed.

(** X8.  v2: the guard on the EMI keeps the logarithm defined, so with
    non-negative rates every valid configuration has a result, whatever the
    strategies. *)
Theorem v2_nonneg_rates_has_result (c : LoanConfiguration) :
  validate c = [] -> LoanFacts.ratesNonneg c ->
  exists res, LoanCalculatorV2.calculate Math_log c = Ok res.
Proof.
  intros Hv Hr. unfold LoanCalculatorV2.calculate. rewrite Hv.
  assert (H : exists fin,
             LoanCalculatorV2.loop Math_log c
               (Z.to_nat (baseTenureMonths c * 3))
               (LoanCalculatorV2.initialState c) = Some fin /\ True).
  { unfold LoanCalculatorV2.loop.
    apply (LoopFacts.run_total _ _ _ _ _ (fun _ => True));
      [|intros; exact I|exact I].
    intros s _ _. destruct (v2_body_defined c s Hr) as [s' Hs'].
    exists s'. split; [exact Hs'|exact I]. }
  destruct H as (fin & -> & _). eexists. reflexivity.
Qed.
End WithLog.

Lemma reduce_tenure_has_result_witness :
  validate LoanProperties.cappedConfig = [] /\
  LoanFacts.reduceTenureOnly LoanProperties.cappedConfig /\
  forall Math_log,
  exists res, LoanCalculator.calculate Math_log LoanProperties.cappedConfig
              = Ok res.
Proof.
  assert (Hrt : LoanFacts.reduceTenureOnly LoanProperties.cappedConfig).
  { unfold LoanFacts.reduceTenureOnly. simpl.
    repeat split; repeat constructor; discriminate. }
  split; [reflexivity|]. split; [exact Hrt|].
  intros log.
  exact (reduce_tenure_has_result log LoanProperties.cappedConfig
           eq_refl Hrt).
Defined.

(** 1000 over 3 months: 0 % in month 1, 1200 % a year from month 2 on;
    10 prepaid in month 2 under REDUCE_EMI, when the EMI of 333.33 is
    below the month's interest. *)
Definition rateShockConfig : LoanConfiguration :=
  addOneTimePrepayment
    (addRatePeriod
       (addRatePeriod (LoanProperties.loan 1000 3 REDUCE_TENURE) 1 0 None)
       2 1200 None)
    10 2 (Some REDUCE_EMI).

Lemma v2_nonneg_rates_has_result_witness :
  validate rateShockConfig = [] /\
  LoanFacts.ratesNonneg rateShockConfig /\
  forall Math_log,
    LoanCalculator.calculate Math_log rateShockConfig = NotANumber /\
    exists res, LoanCalculatorV2.calculate Math_log rateShockConfig = Ok res.
Proof.
  assert (Hr : LoanFacts.ratesNonneg rateShockConfig).
  { unfold LoanFacts.ratesNonneg. simpl.
    repeat constructor; simpl; lra. }
  split; [reflexivity|]. split; [exact Hr|].
  intros log. split; [vm_compute; reflexivity|].
  exact (v2_nonneg_rates_has_result log rateShockConfig eq_refl Hr).
Defined.
End TotalityFacts.

(** ** A loan without prepayments against its baseline *)
Module BaselineFacts.
Import JS DataModels Validation LoanCalculator.

Definition noPrepayments (c : LoanConfiguration) : Prop :=
  monthly (prepaymentStrategy c) = [] /\
  yearly (prepaymentStrategy c) = [] /\
  oneTime (prepaymentStrategy c) = [].

Lemma nothing_to_prepay c m :
  noPrepayments c -> amount (getPrepaymentForMonth c m) = 0.
Proof.
  intros (H1 & H2 & H3).
  unfold getPrepaymentForMonth, collectPrepayments.
  now rewrite H1, H2, H3.
Qed.

(** A baseline that stops above a cent has used up its months. *)
Lemma originalLoop_out_of_fuel c emi fuel :
  forall o,
    1 # 100 < o_balance (originalLoop c emi fuel o) ->
    o_months (originalLoop c emi fuel o)
    = (o_months o + Z.of_nat fuel)%Z.
Proof.
  induction fuel as [|fuel IH]; intros o H.
  - simpl. lia.
  - rewrite LoanFacts.originalLoop_S in *.
    destruct (o_balance o >? 1 # 100)%js eqn:E.
    + destruct (o_balance (originalBody c emi o) <=? 1 # 100)%js eqn:E2.
      * js_test E2. lra.
      * rewrite IH by exact H. unfold originalBody. cbn [o_months]. lia.
    + js_test E. lra.
Qed.

Section WithLog.
Variable Math_log : num -> num.

(** The run is where the baseline is. *)
Definition onBaseline (emi : num) (st : State) (o : Original) : Prop :=
  balance st = o_balance o /\ month st = o_months o /\
  totalInterestPaid st = o_totalInterest o /\ currentEMI st = emi /\
  0 <= balance st.

Lemma body_onBaseline c emi st o :
  noPrepayments c -> onBaseline emi st o ->
  exists st',
    body Math_log c st = Some st' /\
    onBaseline emi st' (originalBody c emi o).
Proof.
  intros Hn (Hb & Hm & Hi & He & H0). unfold body.
  rewrite (nothing_to_prepay c _ Hn). unfold applyPrepayment.
  change (0 >? 0)%js with false. cbv iota. cbn [ap_principal ap_emi].
  set (mr := (getInterestRateForMonth c (month st + 1) / 100 / 12)%js).
  set (sp := scheduledPrincipal (currentEMI st) (balance st * mr)%js
                                (balance st)).
  destruct (LoanFacts.scheduledPrincipal_bounds
              (currentEMI st) (balance st * mr)%js (balance st) H0)
    as [Hs0 Hs1].
  fold sp in Hs0, Hs1.
  destruct (sp >? balance st)%js eqn:E; [js_test E; lra|].
  eexists. split; [reflexivity|].
  unfold onBaseline, originalBody.
  cbn [balance month totalInterestPaid currentEMI
       o_balance o_months o_totalInterest].
  unfold sp, mr. rewrite <- Hb, <- Hm, <- Hi, <- He.
  repeat split; try reflexivity.
  fold mr. fold sp. rewrite JSFacts.sub_eq. lra.
Qed.

Lemma loop_tracks_baseline c emi :
  noPrepayments c ->
  forall (fB fM : nat) (st : State) (o : Original),
    (fB <= fM)%nat -> onBaseline emi st o ->
    o_balance (originalLoop c emi fB o) <= 1 # 100 ->
    exists fin,
      loop Math_log c fM st = Some fin /\
      month fin = o_months (originalLoop c emi fB o) /\
      totalInterestPaid fin = o_totalInterest (originalLoop c emi fB o).
Proof.
  intros Hn. induction fB as [|fB IH]; intros fM st o Hf Hon Hpaid.
  - simpl in *. destruct Hon as (Hb & Hm & Hi & _).
    exists st. split; [|split; assumption].
    destruct fM; [reflexivity|]. rewrite LoanFacts.loop_S.
    destruct (balance st >? 1 # 100)%js eqn:E; [|reflexivity].
    js_test E. rewrite Hb in E. lra.
  - destruct fM as [|fM]; [lia|].
    destruct (Qlt_le_dec (1 # 100) (o_balance o)) as [Ho|Ho].
    + rewrite LoanFacts.originalLoop_step in * by exact Ho.
      destruct (body_onBaseline c emi st o Hn Hon) as (st' & Hbody & Hon').
      destruct Hon as (Hb & _).
      rewrite LoanFacts.loop_S, Hb.
      rewrite (proj2 (JSFacts.gt_true _ _)) by exact Ho.
      rewrite Hbody.
      destruct (balance st' <=? 1 # 100)%js eqn:E2.
      * js_test E2. destruct Hon' as (Hb' & Hm' & Hi' & _).
        rewrite LoanFacts.originalLoop_stop by (rewrite <- Hb'; exact E2).
        eexists. split; [reflexivity|].
        cbn [zero_balance month totalInterestPaid]. split; assumption.
      * apply IH; [lia | exact Hon' | exact Hpaid].
    + rewrite LoanFacts.originalLoop_stop in * by exact Ho.
      destruct Hon as (Hb & Hm & Hi & _).
      exists st. split; [|split; assumption].
      rewrite LoanFacts.loop_S.
      destruct (balance st >? 1 # 100)%js eqn:E; [|reflexivity].
      js_test E. rewrite Hb in E. lra.
Qed.

(** X9.  With no prepayment configured the simulation always has a result,
    and when the baseline ends before its cap of twice the tenure the result
    is the baseline: the same number of months and the same interest,
    nothing saved and no month gained. *)
Theorem no_prepayment_is_baseline (c : LoanConfiguration) :
  validate c = [] -> noPrepayments c ->
  exists res,
    calculate Math_log c = Ok res /\
    ((originalMonths res < baseTenureMonths c * 2)%Z ->
     months res = originalMonths res /\
     totalInterest res = originalTotalInterest res /\
     tenureReduced res = 0%Z /\ interestSaved res == 0).
Proof.
  intros Hv Hn.
  destruct (LoanFacts.validate_nil c Hv) as (Hp & Ht & _).
  unfold calculate. rewrite Hv.
  assert (Htotal : exists fin,
             loop Math_log c (Z.to_nat (baseTenureMonths c * 3))
                  (initialState c) = Some fin /\ 0 <= balance fin).
  { unfold loop.
    apply (LoopFacts.run_total _ _ _ _ _ (fun s => 0 <= balance s)).
    - intros s Hs _.
      destruct (body_onBaseline c (currentEMI s) s
                  {| o_balance := balance s; o_months := month s;
                     o_totalInterest := totalInterestPaid s |} Hn)
        as (s' & Hs' & (_ & _ & _ & _ & H0)).
      { repeat split; try reflexivity. exact Hs. }
      exists s'. split; assumption.
    - intros s _. cbn [zero_balance balance]. lra.
    - cbn [initialState balance]. lra. }
  destruct Htotal as (fin & Hrun & _). rewrite Hrun.
  eexists. split; [reflexivity|].
  cbn [originalMonths months totalInterest originalTotalInterest
       tenureReduced interestSaved].
  intros Hlt. unfold calculateOriginalLoan in *.
  set (fB := Z.to_nat (baseTenureMonths c * 2)) in *.
  set (emi := calculateInitialEMI c) in *.
  assert (Hpaid : o_balance (originalLoop c emi fB (originalStart c))
                  <= 1 # 100).
  { destruct (Qlt_le_dec (1 # 100)
                (o_balance (originalLoop c emi fB (originalStart c))))
      as [H|H]; [|exact H].
    apply originalLoop_out_of_fuel in H.
    unfold originalStart in H at 2. cbn [o_months] in H.
    unfold fB in H at 2. lia. }
  destruct (loop_tracks_baseline c emi Hn fB
              (Z.to_nat (baseTenureMonths c * 3))
              (initialState c) (originalStart c))
    as (fin' & Hrun' & Hm & Hi); [unfold fB; lia| |exact Hpaid|].
  { unfold onBaseline, initialState, originalStart.
    cbn [balance month totalInterestPaid currentEMI
         o_balance o_months o_totalInterest].
    repeat split; try reflexivity. lra. }
  rewrite Hrun in Hrun'. injection Hrun' as <-.
  rewrite Hm, Hi. split; [reflexivity|]. split; [reflexivity|].
  split; [lia|].
  set (x := o_totalInterest (originalLoop c emi fB (originalStart c))).
  destruct (JSFacts.max_cases (x - x)%js 0) as [[_ ->]|[_ ->]];
    [reflexivity | rewrite JSFacts.sub_eq; apply Qplus_opp_r].
Qed.
End WithLog.

(** 100000 over 12 months at 12 %, no prepayment. *)
Definition plainConfig : LoanConfiguration :=
  addRatePeriod (LoanProperties.loan 100000 12 REDUCE_TENURE) 1 12 None.

Lemma no_prepayment_is_baseline_witness :
  validate plainConfig = [] /\ noPrepayments plainConfig /\
  forall Math_log,
  exists res,
    calculate Math_log plainConfig = Ok res /\
    months res = 12%Z /\ originalMonths res = 12%Z /\
    totalInterest res = originalTotalInterest res.
Proof.
  assert (Hn : noPrepayments plainConfig) by (repeat split).
  split; [reflexivity|]. split; [exact Hn|]. intros log.
  destruct (no_prepayment_is_baseline log plainConfig eq_refl Hn)
    as (res & Hres & H).
  exists res. split; [exact Hres|].
  assert (Hc : months res = 12%Z /\ originalMonths res = 12%Z).
  { pose proof Hres as E. vm_compute in E. injection E as <-.
    split; reflexivity. }
  destruct Hc as [Hc1 Hc2]. split; [exact Hc1|]. split; [exact Hc2|].
  apply H. rewrite Hc2. reflexivity.
Defined.
End BaselineFacts.

(** ** The v1 calculator between calls *)
Module CalculatorObjectFacts.
Import JS DataModels Validation LoanCalculator LoanCalculatorObject.

Section WithLog.
Variable Math_log : num -> num.

(** The same run, started on a ledger that already holds [prior]. *)
Definition onTopOf (prior : list Row) (s s0 : State) : Prop :=
  balance s = balance s0 /\ currentEMI s = currentEMI s0 /\
  month s = month s0 /\ totalInterestPaid s = totalInterestPaid s0 /\
  totalPrincipalPaid s = totalPrincipalPaid s0 /\
  amortizationSchedule s = prior ++ amortizationSchedule s0.

Lemma body_onTopOf c prior s s0 :
  onTopOf prior s s0 ->
  LoopBounds.related _ _ (onTopOf prior)
                     (body Math_log c s) (body Math_log c s0).
Proof.
  intros (Hb & He & Hm & Hi & Hp & Hs). unfold body.
  rewrite Hb, He, Hm, Hi, Hp, Hs.
  destruct applyPrepayment as [ap|]; [|exact I].
  cbn [LoopBounds.related]. unfold onTopOf.
  cbn [balance currentEMI month totalInterestPaid totalPrincipalPaid
       amortizationSchedule].
  repeat split; try reflexivity. now rewrite app_assoc.
Qed.

Lemma loop_onTopOf c prior fuel s s0 :
  onTopOf prior s s0 ->
  LoopBounds.related _ _ (onTopOf prior)
                     (loop Math_log c fuel s) (loop Math_log c fuel s0).
Proof.
  unfold loop. apply LoopBounds.run_related.
  - intros a b (Hb & _). now rewrite Hb.
  - intros a b. apply body_onTopOf.
  - intros a b (Hb & _). now rewrite Hb.
  - intros a b (Hb & He & Hm & Hi & Hp & Hs). unfold onTopOf.
    cbn [zero_balance balance currentEMI month totalInterestPaid
         totalPrincipalPaid amortizationSchedule].
    repeat split; assumption.
Qed.

(** X10.  [calculate()] does not clear the ledger. On a new calculator it is
    the function of the configuration alone; called again on the same
    calculator it simulates the same months and pushes their rows after the
    ones already there, so the second result shows every month twice. *)
Theorem repeat_calculate_appends (c : LoanConfiguration) (res : Result)
        (calc1 : Calculator) :
  calculateOn Math_log (newCalculator c) = Ok (res, calc1) ->
  calculate Math_log c = Ok res /\
  exists res2 calc2,
    calculateOn Math_log calc1 = Ok (res2, calc2) /\
    schedule res2 = schedule res ++ schedule res /\
    months res2 = months res /\
    totalInterest res2 = totalInterest res /\
    totalPrincipal res2 = totalPrincipal res /\
    finalEMI res2 = finalEMI res.
Proof.
  unfold calculateOn. cbn [newCalculator config calc_amortizationSchedule].
  destruct (validate c) eqn:Hv; [|discriminate].
  change {| balance := principal c; currentEMI := calculateInitialEMI c;
            month := 0; totalInterestPaid := 0; totalPrincipalPaid := 0;
            amortizationSchedule := [] |} with (initialState c).
  destruct (loop Math_log c _ (initialState c)) as [fin|] eqn:Hrun;
    [|discriminate].
  intros [= <- <-]. split.
  - unfold calculate. now rewrite Hv, Hrun.
  - cbn [config calc_amortizationSchedule]. rewrite Hv.
    set (again := {| balance := principal c;
                     currentEMI := calculateInitialEMI c;
                     month := 0; totalInterestPaid := 0;
                     totalPrincipalPaid := 0;
                     amortizationSchedule := amortizationSchedule fin |}).
    assert (H0 : onTopOf (amortizationSchedule fin) again (initialState c)).
    { unfold onTopOf, again, initialState.
      cbn [balance currentEMI month totalInterestPaid
           totalPrincipalPaid amortizationSchedule].
      repeat split; try reflexivity. now rewrite app_nil_r. }
    pose proof (loop_onTopOf c (amortizationSchedule fin)
                  (Z.to_nat (baseTenureMonths c * 3)) again
                  (initialState c) H0) as Hrel.
    rewrite Hrun in Hrel. unfold LoopBounds.related in Hrel.
    destruct (loop Math_log c _ again) as [fin2|]; [|contradiction].
    destruct Hrel as (Hb & He & Hm & Hi & Hp & Hs).
    eexists. eexists. split; [reflexivity|].
    cbn [schedule months totalInterest totalPrincipal finalEMI].
    repeat split; assumption.
Qed.

(** *** [generateFullSchedule] *)

(** The state of [generateFullSchedule] against the state of
    [calculate]. *)
Definition sameRun (f : FullState) (s : State) : Prop :=
  fs_balance f = balance s /\ fs_currentEMI f = currentEMI s /\
  fs_month f = month s /\ fs_fullSchedule f = amortizationSchedule s.

Lemma fullBody_sameRun c f s :
  sameRun f s ->
  LoopBounds.related _ _ sameRun (fullBody Math_log c f)
                     (body Math_log c s).
Proof.
  intros (Hb & He & Hm & Hs). unfold fullBody, body.
  rewrite Hb, He, Hm, Hs.
  unfold applyPrepayment, scheduledPrincipal. cbv zeta.
  destruct (amount _ >? 0)%js.
  - destruct (match strategy _ with Some s0 => s0 | None => _ end).
    + cbn [LoopBounds.related ap_principal ap_emi ap_prepayment].
      unfold sameRun.
      cbn [fs_balance fs_currentEMI fs_month fs_fullSchedule
           balance currentEMI month amortizationSchedule].
      repeat split; reflexivity.
    + destruct (_ >? 1 # 100)%js.
      * destruct estimateRemainingMonths; [|exact I].
        cbn [LoopBounds.related ap_principal ap_emi ap_prepayment].
        unfold sameRun.
        cbn [fs_balance fs_currentEMI fs_month fs_fullSchedule
             balance currentEMI month amortizationSchedule].
        repeat split; reflexivity.
      * cbn [LoopBounds.related ap_principal ap_emi ap_prepayment].
        unfold sameRun.
        cbn [fs_balance fs_currentEMI fs_month fs_fullSchedule
             balance currentEMI month amortizationSchedule].
        repeat split; reflexivity.
  - cbn [LoopBounds.related ap_principal ap_emi ap_prepayment].
    unfold sameRun.
    cbn [fs_balance fs_currentEMI fs_month fs_fullSchedule
         balance currentEMI month amortizationSchedule].
    repeat split; reflexivity.
Qed.

(** After the early exit [calculate] zeroes its balance and
    [generateFullSchedule] does not; the rest agrees. *)
Definition sameLedger (f : FullState) (s : State) : Prop :=
  fs_currentEMI f = currentEMI s /\ fs_month f = month s /\
  fs_fullSchedule f = amortizationSchedule s.

Lemma fullLoop_sameLedger c fuel :
  forall f s, sameRun f s ->
    LoopBounds.related _ _ sameLedger (fullLoop Math_log c fuel f)
                       (loop Math_log c fuel s).
Proof.
  unfold fullLoop, loop.
  induction fuel as [|fuel IH]; intros f s H.
  - destruct H as (_ & H). exact H.
  - rewrite !LoopFacts.run_S.
    destruct H as (Hb & He & Hm & Hs). rewrite Hb.
    destruct (balance s >? 1 # 100)%js; [|repeat split; assumption].
    pose proof (fullBody_sameRun c f s
                  (conj Hb (conj He (conj Hm Hs)))) as Hbody.
    unfold LoopBounds.related in Hbody.
    destruct (fullBody Math_log c f) as [f'|],
             (body Math_log c s) as [s'|]; try contradiction; [|exact I].
    pose proof Hbody as (Hb' & He' & Hm' & Hs'). rewrite Hb'.
    destruct (balance s' <=? 1 # 100)%js.
    + repeat split; assumption.
    + apply IH. exact Hbody.
Qed.

(** X11.  [generateFullSchedule()] returns the rows that [calculate()] puts
    on the ledger of a new calculator, leaves the stored ledger as it was
    and the EMI of the calculator at the final EMI of the run. *)
Theorem full_schedule_is_ledger (calc : Calculator) (res : Result) :
  calculate Math_log (config calc) = Ok res ->
  exists calc',
    generateFullSchedule Math_log calc = Ok (schedule res, calc') /\
    calc_amortizationSchedule calc' = calc_amortizationSchedule calc /\
    calc_currentEMI calc' = finalEMI res /\
    config calc' = config calc.
Proof.
  intros Hc.
  destruct (LoanFacts.calculate_ok Math_log _ _ Hc)
    as (Hv & fin & Hrun & Hs & _).
  destruct (LoanFacts.validate_nil _ Hv) as (_ & _ & Hne).
  assert (Hemi : finalEMI res = currentEMI fin).
  { unfold calculate in Hc. rewrite Hv, Hrun in Hc.
    now injection Hc as <-. }
  unfold generateFullSchedule.
  destruct (interestRateSchedule (config calc)) eqn:Hsched;
    [contradiction|].
  set (start := {| fs_balance := principal (config calc);
                   fs_currentEMI := calculateInitialEMI (config calc);
                   fs_month := 0; fs_fullSchedule := [] |}).
  pose proof (fullLoop_sameLedger (config calc)
                (Z.to_nat (baseTenureMonths (config calc) * 3))
                start (initialState (config calc))
                ltac:(repeat split)) as Hrel.
  rewrite Hrun in Hrel. unfold LoopBounds.related in Hrel.
  destruct (fullLoop Math_log (config calc) _ start) as [f|];
    [|contradiction].
  destruct Hrel as (He & Hm & Hf).
  eexists. split; [rewrite Hs, <- Hf; reflexivity|].
  cbn [calc_amortizationSchedule calc_currentEMI config].
  repeat split. now rewrite Hemi.
Qed.
End WithLog.

Lemma repeat_calculate_appends_witness :
  validate LoanProperties.reduceEmiConfig = [] /\
  forall Math_log,
  exists res calc1,
    calculateOn Math_log (newCalculator LoanProperties.reduceEmiConfig)
    = Ok (res, calc1) /\
    months res = 4%Z /\
    exists res2 calc2,
      calculateOn Math_log calc1 = Ok (res2, calc2) /\
      months res2 = 4%Z /\ List.length (schedule res2) = 8%nat.
Proof.
  split; [reflexivity|]. intros log.
  destruct (calculateOn log (newCalculator LoanProperties.reduceEmiConfig))
    as [[res calc1]| |] eqn:E;
    try (vm_compute in E; discriminate E).
  destruct (repeat_calculate_appends log _ _ _ E)
    as (Hc & res2 & calc2 & H2 & Hs & Hm & _).
  assert (Hres : months res = 4%Z /\ List.length (schedule res) = 4%nat).
  { pose proof Hc as Hc'. vm_compute in Hc'. injection Hc' as <-.
    split; reflexivity. }
  exists res, calc1. split; [reflexivity|]. split; [exact (proj1 Hres)|].
  exists res2, calc2. split; [exact H2|].
  split; [rewrite Hm; exact (proj1 Hres)|].
  rewrite Hs, length_app, (proj2 Hres). reflexivity.
Defined.

Lemma full_schedule_is_ledger_witness :
  validate LoanProperties.monthlyPrepayConfig = [] /\
  forall Math_log,
  exists res calc',
    calculate Math_log
      (config (newCalculator LoanProperties.monthlyPrepayConfig)) = Ok res /\
    generateFullSchedule Math_log
      (newCalculator LoanProperties.monthlyPrepayConfig)
    = Ok (schedule res, calc').
Proof.
  split; [reflexivity|]. intros log.
  destruct (calculate log
              (config (newCalculator LoanProperties.monthlyPrepayConfig)))
    as [res| |] eqn:E; try (vm_compute in E; discriminate E).
  destruct (full_schedule_is_ledger log _ _ E) as (calc' & H & _).
  exists res, calc'. split; [reflexivity | exact H].
Defined.
End CalculatorObjectFacts.

(** ** The EMI formula and its inverse *)
Module EMIFacts.
Import JS Formatters EMICalculator EMITools.

(** Equal values round to the same number. *)
Lemma roundCurrency_compat (x y : num) :
  x == y -> roundCurrency x = roundCurrency y.
Proof.
  intros H. unfold roundCurrency, Math_round.
  assert (E : Qfloor ((x * 100)%js + (1 # 2))
              = Qfloor ((y * 100)%js + (1 # 2))).
  { apply Qfloor_comp. now rewrite !JSFacts.mul_eq, H. }
  now rewrite E.
Qed.

Lemma roundCurrency_mono (x y : num) :
  x <= y -> roundCurrency x <= roundCurrency y.
Proof.
  intros H. unfold roundCurrency, Math_round, ofZ.
  rewrite !JSFacts.div_eq.
  set (fx := Qfloor ((x * 100)%js + (1 # 2))).
  set (fy := Qfloor ((y * 100)%js + (1 # 2))).
  assert (E : (fx <= fy)%Z).
  { apply Qfloor_resp_le. rewrite !JSFacts.mul_eq. lra. }
  rewrite Zle_Qle in E.
  set (a := inject_Z fx) in *.
  set (b := inject_Z fy) in *.
  setoid_replace (a / 100) with (a * (1 # 100)) by field.
  setoid_replace (b / 100) with (b * (1 # 100)) by field.
  lra.
Qed.

Lemma roundCurrency_nonneg (x : num) :
  - (1 # 200) <= x -> 0 <= roundCurrency x.
Proof.
  intros H. unfold roundCurrency, Math_round, ofZ.
  rewrite JSFacts.div_eq.
  set (fx := Qfloor ((x * 100)%js + (1 # 2))).
  assert (E : (0 <= fx)%Z).
  { change 0%Z with (Qfloor 0). apply Qfloor_resp_le.
    rewrite JSFacts.mul_eq. lra. }
  rewrite Zle_Qle in E.
  set (a := inject_Z fx) in *.
  setoid_replace (a / 100) with (a * (1 # 100)) by field.
  change (inject_Z 0) with 0 in E. lra.
Qed.

(** Bernoulli's inequality and its mirror image for the growth factor
    [(1 + r)^k]. *)
Lemma growth_bounds (r : Q) (k : nat) :
  0 <= r ->
  1 + inject_Z (Z.of_nat k) * r <= (1 + r) ^ Z.of_nat k /\
  (1 + r) ^ Z.of_nat k - 1
  <= inject_Z (Z.of_nat k) * r * (1 + r) ^ Z.of_nat k.
Proof.
  intros Hr. induction k as [|k [IH1 IH2]].
  - change (Z.of_nat 0) with 0%Z. change ((1 + r) ^ 0) with 1.
    change (inject_Z 0) with 0. split; lra.
  - rewrite Nat2Z.inj_succ. unfold Z.succ.
    rewrite Qpower_plus' by lia. rewrite Qpower_1_r, inject_Z_plus.
    set (f := (1 + r) ^ Z.of_nat k) in *.
    set (n := inject_Z (Z.of_nat k)) in *.
    assert (Hn : 0 <= n).
    { unfold n. change 0 with (inject_Z 0). rewrite <- Zle_Qle. lia. }
    assert (Hf : 1 <= f) by nra.
    change (inject_Z 1) with 1. split; nra.
Qed.

Lemma growth_gt_1 (r : Q) (n : Z) :
  0 < r -> (1 <= n)%Z -> 1 < (1 + r) ^ n.
Proof.
  intros Hr Hn.
  destruct (growth_bounds r (Z.to_nat n)) as [H _]; [lra|].
  rewrite Z2Nat.id in H by lia.
  assert (1 <= inject_Z n)
    by (change 1 with (inject_Z 1); rewrite <- Zle_Qle; lia).
  nra.
Qed.

Lemma emi_closed_form (P rate : Q) (n : Z) :
  0 <= rate -> (1 <= n)%Z ->
  let r := rate * (1 # 1200) in
  (rate == 0 -> _emi P rate n == P / inject_Z n) /\
  (~ rate == 0 ->
   _emi P rate n == P * r * (1 + r) ^ n / ((1 + r) ^ n - 1)).
Proof.
  intros Hrate Hn r. unfold _emi.
  destruct (rate =? 0)%js eqn:E; js_test E.
  - split; [|contradiction]. intros _. apply JSFacts.div_eq.
  - split; [contradiction|]. intros _.
    rewrite JSFacts.div_eq, JSFacts.sub_eq, !JSFacts.mul_eq,
      JSFacts.pow_eq, JSFacts.add_eq, JSFacts.monthly_rate_eq.
    reflexivity.
Qed.

Lemma emi_positive (P rate : Q) (n : Z) :
  0 < P -> 0 <= rate -> (1 <= n)%Z -> 0 < _emi P rate n.
Proof.
  intros HP Hrate Hn.
  assert (HnQ : 1 <= inject_Z n)
    by (change 1 with (inject_Z 1); rewrite <- Zle_Qle; lia).
  destruct (emi_closed_form P rate n Hrate Hn) as [H0 H1].
  destruct (Qeq_dec rate 0) as [E|E].
  - rewrite (H0 E). apply Qlt_shift_div_l; lra.
  - rewrite (H1 E).
    pose proof (growth_gt_1 (rate * (1 # 1200)) n ltac:(lra) Hn) as Hf.
    set (f := (1 + rate * (1 # 1200)) ^ n) in *.
    assert (Hr : 0 < rate * (1 # 1200)) by lra.
    set (r := rate * (1 # 1200)) in *.
    apply Qlt_shift_div_l; [lra|].
    assert (0 < P * r) by (apply Qmult_lt_0_compat; lra).
    assert (0 < P * r * f) by (apply Qmult_lt_0_compat; lra).
    lra.
Qed.

(** X14.  The largest loan that the EMI of a loan repays is that loan, to the
    cent: [calculateMaxLoan] undoes [_emi] at the same rate and tenure. *)
Theorem max_loan_inverts_emi (P rate : Q) (n : Z) :
  0 < P -> 0 <= rate -> (1 <= n)%Z ->
  calculateMaxLoan (_emi P rate n) rate n = Ok (roundCurrency P).
Proof.
  intros HP Hrate Hn.
  pose proof (emi_positive P rate n HP Hrate Hn) as Hemi.
  destruct (emi_closed_form P rate n Hrate Hn) as [H0 H1].
  assert (HnQ : 1 <= inject_Z n)
    by (change 1 with (inject_Z 1); rewrite <- Zle_Qle; lia).
  unfold calculateMaxLoan.
  rewrite (proj2 (JSFacts.le_false _ _)) by exact Hemi.
  rewrite (proj2 (JSFacts.lt_false _ _)) by exact Hrate.
  destruct (n <=? 0)%Z eqn:En; [apply Z.leb_le in En; lia|].
  destruct (rate =? 0)%js eqn:E; js_test E; f_equal;
    apply roundCurrency_compat.
  - rewrite JSFacts.mul_eq, (H0 E). unfold ofZ. field. lra.
  - pose proof (growth_gt_1 (rate * (1 # 1200)) n ltac:(lra) Hn) as Hf.
    rewrite JSFacts.div_eq, !JSFacts.mul_eq, JSFacts.sub_eq,
      JSFacts.pow_eq, JSFacts.add_eq, JSFacts.monthly_rate_eq, (H1 E).
    set (f := (1 + rate * (1 # 1200)) ^ n) in *.
    field. repeat split; lra.
Qed.

Lemma max_loan_inverts_emi_witness :
  0 < 2500000 /\ 0 <= 17 # 2 /\ (1 <= 240)%Z /\
  calculateMaxLoan (_emi 2500000 (17 # 2) 240) (17 # 2) 240
  = Ok (roundCurrency 2500000).
Proof.
  assert (H1 : 0 < 2500000) by reflexivity.
  assert (H2 : 0 <= 17 # 2) by (vm_compute; discriminate).
  assert (H3 : (1 <= 240)%Z) by lia.
  split; [exact H1|]. split; [exact H2|]. split; [exact H3|].
  exact (max_loan_inverts_emi 2500000 (17 # 2) 240 H1 H2 H3).
Defined.

(** On finite numbers and a whole tenure, [calculateEMI] throws exactly on a
    principal that is not positive, a negative rate or a tenure that is not
    positive; otherwise it returns, and the total interest it reports is
    not negative. *)
Lemma emi_interest_on_numbers (P rate : Q) (n : Z) :
  (0 < P /\ 0 <= rate /\ (1 <= n)%Z ->
   exists res,
     calculateEMI P rate n = Ok res /\
     0 <= totalInterest res /\ P - (1 # 200) < totalPayment res) /\
  (~ (0 < P /\ 0 <= rate /\ (1 <= n)%Z) ->
   exists errors, calculateEMI P rate n = Throws errors).
Proof.
  unfold calculateEMI, validateLoanInputs. split.
  - intros (HP & Hrate & Hn).
    rewrite (proj2 (JSFacts.le_false _ _)) by exact HP.
    rewrite (proj2 (JSFacts.lt_false _ _)) by exact Hrate.
    destruct (n <=? 0)%Z eqn:En; [apply Z.leb_le in En; lia|].
    cbn [app]. eexists. split; [reflexivity|]. cbn [totalInterest totalPayment].
    assert (HnQ : 1 <= inject_Z n)
      by (change 1 with (inject_Z 1); rewrite <- Zle_Qle; lia).
    assert (Hpay : P <= (_emi P rate n * ofZ n)%js).
    { rewrite JSFacts.mul_eq. unfold ofZ.
      destruct (emi_closed_form P rate n Hrate Hn) as [H0 H1].
      destruct (Qeq_dec rate 0) as [E|E].
      - rewrite (H0 E). apply Qle_lteq. right. field. lra.
      - rewrite (H1 E).
        pose proof (growth_gt_1 (rate * (1 # 1200)) n ltac:(lra) Hn) as Hf.
        destruct (growth_bounds (rate * (1 # 1200)) (Z.to_nat n))
          as [_ Hb]; [lra|].
        rewrite Z2Nat.id in Hb by lia.
        set (r := rate * (1 # 1200)) in *.
        set (f := (1 + r) ^ n) in *.
        setoid_replace (P * r * f / (f - 1) * inject_Z n)
          with (P * (inject_Z n * r * f) / (f - 1)) by (field; lra).
        apply Qle_shift_div_l; [lra|].
        assert (Hx : P * (f - 1) <= P * (inject_Z n * r * f))
          by (apply Qmult_le_l; [exact HP | exact Hb]).
        lra. }
    pose proof (LoanV2Facts.roundCurrency_close
                  (_emi P rate n * ofZ n)%js) as [Hc1 Hc2].
    split.
    + apply roundCurrency_nonneg. rewrite JSFacts.sub_eq. lra.
    + lra.
  - intros Hnot.
    destruct (P <=? 0)%js eqn:E1; destruct (rate <? 0)%js eqn:E2;
      destruct (n <=? 0)%Z eqn:E3;
      try (simpl; eexists; reflexivity).
    exfalso. apply Hnot. js_test E1. js_test E2. apply Z.leb_gt in E3.
    repeat split; [exact E1 | exact E2 | lia].
Qed.

(** X16.  At 0 % the tenure is the least number of instalments that covers
    the principal, no logarithm is taken, and the interest reported (the
    overpayment of the last instalment) is not negative and within half a
    cent of less than one instalment. *)
Theorem zero_rate_tenure_minimal (Math_log : num -> num) (P emi : Q) :
  0 < P -> 0 < emi ->
  exists res,
    calculateTenure Math_log P emi 0 = Ok res /\
    (1 <= tenureMonths res)%Z /\
    emi * inject_Z (tenureMonths res - 1) < P /\
    P <= emi * inject_Z (tenureMonths res) /\
    0 <= t_totalInterest res /\ t_totalInterest res < emi + (1 # 200).
Proof.
  intros HP Hemi. unfold calculateTenure.
  rewrite (proj2 (JSFacts.le_false P 0)) by exact HP.
  rewrite (proj2 (JSFacts.le_false emi 0)) by exact Hemi.
  change (0 <? 0)%js with false. change (0 =? 0)%js with true.
  cbv iota. eexists. split; [reflexivity|].
  cbn [tenureMonths t_totalInterest]. unfold Math_ceil, ofZ.
  set (n := Qceiling (P / emi)%js).
  assert (Hq : (P / emi)%js == P / emi) by apply JSFacts.div_eq.
  pose proof (Qle_ceiling (P / emi)%js) as H1. fold n in H1.
  pose proof (Qceiling_lt (P / emi)%js) as H2. fold n in H2.
  rewrite Hq in H1, H2.
  assert (Hx : P / emi * emi == P) by (field; lra).
  assert (Hlow : emi * inject_Z (n - 1) < P).
  { apply (Qmult_lt_r _ _ emi Hemi) in H2. lra. }
  assert (Hhigh : P <= emi * inject_Z n).
  { apply (Qmult_le_r _ _ emi Hemi) in H1. lra. }
  assert (Hn : (1 <= n)%Z).
  { assert (0 < inject_Z n).
    { destruct (Qlt_le_dec 0 (inject_Z n)) as [H|H]; [exact H|].
      exfalso. assert (emi * inject_Z n <= 0); [|lra].
      setoid_replace (emi * inject_Z n) with (- (emi * - inject_Z n))
        by ring.
      assert (0 <= emi * - inject_Z n)
        by (apply Qmult_le_0_compat; lra).
      lra. }
    change 0 with (inject_Z 0) in H. rewrite <- Zlt_Qlt in H. lia. }
  split; [exact Hn|]. split; [exact Hlow|]. split; [exact Hhigh|].
  unfold Zminus in Hlow. rewrite inject_Z_plus in Hlow.
  change (inject_Z (- (1))) with (- (1)) in Hlow.
  set (x := (emi * inject_Z n - P)%js).
  assert (Hxe : x == emi * inject_Z n - P)
    by (unfold x; now rewrite JSFacts.sub_eq, JSFacts.mul_eq).
  pose proof (LoanV2Facts.roundCurrency_close x) as [_ Hc].
  split.
  - apply roundCurrency_nonneg. lra.
  - lra.
Qed.

Lemma zero_rate_tenure_minimal_witness :
  0 < 100000 /\ 0 < 30000 /\
  forall Math_log,
  exists res,
    calculateTenure Math_log 100000 30000 0 = Ok res /\
    (1 <= tenureMonths res)%Z /\
    30000 * inject_Z (tenureMonths res - 1) < 100000 /\
    100000 <= 30000 * inject_Z (tenureMonths res) /\
    0 <= t_totalInterest res /\ t_totalInterest res < 30000 + (1 # 200).
Proof.
  assert (H1 : 0 < 100000) by reflexivity.
  assert (H2 : 0 < 30000) by reflexivity.
  split; [exact H1|]. split; [exact H2|]. intros Math_log.
  exact (zero_rate_tenure_minimal Math_log 100000 30000 H1 H2).
Defined.

(** *** The month-by-month breakdown *)

Lemma breakdownLoop_shape (emi r : num) (tenureMonths : Z) (fuel : nat) :
  forall (m : Z) (balance : num) (k : nat) (row : BreakdownRow),
    nth_error (breakdownLoop emi r tenureMonths fuel m balance) k
    = Some row ->
    (k < fuel)%nat /\ b_month row = (m + Z.of_nat k)%Z /\
    0 <= b_balance row.
Proof.
  induction fuel as [|fuel IH]; intros m balance k row.
  - simpl. destruct k; discriminate.
  - cbn [breakdownLoop]. destruct (balance >? 1 # 100)%js;
      [|destruct k; discriminate].
    destruct k as [|k]; cbn [nth_error].
    + intros [= <-]. cbn [b_month b_balance].
      split; [lia|]. split; [lia|].
      destruct (_ <? 0)%js eqn:E; js_test E; lra.
    + intros H. apply IH in H. destruct H as (H1 & H2 & H3).
      split; [lia|]. split; [lia|]. exact H3.
Qed.

(** The breakdown has at most one row per month of the tenure, numbered
    from 1 without gaps, and no row shows a negative balance. *)
Theorem breakdown_shape (P rate : Q) (n : Z) (rows : list BreakdownRow) :
  getEMIBreakdown P rate n = Ok rows ->
  (Z.of_nat (List.length rows) <= n)%Z /\
  forall k row, nth_error rows k = Some row ->
    b_month row = (Z.of_nat k + 1)%Z /\ 0 <= b_balance row.
Proof.
  unfold getEMIBreakdown.
  destruct validateLoanInputs eqn:Hv; [|discriminate].
  assert (Hn : (0 < n)%Z).
  { unfold validateLoanInputs in Hv.
    destruct (n <=? 0)%Z eqn:En; [|apply Z.leb_gt in En; exact En].
    destruct (P <=? 0)%js; destruct (rate <? 0)%js; discriminate. }
  intros [= <-].
  set (rows := breakdownLoop _ _ _ _ _ _).
  assert (H : forall k row, nth_error rows k = Some row ->
              (k < Z.to_nat n)%nat /\ b_month row = (1 + Z.of_nat k)%Z /\
              0 <= b_balance row)
    by (intros k row; apply breakdownLoop_shape).
  split.
  - destruct (List.length rows) as [|len] eqn:El; [lia|].
    destruct (nth_error rows len) as [row|] eqn:En.
    + apply H in En. lia.
    + apply nth_error_None in En. lia.
  - intros k row Hk. apply H in Hk. destruct Hk as (_ & H2 & H3).
    split; [lia | exact H3].
Qed.

Lemma breakdown_shape_witness :
  exists rows,
    getEMIBreakdown 1200 12 3 = Ok rows /\
    (Z.of_nat (List.length rows) <= 3)%Z /\
    forall k row, nth_error rows k = Some row ->
      b_month row = (Z.of_nat k + 1)%Z /\ 0 <= b_balance row.
Proof.
  destruct (getEMIBreakdown 1200 12 3) as [rows| |] eqn:E;
    try (vm_compute in E; discriminate E).
  exists rows. split; [reflexivity|].
  exact (breakdown_shape 1200 12 3 rows E).
Defined.
End EMIFacts.

(** ** [calculateEMI] on arbitrary arguments *)
Module LoanInputFacts.
Import JS Formatters EMICalculator.

(** The arguments that [validateLoanInputs] lets through. *)
Definition accepted (principal rate tenure : LoanInputs.arg) : Prop :=
  exists p r n,
    principal = LoanInputs.Finite p /\ rate = LoanInputs.Finite r /\
    tenure = LoanInputs.Finite n /\
    0 < p /\ 0 <= r /\ 0 < n /\ n == inject_Z (Qfloor n).

Lemma whole_tenure (n : Q) :
  0 < n -> n == inject_Z (Qfloor n) ->
  (1 <= Qfloor n)%Z /\
  (n <=? 0)%js || negb (LoanInputs.Number_isInteger n) = false.
Proof.
  intros Hn Hw. split.
  - assert (H : 0 < inject_Z (Qfloor n)) by (rewrite <- Hw; exact Hn).
    change 0 with (inject_Z 0) in H. rewrite <- Zlt_Qlt in H. lia.
  - rewrite (proj2 (JSFacts.le_false _ _)) by exact Hn.
    unfold LoanInputs.Number_isInteger, ofZ.
    rewrite (proj2 (JSFacts.eqb_true _ _)) by (symmetry; exact Hw).
    reflexivity.
Qed.

(** On finite numbers and a whole tenure the two models agree. *)
Lemma calculateEMI_on_numbers (p r : num) (n : Z) :
  LoanInputs.calculateEMI (LoanInputs.Finite p) (LoanInputs.Finite r)
                          (LoanInputs.Finite (inject_Z n))
  = EMICalculator.calculateEMI p r n.
Proof.
  unfold LoanInputs.calculateEMI, LoanInputs.validateLoanInputs,
    EMICalculator.calculateEMI, EMICalculator.validateLoanInputs.
  cbn [LoanInputs.rejects].
  assert (Hi : LoanInputs.Number_isInteger (inject_Z n) = true).
  { unfold LoanInputs.Number_isInteger, ofZ. rewrite Qfloor_Z.
    apply JSFacts.eqb_true. reflexivity. }
  assert (Hle : (inject_Z n <=? 0)%js = (n <=? 0)%Z).
  { destruct (n <=? 0)%Z eqn:E.
    - apply JSFacts.le_true. apply Z.leb_le in E.
      change 0 with (inject_Z 0). now rewrite <- Zle_Qle.
    - apply JSFacts.le_false. apply Z.leb_gt in E.
      change 0 with (inject_Z 0). now rewrite <- Zlt_Qlt. }
  rewrite Hi, Hle, Bool.orb_false_r, Qfloor_Z.
  destruct (p <=? 0)%js, (r <? 0)%js, (n <=? 0)%Z; reflexivity.
Qed.

(** X15.  [calculateEMI] throws exactly when the principal is not a finite
    positive number, the rate is not a finite number that is not negative,
    or the tenure is not a positive whole number; otherwise it returns, the
    total interest it reports is not negative and the total payment is not
    below the principal by half a cent or more. *)
Theorem emi_interest_nonneg (principal rate tenure : LoanInputs.arg) :
  (accepted principal rate tenure ->
   exists p res,
     principal = LoanInputs.Finite p /\
     LoanInputs.calculateEMI principal rate tenure = Ok res /\
     0 <= totalInterest res /\ p - (1 # 200) < totalPayment res) /\
  (~ accepted principal rate tenure ->
   exists errors,
     LoanInputs.calculateEMI principal rate tenure = Throws errors /\
     errors <> []).
Proof.
  split.
  - intros (p & r & n & -> & -> & -> & Hp & Hr & Hn & Hw).
    destruct (whole_tenure n Hn Hw) as [Hn1 _].
    assert (E : LoanInputs.calculateEMI (LoanInputs.Finite p)
                  (LoanInputs.Finite r) (LoanInputs.Finite n)
                = EMICalculator.calculateEMI p r (Qfloor n)).
    { rewrite <- calculateEMI_on_numbers.
      unfold LoanInputs.calculateEMI, LoanInputs.validateLoanInputs.
      cbn [LoanInputs.rejects].
      destruct (whole_tenure n Hn Hw) as [_ ->].
      destruct (whole_tenure (inject_Z (Qfloor n))) as [_ ->].
      { rewrite <- Hw. exact Hn. }
      { now rewrite Qfloor_Z. }
      rewrite Qfloor_Z.
      assert (Hmul : forall e : num, (e * n)%js = (e * inject_Z (Qfloor n))%js).
      { intros e. apply Qred_complete. now rewrite <- Hw. }
      rewrite Hmul. reflexivity. }
    destruct (proj1 (EMIFacts.emi_interest_on_numbers p r (Qfloor n)))
      as (res & Hres & H1 & H2); [repeat split; assumption|].
    exists p, res. rewrite E. repeat split; assumption.
  - intros Hnot. unfold LoanInputs.calculateEMI, LoanInputs.validateLoanInputs.
    destruct (LoanInputs.rejects _ principal) eqn:E1;
      [cbn [app]; eexists; split; [reflexivity | discriminate]|].
    destruct (LoanInputs.rejects _ rate) eqn:E2;
      [cbn [app]; eexists; split; [reflexivity | discriminate]|].
    destruct (LoanInputs.rejects _ tenure) eqn:E3;
      [cbn [app]; eexists; split; [reflexivity | discriminate]|].
    exfalso. apply Hnot.
    destruct principal as [p| |]; try discriminate.
    destruct rate as [r| |]; try discriminate.
    destruct tenure as [n| |]; try discriminate.
    cbn [LoanInputs.rejects] in *. js_test E1. js_test E2.
    apply Bool.orb_false_elim in E3. destruct E3 as [E3 E4].
    js_test E3. apply Bool.negb_false_iff in E4.
    unfold LoanInputs.Number_isInteger, ofZ in E4. js_test E4.
    exists p, r, n. repeat split; try assumption. now symmetry.
Qed.

(** A loan of 2500000 over 240 months at 8.5 % is accepted; a tenure of
    240.5 months or a principal that is NaN makes [calculateEMI] throw. *)
Lemma emi_interest_nonneg_witness :
  accepted (LoanInputs.Finite 2500000) (LoanInputs.Finite (17 # 2))
           (LoanInputs.Finite 240) /\
  (exists p res,
     LoanInputs.Finite 2500000 = LoanInputs.Finite p /\
     LoanInputs.calculateEMI (LoanInputs.Finite 2500000)
       (LoanInputs.Finite (17 # 2)) (LoanInputs.Finite 240) = Ok res /\
     0 <= totalInterest res /\ p - (1 # 200) < totalPayment res) /\
  LoanInputs.calculateEMI (LoanInputs.Finite 2500000)
    (LoanInputs.Finite (17 # 2)) (LoanInputs.Finite (481 # 2))
  = Throws [BadTenure] /\
  LoanInputs.calculateEMI LoanInputs.NonFinite
    (LoanInputs.Finite (17 # 2)) (LoanInputs.Finite 240)
  = Throws [BadPrincipal].
Proof.
  assert (H : accepted (LoanInputs.Finite 2500000)
                (LoanInputs.Finite (17 # 2)) (LoanInputs.Finite 240)).
  { exists 2500000, (17 # 2), 240. repeat split; try reflexivity.
    vm_compute. discriminate. }
  split; [exact H|]. split.
  - exact (proj1 (emi_interest_nonneg _ _ _) H).
  - split; reflexivity.
Defined.
End LoanInputFacts.

(** ** Amortization at one rate

    What is owed after [t] instalments of [E] on a balance [B] at the
    monthly rate [r], with nothing capped: each month the balance grows by
    the interest and falls by the instalment. *)
Module AmortizationFacts.

Fixpoint owed (r E : Q) (t : nat) (B : Q) : Q :=
  match t with
  | O => B
  | S t' => owed r E t' (B * (1 + r) - E)
  end.

Lemma owed_mono (r E E' : Q) (t : nat) :
  0 <= 1 + r -> E' <= E ->
  forall B B', B <= B' -> owed r E t B <= owed r E' t B'.
Proof.
  intros Hr HE. induction t as [|t IH]; intros B B' HB; [exact HB|].
  cbn [owed]. apply IH.
  assert (B * (1 + r) <= B' * (1 + r)) by (apply Qmult_le_compat_r; lra).
  lra.
Qed.

Lemma owed_compat (r E : Q) (t : nat) (B B' : Q) :
  0 <= 1 + r -> B == B' -> owed r E t B == owed r E t B'.
Proof.
  intros Hr HB. apply Qle_antisym; apply owed_mono; lra.
Qed.

(** The last instalment taken out. *)
Lemma owed_S (r E : Q) (t : nat) :
  forall B, owed r E (S t) B == owed r E t B * (1 + r) - E.
Proof.
  induction t as [|t IH]; intros B; [reflexivity|].
  change (owed r E (S (S t)) B) with (owed r E (S t) (B * (1 + r) - E)).
  rewrite IH. reflexivity.
Qed.

Lemma owed_closed_form (r E : Q) (t : nat) (B : Q) :
  r * owed r E t B == E - (E - B * r) * (1 + r) ^ Z.of_nat t.
Proof.
  revert B. induction t as [|t IH]; intros B.
  - cbn [owed]. change (Z.of_nat 0) with 0%Z.
    change ((1 + r) ^ 0) with 1. ring.
  - cbn [owed]. rewrite IH, Nat2Z.inj_succ. unfold Z.succ.
    rewrite Qpower_plus', Qpower_1_r by lia. ring.
Qed.

Lemma owed_zero_rate (r E : Q) (t : nat) (B : Q) :
  r == 0 -> owed r E t B == B - inject_Z (Z.of_nat t) * E.
Proof.
  intros Hr. revert B. induction t as [|t IH]; intros B.
  - cbn [owed]. change (inject_Z (Z.of_nat 0)) with 0. ring.
  - cbn [owed]. rewrite IH, Nat2Z.inj_succ. unfold Z.succ.
    rewrite inject_Z_plus, Hr. change (inject_Z 1) with 1. ring.
Qed.

(** A balance that is still owed in full after some months was owed all
    along. *)
Lemma owed_earlier (r E : Q) (t : nat) (B : Q) :
  0 <= r -> 0 <= E -> 0 <= owed r E (S t) B -> 0 <= owed r E t B.
Proof.
  intros Hr HE H. rewrite owed_S in H.
  set (x := owed r E t B) in *.
  destruct (Qlt_le_dec x 0) as [Hx|Hx]; [|exact Hx].
  assert (0 <= (- x) * r) by (apply Qmult_le_0_compat; lra).
  setoid_replace (x * (1 + r)) with (x - (- x) * r) in H by ring.
  lra.
Qed.

Lemma owed_before (r E : Q) (h t : nat) (B : Q) :
  0 <= r -> 0 <= E -> (t <= h)%nat ->
  0 <= owed r E h B -> 0 <= owed r E t B.
Proof.
  intros Hr HE Ht. induction Ht as [|h Ht IH]; [tauto|].
  intros H. apply IH. now apply owed_earlier.
Qed.

(** An instalment that does not cover the interest never repays. *)
Lemma owed_grows (r E : Q) (t : nat) :
  0 <= r -> forall B, 0 <= B -> E <= B * r -> B <= owed r E t B.
Proof.
  intros Hr. induction t as [|t IH]; intros B HB HE; cbn [owed]; [lra|].
  set (B' := B * (1 + r) - E).
  assert (H1 : B <= B') by (unfold B'; lra).
  assert (H2 : B * r <= B' * r) by (apply Qmult_le_compat_r; lra).
  specialize (IH B' ltac:(lra) ltac:(lra)). lra.
Qed.

Lemma covers_interest (r E : Q) (h : nat) (B : Q) :
  0 <= r -> 0 < B -> owed r E h B <= 0 -> B * r < E.
Proof.
  intros Hr HB H. destruct (Qlt_le_dec (B * r) E) as [Hlt|Hle]; [exact Hlt|].
  pose proof (owed_grows r E h Hr B ltac:(lra) Hle). lra.
Qed.

(** Nothing owed stays nothing owed. *)
Lemma owed_nothing (r E : Q) (t : nat) (B : Q) :
  0 <= r -> 0 <= E -> B <= 0 -> owed r E t B <= 0.
Proof.
  intros Hr HE. revert B. induction t as [|t IH]; intros B HB; [exact HB|].
  cbn [owed]. apply IH.
  assert (B * (1 + r) <= 0).
  { setoid_replace (B * (1 + r)) with (- ((- B) * (1 + r))) by ring.
    assert (0 <= (- B) * (1 + r)) by (apply Qmult_le_0_compat; lra).
    lra. }
  lra.
Qed.

(** Two loans at the same rate: when after [h >= 1] months the second one
    is repaid and the first is not, and the first one owes at least as
    much now, it owes at least as much next month, whatever the two
    instalments are. *)
Lemma behind_next_month (r E0 E : Q) (h : nat) (Bo B : Q) :
  0 <= r -> (1 <= h)%nat -> B <= Bo ->
  owed r E h B <= 0 -> 0 <= owed r E0 h Bo ->
  B * (1 + r) - E <= Bo * (1 + r) - E0.
Proof.
  intros Hr Hh HB Hpaid Howed.
  destruct (Qlt_le_dec (Bo * (1 + r) - E0) (B * (1 + r) - E)) as [Hlt|Hle];
    [|exact Hle].
  exfalso.
  assert (HG : 0 < E0 - E).
  { assert (B * (1 + r) <= Bo * (1 + r))
      by (apply Qmult_le_compat_r; lra).
    lra. }
  assert (Hall : forall t, (1 <= t)%nat ->
                   owed r E0 t Bo < owed r E t B).
  { intros t Ht. induction Ht as [|t Ht IH].
    - cbn [owed]. exact Hlt.
    - rewrite (owed_S r E0 t Bo), (owed_S r E t B).
      assert (owed r E0 t Bo * (1 + r) <= owed r E t B * (1 + r))
        by (apply Qmult_le_compat_r; lra).
      lra. }
  specialize (Hall h Hh). lra.
Qed.

(** Strictly growing powers. *)
Lemma power_lt_exponent (b : Q) (m n : Z) :
  1 < b -> (0 <= m)%Z -> (0 <= n)%Z -> b ^ m < b ^ n -> (m < n)%Z.
Proof.
  intros Hb Hm Hn H. destruct (Z_lt_le_dec m n) as [Hlt|Hle]; [exact Hlt|].
  exfalso. assert (b ^ n <= b ^ m).
  { apply Qpower_le_compat_l; [lia | lra]. }
  lra.
Qed.

End AmortizationFacts.

(** ** The v1 engine at one rate, REDUCE_EMI included *)
Module SingleRateFacts.
Import JS DataModels Validation LoanCalculator AmortizationFacts.

(** Every rate period carries the rate [R]. *)
Definition sameRate (c : LoanConfiguration) (R : num) : Prop :=
  Forall (fun p => rp_rate p == R) (interestRateSchedule c).

(** [Math.log] as [estimateRemainingMonths] uses it, for a base [b]
    above 1: rounded up, the quotient of the logarithms of [x > 1] and [b]
    is the least number of factors [b] that reach [x]. *)
Definition logarithmTo (Math_log : num -> num) (b : num) : Prop :=
  1 < b -> forall x, 1 < x ->
    let n := Math_ceil (Math_log x / Math_log b)%js in
    (1 <= n)%Z /\ b ^ (n - 1) < x /\ x <= b ^ n.

Lemma monthly_of_rate (cr R : num) :
  cr == R -> (cr / 100 / 12)%js = (R / 100 / 12)%js.
Proof.
  intros H. unfold div. apply Qred_complete.
  assert (E : Qred (cr / 100) = Qred (R / 100))
    by (apply Qred_complete; now rewrite H).
  now rewrite E.
Qed.

Lemma ceiling_le (x : Q) (k : Z) : x <= inject_Z k -> (Qceiling x <= k)%Z.
Proof.
  intros H. rewrite <- (Qceiling_Z k). now apply Qceiling_resp_le.
Qed.

Lemma ceiling_pos (x : Q) : 0 < x -> (1 <= Qceiling x)%Z.
Proof.
  intros H. pose proof (Qle_ceiling x) as Hc.
  assert (H0 : inject_Z 0 < inject_Z (Qceiling x))
    by (eapply Qlt_le_trans; [exact H | exact Hc]).
  rewrite <- Zlt_Qlt in H0. lia.
Qed.

(** [calculateEMI] is the instalment that repays in [n] months. *)
Lemma emi_repays (B cr : Q) (n : Z) :
  0 < B -> 0 <= cr -> (1 <= n)%Z ->
  owed (cr / 100 / 12)%js (calculateEMI B cr n) (Z.to_nat n) B == 0.
Proof.
  intros HB Hcr Hn. unfold calculateEMI.
  assert (HnQ : 1 <= inject_Z n)
    by (change 1 with (inject_Z 1); rewrite <- Zle_Qle; lia).
  rewrite (proj2 (JSFacts.le_false B 0)) by exact HB.
  rewrite (proj2 (JSFacts.le_false (ofZ n) 0)) by (unfold ofZ; lra).
  cbn [orb].
  pose proof (JSFacts.monthly_rate_eq cr) as Hr.
  set (r := (cr / 100 / 12)%js) in *.
  assert (Hr0 : 0 <= r) by lra.
  destruct (r =? 0)%js eqn:E; js_test E.
  - rewrite owed_zero_rate by exact E.
    rewrite JSFacts.div_eq, Z2Nat.id by lia. unfold ofZ. field. lra.
  - assert (Hpos : 0 < r) by lra.
    pose proof (EMIFacts.growth_gt_1 r n Hpos Hn) as Hf.
    assert (H : r * owed r ((B * r * Math_pow (1 + r) n)
                            / (Math_pow (1 + r) n - 1))%js
                      (Z.to_nat n) B == 0).
    { rewrite owed_closed_form, Z2Nat.id by lia.
      rewrite JSFacts.div_eq, JSFacts.sub_eq, !JSFacts.mul_eq,
        JSFacts.pow_eq, JSFacts.add_eq.
      set (f := (1 + r) ^ n) in *. field. lra. }
    apply Qmult_integral in H. destruct H as [H|H]; [lra | exact H].
Qed.

Section OneRate.
Variable Math_log : num -> num.
Variable c : LoanConfiguration.
Variable R : num.
Hypothesis config_valid : validate c = [].
Hypothesis same : sameRate c R.
Hypothesis rate_nonneg : 0 <= R.
Hypothesis log_to_base : logarithmTo Math_log (1 + R / 100 / 12)%js.

Abbreviation r := (R / 100 / 12)%js.

Lemma r_nonneg : 0 <= r.
Proof. rewrite JSFacts.monthly_rate_eq. lra. Qed.

Lemma rate_at (m : Z) : getInterestRateForMonth c m == R.
Proof.
  rewrite RateScheduleFacts.rate_is_last_match.
  unfold RateScheduleFacts.rateAtSpec, RateScheduleFacts.lastMatching.
  unfold sameRate in same. rewrite Forall_forall in same.
  destruct (find _ (rev (interestRateSchedule c))) as [p|] eqn:E.
  - apply find_some in E. apply same, in_rev, E.
  - destruct (LoanFacts.validate_nil c config_valid) as (_ & _ & Hne).
    destruct (interestRateSchedule c) as [|p s]; [contradiction|].
    apply same. now left.
Qed.

Lemma monthly_rate_at (m : Z) :
  (getInterestRateForMonth c m / 100 / 12)%js = r.
Proof. apply monthly_of_rate, rate_at. Qed.

(** The months that [estimateRemainingMonths] answers for a balance that
    the present instalment repays within [h] months. *)
Lemma estimate_within (E nb cr : Q) (h : nat) :
  cr == R -> 0 < nb -> owed r E h nb <= 0 ->
  (Z.of_nat h <= baseTenureMonths c * 2)%Z ->
  exists n,
    estimateRemainingMonths Math_log c E nb cr = Some n /\
    (1 <= n <= Z.of_nat h)%Z.
Proof.
  intros Hcr Hnb Hpaid Hcap.
  pose proof r_nonneg as Hr.
  pose proof (covers_interest r E h nb Hr Hnb Hpaid) as Hcov.
  assert (HE : 0 < E).
  { assert (0 <= nb * r) by (apply Qmult_le_0_compat; lra). lra. }
  unfold estimateRemainingMonths.
  rewrite (proj2 (JSFacts.le_false nb 0)) by exact Hnb.
  rewrite (proj2 (JSFacts.le_false E 0)) by exact HE.
  cbn [orb]. rewrite (monthly_of_rate cr R Hcr).
  destruct (r =? 0)%js eqn:E0; js_test E0.
  - eexists. split; [reflexivity|]. unfold Math_ceil. split.
    + apply ceiling_pos. rewrite JSFacts.div_eq.
      apply Qlt_shift_div_l; lra.
    + apply ceiling_le. rewrite JSFacts.div_eq.
      rewrite owed_zero_rate in Hpaid by exact E0.
      apply Qle_shift_div_r; [exact HE|]. lra.
  - assert (Hpos : 0 < r) by lra.
    assert (Hd : 0 < (E - nb * r)%js)
      by (rewrite JSFacts.sub_eq, JSFacts.mul_eq; lra).
    rewrite (proj2 (JSFacts.lt_false (1 + r)%js 0))
      by (rewrite JSFacts.add_eq; lra).
    rewrite (proj2 (JSFacts.lt_false (E - nb * r)%js 0)) by lra.
    rewrite (proj2 (JSFacts.eqb_false (E - nb * r)%js 0)) by lra.
    rewrite (proj2 (JSFacts.eqb_false (1 + r)%js 0))
      by (rewrite JSFacts.add_eq; lra).
    set (x := (E / (E - nb * r))%js).
    assert (Hx : x == E / (E - nb * r)).
    { unfold x. now rewrite JSFacts.div_eq, JSFacts.sub_eq, JSFacts.mul_eq. }
    assert (Hx1 : 1 < x).
    { rewrite Hx. apply Qlt_shift_div_l.
      - rewrite JSFacts.sub_eq, JSFacts.mul_eq in Hd. exact Hd.
      - assert (0 < nb * r) by (apply Qmult_lt_0_compat; lra). lra. }
    assert (Hb1 : 1 < (1 + r)%js) by (rewrite JSFacts.add_eq; lra).
    destruct (log_to_base Hb1 x Hx1) as (Hn1 & Hlow & _).
    set (n := Math_ceil (Math_log x / Math_log (1 + r))%js) in *.
    assert (Hnh : (n <= Z.of_nat h)%Z).
    { assert (Hb : 1 < (1 + r)%js) by (rewrite JSFacts.add_eq; lra).
      assert (Hxh : x <= (1 + r)%js ^ Z.of_nat h).
      { rewrite Hx. apply Qle_shift_div_r.
        - rewrite JSFacts.sub_eq, JSFacts.mul_eq in Hd. exact Hd.
        - pose proof (owed_closed_form r E h nb) as Hc.
          assert (r * owed r E h nb <= 0).
          { setoid_replace (r * owed r E h nb)
              with (- (r * - owed r E h nb)) by ring.
            assert (0 <= r * - owed r E h nb)
              by (apply Qmult_le_0_compat; lra).
            lra. }
          rewrite JSFacts.add_eq. lra. }
      assert (Hlt : (1 + r)%js ^ (n - 1) < (1 + r)%js ^ Z.of_nat h) by lra.
      apply power_lt_exponent in Hlt; [lia | exact Hb | lia | lia]. }
    destruct (n <? 1)%Z eqn:E1; [apply Z.ltb_lt in E1; lia|].
    destruct (n >? baseTenureMonths c * 2)%Z eqn:E2;
      [apply Z.gtb_lt in E2; lia|].
    exists n. split; [reflexivity | lia].
Qed.

(** The instalment in force repays the balance within [h] months, and
    [h] is within the range of [estimateRemainingMonths]. *)
Definition repaying (st : State) (h : nat) : Prop :=
  0 <= balance st /\ 0 <= currentEMI st /\
  owed r (currentEMI st) h (balance st) <= 0 /\
  (Z.of_nat h <= baseTenureMonths c * 2)%Z.

(** The prepayment block: at least the scheduled principal is paid, at most
    the balance, and what is left is repaid within the months that were
    left before. *)
Lemma applied_single_rate (B E p1 tp cr : Q) (s : Strategy) (h1 : nat) :
  cr == R -> 0 <= E -> 0 <= p1 -> p1 <= B ->
  owed r E h1 (B - p1) <= 0 ->
  (Z.of_nat h1 <= baseTenureMonths c * 2)%Z ->
  exists ap,
    applyPrepayment Math_log c B p1 E cr r tp s = Some ap /\
    p1 <= ap_principal ap /\ ap_principal ap <= B /\
    (1 # 100 < B - ap_principal ap ->
     exists h', (h' <= h1)%nat /\ 0 <= ap_emi ap /\
                owed r (ap_emi ap) h' (B - ap_principal ap) <= 0).
Proof.
  intros Hcr HE Hp0 HpB Hpaid Hcap.
  pose proof r_nonneg as Hr.
  assert (Hb : 0 <= 1 + r) by lra.
  unfold applyPrepayment.
  destruct (tp >? 0)%js eqn:Et; js_test Et.
  - set (tp' := Math_min tp (B - p1)%js).
    assert (Htp : 0 <= tp' /\ tp' <= B - p1).
    { unfold tp'. destruct (JSFacts.min_cases tp (B - p1)%js)
        as [[H ->]|[H ->]]; rewrite JSFacts.sub_eq in *; lra. }
    destruct Htp as [Ht0 Ht1].
    assert (Hless : owed r E h1 (B - (p1 + tp')%js) <= 0).
    { eapply Qle_trans; [|exact Hpaid].
      apply owed_mono; [exact Hb | lra | rewrite JSFacts.add_eq; lra]. }
    destruct s.
    + eexists. split; [reflexivity|]. cbn [ap_principal ap_emi].
      split; [rewrite JSFacts.add_eq; lra|].
      split; [rewrite JSFacts.add_eq; lra|]. intros _.
      exists h1. split; [lia|]. split; [exact HE | exact Hless].
    + set (nb := (B - (p1 + tp'))%js).
      assert (Hnb : nb == B - (p1 + tp')%js)
        by (unfold nb; now rewrite JSFacts.sub_eq).
      destruct (nb >? 1 # 100)%js eqn:En; js_test En.
      * assert (Hnb0 : 0 < nb) by lra.
        assert (Hpaid' : owed r E h1 nb <= 0).
        { rewrite (owed_compat r E h1 nb _ Hb Hnb). exact Hless. }
        destruct (estimate_within E nb cr h1 Hcr Hnb0 Hpaid' Hcap)
          as (n & -> & Hn1 & Hnh).
        assert (Hcr0 : 0 <= cr) by (rewrite Hcr; exact rate_nonneg).
        pose proof (emi_repays nb cr n Hnb0 Hcr0 Hn1) as Hrep.
        rewrite (monthly_of_rate cr R Hcr) in Hrep.
        set (E' := calculateEMI nb cr n) in *.
        assert (HE' : 0 <= E').
        { assert (H : nb * r < E').
          { apply (covers_interest r E' (Z.to_nat n) nb Hr Hnb0). lra. }
          assert (0 <= nb * r) by (apply Qmult_le_0_compat; lra). lra. }
        eexists. split; [reflexivity|]. cbn [ap_principal ap_emi].
        split; [rewrite JSFacts.add_eq; lra|].
        split; [rewrite JSFacts.add_eq; lra|]. intros _.
        exists (Z.to_nat n). split; [lia|].
        set (E'' := if (E' <? _)%js then _ else E').
        assert (HE'' : E' <= E'').
        { unfold E''. destruct (E' <? _)%js eqn:Em; js_test Em; lra. }
        split; [lra|].
        eapply Qle_trans; [|apply Qle_lteq; right; exact Hrep].
        apply owed_mono; [exact Hb | exact HE''|]. lra.
      * eexists. split; [reflexivity|]. cbn [ap_principal ap_emi].
        split; [rewrite JSFacts.add_eq; lra|].
        split; [rewrite JSFacts.add_eq; lra|]. intros Hleft. lra.
  - eexists. split; [reflexivity|]. cbn [ap_principal ap_emi].
    split; [lra|]. split; [lra|]. intros _.
    exists h1. split; [lia|]. split; [exact HE | exact Hpaid].
Qed.

(** One month of the run from a state whose instalment repays the balance
    within [h] months. *)
Lemma body_repaying (st : State) (h : nat) :
  repaying st h -> 1 # 100 < balance st ->
  exists st',
    body Math_log c st = Some st' /\
    month st' = (month st + 1)%Z /\
    totalInterestPaid st' == totalInterestPaid st + balance st * r /\
    0 <= balance st' /\
    (balance st' <= balance st * (1 + r) - currentEMI st \/
     balance st' <= 0) /\
    (1 # 100 < balance st' -> exists h', (h' < h)%nat /\ repaying st' h').
Proof.
  intros (HB0 & HE0 & Hpaid & Hcap) HB.
  pose proof r_nonneg as Hr.
  destruct h as [|h1]; [cbn [owed] in Hpaid; lra|].
  assert (HBpos : 0 < balance st) by lra.
  pose proof (covers_interest r _ _ _ Hr HBpos Hpaid) as Hcov.
  cbn [owed] in Hpaid.
  unfold body. rewrite monthly_rate_at.
  set (B := balance st) in *. set (E := currentEMI st) in *.
  set (interest := (B * r)%js).
  assert (Hi : interest == B * r) by apply JSFacts.mul_eq.
  set (p1 := scheduledPrincipal E interest B).
  assert (Hp1 : (p1 == E - B * r /\ E - B * r <= B) \/
                (p1 == B /\ B < E - B * r)).
  { unfold p1, scheduledPrincipal.
    pose proof (JSFacts.sub_eq E interest) as Hs.
    destruct (JSFacts.min_cases (E - interest)%js B) as [[Hm ->]|[Hm ->]].
    - destruct (_ <? 0)%js eqn:Ec; js_test Ec; [lra|]. left. lra.
    - destruct (B <? 0)%js eqn:Ec; js_test Ec; [lra|]. right.
      split; [reflexivity | lra]. }
  assert (Hleft : owed r E h1 (B - p1) <= 0).
  { destruct Hp1 as [[Hp Hle]|[Hp Hlt]].
    - eapply Qle_trans; [|exact Hpaid].
      apply owed_mono; lra.
    - apply owed_nothing; lra. }
  assert (Hp0 : 0 <= p1 /\ p1 <= B) by (destruct Hp1 as [[]|[]]; lra).
  destruct (applied_single_rate B E p1
              (amount (getPrepaymentForMonth c (month st + 1)))
              (getInterestRateForMonth c (month st + 1))
              (match strategy (getPrepaymentForMonth c (month st + 1)) with
               | Some s => s
               | None => defaultStrategy c
               end) h1 (rate_at _) HE0 (proj1 Hp0) (proj2 Hp0) Hleft)
    as (ap & -> & Ha1 & Ha2 & Ha3); [lia|].
  rewrite (proj2 (JSFacts.gt_false (ap_principal ap) B)) by exact Ha2.
  eexists. split; [reflexivity|].
  cbn [month totalInterestPaid balance currentEMI].
  split; [reflexivity|].
  split; [rewrite JSFacts.add_eq, Hi; reflexivity|].
  pose proof (JSFacts.sub_eq B (ap_principal ap)) as Hs.
  split; [lra|]. split.
  - destruct Hp1 as [[Hp Hle]|[Hp Hlt]]; [left | right]; lra.
  - intros Hbig. destruct Ha3 as (h' & Hh' & He' & Ho'); [lra|].
    exists h'. split; [lia|]. unfold repaying.
    cbn [balance currentEMI].
    split; [lra|]. split; [exact He'|].
    split; [|lia].
    eapply Qle_trans; [|exact Ho'].
    apply owed_mono; lra.
Qed.

Lemma rates_nonneg : LoanFacts.ratesNonneg c.
Proof.
  unfold LoanFacts.ratesNonneg. eapply Forall_impl; [|exact same].
  intros p Hp. cbv beta in Hp. rewrite Hp. exact rate_nonneg.
Qed.

(** The run and the baseline, month by month: the run owes no more, has
    paid no more interest, and repays within [h] months, during which the
    baseline is not repaid. *)
Definition behind (emi : num) (st : State) (o : Original) (h : nat)
  : Prop :=
  month st = o_months o /\ repaying st h /\
  balance st <= o_balance o /\
  0 <= owed r emi h (o_balance o) /\ o_balance o * r <= emi /\
  totalInterestPaid st <= o_totalInterest o.

(** A baseline month in which the instalment neither falls short of the
    interest nor exceeds what is owed. *)
Lemma baseline_month (emi : num) (o : Original) :
  o_balance o * r <= emi -> 0 <= o_balance o * (1 + r) - emi ->
  o_balance (originalBody c emi o) == o_balance o * (1 + r) - emi /\
  o_months (originalBody c emi o) = (o_months o + 1)%Z /\
  o_totalInterest (originalBody c emi o)
  == o_totalInterest o + o_balance o * r.
Proof.
  intros Hcov Hstep.
  destruct (LoanFacts.originalBody_facts c emi o) as (F1 & F2 & F3).
  unfold LoanFacts.monthlyRateAt in F2, F3.
  rewrite monthly_rate_at in F2, F3.
  split; [|split; [exact F1 | exact F2]].
  rewrite F3. unfold scheduledPrincipal.
  set (B := o_balance o) in *.
  pose proof (JSFacts.mul_eq B r) as Hi.
  pose proof (JSFacts.sub_eq emi (B * r)%js) as Hs.
  destruct (JSFacts.min_cases (emi - (B * r)%js)%js B) as [[Hm ->]|[Hm ->]].
  - destruct (_ <? 0)%js eqn:Ec; js_test Ec; lra.
  - destruct (B <? 0)%js eqn:Ec; js_test Ec; lra.
Qed.

Lemma simulation_one_rate (emi : num) :
  forall (fB fM : nat) (st : State) (o : Original) (h : nat),
    (fB <= fM)%nat -> behind emi st o h ->
    o_balance (originalLoop c emi fB o) <= 1 # 100 ->
    exists fin,
      loop Math_log c fM st = Some fin /\
      (month fin <= o_months (originalLoop c emi fB o))%Z /\
      totalInterestPaid fin <= o_totalInterest (originalLoop c emi fB o).
Proof.
  pose proof r_nonneg as Hr. pose proof rates_nonneg as Hrates.
  induction fB as [|fB IH];
    intros fM st o h Hf (Hm & Hrep & Hb & Howed & Hcov & Hi) Hpaid.
  - simpl in *. exists st. split; [|split; [lia | lra]].
    destruct fM; [reflexivity|]. rewrite LoanFacts.loop_S.
    destruct (balance st >? 1 # 100)%js eqn:E; [|reflexivity].
    js_test E. lra.
  - destruct fM as [|fM]; [lia|].
    destruct (Qlt_le_dec (1 # 100) (o_balance o)) as [Ho|Ho].
    + rewrite LoanFacts.originalLoop_step in * by exact Ho.
      set (o' := originalBody c emi o) in *.
      destruct (LoanFacts.originalLoop_progress c emi fB o' Hrates)
        as [P1 P2].
      rewrite LoanFacts.loop_S.
      destruct (balance st >? 1 # 100)%js eqn:E; js_test E.
      * destruct Hrep as (HB0 & HE0 & Hown & Hcap).
        assert (Hh : (1 <= h)%nat).
        { destruct h; [cbn [owed] in Hown; lra | lia]. }
        assert (Hemi : 0 <= emi).
        { assert (0 <= o_balance o * r)
            by (apply Qmult_le_0_compat; lra).
          lra. }
        assert (Hnext : 0 <= o_balance o * (1 + r) - emi).
        { apply (owed_before r emi h 1 (o_balance o) Hr Hemi Hh Howed). }
        destruct (baseline_month emi o Hcov Hnext) as (F1 & F2 & F3).
        fold o' in F1, F2, F3.
        pose proof (behind_next_month r emi (currentEMI st) h
                      (o_balance o) (balance st) Hr Hh Hb Hown Howed)
          as Hdom.
        destruct (body_repaying st h (conj HB0 (conj HE0 (conj Hown Hcap)))
                    E)
          as (st' & -> & B1 & B2 & B3 & B4 & B5).
        assert (Hint : balance st * r <= o_balance o * r)
          by (apply Qmult_le_compat_r; lra).
        destruct (balance st' <=? 1 # 100)%js eqn:E2.
        -- eexists. split; [reflexivity|]. simpl. split; [lia | lra].
        -- js_test E2. destruct (B5 E2) as (h' & Hh' & Hrep').
           apply (IH fM st' o' h'); [lia| |exact Hpaid].
           unfold behind. split; [lia|]. split; [exact Hrep'|].
           split; [destruct B4; lra|].
           split.
           ++ apply (owed_before r emi (h - 1) h'); [exact Hr|exact Hemi|lia|].
              destruct h as [|h1]; [lia|].
              replace (S h1 - 1)%nat with h1 by lia.
              cbn [owed] in Howed.
              rewrite (owed_compat r emi h1 _ _ ltac:(lra) F1).
              exact Howed.
           ++ split; [|lra].
              assert (o_balance o' <= o_balance o) by lra.
              assert (o_balance o' * r <= o_balance o * r)
                by (apply Qmult_le_compat_r; lra).
              lra.
      * exists st. split; [reflexivity|].
        destruct (LoanFacts.originalBody_facts c emi o) as (F1 & F2 & _).
        fold o' in F1, F2.
        assert (0 <= o_balance o
                     * LoanFacts.monthlyRateAt c (o_months o + 1)).
        { apply Qmult_le_0_compat; [lra|].
          now apply LoanFacts.monthlyRate_nonneg. }
        split; [lia | lra].
    + rewrite LoanFacts.originalLoop_stop in * by exact Ho.
      exists st. split; [|split; [lia | lra]].
      rewrite LoanFacts.loop_S.
      destruct (balance st >? 1 # 100)%js eqn:E; [|reflexivity].
      js_test E. lra.
Qed.

(** The first month: the initial instalment repays the principal in
    exactly the base tenure. *)
Lemma behind_at_start :
  behind (calculateInitialEMI c) (initialState c) (originalStart c)
         (Z.to_nat (baseTenureMonths c)).
Proof.
  destruct (LoanFacts.validate_nil c config_valid) as (HP & Hn & Hne).
  pose proof r_nonneg as Hr.
  assert (Hrep : owed r (calculateInitialEMI c)
                      (Z.to_nat (baseTenureMonths c)) (principal c) == 0).
  { unfold calculateInitialEMI. unfold sameRate in same.
    destruct (interestRateSchedule c) as [|first s]; [contradiction|].
    assert (Hf : rp_rate first == R) by (now inversion same).
    rewrite <- (monthly_of_rate _ _ Hf).
    apply emi_repays; [exact HP | rewrite Hf; exact rate_nonneg | lia]. }
  assert (Hcov : principal c * r < calculateInitialEMI c).
  { apply (covers_interest r _ (Z.to_nat (baseTenureMonths c)));
      [exact Hr | exact HP | lra]. }
  assert (0 <= principal c * r) by (apply Qmult_le_0_compat; lra).
  unfold behind, repaying.
  cbn [initialState originalStart month balance currentEMI
       totalInterestPaid o_months o_balance o_totalInterest].
  repeat split; try lra; lia.
Qed.

Lemma one_rate_dominates :
  o_balance (calculateOriginalLoan c) <= 1 # 100 ->
  exists res,
    calculate Math_log c = Ok res /\
    (months res <= originalMonths res)%Z /\
    totalInterest res <= originalTotalInterest res.
Proof.
  intros Hpaid. unfold calculateOriginalLoan in Hpaid.
  destruct (simulation_one_rate (calculateInitialEMI c)
              (Z.to_nat (baseTenureMonths c * 2))
              (Z.to_nat (baseTenureMonths c * 3))
              (initialState c) (originalStart c)
              (Z.to_nat (baseTenureMonths c)))
    as (fin & Hrun & Hm & Hi);
    [lia | exact behind_at_start | exact Hpaid |].
  unfold calculate. rewrite config_valid, Hrun.
  eexists. split; [reflexivity|]. simpl. split; assumption.
Qed.
End OneRate.

(** *** A logarithm in exact arithmetic *)

(** The least [m >= n] with [x <= b ^ m], looked for among [fuel]
    exponents. *)
Fixpoint leastPower (b x : Q) (fuel : nat) (n : Z) : Z :=
  match fuel with
  | O => n
  | S fuel' => if Qle_bool x (b ^ n) then n
               else leastPower b x fuel' (n + 1)
  end.

(** For [x > 1], the number of factors [b] that reach [x]: the logarithm
    of [x] to the base [b], rounded up. *)
Definition logTo (b x : num) : num :=
  ofZ (leastPower b x (Z.to_nat (Qceiling ((x - 1) / (b - 1)))) 1).

Lemma leastPower_spec (b x : Q) :
  forall (fuel : nat) (n : Z),
    (1 <= n)%Z -> b ^ (n - 1) < x -> x <= b ^ (n + Z.of_nat fuel) ->
    let m := leastPower b x fuel n in
    (1 <= m)%Z /\ b ^ (m - 1) < x /\ x <= b ^ m.
Proof.
  induction fuel as [|fuel IH]; intros n Hn Hlow Hup; cbn [leastPower].
  - rewrite Z.add_0_r in Hup. cbv zeta. auto.
  - destruct (Qle_bool x (b ^ n)) eqn:E.
    + apply Qle_bool_iff in E. cbv zeta. auto.
    + assert (Hlt : b ^ n < x).
      { apply Qnot_le_lt. intros H. apply Qle_bool_iff in H. congruence. }
      apply IH; [lia | |].
      * replace (n + 1 - 1)%Z with n by lia. exact Hlt.
      * replace (n + 1 + Z.of_nat fuel)%Z
          with (n + Z.of_nat (S fuel))%Z by lia.
        exact Hup.
Qed.

Lemma logTo_base (b : num) : logTo b b = 1.
Proof.
  unfold logTo.
  destruct (Z.to_nat _) as [|k]; cbn [leastPower]; [reflexivity|].
  assert (E : Qle_bool b (b ^ 1) = true).
  { apply Qle_bool_iff. change (b ^ 1) with b. apply Qle_refl. }
  rewrite E. reflexivity.
Qed.

Lemma logTo_spec (b : num) : logarithmTo (logTo b) b.
Proof.
  intros Hb x Hx. rewrite logTo_base.
  set (k := Z.to_nat (Qceiling ((x - 1) / (b - 1)))).
  assert (Hq : Math_ceil (logTo b x / 1)%js = leastPower b x k 1).
  { unfold Math_ceil, logTo, ofZ. fold k.
    rewrite JSFacts.div_eq.
    setoid_replace (inject_Z (leastPower b x k 1) / 1)
      with (inject_Z (leastPower b x k 1)) by (field; lra).
    apply Qceiling_Z. }
  rewrite Hq. apply leastPower_spec; [lia | change (b ^ (1 - 1)) with 1;
                                             exact Hx |].
  assert (Hk : (x - 1) / (b - 1) <= inject_Z (Z.of_nat k)).
  { unfold k. rewrite Z2Nat.id.
    - apply Qle_ceiling.
    - assert (1 <= Qceiling ((x - 1) / (b - 1)))%Z; [|lia].
      apply ceiling_pos. apply Qlt_shift_div_l; lra. }
  assert (Hk' : x - 1 <= inject_Z (Z.of_nat k) * (b - 1)).
  { apply (Qmult_le_compat_r _ _ (b - 1)) in Hk; [|lra].
    setoid_replace ((x - 1) / (b - 1) * (b - 1)) with (x - 1) in Hk
      by (field; lra).
    exact Hk. }
  destruct (EMIFacts.growth_bounds (b - 1) (S k)) as [HB _]; [lra|].
  setoid_replace (1 + (b - 1)) with b in HB by ring.
  replace (1 + Z.of_nat k)%Z with (Z.of_nat (S k)) by lia.
  rewrite Nat2Z.inj_succ in HB. unfold Z.succ in HB.
  rewrite inject_Z_plus in HB. rewrite Nat2Z.inj_succ. unfold Z.succ.
  change (inject_Z 1) with 1 in HB. lra.
Qed.

(** Two logarithms to the growth factor of one month give
    [estimateRemainingMonths] the same answer. *)
Lemma estimate_same_logarithm (L L' : num -> num)
      (c : LoanConfiguration) (E nb cr : num) :
  0 <= cr ->
  logarithmTo L (1 + cr / 100 / 12)%js ->
  logarithmTo L' (1 + cr / 100 / 12)%js ->
  estimateRemainingMonths L c E nb cr
  = estimateRemainingMonths L' c E nb cr.
Proof.
  intros Hcr HL HL'. unfold estimateRemainingMonths.
  destruct (nb <=? 0)%js eqn:E1; [reflexivity|]. js_test E1.
  destruct (E <=? 0)%js eqn:E2; [reflexivity|]. js_test E2.
  cbn [orb]. cbv zeta.
  pose proof (JSFacts.monthly_rate_eq cr) as Hr.
  set (r := (cr / 100 / 12)%js) in *.
  destruct (r =? 0)%js eqn:E3; [reflexivity|]. js_test E3.
  assert (Hpos : 0 < r) by lra.
  pose proof (JSFacts.sub_eq E (nb * r)%js) as Hd.
  pose proof (JSFacts.mul_eq nb r) as Hi.
  set (d := (E - nb * r)%js) in *.
  destruct (1 + r <? 0)%js; [reflexivity|].
  destruct (d <? 0)%js eqn:E4; [reflexivity|]. js_test E4.
  destruct (d =? 0)%js eqn:E5; [reflexivity|]. js_test E5.
  destruct (1 + r =? 0)%js; [reflexivity|].
  assert (Hb : 1 < (1 + r)%js) by (rewrite JSFacts.add_eq; lra).
  assert (Hx : 1 < (E / d)%js).
  { rewrite JSFacts.div_eq. apply Qlt_shift_div_l; [lra|].
    assert (0 < nb * r) by (apply Qmult_lt_0_compat; lra). lra. }
  destruct (HL Hb _ Hx) as (H1 & H2 & H3).
  destruct (HL' Hb _ Hx) as (H1' & H2' & H3').
  set (n := Math_ceil (L (E / d)%js / L (1 + r)%js)%js) in *.
  set (n' := Math_ceil (L' (E / d)%js / L' (1 + r)%js)%js) in *.
  assert (Hlt : (1 + r)%js ^ (n - 1) < (1 + r)%js ^ n') by lra.
  assert (Hlt' : (1 + r)%js ^ (n' - 1) < (1 + r)%js ^ n) by lra.
  apply power_lt_exponent in Hlt; [|exact Hb|lia|lia].
  apply power_lt_exponent in Hlt'; [|exact Hb|lia|lia].
  replace n' with n by lia. reflexivity.
Qed.

Lemma body_same_logarithm (L L' : num -> num) (c : LoanConfiguration)
      (st : State) :
  0 <= getInterestRateForMonth c (month st + 1) ->
  logarithmTo L (1 + getInterestRateForMonth c (month st + 1)
                     / 100 / 12)%js ->
  logarithmTo L' (1 + getInterestRateForMonth c (month st + 1)
                      / 100 / 12)%js ->
  body L c st = body L' c st.
Proof.
  intros Hcr HL HL'. unfold body, applyPrepayment. cbv zeta.
  rewrite (estimate_same_logarithm L L' c _ _ _ Hcr HL HL').
  reflexivity.
Qed.

(** *** Falling rates *)

(** 1200 over 12 months: 24 % in month 1, 12 % from month 2 on; 10
    prepaid in month 2 under REDUCE_EMI. *)
Definition fallingRateConfig : LoanConfiguration :=
  addOneTimePrepayment
    (addRatePeriod
       (addRatePeriod (LoanProperties.loan 1200 12 REDUCE_TENURE) 1 24 None)
       2 12 None)
    10 2 (Some REDUCE_EMI).

(** The run of [fallingRateConfig] asks for one logarithm, in month 2. *)
Lemma falling_rate_run (L : num -> num) :
  logarithmTo L (1 + 12 / 100 / 12)%js ->
  calculate L fallingRateConfig
  = calculate (logTo (1 + 12 / 100 / 12)%js) fallingRateConfig.
Proof.
  intros HL.
  assert (H1 : exists st1, forall M,
             body M fallingRateConfig (initialState fallingRateConfig)
             = Some st1 /\
             (balance st1 <=? 1 # 100)%js = false /\
             (balance st1 >? 1 # 100)%js = true /\
             month st1 = 1%Z /\
             exists st2,
               body (logTo (1 + 12 / 100 / 12)%js) fallingRateConfig st1
               = Some st2 /\
               (balance st2 <=? 1 # 100)%js = false /\
               exists fin, forall M',
                 loop M' fallingRateConfig 34 st2 = Some fin).
  { eexists. intros M. split; [vm_compute; reflexivity|].
    split; [vm_compute; reflexivity|].
    split; [vm_compute; reflexivity|].
    split; [reflexivity|].
    eexists. split; [vm_compute; reflexivity|].
    split; [vm_compute; reflexivity|].
    eexists. intros M'. vm_compute. reflexivity. }
  destruct H1 as (st1 & H1).
  assert (Hloop : forall M,
             logarithmTo M (1 + 12 / 100 / 12)%js ->
             loop M fallingRateConfig 36
                  (initialState fallingRateConfig)
             = loop (logTo (1 + 12 / 100 / 12)%js) fallingRateConfig 34
                    match body (logTo (1 + 12 / 100 / 12)%js)
                               fallingRateConfig st1 with
                    | Some st2 => st2
                    | None => st1
                    end).
  { intros M HM.
    destruct (H1 M) as (B1 & C1 & D1 & M1 & st2 & B2 & C2 & fin & Hfin).
    rewrite LoanFacts.loop_S.
    change ((balance (initialState fallingRateConfig) >? 1 # 100)%js)
      with true. cbv iota.
    rewrite B1, C1, LoanFacts.loop_S, D1.
    rewrite (body_same_logarithm M (logTo (1 + 12 / 100 / 12)%js));
      [| rewrite M1; vm_compute; discriminate
       | rewrite M1; exact HM
       | rewrite M1; apply logTo_spec ].
    rewrite B2, C2. rewrite !Hfin. reflexivity. }
  unfold calculate.
  change (validate fallingRateConfig) with (@nil ConfigError).
  change (Z.to_nat (baseTenureMonths fallingRateConfig * 3)) with 36%nat.
  rewrite (Hloop L HL), (Hloop _ (logTo_spec _)). reflexivity.
Qed.

(** C3, counterexample.  [cappedConfig] is valid and runs 36 months
    against a baseline stopped at 24, with more interest; [reduceEmiConfig]
    is valid, its baseline pays the loan off in 3 months, and the run with
    the REDUCE_EMI prepayment takes 4; [fallingRateConfig] is valid, its
    rates only fall, its baseline pays the loan off, and whenever
    [Math.log] is a logarithm to the growth factor of month 2 the run with
    the REDUCE_EMI prepayment pays more interest than the baseline. *)
Lemma baseline_monotonicity_fails :
  (validate LoanProperties.cappedConfig = [] /\
   ~ (exists Math_log,
        LoanProperties.baselineMonotone Math_log
          LoanProperties.cappedConfig)) /\
  (validate LoanProperties.reduceEmiConfig = [] /\
   o_balance (calculateOriginalLoan LoanProperties.reduceEmiConfig)
   <= 1 # 100 /\
   ~ (exists Math_log,
        LoanProperties.baselineMonotone Math_log
          LoanProperties.reduceEmiConfig)) /\
  (validate fallingRateConfig = [] /\
   LoanFacts.ratesNonneg fallingRateConfig /\
   o_balance (calculateOriginalLoan fallingRateConfig) <= 1 # 100 /\
   (exists Math_log, logarithmTo Math_log (1 + 12 / 100 / 12)%js) /\
   forall Math_log,
     logarithmTo Math_log (1 + 12 / 100 / 12)%js ->
     ~ LoanProperties.baselineMonotone Math_log fallingRateConfig).
Proof.
  split; [split; [reflexivity|] | split; [split; [reflexivity | split]|]].
  - intros [Math_log H].
    evaluate_call (calculate Math_log LoanProperties.cappedConfig).
    destruct (H _ E) as [H1 _]. vm_compute in H1. apply H1. reflexivity.
  - vm_compute. discriminate.
  - intros [Math_log H].
    evaluate_call (calculate Math_log LoanProperties.reduceEmiConfig).
    destruct (H _ E) as [H1 _]. vm_compute in H1. apply H1. reflexivity.
  - split; [reflexivity|]. split.
    { repeat constructor; vm_compute; discriminate. }
    split; [vm_compute; discriminate|].
    split; [eexists; apply logTo_spec|].
    intros Math_log HL H. unfold LoanProperties.baselineMonotone in H.
    rewrite (falling_rate_run Math_log HL) in H.
    evaluate_call (calculate (logTo (1 + 12 / 100 / 12)%js)
                             fallingRateConfig).
    destruct (H _ E) as [_ H2]. vm_compute in H2. apply H2. reflexivity.
Qed.

(** *** Monotonicity against the baseline *)

(** 1200 over 12 months at 12 %, with 100 prepaid in month 2 under
    REDUCE_EMI. *)
Definition reduceEmiOneRate : LoanConfiguration :=
  addOneTimePrepayment
    (addRatePeriod (LoanProperties.loan 1200 12 REDUCE_TENURE) 1 12 None)
    100 2 (Some REDUCE_EMI).

(** C3, amended.  For a valid configuration with non-negative rates whose
    baseline simulation pays the loan off (it ends with a balance of at
    most 0.01), [calculate] returns with [months <= originalMonths] and
    [totalInterest <= originalTotalInterest], provided that either no
    month resolves to REDUCE_EMI, or every rate period carries the same
    rate and [Math.log] is a logarithm to the monthly growth factor. *)
Theorem baseline_monotone (Math_log : num -> num)
        (c : LoanConfiguration) :
  validate c = [] ->
  LoanFacts.ratesNonneg c ->
  o_balance (calculateOriginalLoan c) <= 1 # 100 ->
  LoanFacts.reduceTenureOnly c \/
  (exists R, sameRate c R /\
             logarithmTo Math_log (1 + R / 100 / 12)%js) ->
  exists res,
    calculate Math_log c = Ok res /\
    (months res <= originalMonths res)%Z /\
    totalInterest res <= originalTotalInterest res.
Proof.
  intros Hv Hr Hpaid [Hrt|(R & Hsame & Hlog)].
  - now apply LoanFacts.baseline_dominates.
  - apply (one_rate_dominates Math_log c R Hv Hsame); [|exact Hlog|exact Hpaid].
    destruct (LoanFacts.validate_nil c Hv) as (_ & _ & Hne).
    unfold sameRate in Hsame. unfold LoanFacts.ratesNonneg in Hr.
    destruct (interestRateSchedule c) as [|p s]; [contradiction|].
    inversion Hsame; subst. inversion Hr; subst. lra.
Qed.

Lemma baseline_monotone_witness :
  validate reduceEmiOneRate = [] /\
  LoanFacts.ratesNonneg reduceEmiOneRate /\
  o_balance (calculateOriginalLoan reduceEmiOneRate) <= 1 # 100 /\
  ~ LoanFacts.reduceTenureOnly reduceEmiOneRate /\
  sameRate reduceEmiOneRate 12 /\
  exists Math_log,
    logarithmTo Math_log (1 + 12 / 100 / 12)%js /\
    exists res,
      calculate Math_log reduceEmiOneRate = Ok res /\
      (months res <= originalMonths res)%Z /\
      totalInterest res <= originalTotalInterest res.
Proof.
  assert (Hv : validate reduceEmiOneRate = []) by reflexivity.
  assert (Hr : LoanFacts.ratesNonneg reduceEmiOneRate).
  { repeat constructor. vm_compute. discriminate. }
  assert (Hp : o_balance (calculateOriginalLoan reduceEmiOneRate)
               <= 1 # 100).
  { vm_compute. discriminate. }
  assert (Hs : sameRate reduceEmiOneRate 12).
  { repeat constructor. }
  split; [exact Hv|]. split; [exact Hr|]. split; [exact Hp|].
  split.
  { intros (_ & _ & _ & H). inversion H as [|p l Hp1 _]; subst.
    apply Hp1. reflexivity. }
  split; [exact Hs|].
  exists (logTo (1 + 12 / 100 / 12)%js).
  split; [apply logTo_spec|].
  apply (baseline_monotone _ reduceEmiOneRate Hv Hr Hp).
  right. exists 12. split; [exact Hs | apply logTo_spec].
Defined.
End SingleRateFacts.

(** ** Cloning a configuration for a what-if run *)
Module CloneFacts.
Import JS DataModels Validation LoanToolsV2.

Definition emptyStrategy : PrepaymentStrategy :=
  {| monthly := []; yearly := []; oneTime := [] |}.

Lemma insert_last (p : InterestRatePeriod) (l : list InterestRatePeriod) :
  Forall (fun q => RateScheduleFacts.startLe q p) l ->
  insert_by_start p l = l ++ [p].
Proof.
  induction 1 as [|q l Hq Hl IH]; [reflexivity|].
  cbn [insert_by_start app]. unfold RateScheduleFacts.startLe in Hq.
  destruct (rp_startMonth p <? rp_startMonth q)%Z eqn:E.
  - apply Z.ltb_lt in E. lia.
  - now rewrite IH.
Qed.

Lemma sorted_snoc (l : list InterestRatePeriod) (p : InterestRatePeriod) :
  StronglySorted RateScheduleFacts.startLe (l ++ [p]) ->
  StronglySorted RateScheduleFacts.startLe l /\
  Forall (fun q => RateScheduleFacts.startLe q p) l.
Proof.
  induction l as [|q l IH]; cbn [app]; intros H.
  - split; constructor.
  - inversion H as [|? ? Hs Hq]; subst.
    destruct (IH Hs) as [IH1 IH2]. split.
    + constructor; [exact IH1|].
      rewrite Forall_app in Hq. exact (proj1 Hq).
    + constructor; [|exact IH2].
      rewrite Forall_app in Hq. destruct Hq as [_ Hq].
      now inversion Hq.
Qed.

(** Sorting again leaves a sorted schedule as it is: the sort is
    stable. *)
Lemma sort_sorted_id (l : list InterestRatePeriod) :
  StronglySorted RateScheduleFacts.startLe l -> sort_by_start l = l.
Proof.
  induction l as [|p l IH] using rev_ind; intros H; [reflexivity|].
  destruct (sorted_snoc l p H) as [Hl Hp].
  unfold sort_by_start in *. rewrite fold_left_app. cbn [fold_left].
  rewrite (IH Hl). now apply insert_last.
Qed.

Lemma clone_fold (l : list InterestRatePeriod) :
  forall acc,
    fold_left
      (fun clone p =>
         addRatePeriod clone (rp_startMonth p) (rp_rate p) (rp_endMonth p))
      l acc
    = with_schedule acc
        (fold_left
           (fun s p =>
              sort_by_start
                (s ++ [{| rp_startMonth := rp_startMonth p;
                          rp_rate := rp_rate p;
                          rp_endMonth := rp_endMonth p |}]))
           l (interestRateSchedule acc)).
Proof.
  induction l as [|p l IH]; intros acc; cbn [fold_left].
  - now destruct acc.
  - rewrite IH. reflexivity.
Qed.

Lemma period_eta (p : InterestRatePeriod) :
  {| rp_startMonth := rp_startMonth p; rp_rate := rp_rate p;
     rp_endMonth := rp_endMonth p |} = p.
Proof. now destruct p. Qed.

Lemma resort_fold (l : list InterestRatePeriod) :
  forall s,
    StronglySorted RateScheduleFacts.startLe s ->
    fold_left
      (fun s p =>
         sort_by_start
           (s ++ [{| rp_startMonth := rp_startMonth p;
                     rp_rate := rp_rate p;
                     rp_endMonth := rp_endMonth p |}]))
      l s
    = fold_left (fun acc p => insert_by_start p acc) l s.
Proof.
  induction l as [|p l IH]; intros s Hs; cbn [fold_left]; [reflexivity|].
  rewrite period_eta.
  assert (E : sort_by_start (s ++ [p]) = insert_by_start p s).
  { unfold sort_by_start. rewrite fold_left_app. cbn [fold_left].
    fold (sort_by_start s). now rewrite (sort_sorted_id s Hs). }
  rewrite E. apply IH. now apply RateScheduleFacts.insert_sorted.
Qed.

(** X12.  The clone made for a what-if run has the scalar fields of the
    configuration, no prepayments, and its rate periods sorted by start
    month; when the schedule was sorted already (as every schedule built
    with [addRatePeriod] is) the clone is the configuration without its
    prepayments, and resolves the same rate in every month. *)
Theorem clone_keeps_rates_drops_prepayments (c : LoanConfiguration) :
  _cloneConfig c
  = with_prepayments
      (with_schedule c (sort_by_start (interestRateSchedule c)))
      emptyStrategy /\
  (StronglySorted RateScheduleFacts.startLe (interestRateSchedule c) ->
   _cloneConfig c = with_prepayments c emptyStrategy /\
   forall m, getInterestRateForMonth (_cloneConfig c) m
             = getInterestRateForMonth c m).
Proof.
  assert (H : _cloneConfig c
              = with_prepayments
                  (with_schedule c (sort_by_start (interestRateSchedule c)))
                  emptyStrategy).
  { unfold _cloneConfig. rewrite clone_fold.
    cbn [setLoan newLoanConfiguration interestRateSchedule].
    rewrite resort_fold by constructor. reflexivity. }
  split; [exact H|]. intros Hs.
  assert (H' : _cloneConfig c = with_prepayments c emptyStrategy).
  { rewrite H, (sort_sorted_id _ Hs). now destruct c. }
  split; [exact H'|]. intros m. now rewrite H'.
Qed.

Lemma clone_keeps_rates_drops_prepayments_witness :
  StronglySorted RateScheduleFacts.startLe
    (interestRateSchedule LoanProperties.reduceEmiConfig) /\
  _cloneConfig LoanProperties.reduceEmiConfig
  = with_prepayments LoanProperties.reduceEmiConfig emptyStrategy.
Proof.
  assert (H : StronglySorted RateScheduleFacts.startLe
                (interestRateSchedule LoanProperties.reduceEmiConfig)).
  { simpl. repeat constructor; unfold RateScheduleFacts.startLe; simpl;
      lia. }
  split; [exact H|].
  exact (proj1 (proj2 (clone_keeps_rates_drops_prepayments
                         LoanProperties.reduceEmiConfig) H)).
Defined.
End CloneFacts.

(** ** The Section 80C estimate *)
Module TaxBenefitFacts.
Import JS Formatters LoanToolsV2.

(** X13.  With deductions already claimed that are not negative, the eligible
    amount of a prepayment lies between 0 and the ceiling of 150000 and does
    not exceed the prepayment by more than the rounding; the tax saved at a
    bracket of 0 to 100 % does not exceed it either; and nothing is eligible
    once the ceiling is used up. *)
Theorem tax_benefit_capped (total existing bracket : Q) :
  0 <= total -> 0 <= existing -> 0 <= bracket -> bracket <= 100 ->
  let b := estimatePrepaymentTaxBenefit total existing bracket in
  0 <= eligibleDeduction b /\ eligibleDeduction b <= 150000 /\
  eligibleDeduction b <= total + (1 # 200) /\
  0 <= taxSaved b /\ taxSaved b <= 150000 /\
  (150000 <= existing -> eligibleDeduction b = 0 /\ taxSaved b = 0).
Proof.
  intros Ht He Hb0 Hb1. cbv zeta. unfold estimatePrepaymentTaxBenefit.
  cbn [eligibleDeduction taxSaved]. unfold MAX_80C.
  set (available := Math_max (150000 - existing)%js 0).
  assert (Ha : 0 <= available /\ available <= 150000 /\
               (150000 <= existing -> available == 0)).
  { unfold available.
    destruct (JSFacts.max_cases (150000 - existing)%js 0)
      as [[H ->]|[H ->]]; rewrite JSFacts.sub_eq in *;
      repeat split; try lra; intros; lra. }
  destruct Ha as (Ha0 & Ha1 & Ha2).
  set (eligible := Math_min total available).
  assert (Hel : 0 <= eligible /\ eligible <= 150000 /\ eligible <= total /\
                (150000 <= existing -> eligible == 0)).
  { unfold eligible.
    destruct (JSFacts.min_cases total available) as [[H ->]|[H ->]];
      repeat split; try lra; intros Hx; specialize (Ha2 Hx); lra. }
  destruct Hel as (H0 & H1 & H2 & H3).
  set (tax := (eligible * (bracket / 100))%js).
  assert (Htax : 0 <= tax /\ tax <= eligible).
  { unfold tax. rewrite JSFacts.mul_eq, JSFacts.div_eq.
    setoid_replace (bracket / 100) with (bracket * (1 # 100)) by field.
    split.
    - apply Qmult_le_0_compat; lra.
    - assert (Hm : forall e k : Q, 0 <= e -> k <= 1 -> e * k <= e).
      { intros e k He0 Hk.
        assert (0 <= e * (1 - k)) by (apply Qmult_le_0_compat; lra).
        lra. }
      apply Hm; lra. }
  pose proof (LoanV2Facts.roundCurrency_close eligible) as [_ Hc].
  assert (R0 : roundCurrency 0 = 0) by reflexivity.
  assert (Rmax : roundCurrency 150000 = 150000) by reflexivity.
  split; [apply EMIFacts.roundCurrency_nonneg; lra|].
  split; [apply Qle_trans with (roundCurrency 150000);
          [apply EMIFacts.roundCurrency_mono; lra | rewrite Rmax; lra]|].
  split; [lra|].
  split; [apply EMIFacts.roundCurrency_nonneg; lra|].
  split; [apply Qle_trans with (roundCurrency 150000);
          [apply EMIFacts.roundCurrency_mono; lra | rewrite Rmax; lra]|].
  intros Hx. specialize (H3 Hx). split.
  - rewrite <- R0. apply EMIFacts.roundCurrency_compat. exact H3.
  - rewrite <- R0. apply EMIFacts.roundCurrency_compat. lra.
Qed.

Lemma tax_benefit_capped_witness :
  0 <= 200000 /\ 0 <= 50000 /\ 0 <= 30 /\ 30 <= 100 /\
  eligibleDeduction (estimatePrepaymentTaxBenefit 200000 50000 30)
  <= 150000.
Proof.
  assert (H1 : 0 <= 200000) by (vm_compute; discriminate).
  assert (H2 : 0 <= 50000) by (vm_compute; discriminate).
  assert (H3 : 0 <= 30) by (vm_compute; discriminate).
  assert (H4 : 30 <= 100) by (vm_compute; discriminate).
  split; [exact H1|]. split; [exact H2|]. split; [exact H3|].
  split; [exact H4|].
  exact (proj1 (proj2 (tax_benefit_capped 200000 50000 30 H1 H2 H3 H4))).
Defined.
End TaxBenefitFacts.

(** ** The searches of the goal seeker outside their comfortable range *)
Module GoalSearchFacts.
Import JS GoalSeeker.

Lemma midpoint_between (low high : num) :
  low <= high ->
  low <= ((low + high) / 2)%js /\ ((low + high) / 2)%js <= high.
Proof.
  intros H. rewrite JSFacts.div_eq, JSFacts.add_eq.
  setoid_replace ((low + high) / 2) with ((low + high) * (1 # 2))
    by field.
  split; lra.
Qed.

(** The bisection never leaves the bracket it is given. *)
Lemma bisect_in_bracket fv T fuel :
  forall low high, low <= high ->
    low <= bisect fv T fuel low high /\ bisect fv T fuel low high <= high.
Proof.
  induction fuel as [|fuel IH]; intros low high H;
    pose proof (midpoint_between low high H) as [H1 H2].
  - simpl. split; assumption.
  - cbn [bisect]. destruct (_ >? 1)%js; [|split; assumption].
    destruct (_ <? tolerance)%js; [split; assumption|].
    destruct (_ <? T)%js.
    + destruct (IH _ high H2). split; lra.
    + destruct (IH low _ H1). split; lra.
Qed.

(** A bracket narrower than 1 is not searched at all. *)
Lemma bisect_narrow fv T fuel low high :
  high - low <= 1 -> bisect fv T fuel low high = ((low + high) / 2)%js.
Proof.
  intros H. destruct fuel as [|fuel]; [reflexivity|].
  cbn [bisect]. destruct (_ >? 1)%js eqn:E; [|reflexivity].
  js_test E. rewrite JSFacts.sub_eq in E. lra.
Qed.

(** X18.  The step-up search looks for the initial SIP between 100 and a
    twelfth of the target and returns nothing outside; for a target below
    1212 there is nothing to search and the answer is the midpoint, whatever
    the horizon, the return and the step-up, and below 100 for a target
    under 1200. *)
Theorem step_up_sip_in_bracket (T : num) (y : Z) (R s : num) :
  (1200 <= T ->
   100 <= calculateStepUpSIP T y R s /\
   calculateStepUpSIP T y R s <= T / 12) /\
  (T <= 1212 -> calculateStepUpSIP T y R s == (100 + T / 12) / 2) /\
  (T < 1200 -> calculateStepUpSIP T y R s < 100).
Proof.
  unfold calculateStepUpSIP.
  pose proof (JSFacts.div_eq T 12) as H12.
  set (high := (T / 12)%js) in *.
  set (fv := fun mid => calculateStepUpFutureValue mid y R s).
  assert (Hh : high == T * (1 # 12)) by (rewrite H12; field).
  assert (Hnarrow : T <= 1212 ->
            bisect fv T maxIterations 100 high == (100 + T / 12) / 2).
  { intros H. rewrite bisect_narrow by lra.
    rewrite JSFacts.div_eq, JSFacts.add_eq, H12. reflexivity. }
  split; [|split].
  - intros H.
    destruct (bisect_in_bracket fv T maxIterations 100 high) as [H1 H2];
      [lra|].
    split; [exact H1|]. now rewrite <- H12.
  - exact Hnarrow.
  - intros H. rewrite Hnarrow by lra.
    setoid_replace ((100 + T / 12) / 2) with (50 + T * (1 # 24)) by field.
    lra.
Qed.

Lemma step_up_sip_in_bracket_witness :
  1200 <= 1000000 /\
  100 <= calculateStepUpSIP 1000000 10 12 10 /\
  calculateStepUpSIP 1000000 10 12 10 <= 1000000 / 12.
Proof.
  assert (H : 1200 <= 1000000) by (vm_compute; discriminate).
  split; [exact H|].
  exact (proj1 (step_up_sip_in_bracket 1000000 10 12 10) H).
Defined.

(** *** A goal that the minimum SIP overshoots *)

Lemma derivative_is_factor sip y R :
  ((calculateFutureValue (sip + 1)%js y R
    - calculateFutureValue sip y R) / 1)%js
  == GoalSeekerFacts.factor y R.
Proof.
  rewrite JSFacts.div_eq, JSFacts.sub_eq,
    !GoalSeekerFacts.future_value_linear, JSFacts.add_eq.
  field.
Qed.

(** One Newton step from [sip] lands on [T / factor], which the floor of
    100 replaces when the minimum SIP overshoots the target. *)
Lemma newton_step_clamped T y R sip :
  1 <= GoalSeekerFacts.factor y R ->
  T + 100 <= 100 * GoalSeekerFacts.factor y R ->
  (let s' := (sip - (calculateFutureValue sip y R - T)
                    / ((calculateFutureValue (sip + 1) y R
                        - calculateFutureValue sip y R) / 1))%js in
   if (s' <? 100)%js then 100 else s') = 100.
Proof.
  intros HF Hover. cbv zeta.
  set (s' := (sip - _ / _)%js).
  assert (H : s' == T / GoalSeekerFacts.factor y R).
  { unfold s'. rewrite JSFacts.sub_eq, JSFacts.div_eq,
      derivative_is_factor, JSFacts.sub_eq,
      GoalSeekerFacts.future_value_linear.
    field. lra. }
  destruct (s' <? 100)%js eqn:E; [reflexivity|]. js_test E.
  exfalso. rewrite H in E.
  assert (T / GoalSeekerFacts.factor y R < 100);
    [apply Qlt_shift_div_r; lra | lra].
Qed.

Lemma derivative_check_passes sip y R :
  1 <= GoalSeekerFacts.factor y R ->
  (Math_abs ((calculateFutureValue (sip + 1) y R
              - calculateFutureValue sip y R) / 1)
   <? 1 # 1000)%js = false.
Proof.
  intros HF. apply JSFacts.lt_false. unfold Math_abs.
  rewrite derivative_is_factor, Qabs_pos; lra.
Qed.

Lemma newton_stuck_at_minimum T y R fuel :
  1 <= GoalSeekerFacts.factor y R ->
  T + 100 <= 100 * GoalSeekerFacts.factor y R ->
  newtonLoop T y R fuel 100 = Exhausted 100.
Proof.
  intros HF Hover. induction fuel as [|fuel IH]; [reflexivity|].
  rewrite GoalSeekerFacts.newtonLoop_S. cbv zeta.
  destruct (Math_abs _ <? tolerance)%js eqn:E0.
  { exfalso. js_test E0. unfold Math_abs, tolerance in E0.
    rewrite JSFacts.sub_eq, GoalSeekerFacts.future_value_linear in E0.
    rewrite Qabs_pos in E0; lra. }
  rewrite derivative_check_passes by exact HF.
  pose proof (newton_step_clamped T y R 100 HF Hover) as Hs.
  cbv zeta in Hs. rewrite Hs. exact IH.
Qed.

(** X19.  A goal so small that the minimum SIP of 100 overshoots it by the
    tolerance or more, and that the first guess misses: the Newton loop sits
    on the floor of 100 until its iterations run out, and the bisection that
    follows cannot go below 100 either, so the SIP returned overshoots the
    target by 100 or more. *)
Theorem small_goal_overshoots (T : num) (y : Z) (R : num) :
  1200 <= T -> (1 <= y)%Z -> 0 <= R ->
  T + 100 <= calculateFutureValue 100 y R ->
  100 <= Qabs (calculateFutureValue (T / ofZ (y * 12))%js y R - T) ->
  let sip := newtonRaphsonMethod T y R in
  100 <= sip /\ sip <= T / 12 /\
  T + 100 <= calculateFutureValue sip y R.
Proof.
  intros HT Hy HR Hover Hguess.
  pose proof (GoalSeekerFacts.factor_ge_1 y R Hy HR) as HF.
  rewrite GoalSeekerFacts.future_value_linear in Hover.
  assert (Hsip : newtonRaphsonMethod T y R = binarySearchMethod T y R).
  { unfold newtonRaphsonMethod, maxIterations.
    rewrite GoalSeekerFacts.newtonLoop_S. cbv zeta.
    destruct (Math_abs _ <? tolerance)%js eqn:E0.
    { exfalso. js_test E0. unfold Math_abs, tolerance in E0.
      rewrite JSFacts.sub_eq in E0. lra. }
    rewrite derivative_check_passes by exact HF.
    pose proof (newton_step_clamped T y R (T / ofZ (y * 12))%js HF Hover)
      as Hs.
    cbv zeta in Hs. rewrite Hs.
    now rewrite newton_stuck_at_minimum. }
  cbv zeta. rewrite Hsip. unfold binarySearchMethod.
  pose proof (JSFacts.div_eq T 12) as H12.
  set (high := (T / 12)%js) in *.
  set (fv := fun mid => calculateFutureValue mid y R).
  assert (Hh : high == T * (1 # 12)) by (rewrite H12; field).
  destruct (bisect_in_bracket fv T maxIterations 100 high) as [H1 H2];
    [lra|].
  set (b := bisect fv T maxIterations 100 high) in *.
  split; [exact H1|]. split; [now rewrite <- H12|].
  rewrite GoalSeekerFacts.future_value_linear.
  assert (100 * GoalSeekerFacts.factor y R
          <= b * GoalSeekerFacts.factor y R)
    by (apply Qmult_le_compat_r; lra).
  lra.
Qed.

Lemma small_goal_overshoots_witness :
  1200 <= 1200 /\ (1 <= 2)%Z /\ 0 <= 12 /\
  1200 + 100 <= calculateFutureValue 100 2 12 /\
  100 <= Qabs (calculateFutureValue (1200 / ofZ (2 * 12))%js 2 12 - 1200) /\
  let sip := newtonRaphsonMethod 1200 2 12 in
  100 <= sip /\ sip <= 1200 / 12 /\
  1200 + 100 <= calculateFutureValue sip 2 12.
Proof.
  assert (H1 : 1200 <= 1200) by (vm_compute; discriminate).
  assert (H2 : (1 <= 2)%Z) by (vm_compute; discriminate).
  assert (H3 : 0 <= 12) by (vm_compute; discriminate).
  assert (H4 : 1200 + 100 <= calculateFutureValue 100 2 12)
    by (vm_compute; discriminate).
  assert (H5 : 100 <= Qabs (calculateFutureValue (1200 / ofZ (2 * 12))%js
                                                  2 12 - 1200))
    by (vm_compute; discriminate).
  split; [exact H1|]. split; [exact H2|]. split; [exact H3|].
  split; [exact H4|]. split; [exact H5|].
  exact (small_goal_overshoots 1200 2 12 H1 H2 H3 H4 H5).
Defined.
End GoalSearchFacts.

(** ** The fallback of the Newton iteration *)
Module NewtonFallbackFacts.
Import JS GoalSeeker.



End NewtonFallbackFacts.

(** ** The step-up projections of the goal seeker *)
Module StepUpFacts.
Import JS GoalSeeker.

Lemma step_up_factor (s : Q) :
  (1 + s / 100)%js == 1 + s * (1 # 100).
Proof. rewrite JSFacts.add_eq, JSFacts.div_eq. field. Qed.

End StepUpFacts.

(** ** The future value as a function of the SIP and of the return *)
Module FutureValueFacts.
Import JS GoalSeeker GoalProbability.

(** The closed form is the month-by-month recurrence: invest, then
    grow. *)
Lemma future_value_grown (sip : Q) (years : Z) (R : Q) :
  (0 <= years)%Z ->
  calculateFutureValue sip years R
  == SIPFacts.grown sip (R * (1 # 1200)) (12 * Z.to_nat years).
Proof.
  intros Hy. rewrite GoalSeekerFacts.future_value_linear.
  unfold GoalSeekerFacts.factor.
  assert (Hn : Z.of_nat (12 * Z.to_nat years) = (years * 12)%Z) by lia.
  destruct (Qeq_bool (R * (1 # 1200)) 0) eqn:E.
  - apply Qeq_bool_iff in E.
    rewrite SIPFacts.grown_zero_rate by exact E. now rewrite Hn.
  - apply Qeq_bool_neq in E.
    rewrite SIPFacts.grown_closed_form by exact E.
    rewrite Hn. field. intros H0. apply E. rewrite H0. reflexivity.
Qed.

Lemma grown_monotone (P1 P2 r1 r2 : Q) (k : nat) :
  0 <= P1 -> P1 <= P2 -> 0 <= 1 + r1 -> r1 <= r2 ->
  0 <= SIPFacts.grown P1 r1 k /\
  SIPFacts.grown P1 r1 k <= SIPFacts.grown P2 r2 k.
Proof.
  intros HP0 HP Hr0 Hr. induction k as [|k [IH0 IH]];
    cbn [SIPFacts.grown]; [split; lra|].
  set (g1 := SIPFacts.grown P1 r1 k) in *.
  set (g2 := SIPFacts.grown P2 r2 k) in *.
  split.
  - apply Qmult_le_0_compat; lra.
  - apply Qle_trans with ((g1 + P1) * (1 + r2)).
    + assert (0 <= (g1 + P1) * (r2 - r1))
        by (apply Qmult_le_0_compat; lra).
      lra.
    + apply Qmult_le_compat_r; lra.
Qed.

(** X22.  For a SIP that is not negative, over whole years and with a monthly
    growth factor that is not negative, a higher SIP or a higher return
    never gives a lower future value. *)
Theorem future_value_monotone (sip1 sip2 : Q) (years : Z) (R1 R2 : Q) :
  (0 <= years)%Z -> 0 <= sip1 -> sip1 <= sip2 ->
  - (1200) <= R1 -> R1 <= R2 ->
  0 <= calculateFutureValue sip1 years R1 /\
  calculateFutureValue sip1 years R1 <= calculateFutureValue sip2 years R2.
Proof.
  intros Hy H0 Hs HR0 HR.
  rewrite !future_value_grown by exact Hy.
  apply grown_monotone; lra.
Qed.

Lemma future_value_monotone_witness :
  (0 <= 10)%Z /\ 0 <= 5000 /\ 5000 <= 6000 /\ - (1200) <= 8 /\ 8 <= 12 /\
  calculateFutureValue 5000 10 8 <= calculateFutureValue 6000 10 12.
Proof.
  assert (H1 : (0 <= 10)%Z) by lia.
  assert (H2 : 0 <= 5000) by (vm_compute; discriminate).
  assert (H3 : 5000 <= 6000) by (vm_compute; discriminate).
  assert (H4 : - (1200) <= 8) by (vm_compute; discriminate).
  assert (H5 : 8 <= 12) by (vm_compute; discriminate).
  split; [exact H1|]. split; [exact H2|]. split; [exact H3|].
  split; [exact H4|]. split; [exact H5|].
  exact (proj2 (future_value_monotone 5000 6000 10 8 12 H1 H2 H3 H4 H5)).
Defined.

(** *** The five scenarios of [calculateGoalProbability] *)

Lemma higher_return_higher_value (sip : Q) (years : Z) (R1 R2 : Q) :
  (0 <= years)%Z -> 0 <= sip -> - (1200) <= R1 -> R1 <= R2 ->
  calculateFutureValue sip years R1 <= calculateFutureValue sip years R2.
Proof.
  intros Hy Hs HR0 HR. rewrite !future_value_grown by exact Hy.
  apply grown_monotone; lra.
Qed.

(** What the tests [fv >= targetAmount] say, as order facts. *)
Ltac success_flags :=
  repeat match goal with
         | H : true = true <-> _ |- _ =>
             pose proof (proj1 H eq_refl); clear H
         | H : false = true <-> ?P |- _ =>
             assert (~ P) by (intros ?X; apply H in X; discriminate);
             clear H
         end.

Lemma ge_true (a b : num) : (a >=? b)%js = true <-> b <= a.
Proof. unfold JS.ge. apply JSFacts.le_true. Qed.

(** X23.  With a SIP and a volatility that are not negative, whole years and
    a worst-case return of -1200 % or more, the five scenarios succeed from
    the best one downwards. So the recommendation is 'Likely to achieve
    goal' exactly when the realistic scenario reaches the target, the
    probability is 100 exactly when the worst one does, and 0 exactly when
    the best one falls short. *)
Theorem recommendation_follows_realistic (sip T : Q) (years : Z)
        (e v : Q) :
  (0 <= years)%Z -> 0 <= sip -> 0 <= v -> - (1200) <= e - v ->
  let res := calculateGoalProbability sip T years e v in
  (recommendation res = LikelyToAchieve
   <-> T <= calculateFutureValue sip years e) /\
  (probability res == 100
   <-> T <= calculateFutureValue sip years (e - v)%js) /\
  (probability res == 0
   <-> calculateFutureValue sip years (e + v)%js < T).
Proof.
  intros Hy Hs Hv Hlow. cbv zeta.
  unfold calculateGoalProbability, returnScenarios, outcomeOf.
  cbn [map fst snd fold_left so_success List.length recommendation
       probability].
  assert (Hhalf : (v / 2)%js == v * (1 # 2))
    by (rewrite JSFacts.div_eq; field).
  assert (R1 : (e - v)%js == e - v) by apply JSFacts.sub_eq.
  assert (R2 : (e - v / 2)%js == e - v * (1 # 2))
    by (now rewrite JSFacts.sub_eq, Hhalf).
  assert (R4 : (e + v / 2)%js == e + v * (1 # 2))
    by (now rewrite JSFacts.add_eq, Hhalf).
  assert (R5 : (e + v)%js == e + v) by apply JSFacts.add_eq.
  set (r1 := (e - v)%js) in *. set (r2 := (e - v / 2)%js) in *.
  set (r4 := (e + v / 2)%js) in *. set (r5 := (e + v)%js) in *.
  pose proof (higher_return_higher_value sip years r1 r2 Hy Hs
                ltac:(lra) ltac:(lra)) as M12.
  pose proof (higher_return_higher_value sip years r2 e Hy Hs
                ltac:(lra) ltac:(lra)) as M23.
  pose proof (higher_return_higher_value sip years e r4 Hy Hs
                ltac:(lra) ltac:(lra)) as M34.
  pose proof (higher_return_higher_value sip years r4 r5 Hy Hs
                ltac:(lra) ltac:(lra)) as M45.
  set (f1 := calculateFutureValue sip years r1) in *.
  set (f2 := calculateFutureValue sip years r2) in *.
  set (f3 := calculateFutureValue sip years e) in *.
  set (f4 := calculateFutureValue sip years r4) in *.
  set (f5 := calculateFutureValue sip years r5) in *.
  pose proof (ge_true f1 T) as G1. pose proof (ge_true f2 T) as G2.
  pose proof (ge_true f3 T) as G3. pose proof (ge_true f4 T) as G4.
  pose proof (ge_true f5 T) as G5.
  destruct (f1 >=? T)%js, (f2 >=? T)%js, (f3 >=? T)%js, (f4 >=? T)%js,
           (f5 >=? T)%js;
    try (exfalso; success_flags; lra);
    cbn [Z.add Z.geb Z.compare Pos.compare Pos.compare_cont];
    (split; [|split]);
    (split;
     [ intros X; try discriminate X;
       try (exfalso; vm_compute in X; discriminate X);
       success_flags; lra
     | intros X; try reflexivity; exfalso; success_flags; lra ]).
Qed.

Lemma recommendation_follows_realistic_witness :
  (0 <= 10)%Z /\ 0 <= 5000 /\ 0 <= 5 /\ - (1200) <= 12 - 5 /\
  let res := calculateGoalProbability 5000 1000000 10 12 5 in
  recommendation res = LikelyToAchieve /\
  1000000 <= calculateFutureValue 5000 10 12.
Proof.
  assert (H1 : (0 <= 10)%Z) by lia.
  assert (H2 : 0 <= 5000) by (vm_compute; discriminate).
  assert (H3 : 0 <= 5) by (vm_compute; discriminate).
  assert (H4 : - (1200) <= 12 - 5) by (vm_compute; discriminate).
  assert (H5 : 1000000 <= calculateFutureValue 5000 10 12)
    by (vm_compute; discriminate).
  split; [exact H1|]. split; [exact H2|]. split; [exact H3|].
  split; [exact H4|]. cbv zeta. split; [|exact H5].
  apply (proj1 (recommendation_follows_realistic
                  5000 1000000 10 12 5 H1 H2 H3 H4)).
  exact H5.
Defined.
End FutureValueFacts.

(** ** A SIP with a yearly step-up, month by month and year by year *)
Module StepUpSIPFacts.
Import JS SIPModels SIPCalculator SIPWrappers.

Section Plan.
Variables sip R s : Q.

Abbreviation q := (1 + s * (1 # 100)).
Abbreviation r := (R * (1 # 1200)).

(** The instalment of month [k + 1]: stepped up once for every year
    completed. *)
Definition instalment (k : nat) : Q := sip * q ^ Z.of_nat (k / 12).

(** Balance and amount invested after [k] months. *)
Fixpoint balanceAfter (k : nat) : Q :=
  match k with
  | O => 0
  | S k' => (balanceAfter k' + instalment k') * (1 + r)
  end.

Fixpoint investedAfter (k : nat) : Q :=
  match k with
  | O => 0
  | S k' => investedAfter k' + instalment k'
  end.

(** The instalment that the state holds after [k] months: the one of
    month [k]. *)
Definition heldAfter (k : nat) : Q :=
  match k with
  | O => sip
  | S k' => instalment k'
  end.

Lemma instalment_step (k : nat) :
  (1 <= k)%nat -> (k mod 12 = 0)%nat ->
  instalment k == instalment (k - 1) * q.
Proof.
  intros Hk Hm. unfold instalment.
  assert (E : (k / 12 = (k - 1) / 12 + 1)%nat).
  { pose proof (Nat.div_mod_eq k 12).
    pose proof (Nat.div_mod_eq (k - 1) 12).
    pose proof (Nat.mod_upper_bound (k - 1) 12). lia. }
  rewrite E, Nat2Z.inj_add, Qpower_plus' by lia.
  change (Z.of_nat 1) with 1%Z. rewrite Qpower_1_r. ring.
Qed.

Lemma instalment_same (k : nat) :
  (1 <= k)%nat -> (k mod 12 <> 0)%nat ->
  instalment k = instalment (k - 1).
Proof.
  intros Hk Hm. unfold instalment.
  assert (E : (k / 12 = (k - 1) / 12)%nat).
  { pose proof (Nat.div_mod_eq k 12).
    pose proof (Nat.div_mod_eq (k - 1) 12).
    pose proof (Nat.mod_upper_bound (k - 1) 12).
    pose proof (Nat.mod_upper_bound k 12). lia. }
  now rewrite E.
Qed.

Variable c : SIPConfiguration.
Variable scenario : ReturnScenario.
Hypothesis flat :
  forall year, (1 <= year)%Z -> getReturnForYear scenario year = R.
Hypothesis one_step_up :
  stepUpSchedules c
  = [{| su_startYear := 1; su_endYear := None; stepUpPercent := s |}].

Lemma body_step_up (months : Z) (st : SipState) (k : nat) :
  month st = Z.of_nat k ->
  currentSIP st == heldAfter k ->
  balance st == balanceAfter k ->
  totalInvested st == investedAfter k ->
  let st' := sipBody c scenario months st in
  month st' = Z.of_nat (S k) /\
  currentSIP st' == heldAfter (S k) /\
  balance st' == balanceAfter (S k) /\
  totalInvested st' == investedAfter (S k).
Proof.
  intros Hm Hc Hb Hi. unfold sipBody.
  cbn [month currentSIP balance totalInvested].
  split; [lia|].
  set (year := Math_ceil (ofZ (month st + 1) / 12)%js).
  assert (Hyear : (1 <= year)%Z)
    by (apply SIPFacts.year_of_month_positive; lia).
  set (cur := if (month st + 1 >? 1)%Z
                 && (Z.rem (month st + 1 - 1) 12 =? 0)%Z
              then applySteUpSchedule c (currentSIP st) year
              else currentSIP st).
  assert (Hcur : cur == instalment k).
  { unfold cur. rewrite Hm.
    replace (Z.of_nat k + 1 - 1)%Z with (Z.of_nat k) by lia.
    rewrite Z.rem_mod_nonneg by lia.
    change 12%Z with (Z.of_nat 12). rewrite <- Nat2Z.inj_mod.
    destruct k as [|k].
    - simpl. cbn [heldAfter] in Hc. rewrite Hc. unfold instalment.
      simpl. ring.
    - assert (E1 : (Z.of_nat (S k) + 1 >? 1)%Z = true)
        by (apply Z.gtb_lt; lia).
      rewrite E1. cbn [andb heldAfter] in *.
      destruct (Z.of_nat (S k mod 12) =? 0)%Z eqn:E2.
      + apply Z.eqb_eq in E2.
        unfold applySteUpSchedule. rewrite one_step_up.
        cbn [find su_startYear su_endYear stepUpPercent].
        assert (E3 : (1 <=? year)%Z = true) by (apply Z.leb_le; lia).
        rewrite E3. cbn [andb].
        rewrite JSFacts.mul_eq, StepUpFacts.step_up_factor, Hc.
        rewrite (instalment_step (S k)) by lia.
        now replace (S k - 1)%nat with k by lia.
      + apply Z.eqb_neq in E2.
        rewrite (instalment_same (S k)) by lia.
        now replace (S k - 1)%nat with k by lia. }
  fold year. fold cur. cbn [heldAfter balanceAfter investedAfter].
  split; [exact Hcur|].
  rewrite flat by exact Hyear.
  rewrite JSFacts.mul_eq, !JSFacts.add_eq, JSFacts.monthly_rate_eq,
    Hb, Hi, Hcur.
  split; reflexivity.
Qed.

Lemma loop_step_up (months : Z) (fuel : nat) :
  forall (st : SipState) (k : nat),
    month st = Z.of_nat k ->
    currentSIP st == heldAfter k ->
    balance st == balanceAfter k ->
    totalInvested st == investedAfter k ->
    balance (sipLoop c scenario months fuel st)
    == balanceAfter (k + fuel) /\
    totalInvested (sipLoop c scenario months fuel st)
    == investedAfter (k + fuel).
Proof.
  induction fuel as [|fuel IH]; intros st k Hm Hc Hb Hi.
  - simpl. rewrite Nat.add_0_r. split; assumption.
  - cbn [sipLoop].
    destruct (body_step_up months st k Hm Hc Hb Hi) as (H1 & H2 & H3 & H4).
    replace (k + S fuel)%nat with (S k + fuel)%nat by lia.
    now apply IH.
Qed.

(** *** The year-by-year loops of the goal seeker *)

Lemma twelveMonths_spec (j n : nat) :
  forall (i : nat) (t cur : Q),
    (i + n <= 12)%nat ->
    t == balanceAfter (12 * j + i) -> cur == sip * q ^ Z.of_nat j ->
    GoalSeeker.twelveMonths n t cur (R / 100 / 12)%js
    == balanceAfter (12 * j + i + n).
Proof.
  induction n as [|n IH]; intros i t cur Hi Ht Hc.
  - simpl. now rewrite Nat.add_0_r.
  - cbn [GoalSeeker.twelveMonths].
    replace (12 * j + i + S n)%nat with (12 * j + S i + n)%nat by lia.
    apply IH; [lia| |exact Hc].
    replace (12 * j + S i)%nat with (S (12 * j + i)) by lia.
    cbn [balanceAfter].
    rewrite JSFacts.mul_eq, !JSFacts.add_eq, JSFacts.monthly_rate_eq,
      Ht, Hc.
    unfold instalment.
    replace ((12 * j + i) / 12)%nat with j; [reflexivity|].
    apply Nat.div_unique with (r := i); lia.
Qed.

Lemma stepUpYears_spec (fuel : nat) :
  forall (j : nat) (year years : Z) (t cur : Q),
    year = (Z.of_nat j + 1)%Z -> (year + Z.of_nat fuel = years + 1)%Z ->
    t == balanceAfter (12 * j) -> cur == sip * q ^ Z.of_nat j ->
    GoalSeeker.stepUpYears fuel year years t cur (R / 100 / 12)%js s
    == balanceAfter (12 * (j + fuel)).
Proof.
  induction fuel as [|fuel IH]; intros j year years t cur Hy Hf Ht Hc.
  - simpl. now rewrite Nat.add_0_r.
  - cbn [GoalSeeker.stepUpYears].
    assert (H0 : (0 + 12 <= 12)%nat) by (apply Nat.le_refl).
    assert (Ht0 : t == balanceAfter (12 * j + 0))
      by (now rewrite Nat.add_0_r).
    pose proof (twelveMonths_spec j 12 0 t cur H0 Ht0 Hc) as H12.
    replace (12 * j + 0 + 12)%nat with (12 * S j)%nat in H12 by lia.
    replace (j + S fuel)%nat with (S j + fuel)%nat by lia.
    destruct fuel as [|fuel].
    + cbn [GoalSeeker.stepUpYears]. rewrite Nat.add_0_r. exact H12.
    + apply (IH (S j)); [lia | lia | exact H12 |].
      assert (E : (year <? years)%Z = true) by (apply Z.ltb_lt; lia).
      rewrite E, JSFacts.mul_eq, StepUpFacts.step_up_factor, Hc.
      rewrite Nat2Z.inj_succ. unfold Z.succ.
      rewrite Qpower_plus' by lia. rewrite Qpower_1_r. ring.
Qed.

Lemma investedAfter_year (j : nat) :
  investedAfter (12 * S j)
  == investedAfter (12 * j) + 12 * (sip * q ^ Z.of_nat j).
Proof.
  assert (H : forall i, (i <= 12)%nat ->
            investedAfter (12 * j + i)
            == investedAfter (12 * j)
               + inject_Z (Z.of_nat i) * (sip * q ^ Z.of_nat j)).
  { induction i as [|i IHi]; intros Hi.
    - rewrite Nat.add_0_r. simpl. ring.
    - replace (12 * j + S i)%nat with (S (12 * j + i)) by lia.
      cbn [investedAfter]. rewrite IHi by lia.
      unfold instalment.
      replace ((12 * j + i) / 12)%nat with j
        by (apply Nat.div_unique with (r := i); lia).
      rewrite Nat2Z.inj_succ. unfold Z.succ. rewrite inject_Z_plus.
      ring. }
  replace (12 * S j)%nat with (12 * j + 12)%nat by lia.
  rewrite H by lia. reflexivity.
Qed.

Lemma stepUpInvested_spec (fuel : nat) :
  forall (j : nat) (year years : Z) (acc cur : Q),
    year = (Z.of_nat j + 1)%Z -> (year + Z.of_nat fuel = years + 1)%Z ->
    acc == investedAfter (12 * j) -> cur == sip * q ^ Z.of_nat j ->
    GoalSeeker.stepUpInvested fuel year years acc cur s
    == investedAfter (12 * (j + fuel)).
Proof.
  induction fuel as [|fuel IH]; intros j year years acc cur Hy Hf Ha Hc.
  - simpl. now rewrite Nat.add_0_r.
  - cbn [GoalSeeker.stepUpInvested].
    assert (H12 : (acc + cur * 12)%js == investedAfter (12 * S j)).
    { rewrite investedAfter_year, JSFacts.add_eq, JSFacts.mul_eq, Ha, Hc.
      ring. }
    replace (j + S fuel)%nat with (S j + fuel)%nat by lia.
    destruct fuel as [|fuel].
    + cbn [GoalSeeker.stepUpInvested]. rewrite Nat.add_0_r. exact H12.
    + apply (IH (S j)); [lia | lia | exact H12 |].
      assert (E : (year <? years)%Z = true) by (apply Z.ltb_lt; lia).
      rewrite E, JSFacts.mul_eq, StepUpFacts.step_up_factor, Hc.
      rewrite Nat2Z.inj_succ. unfold Z.succ.
      rewrite Qpower_plus' by lia. rewrite Qpower_1_r. ring.
Qed.
End Plan.

(** X24.  A yearly step-up of [s > 0] percent over [years >= 0] whole years:
    the month-by-month projection behind [calculateSimpleSIP] ends on the
    future value that the goal seeker computes year by year for the same
    initial SIP, return and step-up; the two loops perform the same
    operations in the same order. *)
Theorem simple_sip_matches_step_up (sip R s : Q) (years : Z)
        (inflation : option num) :
  (0 <= years)%Z -> 0 < s ->
  exists res,
    calculateSimpleSIP
      {| sipAmount := sip; sipYears := years; sipReturn := R;
         sipStepUp := Some s; p_inflationRate := inflation |} = Ok res /\
    finalValue res
    == GoalSeeker.calculateStepUpFutureValue sip years R s.
Proof.
  intros Hy Hs. unfold calculateSimpleSIP, simpleSIPConfig.
  cbn [sipStepUp sipAmount sipYears sipReturn p_inflationRate].
  rewrite (proj2 (JSFacts.gt_true s 0)) by exact Hs.
  unfold calculate, lookupScenario.
  cbn [addReturnScenario returnScenarios find fst snd String.eqb
       monthlyAmount durationYears stepUpSchedules inflationRate
       newSIPConfiguration app].
  change (String.eqb "realistic" "realistic") with true. cbv iota.
  eexists. split; [reflexivity|].
  cbn [finalValue r_totalInvested].
  match goal with
  | |- context [sipLoop ?c0 ?sc0 ?m0 ?f0 ?st0] =>
      assert (Hflat : forall year, (1 <= year)%Z ->
                        getReturnForYear sc0 year = R);
      [|destruct (loop_step_up sip R s c0 sc0 Hflat eq_refl m0 f0 st0
                               0%nat) as [HB HI]]
  end; try reflexivity.
  { intros year Hyear. unfold getReturnForYear, addPeriod.
    cbn [snd periods sort_by_year app fold_left insert_by_year].
    unfold isActiveForYear.
    cbn [find startYear endYear annualReturn].
    assert (E : (1 <=? year)%Z = true) by (apply Z.leb_le; exact Hyear).
    rewrite E. reflexivity. }
  rewrite HB. cbn [Nat.add].
  unfold GoalSeeker.calculateStepUpFutureValue.
  rewrite (stepUpYears_spec sip R s (Z.to_nat years) 0 1 years)
    by (try reflexivity; try lia; simpl; ring).
  cbn [Nat.add].
  replace (Z.to_nat (years * 12)) with (12 * Z.to_nat years)%nat by lia.
  reflexivity.
Qed.

Lemma simple_sip_matches_step_up_witness :
  (0 <= 3)%Z /\ 0 < 10 /\
  exists res,
    calculateSimpleSIP
      {| sipAmount := 1000; sipYears := 3; sipReturn := 12;
         sipStepUp := Some 10; p_inflationRate := None |} = Ok res /\
    finalValue res == GoalSeeker.calculateStepUpFutureValue 1000 3 12 10.
Proof.
  assert (H1 : (0 <= 3)%Z) by lia.
  assert (H2 : 0 < 10) by reflexivity.
  split; [exact H1|]. split; [exact H2|].
  exact (simple_sip_matches_step_up 1000 12 10 3 None H1 H2).
Defined.
End StepUpSIPFacts.

(** ** Withdrawals: sizing the corpus by bisection *)
Module WithdrawalPlanFacts.
Import JS SIPCalculator WithdrawalPlanning.

Lemma corpusSearch_facts (lasts : num -> bool) (fuel : nat) :
  (forall a b, a <= b -> lasts a = true -> lasts b = true) ->
  forall low high, low <= high ->
    let h := corpusSearch lasts fuel low high in
    low <= h /\ h <= high /\
    (lasts high = true -> lasts h = true) /\
    (lasts high = false -> h = high).
Proof.
  intros Hmono. induction fuel as [|fuel IH]; intros low high Hle;
    cbv zeta.
  - simpl. repeat split; auto; lra.
  - cbn [corpusSearch]. destruct (_ >? 1000)%js;
      [|repeat split; auto; lra].
    set (mid := ((low + high) / 2)%js).
    assert (Hmid : low <= mid /\ mid <= high).
    { unfold mid. rewrite JSFacts.div_eq, JSFacts.add_eq.
      setoid_replace ((low + high) / 2) with ((low + high) * (1 # 2))
        by field.
      split; lra. }
    destruct Hmid as [Hm1 Hm2].
    destruct (lasts mid) eqn:El.
    + destruct (IH low mid Hm1) as (I1 & I2 & I3 & _).
      split; [exact I1|]. split; [lra|]. split; [intros _; now apply I3|].
      intros Hh. rewrite (Hmono mid high Hm2 El) in Hh. discriminate.
    + destruct (IH mid high Hm2) as (I1 & I2 & I3 & I4).
      split; [lra|]. split; [exact I2|]. split; assumption.
Qed.

Lemma lasts_monotone (w years r infl : num) (adj : bool) (a b : num) :
  a <= b ->
  depletedAt (withdrawalCalculate a w years r infl adj) = None ->
  depletedAt (withdrawalCalculate b w years r infl adj) = None.
Proof.
  intros Hab. unfold withdrawalCalculate. cbn [depletedAt].
  pose proof (WithdrawalFacts.depletion_monotone
                (r / 100 / 12)%js infl adj
                (Z.to_nat (Qfloor (years * 12)%js))
                {| w_month := 0; w_balance := a; w_totalWithdrawn := 0;
                   w_currentWithdrawal := w; w_schedule := [];
                   w_depletedAt := None |}
                {| w_month := 0; w_balance := b; w_totalWithdrawn := 0;
                   w_currentWithdrawal := w; w_schedule := [];
                   w_depletedAt := None |}
                eq_refl eq_refl eq_refl eq_refl Hab) as H.
  intros Ha. rewrite Ha in H. unfold WithdrawalFacts.depletionLe in H.
  destruct (w_depletedAt _); [contradiction | reflexivity].
Qed.

(** X26.  The corpus returned by [calculateRequiredCorpus] is a whole number
    of lakhs. The search starts from three times the undiscounted total of
    the withdrawals, which it never tests: when that amount lasts through
    the plan, so does the corpus returned; when it does not, the answer is
    that amount rounded up, whether or not it lasts. *)
Theorem required_corpus_lasts (w years r infl : Q) (adj : bool) :
  0 <= w -> 0 <= years ->
  let lasts := fun corpus =>
    depletedAt (withdrawalCalculate corpus w years r infl adj) = None in
  let top := w * years * 12 * 3 in
  let R := calculateRequiredCorpus w years r infl adj in
  (exists k : Z, R == inject_Z k * 100000) /\
  (lasts top -> lasts R) /\
  (~ lasts top -> R == inject_Z (Qceiling (top / 100000)) * 100000).
Proof.
  intros Hw Hy lasts top R.
  unfold calculateRequiredCorpus in R.
  set (low := (w * years * 12)%js) in R.
  set (f := fun mid : num =>
              match depletedAt (withdrawalCalculate mid w years r infl adj)
              with None => true | Some _ => false end) in R.
  assert (Hf : forall x, f x = true <-> lasts x).
  { intros x. unfold f, lasts.
    destruct (depletedAt _); split; intros; congruence. }
  assert (Hlow : low == w * years * 12)
    by (unfold low; now rewrite !JSFacts.mul_eq).
  assert (H0 : 0 <= w * years) by (apply Qmult_le_0_compat; assumption).
  assert (Htop : (low * 3)%js == top)
    by (unfold top; now rewrite JSFacts.mul_eq, Hlow).
  destruct (corpusSearch_facts f 100) with (low := low)
                                           (high := (low * 3)%js)
    as (_ & _ & S3 & S4).
  { intros a b Hab Ha. apply Hf. apply Hf in Ha.
    eapply lasts_monotone; eassumption. }
  { rewrite JSFacts.mul_eq. lra. }
  set (h := corpusSearch f 100 low (low * 3)%js) in *.
  assert (HR : R == inject_Z (Qceiling (h / 100000)) * 100000).
  { unfold R, Math_ceil, ofZ. rewrite JSFacts.mul_eq.
    now rewrite (Qceiling_comp _ _ (JSFacts.div_eq h 100000)). }
  assert (Htopl : lasts top <-> f (low * 3)%js = true).
  { rewrite Hf. unfold lasts.
    split; intros H; (eapply lasts_monotone; [|exact H]); rewrite Htop;
      lra. }
  split; [eexists; exact HR|]. split.
  - intros Ht. apply Htopl in Ht. specialize (S3 Ht). apply Hf in S3.
    unfold lasts in *. eapply lasts_monotone; [|exact S3].
    rewrite HR. pose proof (Qle_ceiling (h / 100000)) as Hc.
    assert (Hx : forall x : Q, x == x / 100000 * 100000)
      by (intros; field).
    rewrite (Hx h) at 1.
    apply Qmult_le_compat_r; [exact Hc | lra].
  - intros Ht.
    assert (Hh : h = (low * 3)%js).
    { apply S4. destruct (f (low * 3)%js) eqn:E; [|reflexivity].
      exfalso. apply Ht, Htopl. reflexivity. }
    rewrite HR, Hh.
    assert (E : Qceiling ((low * 3)%js / 100000)
                = Qceiling (top / 100000))
      by (apply Qceiling_comp; now rewrite Htop).
    now rewrite E.
Qed.

Lemma required_corpus_lasts_witness :
  0 <= 10000 /\ 0 <= 1 /\
  depletedAt (withdrawalCalculate (10000 * 1 * 12 * 3) 10000 1 0 0 false)
  = None /\
  depletedAt
    (withdrawalCalculate (calculateRequiredCorpus 10000 1 0 0 false)
                         10000 1 0 0 false) = None.
Proof.
  assert (H1 : 0 <= 10000) by (vm_compute; discriminate).
  assert (H2 : 0 <= 1) by (vm_compute; discriminate).
  assert (H3 : depletedAt
                 (withdrawalCalculate (10000 * 1 * 12 * 3) 10000 1 0 0 false)
               = None) by reflexivity.
  split; [exact H1|]. split; [exact H2|]. split; [exact H3|].
  exact (proj1 (proj2 (required_corpus_lasts 10000 1 0 0 false H1 H2)) H3).
Defined.
End WithdrawalPlanFacts.

(** ** Comparing scenarios *)
Module ScenarioFacts.
Import JS DataModels Scenarios.

(** The two ways in which a comparison changes. *)
Inductive Op :=
| Add (scenario : LoanScenario)
| Remove (scenarioId : string).

Definition apply (sc : ScenarioComparison) (op : Op) : ScenarioComparison :=
  match op with
  | Add scenario => addScenario sc scenario
  | Remove scenarioId => removeScenario sc scenarioId
  end.

(** A comparison after a sequence of additions and removals. *)
Definition after (ops : list Op) : ScenarioComparison :=
  fold_left apply ops newScenarioComparison.

Definition baseListed (sc : ScenarioComparison) : Prop :=
  scenarios sc = [] \/
  exists s, In s (scenarios sc) /\ baseScenarioId sc = Some (id s).

Lemma addScenario_baseListed sc s :
  baseListed sc -> baseListed (addScenario sc s).
Proof.
  intros H. right. unfold addScenario. cbn [scenarios baseScenarioId].
  destruct H as [H|(s0 & Hin & Hb)].
  - rewrite H. cbn [app List.length Nat.eqb]. exists s. split;
      [now left | reflexivity].
  - rewrite length_app. cbn [List.length].
    destruct (scenarios sc) as [|x l] eqn:E; [contradiction|].
    cbn [List.length]. replace (S (List.length l) + 1 =? 1)%nat with false
      by (symmetry; apply Nat.eqb_neq; lia).
    exists s0. split; [apply in_or_app; now left | exact Hb].
Qed.

Lemma removeScenario_baseListed sc i :
  baseListed sc -> baseListed (removeScenario sc i).
Proof.
  intros H. unfold baseListed, removeScenario.
  cbn [scenarios baseScenarioId].
  set (keep := fun s => negb (String.eqb (id s) i)).
  destruct (filter keep (scenarios sc)) as [|first rest] eqn:E;
    [now left|]. right.
  destruct H as [H|(s0 & Hin & Hb)].
  - rewrite H in E. discriminate.
  - rewrite Hb. destruct (String.eqb (id s0) i) eqn:Ei.
    + exists first. split; [now left | reflexivity].
    + exists s0. split; [|reflexivity].
      rewrite <- E. apply filter_In. split; [exact Hin|].
      unfold keep. now rewrite Ei.
Qed.

Lemma after_baseListed (ops : list Op) :
  forall sc, baseListed sc -> baseListed (fold_left apply ops sc).
Proof.
  induction ops as [|op ops IH]; intros sc H; [exact H|].
  cbn [fold_left]. apply IH. destruct op.
  - now apply addScenario_baseListed.
  - now apply removeScenario_baseListed.
Qed.

(** X29.  Whatever is added and removed, a comparison that holds scenarios
    has one of them as its base. An emptied comparison keeps the id of a
    scenario that is gone: after the only scenario is removed its id is
    still the base, and the comparison shows no metrics. *)
Theorem base_scenario_is_listed (ops : list Op) :
  (scenarios (after ops) <> [] ->
   exists s, In s (scenarios (after ops)) /\
             baseScenarioId (after ops) = Some (id s)) /\
  (forall s,
     let sc := removeScenario (addScenario newScenarioComparison s) (id s) in
     scenarios sc = [] /\ baseScenarioId sc = Some (id s) /\
     getComparativeMetrics sc = []).
Proof.
  split.
  - intros Hne.
    destruct (after_baseListed ops newScenarioComparison) as [H|H];
      [now left | contradiction | exact H].
  - intros s. cbv zeta. unfold removeScenario, addScenario.
    cbn [scenarios baseScenarioId newScenarioComparison app List.length
         Nat.eqb filter].
    rewrite String.eqb_refl. cbn [negb].
    split; [reflexivity|]. split; [reflexivity|].
    unfold getComparativeMetrics, getScenarioById.
    cbn [scenarios baseScenarioId find]. reflexivity.
Qed.

(** Two stored scenarios: 12 months with 6618 of interest, and 10
    months with 5520. *)
Definition stored (i : string) (months : Z) (interest : num)
  : LoanScenario :=
  {| id := i; s_name := i; s_config := newLoanConfiguration;
     results :=
       Some {| LoanCalculator.months := months;
               LoanCalculator.totalInterest := interest;
               LoanCalculator.totalPrincipal := 100000;
               LoanCalculator.totalPayment := (100000 + interest)%js;
               LoanCalculator.interestSaved := 0;
               LoanCalculator.tenureReduced := 0;
               LoanCalculator.originalEMI := 8885;
               LoanCalculator.finalEMI := 8885;
               LoanCalculator.originalMonths := 12;
               LoanCalculator.originalTotalInterest := 6618;
               LoanCalculator.schedule := [];
               LoanCalculator.averageRate := 12 |};
     createdAt := 0 |}.

Definition twoScenarios : list Op :=
  [Add (stored "plain" 12 6618); Add (stored "prepaid" 10 5520);
   Remove "plain"].

Lemma base_scenario_is_listed_witness :
  scenarios (after twoScenarios) <> [] /\
  exists s, In s (scenarios (after twoScenarios)) /\
            baseScenarioId (after twoScenarios) = Some (id s).
Proof.
  assert (H : scenarios (after twoScenarios) <> [])
    by (vm_compute; discriminate).
  split; [exact H|].
  exact (proj1 (base_scenario_is_listed twoScenarios) H).
Defined.

(** *** The metrics *)

Lemma unique_id (l : list LoanScenario) (a b : LoanScenario) :
  NoDup (map id l) -> In a l -> In b l -> id a = id b -> a = b.
Proof.
  induction l as [|x l IH]; cbn [map]; intros Hnd Ha Hb E;
    [contradiction|].
  inversion Hnd as [|? ? Hx Hl]; subst.
  destruct Ha as [<-|Ha], Hb as [<-|Hb].
  - reflexivity.
  - exfalso. apply Hx. rewrite E. now apply in_map.
  - exfalso. apply Hx. rewrite <- E. now apply in_map.
  - now apply IH.
Qed.

(** With ids that are all different, the row of the base scenario shows
    no interest saved and no tenure gained against itself, and no other row
    is marked as the base. *)
Theorem base_row_saves_nothing (sc : ScenarioComparison) (row : Metrics) :
  NoDup (map id (scenarios sc)) ->
  In row (getComparativeMetrics sc) -> isBase row = true ->
  baseScenarioId sc = Some (m_id row) /\
  interestSavedVsBase row == 0 /\ tenureReducedVsBase row = 0%Z.
Proof.
  intros Hnd Hin Hbase. unfold getComparativeMetrics in Hin.
  destruct (getScenarioById sc (baseScenarioId sc)) as [b|] eqn:Eb;
    [|contradiction].
  destruct (results b) as [br|] eqn:Er; [|contradiction].
  apply in_flat_map in Hin. destruct Hin as (s & Hs & Hrow).
  destruct (results s) as [r|] eqn:Ers; [|contradiction].
  destruct Hrow as [<-|[]]. cbn [isBase m_id interestSavedVsBase
                                 tenureReducedVsBase] in *.
  unfold getScenarioById in Eb.
  destruct (baseScenarioId sc) as [base|]; [|discriminate].
  apply String.eqb_eq in Hbase.
  apply find_some in Eb. destruct Eb as [Hb Eid].
  apply String.eqb_eq in Eid.
  assert (E : s = b)
    by (apply (unique_id (scenarios sc)); auto; congruence).
  subst s. rewrite Er in Ers. injection Ers as <-.
  split; [now rewrite Hbase|]. split; [|lia].
  rewrite JSFacts.sub_eq. apply Qplus_opp_r.
Qed.

Lemma base_row_saves_nothing_witness :
  let sc := after [Add (stored "plain" 12 6618);
                   Add (stored "prepaid" 10 5520)] in
  exists row,
    NoDup (map id (scenarios sc)) /\
    In row (getComparativeMetrics sc) /\ isBase row = true /\
    interestSavedVsBase row == 0 /\ tenureReducedVsBase row = 0%Z.
Proof.
  cbv zeta.
  set (sc := after [Add (stored "plain" 12 6618);
                    Add (stored "prepaid" 10 5520)]).
  assert (Hnd : NoDup (map id (scenarios sc))).
  { unfold sc. vm_compute. repeat constructor.
    - intros [H|[]]. discriminate H.
    - intros []. }
  destruct (getComparativeMetrics sc) as [|row rest] eqn:E;
    [vm_compute in E; discriminate E|].
  assert (Hb : isBase row = true).
  { pose proof E as E'. vm_compute in E'. injection E' as <- _.
    reflexivity. }
  assert (Hin : In row (getComparativeMetrics sc))
    by (rewrite E; now left).
  exists row. split; [exact Hnd|]. split; [now left|].
  split; [exact Hb|].
  exact (proj2 (base_row_saves_nothing sc row Hnd Hin Hb)).
Defined.
End ScenarioFacts.

(** ** v2: the balance at a month ([getBalanceAtMonth]) against the ledger *)
Module BalanceLookupFacts.
Import JS DataModels Validation Formatters LoanCalculatorV2 BalanceLookupV2.

(** The balance that the end of either loop body leaves depends on the
    value of the principal paid, not on how it is written. *)
Lemma balance_left_compat (b x y : num) :
  x == y ->
  (b - (if (x >? b)%js then b else x))%js
  = (b - (if (y >? b)%js then b else y))%js /\
  forall t,
    (t + (if (x >? b)%js then b else x))%js
    = (t + (if (y >? b)%js then b else y))%js.
Proof.
  intros H.
  assert (Hp : (if (x >? b)%js then b else x)
               == (if (y >? b)%js then b else y)).
  { destruct (x >? b)%js eqn:E1; js_test E1;
      destruct (y >? b)%js eqn:E2; js_test E2; lra. }
  split; [|intros t]; apply Qred_complete; rewrite Hp; reflexivity.
Qed.

(** The balance that a month leaves, as the end of the loop body computes
    it from the principal paid. *)
Lemma balance_left (b p : num) :
  let paid := if (p >? b)%js then b else p in
  let left := (b - paid)%js in
  0 <= b ->
  (b <= p -> (if (left <? 0)%js then 0 else left) == 0) /\
  (p <= b -> (if (left <? 0)%js then 0 else left) == b - p) /\
  (p <= b -> paid == p).
Proof.
  cbv zeta. intros Hb.
  destruct (p >? b)%js eqn:E; js_test E;
    match goal with
    | |- context [(?x <? 0)%js] => destruct (x <? 0)%js eqn:F; js_test F
    end; rewrite JSFacts.sub_eq in *;
    repeat split; intros; try lra.
Qed.

Section WithLog.
Variable Math_log : num -> num.
Variable calc : Calculator.

(** The loop runs no body once the balance is at most 0.01. *)
Lemma loop_stops fuel m st :
  l_balance st <= 1 # 100 -> lookupLoop Math_log calc fuel m st = Some st.
Proof.
  intros H. apply JSFacts.gt_false in H.
  destruct fuel; simpl; [reflexivity|]. now rewrite H.
Qed.

(** A lookup over [a + b] months is one over [a] months continued for
    [b] more. *)
Lemma loop_split a : forall b m st,
  lookupLoop Math_log calc (a + b) m st =
  match lookupLoop Math_log calc a m st with
  | Some st' => lookupLoop Math_log calc b (m + Z.of_nat a) st'
  | None => None
  end.
Proof.
  induction a as [|a IH]; intros b m st.
  - simpl. now rewrite Z.add_0_r.
  - change (S a + b)%nat with (S (a + b)). cbn [lookupLoop].
    destruct (_ >? _)%js eqn:E.
    + destruct (lookupBody Math_log calc m st) as [st'|]; [|reflexivity].
      rewrite IH. replace (m + 1 + Z.of_nat a)%Z with (m + Z.of_nat (S a))%Z
        by lia. reflexivity.
    + js_test E. symmetry. now apply loop_stops.
Qed.

(** The lookup for one more month. *)
Lemma loop_one_more (k : nat) (l0 lk : Locals) :
  lookupLoop Math_log calc k 1 l0 = Some lk ->
  lookupLoop Math_log calc (S k) 1 l0 =
  if (l_balance lk >? 1 # 100)%js
  then lookupBody Math_log calc (1 + Z.of_nat k) lk
  else Some lk.
Proof.
  intros H. replace (S k) with (k + 1)%nat by lia.
  rewrite loop_split, H. cbn [lookupLoop].
  destruct (_ >? _)%js; [|reflexivity].
  now destruct (lookupBody _ _ _ _).
Qed.

(** The locals of the lookup hold what [calculate()] holds in its own
    variables and in [this.currentEMI]. *)
Definition inStep (st : State) (l : Locals) : Prop :=
  balance st = l_balance l /\ currentEMI st = l_emi l /\
  totalInterestPaid st = l_totalInterest l /\
  totalPrincipalPaid st = l_totalPrincipal l.

Lemma step_in_step st l st' :
  LoanFacts.reduceTenureOnly (config calc) ->
  inStep st l ->
  body Math_log (config calc) st = Some st' ->
  exists l',
    lookupBody Math_log calc (month st + 1) l = Some l' /\
    inStep st' l' /\ month st' = (month st + 1)%Z /\
    exists row,
      amortizationSchedule st' = amortizationSchedule st ++ [row] /\
      row_month row = (month st + 1)%Z /\
      row_balance row = roundCurrency (l_balance l').
Proof.
  intros Hrt (Hb & He & Hi & Hp).
  unfold body, applyPrepayment, lookupBody.
  unfold _getPrepaymentForMonth.
  rewrite (LoanFacts.resolved_reduce_tenure _ (month st + 1) Hrt).
  rewrite <- Hb, <- He, <- Hi, <- Hp. cbv zeta.
  set (interest := (balance st * _)%js).
  set (amt := LoanCalculator.amount _).
  set (p1 := scheduledPrincipal (currentEMI st) interest (balance st)).
  change (if (Math_min (currentEMI st - interest)%js (balance st) <? 0)%js
          then 0
          else Math_min (currentEMI st - interest)%js (balance st))
    with p1.
  clearbody p1.
  set (q0 := Math_min amt (balance st - p1)%js).
  set (q1 := if (q0 <? 0)%js then 0 else q0).
  assert (Hq : amt <= 0 -> q1 <= 0).
  { intros Ha. unfold q1, q0.
    destruct (JSFacts.min_cases amt (balance st - p1)%js)
      as [[Hm ->]|[Hm ->]];
      match goal with
      | |- context [(?p <? 0)%js] => destruct (p <? 0)%js eqn:E; js_test E
      end; lra. }
  assert (Hq0 : 0 <= q1).
  { unfold q1. destruct (q0 <? 0)%js eqn:E; js_test E; lra. }
  clearbody q1. clear q0.
  assert (Hrow : forall x : num,
             roundCurrency (Math_max (if (x <? 0)%js then 0 else x) 0)
             = roundCurrency (if (x <? 0)%js then 0 else x)).
  { intros x. apply EMIFacts.roundCurrency_compat.
    destruct (x <? 0)%js eqn:E; js_test E.
    - reflexivity.
    - destruct (JSFacts.max_cases x 0) as [[H ->]|[H ->]]; lra. }
  destruct (amt >? 0)%js eqn:Ea; js_test Ea;
    destruct (q1 >? 0)%js eqn:Eq; js_test Eq;
    intros [= <-]; cbn [ap_principal ap_emi].
  - eexists. split; [reflexivity|]. unfold inStep.
    cbn [month amortizationSchedule balance currentEMI totalInterestPaid
         totalPrincipalPaid l_balance l_emi l_totalInterest
         l_totalPrincipal].
    repeat split. eexists. split; [reflexivity|].
    cbn [row_month row_balance]. split; [reflexivity|]. apply Hrow.
  - assert (H0 : (p1 + q1)%js == p1) by (rewrite JSFacts.add_eq; lra).
    destruct (balance_left_compat (balance st) _ _ H0) as [H1 H2].
    rewrite H1, (H2 (totalPrincipalPaid st)).
    eexists. split; [reflexivity|]. unfold inStep.
    cbn [month amortizationSchedule balance currentEMI totalInterestPaid
         totalPrincipalPaid l_balance l_emi l_totalInterest
         l_totalPrincipal].
    repeat split. eexists. split; [reflexivity|].
    cbn [row_month row_balance]. split; [reflexivity|]. apply Hrow.
  - specialize (Hq Ea). lra.
  - eexists. split; [reflexivity|]. unfold inStep.
    cbn [month amortizationSchedule balance currentEMI totalInterestPaid
         totalPrincipalPaid l_balance l_emi l_totalInterest
         l_totalPrincipal].
    repeat split. eexists. split; [reflexivity|].
    cbn [row_month row_balance]. split; [reflexivity|]. apply Hrow.
Qed.

(** What [calculate()] has reached after some months, the lookup reaches
    for that month, and every row pushed so far shows the balance that the
    lookup reports for the row's month. *)
Definition tracked (l0 : Locals) (st : State) : Prop :=
  (0 <= month st)%Z /\
  (exists l, lookupLoop Math_log calc (Z.to_nat (month st)) 1 l0 = Some l /\
             inStep st l) /\
  Forall (fun row =>
            (1 <= row_month row)%Z /\
            exists l, lookupLoop Math_log calc (Z.to_nat (row_month row)) 1 l0
                      = Some l /\
                      row_balance row = roundCurrency (l_balance l))
         (amortizationSchedule st).

Lemma tracked_step l0 st st' :
  LoanFacts.reduceTenureOnly (config calc) ->
  tracked l0 st -> (balance st >? 1 # 100)%js = true ->
  body Math_log (config calc) st = Some st' -> tracked l0 st'.
Proof.
  intros Hrt (Hm & (l & Hl & Hin) & Hrows) Hc Hb.
  destruct (step_in_step st l st' Hrt Hin Hb)
    as (l' & Hl' & Hin' & Hmonth & row & Hsched & Hrm & Hrb).
  assert (Hnext : lookupLoop Math_log calc (Z.to_nat (month st')) 1 l0
                  = Some l').
  { rewrite Hmonth.
    replace (Z.to_nat (month st + 1)) with (S (Z.to_nat (month st))) by lia.
    rewrite (loop_one_more _ _ _ Hl).
    destruct Hin as (Hbal & _). rewrite <- Hbal, Hc.
    replace (1 + Z.of_nat (Z.to_nat (month st)))%Z with (month st + 1)%Z
      by lia.
    exact Hl'. }
  split; [lia|]. split; [now exists l'|].
  rewrite Hsched. apply Forall_app. split; [exact Hrows|].
  constructor; [|constructor]. split; [lia|].
  exists l'. rewrite Hrm, <- Hmonth. now split.
Qed.

(** X17.  Without REDUCE_EMI the lookup agrees with [calculate()], whatever
    [this.currentEMI] holds: for every row of the ledger,
    [getBalanceAtMonth] of the row's month reports the row's balance, and
    for the last month it reports the totals of the result. *)
Theorem lookup_matches_ledger (res : Result) :
  LoanFacts.reduceTenureOnly (config calc) ->
  calculate Math_log (config calc) = Ok res ->
  (forall row, In row (schedule res) ->
     exists found,
       getBalanceAtMonth Math_log calc (row_month row) = Ok found /\
       ba_balance found = row_balance row) /\
  ((1 <= months res)%Z ->
     exists found,
       getBalanceAtMonth Math_log calc (months res) = Ok found /\
       ba_totalInterestPaid found = totalInterest res /\
       ba_totalPrincipalPaid found = totalPrincipal res).
Proof.
  intros Hrt. unfold calculate, getBalanceAtMonth.
  destruct (validate (config calc)) as [|e es]; [|discriminate].
  set (l0 := {| l_balance := principal (config calc);
                l_emi := _calculateInitialEMI (config calc);
                l_totalInterest := 0; l_totalPrincipal := 0 |}).
  destruct (loop Math_log (config calc) _ (initialState (config calc)))
    as [fin|] eqn:Hrun; [|discriminate].
  intros [= <-]. cbn [schedule months totalInterest totalPrincipal].
  assert (H0 : tracked l0 (initialState (config calc))).
  { split; [simpl; lia|]. split; [|constructor].
    exists l0. split; [reflexivity|]. repeat split. }
  assert (Hfin :
    (0 <= month fin)%Z /\
    (exists l,
       lookupLoop Math_log calc (Z.to_nat (month fin)) 1 l0 = Some l /\
       totalInterestPaid fin = l_totalInterest l /\
       totalPrincipalPaid fin = l_totalPrincipal l) /\
    Forall (fun row =>
              (1 <= row_month row)%Z /\
              exists l,
                lookupLoop Math_log calc (Z.to_nat (row_month row)) 1 l0
                = Some l /\
                row_balance row = roundCurrency (l_balance l))
           (amortizationSchedule fin)).
  { unfold loop in Hrun.
    destruct (LoopBounds.run_invariant_exit _ _ _ _ _ (tracked l0)
                (fun s s' Hs Hc Hb => tracked_step l0 s s' Hrt Hs Hc Hb)
                _ _ _ H0 Hrun) as [H|(s' & H & _ & ->)];
      destruct H as (Hm & (l & Hl & _ & _ & Hi & Hp) & Hrows);
      (split; [exact Hm|]); (split; [|exact Hrows]);
      exists l; repeat split; assumption. }
  destruct Hfin as (Hm & (l & Hl & Hi & Hp) & Hrows).
  split.
  - intros row Hin. rewrite Forall_forall in Hrows.
    destruct (Hrows row Hin) as (H1 & lr & Hlr & Hbal).
    destruct (row_month row <? 1)%Z eqn:E; [lia|].
    rewrite Hlr. eexists. split; [reflexivity|]. now rewrite Hbal.
  - intros H1. destruct (month fin <? 1)%Z eqn:E; [lia|].
    rewrite Hl. eexists. split; [reflexivity|].
    cbn [ba_totalInterestPaid ba_totalPrincipalPaid].
    now rewrite Hi, Hp.
Qed.


(** *** A calculator on which [calculate()] has not run *)
Section NewCalculator.

(** [this.currentEMI] as the constructor leaves it. *)
Hypothesis fresh : calc_currentEMI calc <= 0.

(** What [_getPrepaymentForMonth] reports for a month. *)
Definition prepaidAt (m : Z) : num :=
  LoanCalculator.amount (_getPrepaymentForMonth (config calc) m).

Definition strategyAt (m : Z) : Strategy :=
  match LoanCalculator.strategy (_getPrepaymentForMonth (config calc) m) with
  | Some s => s
  | None => defaultStrategy (config calc)
  end.

(** The locals change no more: no instalment is left, or the loan is
    repaid. *)
Definition settled (st : Locals) : Prop :=
  l_emi st == 0 \/ l_balance st <= 1 # 100.

Lemma estimate_on_fresh b rate :
  _estimateRemainingMonths Math_log (config calc) (calc_currentEMI calc)
                           b rate = Some 0%Z.
Proof.
  unfold _estimateRemainingMonths.
  apply JSFacts.le_true in fresh. rewrite fresh.
  now rewrite Bool.orb_true_r.
Qed.

Lemma emi_over_no_months p rate : _emi p rate 0 = 0.
Proof. unfold _emi. destruct (p <=? 0)%js; reflexivity. Qed.

Lemma body_defined m st : exists st', lookupBody Math_log calc m st = Some st'.
Proof.
  unfold lookupBody.
  destruct (_ >? 0)%js; [|eauto].
  destruct (match LoanCalculator.strategy _ with
            | Some s => s | None => _ end); [eauto|].
  destruct (_ >? _)%js; [|eauto].
  rewrite estimate_on_fresh. eauto.
Qed.

Lemma loop_defined fuel : forall m st,
  exists st', lookupLoop Math_log calc fuel m st = Some st'.
Proof.
  induction fuel as [|fuel IH]; intros m st; simpl; [eauto|].
  destruct (_ >? _)%js; [|eauto].
  destruct (body_defined m st) as [st' ->]. apply IH.
Qed.

(** A month with a prepayment under REDUCE_EMI: the instalment is
    re-computed over the 0 months that [_estimateRemainingMonths] answers
    for [this.currentEMI <= 0]. *)
Lemma reduce_emi_settles m st st' :
  1 # 100 < l_balance st ->
  0 < prepaidAt m -> strategyAt m = REDUCE_EMI ->
  lookupBody Math_log calc m st = Some st' -> settled st'.
Proof.
  unfold prepaidAt, strategyAt, lookupBody, settled.
  intros Hb Ha ->. cbv zeta.
  set (interest := (l_balance st * _)%js).
  set (amt := LoanCalculator.amount _) in *.
  set (p0 := Math_min (l_emi st - interest)%js (l_balance st)).
  set (p1 := if (p0 <? 0)%js then 0 else p0).
  assert (Hp1 : 0 <= p1 /\ p1 <= l_balance st).
  { unfold p1, p0.
    destruct (JSFacts.min_cases (l_emi st - interest)%js (l_balance st))
      as [[Hm ->]|[Hm ->]];
      match goal with
      | |- context [(?p <? 0)%js] => destruct (p <? 0)%js eqn:E; js_test E
      end; lra. }
  clearbody p1. clear p0.
  set (q0 := Math_min amt (l_balance st - p1)%js).
  set (q1 := if (q0 <? 0)%js then 0 else q0).
  assert (Hq1 : 0 <= q1 /\ (q1 <= 0 -> l_balance st <= p1)).
  { unfold q1, q0.
    destruct (JSFacts.min_cases amt (l_balance st - p1)%js)
      as [[Hm ->]|[Hm ->]];
      match goal with
      | |- context [(?p <? 0)%js] => destruct (p <? 0)%js eqn:E; js_test E
      end; try rewrite JSFacts.sub_eq in *; split; try lra; intros; lra. }
  clearbody q1. clear q0.
  assert (Hb0 : 0 <= l_balance st) by lra.
  destruct (q1 >? 0)%js eqn:Eq; js_test Eq.
  - destruct (_ >? 1 # 100)%js eqn:El; js_test El.
    + rewrite estimate_on_fresh. intros [= <-]. cbn [l_emi].
      left. now rewrite emi_over_no_months.
    + intros [= <-]. cbn [l_balance]. right.
      rewrite JSFacts.sub_eq in El.
      destruct (balance_left (l_balance st) (p1 + q1)%js Hb0)
        as (Hge & Hle & _).
      destruct (Qlt_le_dec (l_balance st) (p1 + q1)%js) as [H|H].
      * rewrite Hge; lra.
      * rewrite Hle; lra.
  - intros [= <-]. cbn [l_balance]. right.
    destruct (balance_left (l_balance st) p1 Hb0) as (Hge & _ & _).
    rewrite Hge; [lra|]. apply Hq1. lra.
Qed.

(** A month without prepayment for locals whose instalment is 0: at a rate
    that is not negative nothing is paid off. *)
Lemma idle_month m st st' :
  0 <= getInterestRateForMonth (config calc) m ->
  prepaidAt m <= 0 -> l_emi st == 0 -> 0 <= l_balance st ->
  lookupBody Math_log calc m st = Some st' ->
  l_balance st' == l_balance st /\ l_emi st' == 0 /\
  l_totalPrincipal st' == l_totalPrincipal st.
Proof.
  unfold prepaidAt, lookupBody.
  intros Hr Ha He Hb0. cbv zeta.
  set (interest := (l_balance st * _)%js).
  assert (Hi : 0 <= interest).
  { unfold interest. rewrite JSFacts.mul_eq, JSFacts.monthly_rate_eq.
    apply Qmult_le_0_compat; lra. }
  clearbody interest.
  set (amt := LoanCalculator.amount _) in *.
  set (p0 := Math_min (l_emi st - interest)%js (l_balance st)).
  set (p1 := if (p0 <? 0)%js then 0 else p0).
  assert (Hp1 : p1 == 0).
  { unfold p1, p0.
    destruct (JSFacts.min_cases (l_emi st - interest)%js (l_balance st))
      as [[Hm ->]|[Hm ->]];
      match goal with
      | |- context [(?p <? 0)%js] => destruct (p <? 0)%js eqn:E; js_test E
      end; try rewrite JSFacts.sub_eq in *; lra. }
  clearbody p1. clear p0.
  set (q0 := Math_min amt (l_balance st - p1)%js).
  set (q1 := if (q0 <? 0)%js then 0 else q0).
  assert (Hq1 : q1 <= 0).
  { unfold q1, q0.
    destruct (JSFacts.min_cases amt (l_balance st - p1)%js)
      as [[Hm ->]|[Hm ->]];
      match goal with
      | |- context [(?p <? 0)%js] => destruct (p <? 0)%js eqn:E; js_test E
      end; try rewrite JSFacts.sub_eq in *; lra. }
  clearbody q1. clear q0.
  apply JSFacts.gt_false in Hq1. rewrite Hq1.
  intros [= <-]. cbn [l_balance l_emi l_totalPrincipal].
  destruct (balance_left (l_balance st) p1 Hb0) as (_ & Hle & Hpaid).
  rewrite Hle by lra. rewrite JSFacts.add_eq, Hpaid by lra.
  repeat split; lra.
Qed.

(** Settled locals stay as they are over any further months without
    prepayment. *)
Lemma loop_idle fuel : forall m st,
  LoanFacts.ratesNonneg (config calc) ->
  (forall m', (m <= m')%Z -> prepaidAt m' <= 0) ->
  settled st ->
  exists st', lookupLoop Math_log calc fuel m st = Some st' /\
    l_balance st' == l_balance st /\
    l_totalPrincipal st' == l_totalPrincipal st.
Proof.
  induction fuel as [|fuel IH]; intros m st Hr Hno Hs.
  - exists st. simpl. repeat split; reflexivity.
  - cbn [lookupLoop].
    destruct (_ >? _)%js eqn:E; js_test E.
    + destruct Hs as [He|Hs]; [|lra].
      destruct (body_defined m st) as [st1 H1]. rewrite H1.
      destruct (idle_month m st st1) as (Hb & He1 & Hp); auto.
      { now apply LoanFacts.rate_nonneg. }
      { apply Hno. lia. }
      { lra. }
      destruct (IH (m + 1)%Z st1 Hr) as (st2 & H2 & Hb2 & Hp2).
      { intros m' Hm'. apply Hno. lia. }
      { now left. }
      exists st2. split; [exact H2|]. split.
      * now rewrite Hb2.
      * now rewrite Hp2.
    + exists st. repeat split; reflexivity.
Qed.

(** The locals after month [k] of a run that has a REDUCE_EMI prepayment
    in month [k]. *)
Lemma settled_after k st0 stk :
  (1 <= k)%Z -> 0 < prepaidAt k -> strategyAt k = REDUCE_EMI ->
  lookupLoop Math_log calc (Z.to_nat k) 1 st0 = Some stk -> settled stk.
Proof.
  intros Hk Ha Hs.
  replace (Z.to_nat k) with (Z.to_nat (k - 1) + 1)%nat by lia.
  rewrite loop_split.
  destruct (lookupLoop Math_log calc (Z.to_nat (k - 1)) 1 st0)
    as [st1|]; [|discriminate].
  replace (1 + Z.of_nat (Z.to_nat (k - 1)))%Z with k by lia.
  cbn [lookupLoop].
  destruct (_ >? _)%js eqn:E; js_test E.
  - destruct (lookupBody Math_log calc k st1) as [st2|] eqn:E2;
      [|discriminate].
    intros [= <-]. exact (reduce_emi_settles k st1 st2 E Ha Hs E2).
  - intros [= <-]. now right.
Qed.

(** X30.  On a calculator whose [currentEMI] is still 0, a prepayment under
    REDUCE_EMI in month [k] ends the repayment in the lookup: with rates
    that are not negative and no prepayment after month [k], every later
    month reports the balance and the principal paid of month [k]. *)
Theorem lookup_frozen_after_reduce_emi (k n : Z) :
  validate (config calc) = [] ->
  LoanFacts.ratesNonneg (config calc) ->
  (1 <= k <= n)%Z ->
  0 < prepaidAt k -> strategyAt k = REDUCE_EMI ->
  (forall m, (k < m)%Z -> prepaidAt m <= 0) ->
  exists at_k at_n,
    getBalanceAtMonth Math_log calc k = Ok at_k /\
    getBalanceAtMonth Math_log calc n = Ok at_n /\
    ba_balance at_n = ba_balance at_k /\
    ba_totalPrincipalPaid at_n = ba_totalPrincipalPaid at_k.
Proof.
  intros Hv Hr Hkn Ha Hs Hno. unfold getBalanceAtMonth. rewrite Hv.
  destruct (k <? 1)%Z eqn:Ek; [lia|].
  destruct (n <? 1)%Z eqn:En; [lia|].
  set (st0 := {| l_balance := principal (config calc);
                 l_emi := _calculateInitialEMI (config calc);
                 l_totalInterest := 0; l_totalPrincipal := 0 |}).
  replace (Z.to_nat n) with (Z.to_nat k + Z.to_nat (n - k))%nat by lia.
  rewrite loop_split.
  destruct (loop_defined (Z.to_nat k) 1 st0) as [stk Hk]. rewrite Hk.
  pose proof (settled_after k st0 stk (proj1 Hkn) Ha Hs Hk) as Hset.
  destruct (loop_idle (Z.to_nat (n - k)) (1 + Z.of_nat (Z.to_nat k)) stk Hr)
    as (stn & Hn & Hb & Hp); [|exact Hset|].
  { intros m' Hm'. apply Hno. lia. }
  rewrite Hn. do 2 eexists. split; [reflexivity|]. split; [reflexivity|].
  cbn [ba_balance ba_totalPrincipalPaid]. split.
  - now apply EMIFacts.roundCurrency_compat.
  - now apply EMIFacts.roundCurrency_compat.
Qed.

End NewCalculator.
End WithLog.

(** 1200 over 12 months at 12 %, with 50 prepaid every month. *)
Definition payDownConfig : LoanConfiguration :=
  addMonthlyPrepayment
    (addRatePeriod (LoanProperties.loan 1200 12 REDUCE_TENURE) 1 12 None)
    50 1 None None.

Lemma lookup_matches_ledger_witness :
  LoanFacts.reduceTenureOnly payDownConfig /\
  forall Math_log,
  exists res,
    calculate Math_log payDownConfig = Ok res /\
    months res = 9%Z /\
    (forall row, In row (schedule res) ->
       exists found,
         getBalanceAtMonth Math_log (newCalculator payDownConfig)
                           (row_month row) = Ok found /\
         ba_balance found = row_balance row) /\
    ((1 <= months res)%Z ->
       exists found,
         getBalanceAtMonth Math_log (newCalculator payDownConfig)
                           (months res) = Ok found /\
         ba_totalInterestPaid found = totalInterest res /\
         ba_totalPrincipalPaid found = totalPrincipal res).
Proof.
  assert (Ht : LoanFacts.reduceTenureOnly payDownConfig).
  { repeat split; repeat constructor; discriminate. }
  split; [exact Ht|]. intros log.
  assert (E : exists res, calculate log payDownConfig = Ok res /\
                          months res = 9%Z).
  { eexists. split; [vm_compute; reflexivity|reflexivity]. }
  destruct E as (res & E & Hm).
  exists res. split; [exact E|]. split; [exact Hm|].
  exact (lookup_matches_ledger log (newCalculator payDownConfig) res Ht E).
Defined.

(** 1200 over 12 months at 0 %, with 100 prepaid in month 2 under
    REDUCE_EMI: [calculate()] repays the loan in 11 months, the lookup on a
    new calculator still reports 900 in month 12. *)
Definition lumpSumConfig : LoanConfiguration :=
  addOneTimePrepayment
    (addRatePeriod (LoanProperties.loan 1200 12 REDUCE_TENURE) 1 0 None)
    100 2 (Some REDUCE_EMI).

Lemma lookup_frozen_after_reduce_emi_witness :
  validate lumpSumConfig = [] /\
  LoanFacts.ratesNonneg lumpSumConfig /\
  0 < prepaidAt (newCalculator lumpSumConfig) 2 /\
  strategyAt (newCalculator lumpSumConfig) 2 = REDUCE_EMI /\
  forall Math_log,
    (exists at_k at_n,
       getBalanceAtMonth Math_log (newCalculator lumpSumConfig) 2
       = Ok at_k /\
       getBalanceAtMonth Math_log (newCalculator lumpSumConfig) 12
       = Ok at_n /\
       ba_balance at_n = ba_balance at_k /\
       ba_totalPrincipalPaid at_n = ba_totalPrincipalPaid at_k) /\
    getBalanceAtMonth Math_log (newCalculator lumpSumConfig) 12
    = Ok {| ba_month := 12; ba_balance := 900;
            ba_totalInterestPaid := 0; ba_totalPrincipalPaid := 300 |} /\
    exists res,
      LoanCalculatorV2.calculate Math_log lumpSumConfig = Ok res /\
      LoanCalculatorV2.months res = 11%Z.
Proof.
  assert (Hr : LoanFacts.ratesNonneg lumpSumConfig).
  { unfold LoanFacts.ratesNonneg. simpl. repeat constructor; simpl; lra. }
  assert (Hf : calc_currentEMI (newCalculator lumpSumConfig) <= 0).
  { simpl. lra. }
  assert (Ha : 0 < prepaidAt (newCalculator lumpSumConfig) 2).
  { vm_compute. reflexivity. }
  assert (Hno : forall m, (2 < m)%Z ->
                          prepaidAt (newCalculator lumpSumConfig) m <= 0).
  { intros m Hm. unfold prepaidAt, _getPrepaymentForMonth,
      LoanCalculator.getPrepaymentForMonth, LoanCalculator.collectPrepayments.
    cbn. unfold ot_isActiveForMonth. cbn.
    destruct (m =? 2)%Z eqn:E; [lia|]. cbn. lra. }
  split; [reflexivity|]. split; [exact Hr|]. split; [exact Ha|].
  split; [reflexivity|].
  intros log. split.
  - exact (lookup_frozen_after_reduce_emi log (newCalculator lumpSumConfig)
             Hf 2 12 eq_refl Hr ltac:(lia) Ha eq_refl Hno).
  - split; [vm_compute; reflexivity|].
    eexists. split; [vm_compute; reflexivity|reflexivity].
Defined.
End BalanceLookupFacts.
